(* ===== verification/_CoqProject ===== *)
-Q . S2P
Prelude.v
Queue.v
Contract.v
Lease.v
Memory.v
MemoryFacts.v
MemoryRun.v
MemoryProps.v
MemoryLease.v
Client.v
ClientProps.v
Worker.v
WorkerFacts.v
WorkerProps.v
System.v
SystemFacts.v
SystemOnce.v
SystemProps.v
WorkerSystem.v
Cut.v
MemoryCut.v
Conformance.v
Ordering.v
ConformanceProps.v
OrderingMemory.v
Routing.v
Postgres.v
PostgresFacts.v
PostgresGate.v
PostgresProps.v
PostgresReap.v
PostgresLease.v
PostgresCut.v
OrderingPostgres.v
Valkey.v
ValkeyFacts.v
ValkeyContract.v
ValkeyProps.v
OrderingValkey.v
ValkeyLive.v
ValkeyCut.v
PostgresLetters.v
ValkeyLetters.v
GoText.v
GoFloat.v
Schema.v
Config.v
Loadgen.v
LoadgenProps.v
Chaos.v
Harness.v
HarnessProps.v
ValkeyHarness.v
Cmd.v
CmdRun.v
Boxes.v
