(* ===== verification/Prelude.v ===== *)
(** A verification of the work-unit queue (Go; packages under internal/ and cmd/plq).

    The program.  Producers enqueue tasks into work units (workspace, session, peer).  A
    unit becomes claimable when the cost of its pending tasks reaches a threshold, or when
    its oldest task has waited long enough.  A worker claims a unit under a lease, drains
    tasks in order, processes them, acknowledges them (which deletes them), and keeps the
    unit or gives it up; a reaper takes back expired leases and flushes waiting units; a
    task that keeps failing at the head of its unit goes to a dead-letter queue.  Three
    drivers implement one interface, queue.Backend: in memory (the reference), Postgres,
    and Valkey, the last two sharded by workspace.

    What is modelled, file by file (operations keep the names they have in the code):

    - Prelude.v: int64 arithmetic with its wrap-around ([i64]), lists, strings, tactics.
    - Queue.v: internal/queue/types.go, backend.go, stats.go, unimplemented.go.  Go results
      are [res] (value, error, panic); [Env] is what one call reads from outside: clock
      readings, the order of a map iteration, the uuid drawn, the fate of each round trip.
      The interface is the class [Queue.Backend].
    - Contract.v: the specification the interface documents, as classes of laws over an
      abstract view (each unit's FIFO, and which handles are accepted): [Contract], which
      all three drivers meet, and [Strict], which adds that a claim never takes a unit from
      a worker whose handle is still accepted, and that keys and costs are unrestricted.
    - Memory.v: internal/memory/backend.go, one function per method (the mutex makes a
      method one step).  MemoryFacts.v: its invariant and its instance of [Strict].
      MemoryRun.v: arbitrary histories, forged handles included.  MemoryProps.v: theorems.
    - Lease.v: any calls of the interface by anybody, and which of them spare a lease;
      MemoryLease.v, PostgresLease.v: in these drivers a spared lease lasts.
    - Client.v, ClientProps.v: arbitrary client histories over any [Contract], and the class
      [Buries] of what a driver promises of its dead letters; ClientProps.v,
      PostgresLetters.v and ValkeyLetters.v: the three drivers meet it.
    - Worker.v: internal/queue/worker.go (runOnce, Run, heartbeat, backoff, pool).
      WorkerFacts.v, WorkerProps.v: one round, the idle schedule, a failing backend.
    - System.v: producers, a pool of workers, crashes and the reaper as a transition system
      whose steps are single backend calls (worker.go; internal/loadgen: produce,
      reaperLoop, chaos).  SystemFacts.v: its invariant; SystemOnce.v: that of the runs in
      which leases last; SystemProps.v: its guarantees.  WorkerSystem.v: every run of
      Worker.v's loop is a schedule of one worker of the system.
    - Cut.v: calls cut in the middle by a context that is done: the class [Cuttable] of what
      a driver promises of them, the system with such calls ([flaky]), and a round of the
      worker in it.  MemoryCut.v, PostgresCut.v, ValkeyCut.v: the three drivers meet it, for
      Postgres whatever each round trip's fate, for Valkey when nothing is sent any more in a
      call after the first round trip that fails.
    - Conformance.v: tests/conformance/conformance.go over any backend; ConformanceProps.v,
      PostgresProps.v and ValkeyProps.v run it on the three drivers.
    - Ordering.v: tests/proofs (ordering_test.go, proofs_test.go) over any backend, at any
      size, and the class [Solo] of what a driver does with one unit and one worker at a
      time; OrderingMemory.v, OrderingPostgres.v, OrderingValkey.v: the three drivers are
      [Solo], so the crash proof passes on them; the last also has the large-batch test of
      internal/valkey/backend_test.go.
    - Routing.v: shardForWorkspace and the rotation of Claim, with FNV-1a computed.
    - Postgres.v: internal/postgres/backend.go over schema.sql: tables as maps and lists, a
      function per SQL statement, methods as programs of round trips, transactions with
      rollback.  PostgresFacts.v: statement specifications and the [Strict] instance for
      any number of shards.  PostgresGate.v: invariants under any faults, atomicity.
      PostgresProps.v, PostgresReap.v: theorems.  Schema.v: applySchema and
      stripSQLComments.
    - Valkey.v: internal/valkey/backend.go and the Lua of scripts.go: keys as maps, a
      function per script, methods as round trips.  ValkeyFacts.v: the invariant of one
      primary and what each script does to it.  ValkeyContract.v: the invariant under any
      lost messages and any handles, and the instance of [Contract].  ValkeyProps.v:
      theorems, and the runs on which this driver breaks what [Strict] or a lossless
      network would give.  ValkeyLive.v: its liveness.
    - GoText.v, GoFloat.v, Config.v: internal/config/config.go, and the string functions,
      binary64 arithmetic and printing that the program needs.
    - Loadgen.v, LoadgenProps.v: internal/loadgen (workload, producer, chaos names, metrics,
      reaper loop, sampler).  Chaos.v: chaos.go, workers that are killed, in the middle of a
      call too, and come back, in the system of Cut.v.  Harness.v: harness.go's Run, with the
      producers of producer.go and the workers of chaos.go, as the interleaving of its
      goroutines over System, each load and each update of a counter a step of its own, and
      the rows of its CSV files.  HarnessProps.v: its books, over any [Contract];
      ValkeyHarness.v: the same over the Valkey driver.
    - Cmd.v: cmd/plq (drivers, labels, reaper loop).  CmdRun.v: main.go's dispatch, loadrun
      with its row in sweep.csv, and the rate log.  Boxes.v: runWorker, runLoadgen and
      runReaper, any number of such processes over one queue, each with a backend object of
      its own: the class [Attached] splits a driver's state into the server's part and the
      object's.  Postgres (whose object is the cursor and the tenant cache) is an instance;
      Valkey is not, because each of its objects counts its tokens from zero, so that two
      processes issue equal ones and a stale handle can be accepted (a finding).

    What the theorems show. Over any backend that meets the contract, hence over the three
    drivers, and for every interleaving, crash and lease expiry: no task is lost, invented
    or reordered; only processed tasks are deleted; tasks are processed for the first time
    in order; two workers never both hold an accepted handle of a unit; a handle once
    refused stays refused; every task is acknowledged, in the dead letters or pending; the
    counters of a sweep point balance with the backlog at the moment each is loaded, and so
    do those of all the boxes of a deployment, whose printed rates add up. The worker loop
    of the code runs inside the system, so all this holds of it; a chaos worker over all its
    lives, cut in the middle of calls too, loses nothing either. In the in-memory and
    Postgres drivers a lease lasts until its holder ends it or a reaper comes after its
    expiry, whatever calls others make, and in a run in which no held lease is taken back
    every task is processed exactly once. The crash proof of tests/proofs passes on the
    three drivers for any number of tasks, any crash point and any clock that does not go
    back. For the drivers: data invariants over any history; the gate, for Postgres under
    any lost messages; the exact effect of each operation on each branch; age-fair claims;
    atomicity of the Postgres transactions; liveness of the three drivers after leases
    lapse. For Valkey: the keys of a primary stay well-formed and agree under any lost
    messages, and no unit with work is left out of every index; a stale handle changes
    nothing; the paged acknowledgement is one scan; and three runs that go wrong, by example
    (a held unit handed out, a task lost after a dropped error, a token issued again after a
    restart). For the worker: a round terminates and processes a prefix of its unit once, in
    order; the backoff. For the rest: the producer's window, the saturation verdict, the
    configuration read back and every knob's default, the results file read back under its
    header's names.

    Abstractions.  Times are integers of nanoseconds since Go's zero time and a call may
    read any times, unless a theorem bounds them.  Numbers are [Z] with int64 wrap-around
    where the code computes with them; Postgres integer and bigint overflow are errors;
    Valkey scripts use exact doubles ([num]).  A method of the in-memory driver is atomic;
    so is each call in System and Client, although a Postgres Drain is two statements and a
    Valkey Drain three commands.  FOR UPDATE SKIP LOCKED never meets a locked row, since
    calls do not overlap.  The collation, uuid syntax and float intervals of Postgres (class
    [PgService]), math/rand ([Rand]) with its floats, and the float and duration parsers
    ([GoParse]) are parameters; the random uuids are assumed new where a theorem needs it.
    Stored texts are valid in the database.  DSNs name distinct primaries.

    Bounds and fuel.  Sequence numbers and lease counters are bounded by counting calls:
    [capacity] is 2^63 - 1 for the in-memory driver, and 2^31 for Postgres, where as many
    int costs cannot overflow a bigint sum, and for Valkey, whose costs are then bounded by
    2^21 so that a unit's sum stays an exact double.  The inner loop of a round is given fuel past
    the number of pending tasks (each turn deletes one); the page loop of luaAck, past the
    length of the pending list; the loops of Run, a number of rounds, and of a chaos worker,
    a number of lives.  The crash proof's loop gets one turn past its tasks and ends in one;
    its sizes go up to 2^31 - 1.

    Limits.  System, Harness and Boxes have a network that answers and crashes between two
    calls; the calls of a worker that are cut in the middle are those of Cut.v, and what the
    counters of a sweep point miss of them is not stated.  [Worker.Run] makes the heartbeats
    of a batch before its tasks; their order does not show in the theorems, and in System a
    heartbeat comes at any moment.  Reap times are compared with lease expiries at Go's
    nanoseconds, where Postgres keeps microseconds.

    Not modelled: opening connections and their errors, log texts, signals and failing file
    operations (I/O); wall-clock timing of tickers and kills, which may come at any point;
    the wiring of goroutines and wait groups, and the table of precompiled scripts
    (scripts.go, loadScripts); the query plans and timings of tests/bench; deployment and
    plots. *)
From stdpp Require Export prelude gmap strings list sorting pretty.
From stdpp Require Export vector.
From Stdlib Require Export ZArith Lia Ascii.

(** ** The development's notation scope *)

Declare Scope plq_scope.
Delimit Scope plq_scope with plq.
Open Scope plq_scope.

(** ** Tactics *)

(** Turn boolean comparisons of the code into propositions [lia] reads. *)
Ltac b2p :=
  repeat match goal with
  | H : (_ && _) = true |- _ =>
      let H1 := fresh H in let H2 := fresh H in apply andb_true_iff in H as [H1 H2]
  | H : (_ || _) = false |- _ =>
      let H1 := fresh H in let H2 := fresh H in apply orb_false_iff in H as [H1 H2]
  | H : negb _ = true |- _ => apply negb_true_iff in H
  | H : negb _ = false |- _ => apply negb_false_iff in H
  | H : (_ <? _)%Z = true |- _ => apply Z.ltb_lt in H
  | H : (_ <? _)%Z = false |- _ => apply Z.ltb_ge in H
  | H : (_ <=? _)%Z = true |- _ => apply Z.leb_le in H
  | H : (_ <=? _)%Z = false |- _ => apply Z.leb_gt in H
  | H : (_ =? _)%Z = true |- _ => apply Z.eqb_eq in H
  | H : (_ =? _)%Z = false |- _ => apply Z.eqb_neq in H
  | H : bool_decide _ = true |- _ => apply bool_decide_eq_true in H
  | H : bool_decide _ = false |- _ => apply bool_decide_eq_false in H
  end.

(** Case split on the first condition or match the goal is stuck on. *)
Ltac case_goal :=
  match goal with
  | |- context [if ?b then _ else _] => destruct b eqn:?
  | |- context [match ?x with _ => _ end] => destruct x eqn:?
  end.

(** The same on a hypothesis. *)
Ltac case_in H :=
  match type of H with
  | context [if ?b then _ else _] => destruct b eqn:?
  | context [match ?x with _ => _ end] => destruct x eqn:?
  end.

Create HintDb plq discriminated.
Create Rewrite HintDb plq_simp.

(** ** Go's machine integers *)

(** [int64] (and [int] on the 64-bit targets the program is built for) is a [Z] kept
    in range by two's-complement wrap-around. *)
Definition int64_min : Z := - 2 ^ 63.
Definition int64_max : Z := 2 ^ 63 - 1.

Definition i64 (x : Z) : Z := ((x + 2 ^ 63) mod 2 ^ 64 - 2 ^ 63)%Z.

Definition in_i64 (x : Z) : Prop := (int64_min ≤ x ≤ int64_max)%Z.

Lemma i64_range x : in_i64 (i64 x).
Proof.
  unfold in_i64, i64, int64_min, int64_max.
  pose proof (Z.mod_pos_bound (x + 2 ^ 63) (2 ^ 64)). lia.
Qed.

Lemma i64_id x : in_i64 x → i64 x = x.
Proof.
  unfold in_i64, i64, int64_min, int64_max. intros.
  rewrite Z.mod_small; lia.
Qed.

Lemma i64_add_l a b : i64 (i64 a + b) = i64 (a + b).
Proof.
  unfold i64. f_equal.
  replace ((a + 2 ^ 63) mod 2 ^ 64 - 2 ^ 63 + b + 2 ^ 63)%Z
    with ((a + 2 ^ 63) mod 2 ^ 64 + b)%Z by lia.
  rewrite Zplus_mod_idemp_l. f_equal. lia.
Qed.

Lemma i64_add_r a b : i64 (a + i64 b) = i64 (a + b).
Proof. rewrite Z.add_comm, i64_add_l. f_equal. lia. Qed.

Lemma i64_sub_l a b : i64 (i64 a - b) = i64 (a - b).
Proof. unfold Z.sub. apply i64_add_l. Qed.

#[export] Hint Resolve i64_range : plq.
#[export] Hint Rewrite i64_add_l i64_add_r i64_sub_l : plq_simp.

(** Lengths and indices are [nat]; in integer expressions they are read as [Z]. *)
Coercion Z.of_nat : nat >-> Z.

(** Go integer division truncates towards zero: [Z.quot] and [Z.rem]. *)

(** ** Lists *)

(** [take_while p l] is the longest prefix of [l] whose elements all satisfy [p]
    (a [for] loop that advances an index while a test holds). *)
Fixpoint take_while {A} (p : A → bool) (l : list A) : list A :=
  match l with
  | [] => []
  | x :: l' => if p x then x :: take_while p l' else []
  end.

Fixpoint drop_while {A} (p : A → bool) (l : list A) : list A :=
  match l with
  | [] => []
  | x :: l' => if p x then drop_while p l' else l
  end.

Lemma take_drop_while {A} (p : A → bool) l : take_while p l ++ drop_while p l = l.
Proof. induction l as [|x l IH]; simpl; [done|]. destruct (p x); simpl; congruence. Qed.

Lemma drop_while_drop {A} (p : A → bool) l :
  drop (length (take_while p l)) l = drop_while p l.
Proof. induction l as [|x l IH]; simpl; [done|]. by destruct (p x). Qed.

Lemma take_while_take {A} (p : A → bool) l :
  take (length (take_while p l)) l = take_while p l.
Proof.
  rewrite <- (take_drop_while p l) at 2. by rewrite take_app_length.
Qed.

Lemma take_while_length {A} (p : A → bool) l : length (take_while p l) ≤ length l.
Proof. induction l as [|x l IH]; simpl; [done|]. destruct (p x); simpl; lia. Qed.

Lemma take_while_all {A} (p : A → bool) l x : x ∈ take_while p l → p x = true.
Proof.
  induction l as [|y l IH]; simpl; [by intros ?%elem_of_nil|].
  destruct (p y) eqn:?; [|by intros ?%elem_of_nil].
  intros [->|?]%elem_of_cons; auto.
Qed.

Lemma drop_while_head {A} (p : A → bool) l x l' : drop_while p l = x :: l' → p x = false.
Proof.
  induction l as [|y l IH]; simpl; [done|]. destruct (p y) eqn:?; [done|]. by intros [= <- <-].
Qed.

(** A prefix whose elements satisfy [p], followed by elements that do not, is what
    the loop takes. *)
Lemma take_while_app {A} (p : A → bool) l1 l2 :
  Forall (λ x, p x = true) l1 → Forall (λ x, p x = false) l2 →
  take_while p (l1 ++ l2) = l1.
Proof.
  intros H1 H2. induction H1 as [|x l1 Hx _ IH]; simpl; [|by rewrite Hx, IH].
  destruct H2 as [|y l2 Hy _]; simpl; [done|]. by rewrite Hy.
Qed.

Lemma filter_all {A} (P : A → Prop) `{∀ x, Decision (P x)} (l : list A) :
  (∀ x, x ∈ l → P x) → filter P l = l.
Proof.
  induction l as [|x l IH]; intros Hl; [done|]. rewrite filter_cons, decide_True.
  - f_equal. apply IH. intros y Hy. apply Hl. by constructor.
  - apply Hl. by constructor.
Qed.

Lemma Forall_filter {A} (Q P : A → Prop) `{∀ x, Decision (P x)} (l : list A) :
  Forall Q l → Forall Q (filter P l).
Proof. rewrite !Forall_forall. intros Hl x [_ Hx]%list_elem_of_filter. auto. Qed.

Lemma filter_none {A} (P : A → Prop) `{∀ x, Decision (P x)} (l : list A) :
  (∀ x, x ∈ l → ¬ P x) → filter P l = [].
Proof.
  induction l as [|x l IH]; intros Hl; [done|]. rewrite filter_cons, decide_False.
  - apply IH. intros y Hy. apply Hl. by constructor.
  - apply Hl. by constructor.
Qed.

(** [list_Z_sum l] adds up a list of integers. *)
Fixpoint list_Z_sum (l : list Z) : Z :=
  match l with [] => 0 | x :: l' => x + list_Z_sum l' end.

Lemma list_Z_sum_app l1 l2 : list_Z_sum (l1 ++ l2) = (list_Z_sum l1 + list_Z_sum l2)%Z.
Proof. induction l1; simpl; lia. Qed.

Lemma list_Z_sum_nonneg l : Forall (λ x, (0 ≤ x)%Z) l → (0 ≤ list_Z_sum l)%Z.
Proof. induction 1; simpl; lia. Qed.

#[export] Hint Rewrite list_Z_sum_app : plq_simp.

#[export] Instance list_Z_sum_perm : Proper ((≡ₚ) ==> (=)) list_Z_sum.
Proof. induction 1; simpl; lia. Qed.

Definition b2z (b : bool) : Z := if b then 1 else 0.

(** Counting over a map by ranging over its keys, in any order. *)
Lemma count_over_keys `{Countable K} {A} (p : A → bool) (m : gmap K A) (ks : list K) :
  NoDup ks → (∀ k, k ∈ ks ↔ is_Some (m !! k)) →
  list_Z_sum ((λ k, match m !! k with Some x => b2z (p x) | None => 0%Z end) <$> ks) =
  Z.of_nat (size (filter (λ kx, p kx.2 = true) m)).
Proof.
  intros Hnd Hks.
  assert (ks ≡ₚ (map_to_list m).*1) as ->.
  { apply NoDup_Permutation; [done|apply NoDup_fst_map_to_list|].
    intros k. rewrite Hks. split.
    - intros [x Hx]. apply list_elem_of_fmap. exists (k, x).
      split; [done|]. by apply elem_of_map_to_list.
    - intros ([k' x] & -> & Hx)%list_elem_of_fmap. apply elem_of_map_to_list in Hx. by exists x. }
  rewrite <- list_fmap_compose.
  assert (((λ k, match m !! k with Some x => b2z (p x) | None => 0%Z end) ∘ fst) <$>
    map_to_list m = (λ kx, b2z (p kx.2)) <$> map_to_list m) as ->.
  { apply list_fmap_ext. intros i [k x] Hi. simpl.
    apply list_elem_of_lookup_2, elem_of_map_to_list in Hi. by rewrite Hi. }
  clear ks Hnd Hks. induction m as [|k x m Hk IH] using map_ind.
  { by rewrite map_to_list_empty, map_filter_empty, map_size_empty. }
  rewrite map_to_list_insert, fmap_cons, map_filter_insert by done. simpl. rewrite IH.
  destruct (p x) eqn:Hp.
  - rewrite decide_True, map_size_insert_None by (done || by apply map_lookup_filter_None; left).
    simpl. lia.
  - rewrite decide_False, delete_id by (done || by apply map_lookup_filter_None; left). done.
Qed.

(** ** Strings *)

(** Go's [<] on strings is the byte-wise lexicographic order. *)
Definition str_lt (a b : string) : bool := String.ltb a b.

Lemma str_lt_leb a b : str_lt a b = negb (String.leb b a).
Proof.
  unfold str_lt, String.ltb, String.leb. rewrite String.compare_antisym.
  by destruct (String.compare b a).
Qed.

Lemma str_lt_irrefl a : str_lt a a = false.
Proof. rewrite str_lt_leb. by destruct (String.leb_total a a) as [->| ->]. Qed.

Lemma str_lt_total a b : a ≠ b → str_lt a b = true ∨ str_lt b a = true.
Proof.
  intros Hne. rewrite !str_lt_leb.
  destruct (String.leb b a) eqn:H1, (String.leb a b) eqn:H2; simpl; auto.
  destruct Hne. by apply String.leb_antisym.
Qed.

Lemma str_lt_asym a b : str_lt a b = true → str_lt b a = false.
Proof.
  rewrite !str_lt_leb. intros H%negb_true_iff.
  destruct (String.leb_total a b) as [->|]; [done|congruence].
Qed.

Lemma str_lt_trans a b c : str_lt a b = true → str_lt b c = true → str_lt a c = true.
Proof.
  rewrite !str_lt_leb, !negb_true_iff. intros H1 H2.
  destruct (String.leb c a) eqn:H3; [|done].
  destruct (String.leb_total a b) as [H4|H4]; [|congruence].
  assert (String.le c b) as H5.
  { transitivity a; unfold String.le; [by rewrite H3 | by rewrite H4]. }
  unfold String.le in H5. by rewrite H2 in H5.
Qed.

(** [has_char c s]: the byte [c] occurs in [s] (strings.Contains with one byte). *)
Fixpoint has_char (c : ascii) (s : string) : bool :=
  match s with
  | EmptyString => false
  | String a s => bool_decide (a = c) || has_char c s
  end.

Lemma str_app_cons a s t : String a s +:+ t = String a (s +:+ t).
Proof. done. Qed.

Lemma str_app_nil_r s : s +:+ "" = s.
Proof. induction s as [|a s IH]; [done|]. by rewrite str_app_cons, IH. Qed.

Lemma str_app_assoc s1 s2 s3 : (s1 +:+ s2) +:+ s3 = s1 +:+ (s2 +:+ s3).
Proof. induction s1 as [|a s1 IH]; [done|]. by rewrite !str_app_cons, IH. Qed.

Lemma has_char_app c s t : has_char c (s +:+ t) = has_char c s || has_char c t.
Proof.
  induction s as [|a s IH]; [done|]. rewrite str_app_cons. simpl. rewrite IH.
  by rewrite orb_assoc.
Qed.

(** Two splits at the last [c] agree; two splits at the first [c] agree. *)
Lemma split_last_inj c a b s t :
  a +:+ String c s = b +:+ String c t →
  has_char c s = false → has_char c t = false → a = b ∧ s = t.
Proof.
  revert b. induction a as [|x a IH]; intros [|y b] H Hs Ht.
  - by simplify_eq/=.
  - rewrite str_app_cons in H. injection H as <- ->.
    rewrite has_char_app in Hs. simpl in Hs. rewrite bool_decide_true in Hs by done.
    by rewrite orb_true_r in Hs.
  - rewrite str_app_cons in H. injection H as -> <-.
    rewrite has_char_app in Ht. simpl in Ht. rewrite bool_decide_true in Ht by done.
    by rewrite orb_true_r in Ht.
  - rewrite !str_app_cons in H. injection H as -> H.
    by destruct (IH _ H Hs Ht) as [-> ->].
Qed.

Lemma split_first_inj c a b s t :
  a +:+ String c s = b +:+ String c t →
  has_char c a = false → has_char c b = false → a = b ∧ s = t.
Proof.
  revert b. induction a as [|x a IH]; intros [|y b] H Ha Hb; simpl in Ha, Hb.
  - by simplify_eq/=.
  - rewrite str_app_cons in H. injection H as <- ->.
    by rewrite bool_decide_true in Hb.
  - rewrite str_app_cons in H. injection H as -> <-.
    by rewrite bool_decide_true in Ha.
  - rewrite !str_app_cons in H. injection H as -> H.
    apply orb_false_iff in Ha as [_ Ha], Hb as [_ Hb].
    by destruct (IH _ H Ha Hb) as [-> ->].
Qed.

(** Decimal numerals ([%d], strconv.FormatInt) are stdpp's [pretty]; those of natural
    numbers are digits only. *)
Lemma pretty_N_go_char c x s :
  (∀ y, (y < 10)%N → pretty_N_char y ≠ c) →
  has_char c s = false → has_char c (pretty_N_go x s) = false.
Proof.
  intros Hc. revert s. induction (N.lt_wf_0 x) as [x _ IH]; intros s Hs.
  destruct (decide (x = 0)%N) as [->|]; [by rewrite pretty_N_go_0|].
  rewrite pretty_N_go_step by lia. apply IH; [apply N.div_lt; lia|].
  simpl. rewrite bool_decide_false, Hs; [done|]. by apply Hc, N.mod_lt.
Qed.

Lemma pretty_digits c (z : Z) :
  (∀ y, (y < 10)%N → pretty_N_char y ≠ c) → (0 ≤ z)%Z → has_char c (pretty z) = false.
Proof.
  intros Hc Hz. unfold pretty, pretty_Z, pretty, pretty_positive, pretty, pretty_N.
  destruct z as [|p|p]; [|rewrite decide_False by lia; by apply pretty_N_go_char|lia].
  simpl. rewrite bool_decide_false; [done|]. apply (Hc 0%N). lia.
Qed.

Lemma pretty_N_char_ne c :
  (∀ y : Fin.t 10, pretty_N_char (N.of_nat (fin_to_nat y)) ≠ c) →
  ∀ y, (y < 10)%N → pretty_N_char y ≠ c.
Proof.
  intros H y Hy. assert (N.to_nat y < 10) as Hn by lia.
  specialize (H (nat_to_fin Hn)). by rewrite fin_to_nat_to_fin, N2Nat.id in H.
Qed.

Lemma pretty_no_dash (z : Z) : (0 ≤ z)%Z → has_char "-" (pretty z) = false.
Proof.
  apply pretty_digits, pretty_N_char_ne. intros y.
  repeat (inv_fin y; [done|intros y]). inv_fin y.
Qed.
