(* ===== verification/Queue.v ===== *)
(** Queue: the contract every driver implements (internal/queue/types.go, backend.go,
    stats.go, unimplemented.go): the data exchanged with a backend, the error values, and
    the [Backend] interface as a type class over the driver's state.  Also here: what a
    call reads from outside the program (clock, map iteration order, database). *)
From S2P Require Import Prelude.

(** ** Data (types.go) *)

(** [time.Time] is a number of nanoseconds since Go's zero time, so [t.IsZero()] is
    [t = 0]; [time.Duration] is an [int64] number of nanoseconds. *)
Abbreviation time := Z (only parsing).
Abbreviation duration := Z (only parsing).
Abbreviation WorkerID := string (only parsing).
Abbreviation LeaseToken := string (only parsing).
Abbreviation bytes := string (only parsing).

Definition Millisecond : duration := 1000000.
Definition Second : duration := 1000000000.
Definition Hour : duration := 3600 * 1000000000.

Definition IsZero (t : time) : bool := (t =? 0)%Z.

(** [d.Milliseconds()] and [int64(d/time.Millisecond)]: truncated division. *)
Definition Milliseconds (d : duration) : Z := Z.quot d Millisecond.

Record WorkUnitKey := mkKey {
  Workspace : string;
  Session : string;
  Peer : string;
}.

#[export] Instance WorkUnitKey_eq_dec : EqDecision WorkUnitKey.
Proof. solve_decision. Defined.

#[export] Instance WorkUnitKey_countable : Countable WorkUnitKey.
Proof.
  refine (inj_countable' (λ k, (Workspace k, Session k, Peer k))
                         (λ p, mkKey p.1.1 p.1.2 p.2) _).
  by intros [].
Defined.

(** [func (k WorkUnitKey) String() string] *)
Definition key_String (k : WorkUnitKey) : string :=
  Workspace k +:+ "/" +:+ Session k +:+ "/" +:+ Peer k.

Record Task := mkTask {
  Seq : Z;
  Payload : bytes;
  Cost : Z;
}.

#[export] Instance Task_eq_dec : EqDecision Task.
Proof. solve_decision. Defined.

Record ClaimedUnit := mkClaimed {
  cu_Key : WorkUnitKey;
  cu_Worker : WorkerID;
  cu_Lease : LeaseToken;
  cu_LeaseTill : time;
}.

#[export] Instance ClaimedUnit_eq_dec : EqDecision ClaimedUnit.
Proof. solve_decision. Defined.

(** ** Errors and results *)

Inductive error :=
  | ErrLeaseLost
  | ErrUnimplemented
  | ErrCtxDone                 (* ctx.Err() of a cancelled context *)
  | ErrDriver (msg : string).  (* an error a driver passes on from its database *)

#[export] Instance error_eq_dec : EqDecision error.
Proof. solve_decision. Defined.

(** What a Go call of type [(A, error)] does: return a value with a nil error, return an
    error, or panic (index out of range, make with a negative length, ...). *)
Inductive res (A : Type) :=
  | Ok (a : A)
  | Err (e : error)
  | Panic.
Arguments Ok {A} _.
Arguments Err {A} _.
Arguments Panic {A}.

#[export] Instance res_eq_dec `{EqDecision A} : EqDecision (res A).
Proof. solve_decision. Defined.

(** ** What a call reads from its environment *)

(** The fate of one round trip to a database: it succeeds, the request is never
    executed, or it is executed and the reply is lost. *)
Inductive fault :=
  | NoFault
  | Lost (msg : string)
  | Unacked (msg : string).

Record Env := mkEnv {
  env_now : nat → time;      (* the successive readings of time.Now() *)
  env_order : list WorkUnitKey → list WorkUnitKey;  (* the order a range over a map takes *)
  env_uuid : string;         (* the value gen_random_uuid() gives *)
  env_net : nat → fault;     (* the fate of the successive round trips *)
}.

(** Go leaves the iteration order of a map unspecified: any permutation of its keys. *)
Definition order_ok (e : Env) : Prop := ∀ l, env_order e l ≡ₚ l.

(** A network that answers every round trip of the call. *)
Definition quiet (e : Env) : Prop := ∀ i, env_net e i = NoFault.

(** The same call on a network that answers. *)
Definition answered (e : Env) : Env := mkEnv (env_now e) (env_order e) (env_uuid e) (λ _, NoFault).

Lemma answered_quiet e : quiet (answered e).
Proof. done. Qed.

(** A quiet environment whose clock stands at [t]. *)
Definition env_at (t : time) : Env := mkEnv (λ _, t) (λ l, l) "uuid" (λ _, NoFault).

Lemma env_at_order_ok t : order_ok (env_at t).
Proof. by intros l. Qed.

#[export] Hint Resolve env_at_order_ok : plq.

(** ** The interface (backend.go) *)

Class Backend (S : Type) := {
  be_Enqueue : Env → WorkUnitKey → bytes → Z → S → S * res Z;
  be_Claim : Env → WorkerID → duration → S → S * res (option ClaimedUnit);
  be_Drain : Env → ClaimedUnit → Z → S → S * res (list Task);
  be_Ack : Env → ClaimedUnit → Z → S → S * res bool;
  be_Release : Env → ClaimedUnit → S → S * res ();
  be_Heartbeat : Env → ClaimedUnit → duration → S → S * res ();
  be_Fail : Env → ClaimedUnit → Z → string → S → S * res ();
  (** the counts are returned with the error: a driver that stops at a failing shard
      reports what it did before *)
  be_ReapExpired : Env → time → S → S * (Z * Z * option error);
  be_Close : S → S * res ();
}.

(** ** Optional capabilities (stats.go) *)

Record Stats := mkStats {
  TotalUnits : Z;
  EligibleUnits : Z;
  PendingTasks : Z;
  DeadLetters : Z;
  OldestBelowT : duration;
}.

Class Stater (S : Type) := be_Stats : Env → S → res Stats.
Class Resetter (S : Type) := be_Reset : Env → S → S * res ().

(** ** The stub (unimplemented.go) *)

Inductive Unimplemented := UnimplementedStub.

#[export] Instance Unimplemented_Backend : Backend Unimplemented := {|
  be_Enqueue _ _ _ _ s := (s, Err ErrUnimplemented);
  be_Claim _ _ _ s := (s, Err ErrUnimplemented);
  be_Drain _ _ _ s := (s, Err ErrUnimplemented);
  be_Ack _ _ _ s := (s, Err ErrUnimplemented);
  be_Release _ _ s := (s, Err ErrUnimplemented);
  be_Heartbeat _ _ _ s := (s, Err ErrUnimplemented);
  be_Fail _ _ _ _ s := (s, Err ErrUnimplemented);
  be_ReapExpired _ _ s := (s, (0%Z, 0%Z, Some ErrUnimplemented));
  be_Close s := (s, Ok tt);
|}.

(** ** Sums and sequences of a unit's tasks *)

Definition seqs (ts : list Task) : list Z := Seq <$> ts.
Definition total_cost (ts : list Task) : Z := list_Z_sum (Cost <$> ts).

(** The sequence numbers are [b, b+1, ...] without a gap. *)
Definition consecutive (b : Z) (ts : list Task) : Prop :=
  seqs ts = seqZ b (length ts).

(** [through q t]: the loop test [t.Seq <= q] of an acknowledgement. *)
Definition through (q : Z) (t : Task) : bool := (Seq t <=? q)%Z.

Lemma total_cost_nil : total_cost [] = 0%Z.
Proof. done. Qed.

Lemma total_cost_cons t ts : total_cost (t :: ts) = (Cost t + total_cost ts)%Z.
Proof. done. Qed.

Lemma total_cost_app l1 l2 : total_cost (l1 ++ l2) = (total_cost l1 + total_cost l2)%Z.
Proof. unfold total_cost. by rewrite fmap_app, list_Z_sum_app. Qed.

#[export] Hint Rewrite total_cost_nil total_cost_cons total_cost_app : plq_simp.

Lemma consecutive_nil b : consecutive b [].
Proof. done. Qed.

Lemma consecutive_cons b t ts :
  consecutive b (t :: ts) ↔ Seq t = b ∧ consecutive (b + 1) ts.
Proof.
  unfold consecutive, seqs. rewrite fmap_cons, length_cons, seqZ_cons by lia.
  replace (Z.succ b) with (b + 1)%Z by lia.
  replace (Z.pred (S (length ts)))%Z with (Z.of_nat (length ts)) by lia.
  split; [by intros [= -> ->] | by intros [-> ->]].
Qed.

Lemma consecutive_app b ts1 ts2 :
  consecutive b (ts1 ++ ts2) ↔ consecutive b ts1 ∧ consecutive (b + length ts1) ts2.
Proof.
  revert b. induction ts1 as [|t ts1 IH]; intros b; simpl.
  - rewrite Z.add_0_r. split; [by split|by intros []].
  - rewrite !consecutive_cons, IH. replace (b + 1 + length ts1)%Z
      with (b + S (length ts1))%Z by lia. tauto.
Qed.

Lemma consecutive_lookup b ts (i : nat) t :
  consecutive b ts → ts !! i = Some t → Seq t = (b + i)%Z.
Proof.
  revert b i. induction ts as [|t' ts IH]; intros b [|i]; simpl; [done..| |].
  - intros [? _]%consecutive_cons [= <-]. lia.
  - intros [_ H]%consecutive_cons Hi. rewrite (IH _ _ H Hi). lia.
Qed.

(** On a gap-free sequence the acknowledgement loop stops exactly at [q]. *)
Lemma drop_through_above b ts q :
  consecutive b ts → Forall (λ t, (q < Seq t)%Z) (drop_while (through q) ts).
Proof.
  revert b. induction ts as [|t ts IH]; intros b H; simpl; [constructor|].
  apply consecutive_cons in H as [Hb H]. unfold through at 1.
  destruct (Z.leb_spec (Seq t) q); [by eapply IH|].
  constructor; [done|]. apply Forall_lookup. intros i t' Hi.
  rewrite (consecutive_lookup _ _ _ _ H Hi). lia.
Qed.

Lemma consecutive_drop_while b ts p :
  consecutive b ts →
  consecutive (b + length (take_while p ts)) (drop_while p ts).
Proof. rewrite <- (take_drop_while p ts) at 1. by intros [_ ?]%consecutive_app. Qed.

(** Acknowledging through the last task of a non-empty prefix takes that prefix. *)
Lemma take_through_prefix b ts1 ts2 t :
  consecutive b ((ts1 ++ [t]) ++ ts2) →
  take_while (through (Seq t)) ((ts1 ++ [t]) ++ ts2) = ts1 ++ [t].
Proof.
  intros H. apply take_while_app; apply Forall_lookup; intros i t' Hi; unfold through.
  - assert (Seq t = b + length ts1)%Z as Ht.
    { eapply consecutive_lookup; [exact H|].
      rewrite lookup_app_l, lookup_app_r, Nat.sub_diag by (rewrite ?length_app; simpl; lia).
      done. }
    pose proof (lookup_lt_Some _ _ _ Hi) as Hlt. rewrite length_app in Hlt; simpl in Hlt.
    rewrite (consecutive_lookup _ _ i t' H) by (by rewrite lookup_app_l by (rewrite length_app; simpl; lia)).
    apply Z.leb_le. lia.
  - apply consecutive_app in H as [H1 H2].
    rewrite (consecutive_lookup _ _ _ _ H2 Hi), length_app. simpl.
    apply consecutive_app in H1 as [_ H1].
    apply consecutive_cons in H1 as [-> _]. apply Z.leb_gt. lia.
Qed.
