(* ===== verification/Contract.v ===== *)
(** Contract: what every [Backend] promises its clients, as a type class of laws over an
    abstract view of the driver's state (internal/queue/backend.go, the comments of the
    interface).  The view gives, for each work unit, the FIFO of its unacknowledged tasks
    and, for each handle, whether the backend still accepts it.  The worker loop and the
    multi-worker system are verified against these laws only; a driver discharges them in
    its own file.  [Strict] is the stronger contract of two of the three drivers. *)
From S2P Require Import Prelude Queue.

(** ** The abstract view *)

Class View (S : Type) := {
  (** the unacknowledged tasks of a unit, head first *)
  pending : S → WorkUnitKey → list Task;
  (** the backend would accept this handle now *)
  holds : S → ClaimedUnit → bool;
}.

Section view.
Context {S : Type} `{View S}.

(** [h] is the set of the lease tokens issued so far: laws about handles speak of
    handles a [Claim] returned, not of forged ones. *)
Definition issued (h : gset LeaseToken) (c : ClaimedUnit) : Prop := cu_Lease c ∈ h.

(** Nothing observable changed. *)
Definition same_view (h : gset LeaseToken) (s s' : S) : Prop :=
  (∀ k, pending s' k = pending s k) ∧ (∀ c, issued h c → holds s' c = holds s c).

(** No handle the backend had stopped accepting is accepted again. *)
Definition no_revival (h : gset LeaseToken) (s s' : S) : Prop :=
  ∀ c, issued h c → holds s' c = true → holds s c = true.

(** Only unit [K] may have changed. *)
Definition frame (h : gset LeaseToken) (K : WorkUnitKey) (s s' : S) : Prop :=
  (∀ k, k ≠ K → pending s' k = pending s k) ∧
  (∀ c, issued h c → cu_Key c ≠ K → holds s' c = holds s c) ∧
  no_revival h s s'.

Lemma same_view_refl h s : same_view h s s.
Proof. by split. Qed.

Lemma same_view_frame h K s s' : same_view h s s' → frame h K s s'.
Proof.
  intros [Hp Hh]. split_and!; [auto..|]. intros c Hc. by rewrite Hh.
Qed.

Lemma frame_trans h K s1 s2 s3 : frame h K s1 s2 → frame h K s2 s3 → frame h K s1 s3.
Proof.
  intros (P1 & H1 & R1) (P2 & H2 & R2). split_and!.
  - intros k Hk. by rewrite P2, P1.
  - intros c Hc Hk. by rewrite H2, H1.
  - intros c Hc H3. auto.
Qed.

Lemma frame_no_revival h K s s' : frame h K s s' → no_revival h s s'.
Proof. by intros (_ & _ & ?). Qed.
End view.

#[export] Hint Resolve same_view_refl same_view_frame : plq.

(** ** The laws *)

(** [inv n h s] is the driver's well-formedness invariant after at most [n] enqueues and
    claims that issued the tokens [h]; these calls are counted because sequence and lease
    counters have a width: at most [capacity] of them are considered.  [env_ok e]: the
    environment behaves as documented in this call (any map order, a database that answers,
    unguessed uuids).  [key_ok] and [cost_ok]: the keys the driver tells apart and the costs
    it computes with exactly.  [delivered s k]: how many tasks at the head of the unit an
    acknowledgement may delete, those handed out so far at least. *)
Class Contract (S : Type) `{Backend S, View S} := {
  inv : Z → gset LeaseToken → S → Prop;
  env_ok : Env → Prop;
  token_fresh : gset LeaseToken → Env → Prop;
  key_ok : WorkUnitKey → Prop;
  cost_ok : Z → Prop;
  delivered : S → WorkUnitKey → nat;

  (** how many enqueues and claims the driver's counters have room for *)
  capacity : Z;

  inv_mono n n' h s : inv n h s → (n ≤ n' ≤ capacity)%Z → inv n' h s;

  pending_consecutive n h s k :
    inv n h s → ∃ b, consecutive b (pending s k);

  (** two handles accepted for one unit are the same lease *)
  holds_unique n h s c c' :
    inv n h s → issued h c → issued h c' → cu_Key c = cu_Key c' →
    holds s c = true → holds s c' = true → cu_Lease c = cu_Lease c';

  (** I1: a task joins the end of its unit's FIFO with the returned number *)
  enqueue_law n h e k p c s s' r :
    inv n h s → (n < capacity)%Z → env_ok e → key_ok k → cost_ok c →
    be_Enqueue e k p c s = (s', r) →
    inv (n + 1) h s' ∧ frame h k s s' ∧
    (∀ c', issued h c' → holds s' c' = holds s c') ∧
    (∀ k, delivered s k ≤ delivered s' k) ∧
    match r with
    | Ok q => pending s' k = pending s k ++ [mkTask q p c]
    | Err _ => pending s' k = pending s k
    | Panic => False
    end;

  (** a claim takes a unit that has work, under a new token, the only one then accepted *)
  claim_law n h e w d s s' r :
    inv n h s → (n < capacity)%Z → env_ok e → token_fresh h e → w ≠ "" →
    be_Claim e w d s = (s', r) →
    (∀ k, pending s' k = pending s k) ∧ (∀ k, delivered s k ≤ delivered s' k) ∧
    match r with
    | Ok (Some c) =>
        cu_Worker c = w ∧ key_ok (cu_Key c) ∧ (cu_Lease c ∉ h) ∧
        inv (n + 1) ({[cu_Lease c]} ∪ h) s' ∧
        holds s' c = true ∧ pending s (cu_Key c) ≠ [] ∧ frame h (cu_Key c) s s'
    | Ok None | Err _ => inv (n + 1) h s' ∧ same_view h s s'
    | Panic => False
    end;

  drain_law n h e c max s s' r :
    inv n h s → env_ok e → issued h c → key_ok (cu_Key c) → (0 < max)%Z →
    be_Drain e c max s = (s', r) →
    inv n h s' ∧ same_view h s s' ∧ (∀ k, delivered s k ≤ delivered s' k) ∧
    r = (if holds s c then Ok (take (Z.to_nat max) (pending s (cu_Key c)))
         else Err ErrLeaseLost) ∧
    (holds s c = true →
     Nat.min (Z.to_nat max) (length (pending s (cu_Key c))) ≤ delivered s' (cu_Key c));

  (** delete-on-ack: everything delivered, through [q], leaves the head of the FIFO *)
  ack_law n h e c q s s' r :
    inv n h s → env_ok e → issued h c → key_ok (cu_Key c) →
    be_Ack e c q s = (s', r) →
    inv n h s' ∧ (∀ k, k ≠ cu_Key c → delivered s k ≤ delivered s' k) ∧
    if holds s c then
      frame h (cu_Key c) s s' ∧
      pending s (cu_Key c) =
        take_while (through q) (take (delivered s (cu_Key c)) (pending s (cu_Key c)))
          ++ pending s' (cu_Key c) ∧
      r = Ok (holds s' c)
    else same_view h s s' ∧ (∀ k, delivered s k ≤ delivered s' k) ∧ r = Err ErrLeaseLost;

  release_law n h e c s s' r :
    inv n h s → env_ok e → issued h c → key_ok (cu_Key c) →
    be_Release e c s = (s', r) →
    inv n h s' ∧ (∀ k, delivered s k ≤ delivered s' k) ∧
    if holds s c then
      frame h (cu_Key c) s s' ∧ pending s' (cu_Key c) = pending s (cu_Key c) ∧
      holds s' c = false ∧ r = Ok tt
    else same_view h s s' ∧ r = Err ErrLeaseLost;

  (** a handle is told lost only when it is; a driver may refuse a duration *)
  heartbeat_law n h e c d s s' r :
    inv n h s → env_ok e → issued h c → key_ok (cu_Key c) →
    be_Heartbeat e c d s = (s', r) →
    inv n h s' ∧ same_view h s s' ∧ (∀ k, delivered s k ≤ delivered s' k) ∧
    match r with
    | Ok _ => holds s c = true
    | Err ErrLeaseLost => holds s c = false
    | Err _ => True
    | Panic => False
    end;

  (** only the head can be dead-lettered, and the unit is released in every case but that
      of a failing driver, which changes nothing *)
  fail_law n h e c q reason s s' r :
    inv n h s → env_ok e → issued h c → key_ok (cu_Key c) →
    be_Fail e c q reason s = (s', r) →
    inv n h s' ∧
    if holds s c then
      (frame h (cu_Key c) s s' ∧ holds s' c = false ∧ r = Ok tt ∧
       (pending s' (cu_Key c) = pending s (cu_Key c) ∨
        ∃ t ts, pending s (cu_Key c) = t :: ts ∧ Seq t = q ∧ pending s' (cu_Key c) = ts)) ∨
      (same_view h s s' ∧ ∃ msg, r = Err (ErrDriver msg))
    else same_view h s s' ∧ r = Err ErrLeaseLost;

  reap_law n h e now s s' r :
    inv n h s → env_ok e →
    be_ReapExpired e now s = (s', r) →
    inv n h s' ∧ (∀ k, pending s' k = pending s k) ∧ no_revival h s s' ∧
    (∀ k, delivered s k ≤ delivered s' k);
}.
Arguments capacity S {_ _ _}.

(** A batch that was drained is acknowledged whole: the tasks handed out are within reach
    of an acknowledgement through the last of them. *)
Lemma acked_batch (b : Z) (ts rest : list Task) (t : Task) (m : nat) :
  consecutive b (ts ++ rest) → last ts = Some t → length ts ≤ m →
  take_while (through (Seq t)) (take m (ts ++ rest)) = ts.
Proof.
  intros Hc Hl Hm. apply last_Some in Hl as [ts' ->].
  rewrite take_app_ge by done.
  apply (take_through_prefix b ts' (take (m - length (ts' ++ [t])) rest) t).
  apply consecutive_app in Hc as [Hc1 Hc2]. apply consecutive_app. split; [done|].
  rewrite <- (take_drop (m - length (ts' ++ [t])) rest) in Hc2.
  by apply consecutive_app in Hc2 as [? _].
Qed.

(** ** The strict contract *)

(** What the in-memory and the Postgres drivers promise beyond: every key and cost is
    treated exactly, an acknowledgement reaches any pending task, and a claim never takes
    a unit while a handle for it is accepted (I2). *)
Class Strict (S : Type) `{Backend S, View S} := {
  s_inv : Z → gset LeaseToken → S → Prop;
  s_env_ok : Env → Prop;
  s_token_fresh : gset LeaseToken → Env → Prop;
  s_capacity : Z;

  s_inv_mono n n' h s : s_inv n h s → (n ≤ n' ≤ s_capacity)%Z → s_inv n' h s;

  s_pending_consecutive n h s k :
    s_inv n h s → ∃ b, consecutive b (pending s k);

  s_holds_unique n h s c c' :
    s_inv n h s → issued h c → issued h c' → cu_Key c = cu_Key c' →
    holds s c = true → holds s c' = true → cu_Lease c = cu_Lease c';

  s_enqueue n h e k p c s s' r :
    s_inv n h s → (n < s_capacity)%Z → s_env_ok e → be_Enqueue e k p c s = (s', r) →
    s_inv (n + 1) h s' ∧ frame h k s s' ∧
    (∀ c', issued h c' → holds s' c' = holds s c') ∧
    match r with
    | Ok q => pending s' k = pending s k ++ [mkTask q p c]
    | Err _ => pending s' k = pending s k
    | Panic => False
    end;

  (** I2: a claim takes a unit that has work and that nobody holds, under a new token *)
  s_claim n h e w d s s' r :
    s_inv n h s → (n < s_capacity)%Z → s_env_ok e → s_token_fresh h e → w ≠ "" →
    be_Claim e w d s = (s', r) →
    (∀ k, pending s' k = pending s k) ∧
    match r with
    | Ok (Some c) =>
        cu_Worker c = w ∧ (cu_Lease c ∉ h) ∧
        s_inv (n + 1) ({[cu_Lease c]} ∪ h) s' ∧
        holds s' c = true ∧ pending s (cu_Key c) ≠ [] ∧
        (∀ c', issued h c' → cu_Key c' = cu_Key c → holds s c' = false) ∧
        (∀ c', issued h c' → holds s' c' = holds s c')
    | Ok None | Err _ => s_inv (n + 1) h s' ∧ same_view h s s'
    | Panic => False
    end;

  s_drain n h e c max s s' r :
    s_inv n h s → s_env_ok e → issued h c → (0 < max)%Z →
    be_Drain e c max s = (s', r) →
    s_inv n h s' ∧ same_view h s s' ∧
    r = (if holds s c then Ok (take (Z.to_nat max) (pending s (cu_Key c)))
         else Err ErrLeaseLost);

  s_ack n h e c q s s' r :
    s_inv n h s → s_env_ok e → issued h c →
    be_Ack e c q s = (s', r) →
    s_inv n h s' ∧
    if holds s c then
      frame h (cu_Key c) s s' ∧
      pending s' (cu_Key c) = drop_while (through q) (pending s (cu_Key c)) ∧
      r = Ok (holds s' c)
    else same_view h s s' ∧ r = Err ErrLeaseLost;

  s_release n h e c s s' r :
    s_inv n h s → s_env_ok e → issued h c →
    be_Release e c s = (s', r) →
    s_inv n h s' ∧
    if holds s c then
      frame h (cu_Key c) s s' ∧ pending s' (cu_Key c) = pending s (cu_Key c) ∧
      holds s' c = false ∧ r = Ok tt
    else same_view h s s' ∧ r = Err ErrLeaseLost;

  s_heartbeat n h e c d s s' r :
    s_inv n h s → s_env_ok e → issued h c →
    be_Heartbeat e c d s = (s', r) →
    s_inv n h s' ∧ same_view h s s' ∧
    match r with
    | Ok _ => holds s c = true
    | Err ErrLeaseLost => holds s c = false
    | Err _ => True
    | Panic => False
    end;

  s_fail n h e c q reason s s' r :
    s_inv n h s → s_env_ok e → issued h c →
    be_Fail e c q reason s = (s', r) →
    s_inv n h s' ∧
    if holds s c then
      (frame h (cu_Key c) s s' ∧ holds s' c = false ∧ r = Ok tt ∧
       (pending s' (cu_Key c) = pending s (cu_Key c) ∨
        ∃ t ts, pending s (cu_Key c) = t :: ts ∧ Seq t = q ∧ pending s' (cu_Key c) = ts)) ∨
      (same_view h s s' ∧ ∃ msg, r = Err (ErrDriver msg))
    else same_view h s s' ∧ r = Err ErrLeaseLost;

  s_reap n h e now s s' r :
    s_inv n h s → s_env_ok e →
    be_ReapExpired e now s = (s', r) →
    s_inv n h s' ∧ (∀ k, pending s' k = pending s k) ∧ no_revival h s s';
}.
Arguments s_capacity S {_ _ _}.

(** A strict driver meets the contract. *)
#[export] Instance strict_contract {S} `{Strict S} : Contract S.
Proof.
  refine {| inv := s_inv; env_ok := s_env_ok; token_fresh := s_token_fresh;
    capacity := s_capacity S; key_ok := λ _, True; cost_ok := λ _, True;
    delivered := λ s k, length (pending s k) |}.
  - apply s_inv_mono.
  - apply s_pending_consecutive.
  - apply s_holds_unique.
  - intros n h e k p c s s' r Hi Hn He _ _ Hr.
    destruct (s_enqueue _ _ _ _ _ _ _ _ _ Hi Hn He Hr) as (Hi' & Hf & Hh & Hp).
    split_and!; try done. intros k'. destruct (decide (k' = k)) as [->|Hne].
    + destruct r; [rewrite Hp, length_app; lia|by rewrite Hp|done].
    + destruct Hf as [Hf _]. by rewrite Hf.
  - intros n h e w d s s' r Hi Hn He Ht Hw Hr.
    destruct (s_claim _ _ _ _ _ _ _ _ Hi Hn He Ht Hw Hr) as [Hp Hc].
    split; [done|]. split; [intros k; by rewrite Hp|].
    destruct r as [[c|]|err|]; try done.
    destruct Hc as (? & ? & ? & ? & ? & _ & Hsame). split_and!; try done.
    split_and!; [done|auto|]. intros c' Hc'. by rewrite Hsame.
  - intros n h e c max s s' r Hi He Hc _ Hm Hr.
    destruct (s_drain _ _ _ _ _ _ _ _ Hi He Hc Hm Hr) as (? & [Hp ?] & ?).
    split_and!; try done; intros; rewrite Hp; lia.
  - intros n h e c q s s' r Hi He Hc _ Hr.
    destruct (s_ack _ _ _ _ _ _ _ _ Hi He Hc Hr) as (? & Ha). destruct (holds s c).
    + destruct Ha as ((Hf & ? & ?) & Hp & ?). split_and!; try done.
      * intros k Hk. by rewrite Hf.
      * rewrite firstn_all, Hp. symmetry. apply take_drop_while.
    + destruct Ha as [[Hp ?] ?]. split_and!; try done; intros; by rewrite Hp.
  - intros n h e c s s' r Hi He Hc _ Hr.
    destruct (s_release _ _ _ _ _ _ _ Hi He Hc Hr) as (? & Ha). destruct (holds s c).
    + destruct Ha as ((Hf & ? & ?) & Hp & ? & ?). split_and!; try done.
      intros k. destruct (decide (k = cu_Key c)) as [->|]; [by rewrite Hp|by rewrite Hf].
    + destruct Ha as [[Hp ?] ?]. split_and!; try done. intros k. by rewrite Hp.
  - intros n h e c d s s' r Hi He Hc _ Hr.
    destruct (s_heartbeat _ _ _ _ _ _ _ _ Hi He Hc Hr) as (? & [Hp ?] & ?).
    split_and!; try done. intros k. by rewrite Hp.
  - intros n h e c q reason s s' r Hi He Hc _ Hr. by eapply s_fail.
  - intros n h e now s s' r Hi He Hr.
    destruct (s_reap _ _ _ _ _ _ _ Hi He Hr) as (? & Hp & ?).
    split_and!; try done. intros k. by rewrite Hp.
Defined.
