(* ===== verification/Lease.v ===== *)
(** Lease: what a lease promises its holder while it lasts (internal/queue/backend.go:
    Claim, Heartbeat, ReapExpired): any calls of the interface in any order, by anybody,
    with any handles, and which of them spare a given lease.  The drivers' theorems are in
    MemoryLease.v and PostgresLease.v. *)
From S2P Require Import Prelude Queue.

(** ** Any call of the interface *)

Inductive qcall :=
  | QEnqueue (k : WorkUnitKey) (p : bytes) (cost : Z)
  | QClaim (w : WorkerID) (d : duration)
  | QDrain (c : ClaimedUnit) (max : Z)
  | QAck (c : ClaimedUnit) (q : Z)
  | QRelease (c : ClaimedUnit)
  | QHeartbeat (c : ClaimedUnit) (d : duration)
  | QFail (c : ClaimedUnit) (q : Z) (reason : string)
  | QReap (now : time).

Definition do_call {S} `{Queue.Backend S} (e : Env) (x : qcall) (s : S) : S :=
  match x with
  | QEnqueue k p c => (be_Enqueue e k p c s).1
  | QClaim w d => (be_Claim e w d s).1
  | QDrain c max => (be_Drain e c max s).1
  | QAck c q => (be_Ack e c q s).1
  | QRelease c => (be_Release e c s).1
  | QHeartbeat c d => (be_Heartbeat e c d s).1
  | QFail c q reason => (be_Fail e c q reason s).1
  | QReap now => (be_ReapExpired e now s).1
  end.

Definition do_calls {S} `{Queue.Backend S} (xs : list (Env * qcall)) (s : S) : S :=
  foldl (λ s ex, do_call ex.1 ex.2 s) s xs.

(** A call spares the lease of a holder up to [t]: no call with the holder's handle ends it
    (acknowledges, releases or fails), none shortens it, and no reaper comes after [t].
    [mine]: the handles the driver takes for the holder's; [until]: the end of the lease a
    heartbeat sets. *)
Definition spares (mine : ClaimedUnit → Prop) (until : Env → duration → time) (t : time)
    (ex : Env * qcall) : Prop :=
  match ex.2 with
  | QAck c _ | QRelease c | QFail c _ _ => ¬ mine c
  | QHeartbeat c d => mine c → (t <= until ex.1 d)%Z
  | QReap now => (now <= t)%Z
  | QEnqueue _ _ _ | QClaim _ _ | QDrain _ _ => True
  end.

(** what every call of a sequence keeps, the sequence keeps *)
Lemma do_calls_keep {S} `{Queue.Backend S} (Q : Env * qcall → Prop) (P : S → Prop) xs s :
  (∀ ex s, Q ex → P s → P (do_call ex.1 ex.2 s)) → Forall Q xs → P s → P (do_calls xs s).
Proof.
  intros Hk Hxs. revert s. induction Hxs as [|ex xs Hx _ IH]; intros s Hs; [done|].
  cbn. by apply IH, Hk.
Qed.
