(* ===== verification/Memory.v ===== *)
(** Memory: the in-process driver (internal/memory/backend.go), the reference the other
    drivers must match.  One [Definition] per method; the mutex makes each method one
    atomic step, so a method is a function from state to state and result.  Its
    invariant and theorems are in MemoryFacts.v. *)
From S2P Require Import Prelude Queue.

(** ** State (backend.go: unit, DeadLetter, Options, Backend) *)

Record unit := mkUnit {
  key : WorkUnitKey;
  tasks : list Task;          (* unacked, in seq order *)
  enqAt : list time;          (* parallel to tasks *)
  nextSeq : Z;
  pendingCost : Z;
  threshold : Z;
  maxWait : duration;
  oldestPending : time;
  flushDeadline : time;
  eligible : bool;
  claimedBy : WorkerID;       (* the empty string: free *)
  lease : LeaseToken;
  leaseDur : duration;
  leaseExpires : time;
  attempts : Z;
}.

Record DeadLetter := mkDead {
  dl_Key : WorkUnitKey;
  dl_Task : Task;
  dl_Reason : string;
}.

Record Options := mkOptions {
  DefaultThreshold : Z;
  DefaultMaxWait : duration;
  MaxAttempts : Z;
}.

Record Backend := mkBackend {
  units : gmap WorkUnitKey unit;
  dlq : list DeadLetter;
  leaseCounter : Z;
  b_threshold : Z;
  b_maxWait : duration;
  maxAttempts : Z;
}.

(** [func New(o Options) *Backend] *)
Definition New (o : Options) : Backend :=
  let ma := if (MaxAttempts o <=? 0)%Z then 3%Z else MaxAttempts o in
  mkBackend ∅ [] 0 (DefaultThreshold o) (DefaultMaxWait o) ma.

(** ** Field updates *)

Definition set_units (m : gmap WorkUnitKey unit) (b : Backend) : Backend :=
  mkBackend m (dlq b) (leaseCounter b) (b_threshold b) (b_maxWait b) (maxAttempts b).

(** [b.units[k] = u] (or, for a unit already there, the mutation of the shared object) *)
Definition put_unit (k : WorkUnitKey) (u : unit) (b : Backend) : Backend :=
  set_units (<[k := u]> (units b)) b.

Definition drop_unit (k : WorkUnitKey) (b : Backend) : Backend :=
  set_units (delete k (units b)) b.

(** [u.claimedBy = w; u.lease = tok; u.leaseDur = d; u.leaseExpires = x] *)
Definition set_claim (w tok : string) (d : duration) (x : time) (u : unit) : unit :=
  mkUnit (key u) (tasks u) (enqAt u) (nextSeq u) (pendingCost u) (threshold u) (maxWait u)
    (oldestPending u) (flushDeadline u) (eligible u) w tok d x (attempts u).

(** [u.claimedBy = ""; u.lease = ""] *)
Definition unclaim (u : unit) : unit :=
  set_claim "" "" (leaseDur u) (leaseExpires u) u.

Definition set_leaseExpires (x : time) (u : unit) : unit :=
  set_claim (claimedBy u) (lease u) (leaseDur u) x u.

Definition set_attempts (a : Z) (u : unit) : unit :=
  mkUnit (key u) (tasks u) (enqAt u) (nextSeq u) (pendingCost u) (threshold u) (maxWait u)
    (oldestPending u) (flushDeadline u) (eligible u) (claimedBy u) (lease u) (leaseDur u)
    (leaseExpires u) a.

Definition set_eligible (el : bool) (u : unit) : unit :=
  mkUnit (key u) (tasks u) (enqAt u) (nextSeq u) (pendingCost u) (threshold u) (maxWait u)
    (oldestPending u) (flushDeadline u) el (claimedBy u) (lease u) (leaseDur u)
    (leaseExpires u) (attempts u).

(** what is left of the unit's queue once its front has been consumed *)
Definition set_queue (ts : list Task) (at_ : list time) (cost : Z) (u : unit) : unit :=
  mkUnit (key u) ts at_ (nextSeq u) cost (threshold u) (maxWait u)
    (oldestPending u) (flushDeadline u) (eligible u) (claimedBy u) (lease u) (leaseDur u)
    (leaseExpires u) (attempts u).

(** ** Enqueue *)

(** [&unit{key: key, threshold: b.threshold, maxWait: b.maxWait}] *)
Definition new_unit (k : WorkUnitKey) (b : Backend) : unit :=
  mkUnit k [] [] 0 0 (b_threshold b) (b_maxWait b) 0 0 false "" "" 0 0 0.

Definition enqueue_unit (now : time) (payload : bytes) (cost : Z) (u : unit) : unit :=
  let empty := bool_decide (tasks u = []) in
  let pc := i64 (pendingCost u + cost) in
  mkUnit (key u)
    (tasks u ++ [mkTask (nextSeq u) payload cost])
    (enqAt u ++ [now])
    (i64 (nextSeq u + 1))
    pc
    (threshold u) (maxWait u)
    (if empty then now else oldestPending u)
    (if empty then now + maxWait u else flushDeadline u)%Z
    (if (threshold u <=? pc)%Z then true else eligible u)
    (claimedBy u) (lease u) (leaseDur u) (leaseExpires u) (attempts u).

Definition Enqueue (e : Env) (k : WorkUnitKey) (payload : bytes) (cost : Z) (b : Backend) :
    Backend * res Z :=
  let u := default (new_unit k b) (units b !! k) in
  (put_unit k (enqueue_unit (env_now e 0) payload cost u) b, Ok (nextSeq u)).

(** ** Claim *)

(** the loop's [continue] guard, negated *)
Definition claimable (u : unit) : bool :=
  eligible u && bool_decide (claimedBy u = "") && negb (bool_decide (tasks u = [])).

(** [u.flushDeadline.Before(best.flushDeadline) || (Equal && u.key.String() < ...)] *)
Definition better (u best : unit) : bool :=
  (flushDeadline u <? flushDeadline best)%Z
  || ((flushDeadline u =? flushDeadline best)%Z
      && str_lt (key_String (key u)) (key_String (key best))).

(** [for _, u := range b.units]: the map entry of the best unit so far *)
Fixpoint claim_scan (m : gmap WorkUnitKey unit) (ks : list WorkUnitKey)
    (best : option (WorkUnitKey * unit)) : option (WorkUnitKey * unit) :=
  match ks with
  | [] => best
  | k :: ks =>
      match m !! k with
      | None => claim_scan m ks best
      | Some u =>
          if claimable u then
            match best with
            | None => claim_scan m ks (Some (k, u))
            | Some (_, v) => claim_scan m ks (if better u v then Some (k, u) else best)
            end
          else claim_scan m ks best
      end
  end.

Definition range_units (e : Env) (b : Backend) : list WorkUnitKey :=
  env_order e (elements (dom (units b))).

(** [fmt.Sprintf("%s-%d", worker, b.leaseCounter)] *)
Definition lease_token (w : WorkerID) (n : Z) : LeaseToken := w +:+ "-" +:+ pretty n.

Definition Claim (e : Env) (w : WorkerID) (d : duration) (b : Backend) :
    Backend * res (option ClaimedUnit) :=
  match claim_scan (units b) (range_units e b) None with
  | None => (b, Ok None)
  | Some (k, best) =>
      let n := i64 (leaseCounter b + 1) in
      let tok := lease_token w n in
      let exp := (env_now e 0 + d)%Z in
      let best := set_claim w tok d exp best in
      (mkBackend (<[k := best]> (units b)) (dlq b) n (b_threshold b) (b_maxWait b)
         (maxAttempts b),
       Ok (Some (mkClaimed (key best) w tok exp)))
  end.

(** ** Drain and Ack *)

Definition held (c : ClaimedUnit) (b : Backend) : option unit :=
  match units b !! cu_Key c with
  | None => None
  | Some u =>
      if bool_decide (claimedBy u = cu_Worker c) && bool_decide (lease u = cu_Lease c)
      then Some u else None
  end.

(** [make([]queue.Task, n)] panics on a negative [n]. *)
Definition Drain (e : Env) (c : ClaimedUnit) (max : Z) (b : Backend) :
    Backend * res (list Task) :=
  match held c b with
  | None => (b, Err ErrLeaseLost)
  | Some u =>
      let n := if (length (tasks u) <? max)%Z then Z.of_nat (length (tasks u)) else max in
      if (n <? 0)%Z then (b, Panic) else (b, Ok (take (Z.to_nat n) (tasks u)))
  end.

(** the loop of Ack: the number of tasks it passes and the cost that is left *)
Fixpoint ack_scan (throughSeq : Z) (ts : list Task) (cost : Z) : nat * Z :=
  match ts with
  | t :: ts =>
      if (Seq t <=? throughSeq)%Z then
        let '(i, c) := ack_scan throughSeq ts (i64 (cost - Cost t)) in (S i, c)
      else (O, cost)
  | [] => (O, cost)
  end.

(** [recompute]: [None] when [u.enqAt[0]] is out of range (a panic). *)
Definition recompute (now : time) (u : unit) : option unit :=
  match enqAt u with
  | [] => None
  | t0 :: _ =>
      let fd := (t0 + maxWait u)%Z in
      Some (mkUnit (key u) (tasks u) (enqAt u) (nextSeq u) (pendingCost u) (threshold u)
        (maxWait u) t0 fd
        ((threshold u <=? pendingCost u)%Z || (negb (IsZero fd) && negb (now <? fd)%Z))
        (claimedBy u) (lease u) (leaseDur u) (leaseExpires u) (attempts u))
  end.

Definition Ack (e : Env) (c : ClaimedUnit) (throughSeq : Z) (b : Backend) :
    Backend * res bool :=
  match held c b with
  | None => (b, Err ErrLeaseLost)
  | Some u =>
      let '(i, cost) := ack_scan throughSeq (tasks u) (pendingCost u) in
      if bool_decide (length (enqAt u) < i) then
        (put_unit (cu_Key c) (set_queue (drop i (tasks u)) (enqAt u) cost u) b, Panic)
      else
      let u := set_attempts 0 (set_queue (drop i (tasks u)) (drop i (enqAt u)) cost u) in
      if bool_decide (tasks u = []) then (drop_unit (key u) b, Ok false)
      else
        match recompute (env_now e 0) u with
        | None => (put_unit (cu_Key c) u b, Panic)
        | Some u =>
            if eligible u then
              (put_unit (cu_Key c) (set_leaseExpires (env_now e 1 + leaseDur u)%Z u) b,
               Ok true)
            else (put_unit (cu_Key c) (unclaim u) b, Ok false)
        end
  end.

(** ** Release, Heartbeat, Fail *)

Definition Release (e : Env) (c : ClaimedUnit) (b : Backend) : Backend * res () :=
  match held c b with
  | None => (b, Err ErrLeaseLost)
  | Some u => (put_unit (cu_Key c) (unclaim u) b, Ok tt)
  end.

Definition Heartbeat (e : Env) (c : ClaimedUnit) (extend : duration) (b : Backend) :
    Backend * res () :=
  match held c b with
  | None => (b, Err ErrLeaseLost)
  | Some u => (put_unit (cu_Key c) (set_leaseExpires (env_now e 0 + extend)%Z u) b, Ok tt)
  end.

Definition add_dead (d : DeadLetter) (b : Backend) : Backend :=
  mkBackend (units b) (dlq b ++ [d]) (leaseCounter b) (b_threshold b) (b_maxWait b)
    (maxAttempts b).

Definition Fail (e : Env) (c : ClaimedUnit) (seq : Z) (reason : string) (b : Backend) :
    Backend * res () :=
  match held c b with
  | None => (b, Err ErrLeaseLost)
  | Some u =>
      let u := set_attempts (i64 (attempts u + 1)) u in
      let release u b := (put_unit (cu_Key c) (unclaim u) b, Ok tt) in
      match tasks u with
      | hd :: tl =>
          if (maxAttempts b <=? attempts u)%Z && (Seq hd =? seq)%Z then
            let b := add_dead (mkDead (key u) hd reason) b in
            let cost := i64 (pendingCost u - Cost hd) in
            match enqAt u with
            | [] => (put_unit (cu_Key c) (set_queue tl [] cost u) b, Panic)
            | _ :: at_ =>
                let u := set_attempts 0 (set_queue tl at_ cost u) in
                if bool_decide (tl = []) then (drop_unit (key u) b, Ok tt)
                else
                  match recompute (env_now e 0) u with
                  | None => (put_unit (cu_Key c) u b, Panic)
                  | Some u => release u b
                  end
            end
          else release u b
      | [] => release u b
      end
  end.

(** ** ReapExpired, Close, DeadLetters *)

(** the body of the reaper's loop on one unit: the unit, and whether it was reclaimed
    and flushed *)
Definition reap_unit (now : time) (u : unit) : unit * bool * bool :=
  let rec := negb (bool_decide (claimedBy u = "")) && (leaseExpires u <? now)%Z in
  let u := if rec then unclaim u else u in
  let fl := bool_decide (claimedBy u = "") && negb (eligible u)
            && negb (bool_decide (tasks u = []))
            && negb (IsZero (flushDeadline u)) && negb (now <? flushDeadline u)%Z in
  (if fl then set_eligible true u else u, rec, fl).

Fixpoint reap_scan (now : time) (ks : list WorkUnitKey) (b : Backend) (r f : Z) :
    Backend * (Z * Z) :=
  match ks with
  | [] => (b, (r, f))
  | k :: ks =>
      match units b !! k with
      | None => reap_scan now ks b r f
      | Some u =>
          let '(u', rec, fl) := reap_unit now u in
          reap_scan now ks (put_unit k u' b) (i64 (r + b2z rec)) (i64 (f + b2z fl))
      end
  end.

Definition ReapExpired (e : Env) (now : time) (b : Backend) :
    Backend * (Z * Z * option error) :=
  let '(b, (r, f)) := reap_scan now (range_units e b) b 0 0 in (b, (r, f, None)).

Definition Close (b : Backend) : Backend * res () := (b, Ok tt).

Definition DeadLetters (b : Backend) : list DeadLetter := dlq b.

(** the assertion that the pointer type implements [queue.Backend] *)
#[export] Instance Memory_Backend : Queue.Backend Backend := {|
  be_Enqueue := Enqueue;
  be_Claim := Claim;
  be_Drain := Drain;
  be_Ack := Ack;
  be_Release := Release;
  be_Heartbeat := Heartbeat;
  be_Fail := Fail;
  be_ReapExpired := ReapExpired;
  be_Close := Close;
|}.
