(* ===== verification/MemoryFacts.v ===== *)
(** MemoryFacts: the well-formedness invariant of the in-memory driver and what each of
    its operations does, ending in the [Strict] instance the generic theorems use. *)
From S2P Require Import Prelude Queue Contract Memory.

(** ** The abstract view *)

#[export] Instance Memory_View : View Backend := {|
  pending b k := match units b !! k with Some u => tasks u | None => [] end;
  holds b c := bool_decide (is_Some (held c b));
|}.

(** ** The invariant *)

(** The queue part of a unit: it is filed under its key, its two parallel slices agree,
    its sequence numbers run without a gap up to [nextSeq], the aggregate is the sum of
    the pending costs (as an [int64]), and a lease is recorded exactly while it is
    claimed. *)
Record wf_queue (n : Z) (h : gset LeaseToken) (k : WorkUnitKey) (u : unit) : Prop := {
  wf_key : key u = k;
  wf_len : length (enqAt u) = length (tasks u);
  wf_seq : consecutive (nextSeq u - length (tasks u)) (tasks u);
  wf_base : (0 ≤ nextSeq u - length (tasks u))%Z;
  wf_next : (nextSeq u ≤ n)%Z;
  wf_cost : pendingCost u = i64 (total_cost (tasks u));
  wf_free : claimedBy u = "" → lease u = "";
  wf_lease : claimedBy u ≠ "" → lease u ∈ h;
}.

(** A stored unit: moreover it has work, its flush clock is that of its head, and it is
    eligible when it is at or above its threshold. *)
Record wf_unit (n : Z) (h : gset LeaseToken) (k : WorkUnitKey) (u : unit) : Prop := {
  wf_core :> wf_queue n h k u;
  wf_work : tasks u ≠ [];
  wf_oldest : head (enqAt u) = Some (oldestPending u);
  wf_flush : flushDeadline u = (oldestPending u + maxWait u)%Z;
  wf_gate : (threshold u ≤ pendingCost u)%Z → eligible u = true;
}.

Record wf (n : Z) (h : gset LeaseToken) (b : Backend) : Prop := {
  wf_units : map_Forall (wf_unit n h) (units b);
  wf_counter : (0 ≤ leaseCounter b ≤ n)%Z;
  wf_tokens : ∀ tok, tok ∈ h →
    ∃ w m, w ≠ "" ∧ tok = lease_token w m ∧ (0 < m ≤ leaseCounter b)%Z;
}.

Lemma wf_New n o : (0 ≤ n)%Z → wf n ∅ (New o).
Proof. intros. split; simpl; [apply map_Forall_empty|lia|set_solver]. Qed.

Lemma wf_unit_mono n n' h h' k u :
  wf_unit n h k u → (n ≤ n')%Z → h ⊆ h' → wf_unit n' h' k u.
Proof. intros [[] ????] ??. split; [split|..]; auto; first [lia | set_solver]. Qed.

Lemma wf_mono n n' h b : wf n h b → (n ≤ n')%Z → wf n' h b.
Proof.
  intros [Hu Hc Ht] Hn. split; [|lia|done].
  intros k u Hk. eapply wf_unit_mono; eauto.
Qed.

Lemma wf_lookup n h b k u : wf n h b → units b !! k = Some u → wf_unit n h k u.
Proof. intros [Hu _ _] Hk. exact (Hu k u Hk). Qed.

(** Storing a well-formed unit, or removing one, keeps the whole state well formed. *)
Lemma wf_put n h b k u : wf n h b → wf_unit n h k u → wf n h (put_unit k u b).
Proof. intros [Hu ? ?] Hk. split; [|done..]. by apply map_Forall_insert_2. Qed.

Lemma wf_drop n h b k : wf n h b → wf n h (drop_unit k b).
Proof. intros [Hu ? ?]. split; [|done..]. by apply map_Forall_delete. Qed.

Lemma wf_add_dead n h b d : wf n h b → wf n h (add_dead d b).
Proof. by intros [? ? ?]. Qed.

#[export] Hint Resolve wf_put wf_drop wf_add_dead wf_mono : plq.

(** ** Tokens *)

Lemma lease_token_inj w w' m m' :
  (0 ≤ m)%Z → (0 ≤ m')%Z → lease_token w m = lease_token w' m' → w = w' ∧ m = m'.
Proof.
  intros Hm Hm' H. unfold lease_token in H.
  apply (split_last_inj "-") in H as [-> H]; auto using pretty_no_dash.
  split; [done|]. by apply (inj pretty).
Qed.

Lemma lease_token_nonempty w m : lease_token w m ≠ "".
Proof. by destruct w. Qed.

Lemma wf_tokens_nonempty n h b tok : wf n h b → tok ∈ h → tok ≠ "".
Proof. intros Hw Htok. destruct (wf_tokens _ _ _ Hw _ Htok) as (w & m & _ & -> & _).
  apply lease_token_nonempty.
Qed.

Lemma wf_token_fresh n h b w :
  wf n h b → lease_token w (leaseCounter b + 1) ∉ h.
Proof.
  intros Hw Hin. destruct (wf_tokens _ _ _ Hw _ Hin) as (w' & m & _ & Heq & Hm).
  apply lease_token_inj in Heq; lia.
Qed.

(** ** Held handles *)

Lemma held_Some c b u :
  held c b = Some u ↔
  units b !! cu_Key c = Some u ∧ claimedBy u = cu_Worker c ∧ lease u = cu_Lease c.
Proof.
  unfold held. destruct (units b !! cu_Key c) as [v|]; [|by split; [|intros []]].
  repeat case_bool_decide; simpl; split; try done;
    first [intros [= ->] | intros ([= ->] & ? & ?)]; done.
Qed.

Lemma holds_true b c :
  holds b c = true ↔ ∃ u, held c b = Some u.
Proof. simpl. rewrite bool_decide_eq_true. done. Qed.

Lemma holds_held b c : holds b c = true ↔
  ∃ u, units b !! cu_Key c = Some u ∧ claimedBy u = cu_Worker c ∧ lease u = cu_Lease c.
Proof. rewrite holds_true. by setoid_rewrite held_Some. Qed.

Lemma holds_held_Some c b u : held c b = Some u → holds b c = true.
Proof. rewrite holds_true. eauto. Qed.

Lemma held_None_holds c b : held c b = None → holds b c = false.
Proof. simpl. intros ->. done. Qed.

(** Whether a handle is accepted depends on its unit's claim fields only. *)
Definition claim_of (b : Backend) (k : WorkUnitKey) : option (WorkerID * LeaseToken) :=
  (λ u, (claimedBy u, lease u)) <$> units b !! k.

Lemma holds_claim_of b c :
  holds b c = bool_decide (claim_of b (cu_Key c) = Some (cu_Worker c, cu_Lease c)).
Proof.
  apply bool_decide_ext. unfold claim_of. rewrite fmap_Some. split.
  - intros (u & (Hu & <- & <-)%held_Some). eauto.
  - intros (u & Hu & [= Hw Hl]). exists u. by apply held_Some.
Qed.

(** A handle with an issued token is not accepted while its unit is free. *)
Lemma free_not_held n h b c u :
  wf n h b → issued h c → units b !! cu_Key c = Some u → claimedBy u = "" →
  holds b c = false.
Proof.
  intros Hw Hc Hu Hfree. rewrite holds_claim_of. unfold claim_of. rewrite Hu. simpl.
  apply bool_decide_false. intros [= _ Hl].
  rewrite (wf_free _ _ _ _ (wf_lookup _ _ _ _ _ Hw Hu) Hfree) in Hl.
  by eapply (wf_tokens_nonempty _ _ _ _ Hw Hc).
Qed.

Lemma holds_inj b c c' :
  holds b c = true → holds b c' = true → cu_Key c = cu_Key c' → cu_Lease c = cu_Lease c'.
Proof.
  rewrite !holds_claim_of. intros H1 H2 Hk. b2p. rewrite Hk in H1. congruence.
Qed.

(** ** How the view reacts to storing a unit *)

Lemma pending_put b k u k' :
  pending (put_unit k u b) k' = if decide (k' = k) then tasks u else pending b k'.
Proof.
  simpl. rewrite lookup_insert. repeat case_decide; congruence.
Qed.

Lemma pending_drop b k k' :
  pending (drop_unit k b) k' = if decide (k' = k) then [] else pending b k'.
Proof. simpl. rewrite lookup_delete. repeat case_decide; congruence. Qed.

Lemma claim_of_put b k u k' :
  claim_of (put_unit k u b) k' =
  if decide (k' = k) then Some (claimedBy u, lease u) else claim_of b k'.
Proof.
  unfold claim_of. simpl. rewrite lookup_insert.
  repeat case_decide; simpl; congruence.
Qed.

Lemma claim_of_drop b k k' :
  claim_of (drop_unit k b) k' = if decide (k' = k) then None else claim_of b k'.
Proof.
  unfold claim_of. simpl. rewrite lookup_delete. repeat case_decide; simpl; congruence.
Qed.

(** Two states whose claims agree accept the same handles. *)
Lemma same_view_claims h b b' :
  (∀ k, pending b' k = pending b k) → (∀ k, claim_of b' k = claim_of b k) →
  same_view h b b'.
Proof. intros Hp Hc. split; [done|]. intros c _. by rewrite !holds_claim_of, Hc. Qed.

(** ** Units under the field updates *)

Lemma wf_unit_set_claim n h k u w tok d x :
  wf_unit n h k u → (w = "" → tok = "") → (w ≠ "" → tok ∈ h) →
  wf_unit n h k (set_claim w tok d x u).
Proof. intros [[] ????] ??. split; [split|..]; auto. Qed.

Lemma wf_unit_unclaim n h k u : wf_unit n h k u → wf_unit n h k (unclaim u).
Proof. intros. by apply wf_unit_set_claim. Qed.

Lemma wf_unit_set_leaseExpires n h k u x :
  wf_unit n h k u → wf_unit n h k (set_leaseExpires x u).
Proof. intros [[] ????]. split; [split|..]; auto. Qed.

Lemma wf_unit_set_attempts n h k u a : wf_unit n h k u → wf_unit n h k (set_attempts a u).
Proof. intros [[] ????]. split; [split|..]; auto. Qed.

Lemma wf_unit_set_eligible n h k u : wf_unit n h k u → wf_unit n h k (set_eligible true u).
Proof. intros [[] ????]. split; [split|..]; auto. Qed.

Lemma wf_queue_set_attempts n h k u a :
  wf_queue n h k u → wf_queue n h k (set_attempts a u).
Proof. intros []. split; auto. Qed.

#[export] Hint Resolve wf_unit_unclaim wf_unit_set_leaseExpires wf_unit_set_attempts
  wf_unit_set_eligible wf_queue_set_attempts wf_core : plq.

(** The acknowledgement loop passes the longest prefix with [Seq <= through] and
    subtracts its cost. *)
Lemma ack_scan_spec q ts x :
  ack_scan q ts (i64 x) =
  (length (take_while (through q) ts), i64 (x - total_cost (take_while (through q) ts))).
Proof.
  revert x. induction ts as [|t ts IH]; intros x; simpl.
  - rewrite total_cost_nil. do 2 f_equal. lia.
  - unfold through at 1 3. destruct (Seq t <=? q)%Z; simpl.
    + rewrite i64_sub_l, IH, total_cost_cons. do 2 f_equal. lia.
    + rewrite total_cost_nil. do 2 f_equal. lia.
Qed.

(** Consuming [i] tasks from the head keeps the queue part well formed. *)
Lemma wf_queue_consume n h k u i cost :
  wf_queue n h k u → i ≤ length (tasks u) → cost = i64 (total_cost (drop i (tasks u))) →
  wf_queue n h k (set_queue (drop i (tasks u)) (drop i (enqAt u)) cost u).
Proof.
  intros [Hk Hl Hs Hb Hn Hc Hf Hle] Hi ->. split; simpl; try done.
  - by rewrite !length_drop, Hl.
  - rewrite <- (take_drop i (tasks u)) in Hs. apply consecutive_app in Hs as [_ Hs].
    rewrite length_take_le in Hs by done. rewrite length_drop.
    replace (nextSeq u - (length (tasks u) - i)%nat)%Z
      with (nextSeq u - length (take i (tasks u) ++ drop i (tasks u)) + i)%Z; [done|].
    rewrite take_drop. lia.
  - rewrite length_drop. lia.
Qed.

(** [recompute] does not panic on a unit with work, restores the head-derived fields, and
    decides eligibility afresh. *)
(** The unit once its first [i] tasks are gone and its gate is recomputed: the flush clock
    restarts from the enqueue time of the new head. *)
Definition advance (now : time) (i : nat) (u : unit) : unit :=
  let ts := drop i (tasks u) in
  let t0 := default 0%Z (head (drop i (enqAt u))) in
  let cost := i64 (total_cost ts) in
  let fd := (t0 + maxWait u)%Z in
  mkUnit (key u) ts (drop i (enqAt u)) (nextSeq u) cost (threshold u) (maxWait u) t0 fd
    ((threshold u <=? cost)%Z || (negb (IsZero fd) && negb (now <? fd)%Z))
    (claimedBy u) (lease u) (leaseDur u) (leaseExpires u) 0.

Lemma recompute_advance n h k now i cost u :
  wf_queue n h k u → i < length (tasks u) → cost = i64 (total_cost (drop i (tasks u))) →
  recompute now (set_attempts 0 (set_queue (drop i (tasks u)) (drop i (enqAt u)) cost u)) =
    Some (advance now i u).
Proof.
  intros Hq Hi ->. unfold recompute, advance. simpl.
  destruct (drop i (enqAt u)) as [|t0 ats] eqn:Hat; [|done].
  pose proof (wf_len _ _ _ _ Hq) as Hl. apply (f_equal length) in Hat.
  rewrite length_drop in Hat. simpl in Hat. lia.
Qed.

Lemma wf_advance n h k now i u :
  wf_queue n h k u → i < length (tasks u) → wf_unit n h k (advance now i u).
Proof.
  intros Hq Hi. pose proof (wf_len _ _ _ _ Hq) as Hl.
  destruct (wf_queue_consume n h k u i (i64 (total_cost (drop i (tasks u)))) Hq)
    as [? ? ? ? ? ? ? ?]; [lia|done|].
  split; [by split|..]; simpl.
  - intros Hd. apply (f_equal length) in Hd. rewrite length_drop in Hd. simpl in Hd. lia.
  - destruct (drop i (enqAt u)) as [|t0 ats] eqn:Hat; [|done].
    apply (f_equal length) in Hat. rewrite length_drop in Hat. simpl in Hat. lia.
  - done.
  - intros Hle. by rewrite (proj2 (Z.leb_le _ _) Hle).
Qed.

(** Appending one task to a unit (new or stored) gives a well-formed stored unit. *)
Lemma wf_enqueue_unit n h k u now p c :
  wf_queue n h k u →
  (tasks u ≠ [] → wf_unit n h k u) → (n < int64_max)%Z →
  wf_unit (n + 1) h k (enqueue_unit now p c u).
Proof.
  intros Hq Hu Hn. pose proof Hq as [Hk Hl Hs Hb Hnx Hc Hf Hle].
  assert (i64 (nextSeq u + 1) = nextSeq u + 1)%Z as Hi.
  { apply i64_id. unfold in_i64, int64_min, int64_max in *. lia. }
  split; [split|..]; simpl; try done.
  - by rewrite !length_app, Hl.
  - rewrite length_app, Hi. simpl. apply consecutive_app. split.
    + by replace (nextSeq u + 1 - (length (tasks u) + 1)%nat)%Z
        with (nextSeq u - length (tasks u))%Z by lia.
    + apply consecutive_cons. simpl. split; [lia|apply consecutive_nil].
  - rewrite length_app, Hi. simpl. lia.
  - lia.
  - rewrite Hc, i64_add_l, total_cost_app. do 2 f_equal.
    rewrite total_cost_cons, total_cost_nil. simpl. lia.
  - by destruct (tasks u).
  - case_bool_decide as Ht.
    + rewrite Ht in Hl. by destruct (enqAt u).
    + destruct (Hu Ht) as [_ _ Ho _ _]. by destruct (enqAt u).
  - case_bool_decide as Ht; [done|]. by destruct (Hu Ht).
  - intros Hge. by rewrite (proj2 (Z.leb_le _ _) Hge).
Qed.

Lemma wf_new_unit n h k b : (0 ≤ n)%Z → wf_queue n h k (new_unit k b).
Proof. intros. by split. Qed.

(** ** The operations *)

Section laws.
Context (n : Z) (h : gset LeaseToken) (b : Backend).
Context (Hwf : wf n h b) (Hn : (n < int64_max)%Z).

Lemma wf_nonneg : (0 ≤ n)%Z.
Proof. pose proof (wf_counter _ _ _ Hwf). lia. Qed.

(** Storing a unit with the same tasks and the same claim changes nothing a client
    sees. *)
Lemma put_same_view k u u' :
  units b !! k = Some u → tasks u' = tasks u → claimedBy u' = claimedBy u →
  lease u' = lease u → same_view h b (put_unit k u' b).
Proof.
  intros Hk Ht Hc Hl. apply same_view_claims; intros k'.
  - rewrite pending_put. case_decide as E; [|done]. simpl. by rewrite E, Hk.
  - rewrite claim_of_put. case_decide as E; [|done]. unfold claim_of.
    by rewrite E, Hk, Hc, Hl.
Qed.

(** Storing a freed unit, or removing a unit, is local to its key and revives
    nothing. *)
Lemma put_free_frame k u' :
  claimedBy u' = "" → lease u' = "" → frame h k b (put_unit k u' b).
Proof.
  intros Hc Hl. split_and!.
  - intros k' Hk. by rewrite pending_put, decide_False.
  - intros c _ Hk. by rewrite !holds_claim_of, claim_of_put, decide_False.
  - intros c Hi. rewrite !holds_claim_of, claim_of_put. case_decide as E; [|done].
    rewrite Hc, Hl. intros Hh. b2p. injection Hh as _ Hnil.
    by destruct (wf_tokens_nonempty _ _ _ _ Hwf Hi).
Qed.

Lemma drop_frame k : frame h k b (drop_unit k b).
Proof.
  split_and!.
  - intros k' Hk. by rewrite pending_drop, decide_False.
  - intros c _ Hk. by rewrite !holds_claim_of, claim_of_drop, decide_False.
  - intros c Hi. rewrite !holds_claim_of, claim_of_drop. by case_decide.
Qed.

(** A freed or removed unit accepts no issued handle. *)
Lemma put_free_holds c u' :
  issued h c → claimedBy u' = "" → lease u' = "" →
  holds (put_unit (cu_Key c) u' b) c = false.
Proof.
  intros Hi Hc Hl. rewrite holds_claim_of, claim_of_put, decide_True by done.
  rewrite Hc, Hl. apply bool_decide_false. intros [= _ Hnil].
  by destruct (wf_tokens_nonempty _ _ _ _ Hwf Hi).
Qed.

Lemma drop_holds c : holds (drop_unit (cu_Key c) b) c = false.
Proof. by rewrite holds_claim_of, claim_of_drop, decide_True. Qed.

Lemma held_wf c u : held c b = Some u →
  units b !! cu_Key c = Some u ∧ wf_unit n h (cu_Key c) u.
Proof.
  intros (Hk & _ & _)%held_Some. split; [done|]. by eapply wf_lookup.
Qed.

Lemma Enqueue_law e k p c :
  let b' := (Enqueue e k p c b).1 in
  wf (n + 1) h b' ∧ frame h k b b' ∧
  (∀ c', issued h c' → holds b' c' = holds b c') ∧
  ∃ q, (Enqueue e k p c b).2 = Ok q ∧ pending b' k = pending b k ++ [mkTask q p c].
Proof.
  unfold Enqueue. set (u := default _ _). simpl fst; simpl snd.
  assert (wf_queue n h k u ∧ (tasks u ≠ [] → wf_unit n h k u) ∧ pending b k = tasks u)
    as (Hq & Hu & Hp).
  { subst u. simpl. destruct (units b !! k) as [u|] eqn:Hk; simpl.
    - pose proof (wf_lookup _ _ _ _ _ Hwf Hk) as Hu. split_and!; auto with plq.
    - split_and!; [apply wf_new_unit, wf_nonneg|done|done]. }
  assert (∀ c', issued h c' →
    holds (put_unit k (enqueue_unit (env_now e 0) p c u) b) c' = holds b c') as Hh.
  { intros c' Hi. rewrite !holds_claim_of, claim_of_put. case_decide as E; [|done].
    unfold claim_of. rewrite E. subst u. simpl.
    destruct (units b !! k) as [u|]; simpl; [done|].
    apply bool_decide_false. intros [= _ Hnil].
    by destruct (wf_tokens_nonempty _ _ _ _ Hwf Hi). }
  split_and!; auto.
  - apply wf_put; [eapply wf_mono; [done|lia]|]. by apply wf_enqueue_unit.
  - split_and!; [|auto|by intros c' Hi; rewrite Hh].
    intros k' Hne. by rewrite pending_put, decide_False.
  - eexists. split; [done|]. rewrite pending_put, decide_True by done. by rewrite Hp.
Qed.

Lemma Drain_law e c max : (0 < max)%Z →
  Drain e c max b =
    (b, if holds b c then Ok (take (Z.to_nat max) (pending b (cu_Key c)))
        else Err ErrLeaseLost).
Proof.
  intros Hmax. unfold Drain. destruct (held c b) as [u|] eqn:Hh.
  - rewrite (holds_held_Some _ _ _ Hh). apply held_wf in Hh as [Hk _].
    cbn [pending Memory_View]. rewrite Hk.
    destruct (Z.ltb_spec (length (tasks u)) max); cbv zeta;
      rewrite (proj2 (Z.ltb_ge _ 0)) by lia; [|done].
    do 2 f_equal. rewrite Nat2Z.id, !take_ge; [done|lia|lia].
  - by rewrite held_None_holds.
Qed.

Lemma Heartbeat_law e c d :
  let r := Heartbeat e c d b in
  wf n h r.1 ∧ same_view h b r.1 ∧
  r.2 = (if holds b c then Ok tt else Err ErrLeaseLost).
Proof.
  unfold Heartbeat. destruct (held c b) as [u|] eqn:Hh; cbn [fst snd].
  - rewrite (holds_held_Some _ _ _ Hh). apply held_wf in Hh as [Hk Hu].
    split_and!; [|by eapply put_same_view|done].
    apply wf_put; eauto with plq.
  - rewrite (held_None_holds _ _ Hh). by split_and!; auto with plq.
Qed.

Lemma Release_law e c : issued h c →
  let r := Release e c b in
  wf n h r.1 ∧
  if holds b c then
    frame h (cu_Key c) b r.1 ∧ pending r.1 (cu_Key c) = pending b (cu_Key c) ∧
    holds r.1 c = false ∧ r.2 = Ok tt
  else same_view h b r.1 ∧ r.2 = Err ErrLeaseLost.
Proof.
  intros Hi. unfold Release. destruct (held c b) as [u|] eqn:Hh; cbn [fst snd].
  - rewrite (holds_held_Some _ _ _ Hh). apply held_wf in Hh as [Hk Hu].
    split_and!; [|by apply put_free_frame| |by apply put_free_holds|done].
    + apply wf_put; eauto with plq.
    + rewrite pending_put, decide_True by done. simpl. by rewrite Hk.
  - rewrite (held_None_holds _ _ Hh). by split_and!; auto with plq.
Qed.

(** What an accepted acknowledgement leaves: nothing (the unit is removed), or the rest
    of the FIFO under recomputed metadata, still leased when that unit is eligible. *)
Definition acked (q : Z) (u : unit) : nat := length (take_while (through q) (tasks u)).

Lemma acked_lt q u :
  drop_while (through q) (tasks u) ≠ [] → acked q u < length (tasks u).
Proof.
  unfold acked. intros Hne. pose proof (take_while_length (through q) (tasks u)).
  destruct (decide (length (take_while (through q) (tasks u)) = length (tasks u))) as [He|];
    [|lia].
  destruct Hne. by rewrite <- drop_while_drop, He, drop_all.
Qed.

(** What an accepted acknowledgement does, on each of its three branches. *)
Lemma Ack_held e c q u :
  held c b = Some u →
  Ack e c q b =
    if bool_decide (drop_while (through q) (tasks u) = []) then
      (drop_unit (cu_Key c) b, Ok false)
    else
      let u' := advance (env_now e 0) (acked q u) u in
      if eligible u' then
        (put_unit (cu_Key c) (set_leaseExpires (env_now e 1 + leaseDur u)%Z u') b, Ok true)
      else (put_unit (cu_Key c) (unclaim u') b, Ok false).
Proof.
  intros Hh. pose proof (held_wf _ _ Hh) as [_ Hu]. unfold Ack. rewrite Hh.
  pose proof (wf_core _ _ _ _ Hu) as Hq.
  rewrite (wf_cost _ _ _ _ Hq), ack_scan_spec.
  change (length (take_while (through q) (tasks u))) with (acked q u).
  pose proof (take_while_length (through q) (tasks u)) as Hi.
  rewrite bool_decide_false by (rewrite (wf_len _ _ _ _ Hq); unfold acked; lia).
  assert (drop (acked q u) (tasks u) = drop_while (through q) (tasks u)) as Hd
    by apply drop_while_drop.
  assert (total_cost (tasks u) - total_cost (take_while (through q) (tasks u)) =
          total_cost (drop (acked q u) (tasks u)))%Z as ->.
  { rewrite Hd, <- (take_drop_while (through q) (tasks u)) at 1.
    rewrite total_cost_app. lia. }
  cbv zeta. rewrite <- Hd. cbn [tasks set_attempts set_queue].
  case_bool_decide as Hrest; [by rewrite <- (wf_key _ _ _ _ Hq)|].
  by rewrite (recompute_advance n h (cu_Key c)) by
    (done || (apply acked_lt; by rewrite <- Hd)).
Qed.

Lemma Ack_law e c q : issued h c →
  let r := Ack e c q b in
  wf n h r.1 ∧
  if holds b c then
    frame h (cu_Key c) b r.1 ∧
    pending r.1 (cu_Key c) = drop_while (through q) (pending b (cu_Key c)) ∧
    r.2 = Ok (holds r.1 c)
  else same_view h b r.1 ∧ r.2 = Err ErrLeaseLost.
Proof.
  intros Hi. destruct (held c b) as [u|] eqn:Hh.
  - rewrite (holds_held_Some _ _ _ Hh). pose proof (held_wf _ _ Hh) as [Hk Hu].
    assert (pending b (cu_Key c) = tasks u) as -> by (cbn [pending Memory_View]; by rewrite Hk).
    apply held_Some in Hh as Hh'. destruct Hh' as (_ & Hcb & Hle).
    rewrite (Ack_held e c q u Hh). case_bool_decide as Hrest.
    { cbn [fst snd]. rewrite Hrest.
      split_and!; [auto with plq|apply drop_frame| |by rewrite drop_holds].
      by rewrite pending_drop, decide_True. }
    cbv zeta. set (u' := advance _ _ u).
    assert (wf_unit n h (cu_Key c) u') as Hu' by (apply wf_advance; [apply Hu|by apply acked_lt]).
    assert (tasks u' = drop_while (through q) (tasks u)) as Ht by apply drop_while_drop.
    assert (claimedBy u' = claimedBy u ∧ lease u' = lease u) as [Hcb' Hle'] by done.
    clearbody u'. destruct (eligible u'); cbn [fst snd].
    + assert (holds (put_unit (cu_Key c)
        (set_leaseExpires (env_now e 1 + leaseDur u) u') b) c = true) as Hheld.
      { rewrite holds_claim_of, claim_of_put, decide_True by done.
        apply bool_decide_true. simpl. congruence. }
      split_and!.
      * apply wf_put; eauto with plq.
      * split_and!.
        -- intros k' Hne'. by rewrite pending_put, decide_False.
        -- intros c' _ Hne'. by rewrite !holds_claim_of, claim_of_put, decide_False.
        -- intros c' _. rewrite !holds_claim_of, claim_of_put. case_decide as E; [|done].
           simpl. unfold claim_of. rewrite E, Hk. simpl. by rewrite Hcb', Hle'.
      * by rewrite pending_put, decide_True.
      * by rewrite Hheld.
    + split_and!; [| by apply put_free_frame | | by rewrite put_free_holds].
      * apply wf_put; eauto with plq.
      * by rewrite pending_put, decide_True.
  - rewrite (held_None_holds _ _ Hh). unfold Ack. rewrite Hh. cbn [fst snd].
    by split_and!; auto with plq.
Qed.

(** What an accepted failure report leaves: the unit freed, with the same tasks or,
    when its head is the failing task and has used up its attempts, without its head,
    which is then the last dead letter. *)
Definition at_cap (q : Z) (u : unit) : bool :=
  match tasks u with
  | hd :: _ => (maxAttempts b <=? i64 (attempts u + 1))%Z && (Seq hd =? q)%Z
  | [] => false
  end.

Lemma Fail_held e c q reason u :
  held c b = Some u →
  Fail e c q reason b =
    (match tasks u with
     | hd :: tl =>
         if at_cap q u then
           let b' := add_dead (mkDead (cu_Key c) hd reason) b in
           if bool_decide (tl = []) then drop_unit (cu_Key c) b'
           else put_unit (cu_Key c) (unclaim (advance (env_now e 0) 1 u)) b'
         else put_unit (cu_Key c) (unclaim (set_attempts (i64 (attempts u + 1)) u)) b
     | [] => b
     end, Ok tt).
Proof.
  intros Hh. pose proof (held_wf _ _ Hh) as [_ Hu]. unfold Fail. rewrite Hh. cbv zeta.
  pose proof (wf_core _ _ _ _ Hu) as Hq. pose proof (wf_work _ _ _ _ Hu) as Hne.
  unfold at_cap. simpl tasks. simpl attempts.
  destruct (tasks u) as [|hd tl] eqn:Ht; [done|].
  destruct ((maxAttempts b <=? i64 (attempts u + 1))%Z && (Seq hd =? q)%Z); [|done].
  pose proof (wf_len _ _ _ _ Hq) as Hl. rewrite Ht in Hl. simpl enqAt.
  destruct (enqAt u) as [|t0 ats] eqn:Ha; [done|]. simpl key.
  rewrite (wf_key _ _ _ _ Hq). case_bool_decide as Htl; [done|].
  pose proof (recompute_advance n h (cu_Key c) (env_now e 0) 1 (i64 (pendingCost u - Cost hd))
    u Hq) as Hr. rewrite Ht, Ha in Hr. unfold set_attempts, set_queue in Hr |- *.
  simpl in Hr |- *. rewrite !drop_0 in Hr. rewrite Hr; [done| |].
  - destruct tl; [done|simpl; lia].
  - rewrite (wf_cost _ _ _ _ Hq), Ht, i64_sub_l, total_cost_cons. f_equal. lia.
Qed.

Lemma Fail_law e c q reason : issued h c →
  let r := Fail e c q reason b in
  wf n h r.1 ∧
  if holds b c then
    frame h (cu_Key c) b r.1 ∧ holds r.1 c = false ∧ r.2 = Ok tt ∧
    (pending r.1 (cu_Key c) = pending b (cu_Key c) ∨
     ∃ t ts, pending b (cu_Key c) = t :: ts ∧ Seq t = q ∧ pending r.1 (cu_Key c) = ts)
  else same_view h b r.1 ∧ r.2 = Err ErrLeaseLost.
Proof.
  intros Hi. destruct (held c b) as [u|] eqn:Hh.
  - rewrite (holds_held_Some _ _ _ Hh). pose proof (held_wf _ _ Hh) as [Hk Hu].
    assert (pending b (cu_Key c) = tasks u) as -> by (cbn [pending Memory_View]; by rewrite Hk).
    rewrite (Fail_held e c q reason u Hh). cbn [fst snd]. unfold at_cap.
    pose proof (wf_work _ _ _ _ Hu) as Hne.
    destruct (tasks u) as [|hd tl] eqn:Ht; [done|].
    destruct ((maxAttempts b <=? i64 (attempts u + 1))%Z && (Seq hd =? q)%Z) eqn:Hcap.
    + apply andb_true_iff in Hcap as [_ Hs%Z.eqb_eq]. cbv zeta. case_bool_decide as Htl.
      * split_and!; [auto with plq|exact (drop_frame (cu_Key c))|exact (drop_holds c)|done|].
        right. exists hd, tl. split_and!; [done..|].
        change (pending (drop_unit (cu_Key c) b) (cu_Key c) = tl).
        by rewrite pending_drop, decide_True.
      * assert (wf_unit n h (cu_Key c) (advance (env_now e 0) 1 u)) as Hw'.
        { apply wf_advance; [apply Hu|]. rewrite Ht. destruct tl; [done|simpl; lia]. }
        set (u' := advance _ _ u) in *.
        assert (tasks u' = tl) as Ht' by (subst u'; simpl; by rewrite Ht).
        split_and!; [|exact (put_free_frame (cu_Key c) (unclaim u') eq_refl eq_refl)
          |exact (put_free_holds c (unclaim u') Hi eq_refl eq_refl)|done|].
        -- apply wf_put; eauto with plq.
        -- right. exists hd, tl. split_and!; [done..|].
           change (pending (put_unit (cu_Key c) (unclaim u') b) (cu_Key c) = tl).
           by rewrite pending_put, decide_True.
    + split_and!; [|by apply put_free_frame|by apply put_free_holds|done|].
      * apply wf_put; eauto with plq.
      * left. by rewrite pending_put, decide_True.
  - rewrite (held_None_holds _ _ Hh). unfold Fail. rewrite Hh. cbn [fst snd].
    by split_and!; auto with plq.
Qed.
End laws.

(** ** Claim: the age-fair choice *)

Lemma better_trans u v w : better u v = true → better v w = true → better u w = true.
Proof.
  unfold better. intros [H1|H1]%orb_true_iff [H2|H2]%orb_true_iff; b2p;
    apply orb_true_iff.
  - left. apply Z.ltb_lt. lia.
  - left. apply Z.ltb_lt. lia.
  - left. apply Z.ltb_lt. lia.
  - right. apply andb_true_iff. split; [apply Z.eqb_eq; lia|by eapply str_lt_trans].
Qed.

Lemma better_irrefl u : better u u = false.
Proof. unfold better. by rewrite Z.ltb_irrefl, str_lt_irrefl, andb_false_r. Qed.

(** Of two units filed under keys that print differently, one is better. *)
Lemma better_total u v :
  key_String (key u) ≠ key_String (key v) → better u v = true ∨ better v u = true.
Proof.
  intros Hne. unfold better.
  destruct (Z.lt_total (flushDeadline u) (flushDeadline v)) as [H|[H|H]].
  - left. by rewrite (proj2 (Z.ltb_lt _ _) H).
  - rewrite H, Z.ltb_irrefl, Z.eqb_refl. simpl. by apply str_lt_total.
  - right. by rewrite (proj2 (Z.ltb_lt _ _) H).
Qed.

(** [best_of m ks k u]: the unit filed under [k] is claimable and no claimable unit of
    [ks] is better. *)
Definition best_of (m : gmap WorkUnitKey unit) (ks : list WorkUnitKey)
    (k : WorkUnitKey) (u : unit) : Prop :=
  m !! k = Some u ∧ claimable u = true ∧
  ∀ k' v, k' ∈ ks → m !! k' = Some v → claimable v = true → better v u = false.

Lemma claim_scan_Some m ks ks0 k0 u0 :
  best_of m ks0 k0 u0 →
  ∃ k u, claim_scan m ks (Some (k0, u0)) = Some (k, u) ∧
    best_of m (ks0 ++ ks) k u ∧ (k = k0 ∨ k ∈ ks).
Proof.
  revert ks0 k0 u0. induction ks as [|k ks IH]; intros ks0 k0 u0 Hb; simpl.
  { exists k0, u0. rewrite app_nil_r. auto. }
  assert (∀ k1 u1, best_of m (ks0 ++ [k]) k1 u1 → (k1 = k0 ∨ k1 = k) →
    ∃ k' u', claim_scan m ks (Some (k1, u1)) = Some (k', u') ∧
      best_of m (ks0 ++ k :: ks) k' u' ∧ (k' = k0 ∨ k' ∈ k :: ks)) as Hgo.
  { intros k1 u1 Hb1 Hk1. destruct (IH _ _ _ Hb1) as (k' & u' & Hs & Hb' & Hk').
    exists k', u'. rewrite <- (assoc_L (++)) in Hb'. split_and!; [done..|].
    rewrite elem_of_cons. tauto || (destruct Hk' as [->|]; tauto). }
  destruct Hb as (Hm & Hc & Hmin).
  assert ((∀ v, m !! k = Some v → claimable v = true → better v u0 = false) →
    best_of m (ks0 ++ [k]) k0 u0) as Hkeep.
  { intros Hv. split_and!; [done..|]. intros k' v [Hk'| ->%list_elem_of_singleton]%elem_of_app;
      [by apply Hmin|apply Hv]. }
  destruct (m !! k) as [u|] eqn:Hk; [|by apply Hgo; [apply Hkeep|left]].
  destruct (claimable u) eqn:Hcl; [|apply Hgo; [apply Hkeep; congruence|by left]].
  destruct (better u u0) eqn:Hbet; [|apply Hgo; [apply Hkeep; congruence|by left]].
  apply Hgo; [|auto]. split_and!; [done..|].
  intros k' v [Hk'| ->%list_elem_of_singleton]%elem_of_app Hv Hcv.
  - destruct (better v u) eqn:Hvu; [|done].
    pose proof (better_trans _ _ _ Hvu Hbet). rewrite (Hmin k' v Hk' Hv Hcv) in *. done.
  - simplify_eq. apply better_irrefl.
Qed.

(** The scan of a range over the map returns a best claimable unit, or nothing when no
    unit of the range is claimable. *)
Lemma claim_scan_spec m ks :
  match claim_scan m ks None with
  | Some (k, u) => best_of m ks k u ∧ k ∈ ks
  | None => ∀ k u, k ∈ ks → m !! k = Some u → claimable u = false
  end.
Proof.
  induction ks as [|k ks IH]; simpl; [by intros ?? ?%elem_of_nil|].
  destruct (m !! k) as [u|] eqn:Hk; [destruct (claimable u) eqn:Hcl|].
  - destruct (claim_scan_Some m ks [k] k u) as (k' & u' & -> & Hb & Hin).
    { split_and!; [done..|]. intros k' v ->%list_elem_of_singleton Hv _. simplify_eq.
      apply better_irrefl. }
    split; [done|]. set_solver.
  - destruct (claim_scan m ks None) as [[k' u']|]; [destruct IH as [(Hm & Hc & Hb) Hin]|].
    + split; [|set_solver]. split_and!; [done..|]. intros k'' v [->|H]%elem_of_cons Hv Hcv;
        [congruence|by eapply Hb].
    + intros k' u' [->|H]%elem_of_cons Hu'; [congruence|by eapply IH].
  - destruct (claim_scan m ks None) as [[k' u']|]; [destruct IH as [(Hm & Hc & Hb) Hin]|].
    + split; [|set_solver]. split_and!; [done..|]. intros k'' v [->|H]%elem_of_cons Hv Hcv;
        [congruence|by eapply Hb].
    + intros k' u' [->|H]%elem_of_cons Hu'; [congruence|by eapply IH].
Qed.

Lemma claimable_free u : claimable u = true →
  eligible u = true ∧ claimedBy u = "" ∧ tasks u ≠ [].
Proof. unfold claimable. intros H. b2p. auto. Qed.

Section range.
Context (e : Env) (Horder : order_ok e).

Lemma elem_of_range b k : k ∈ range_units e b ↔ is_Some (units b !! k).
Proof.
  unfold range_units. rewrite (Horder _), elem_of_elements. apply elem_of_dom.
Qed.

Lemma NoDup_range b : NoDup (range_units e b).
Proof. unfold range_units. rewrite (Horder _). apply NoDup_elements. Qed.

Lemma best_of_range b k u k' v :
  best_of (units b) (range_units e b) k u → units b !! k' = Some v →
  claimable v = true → better v u = false.
Proof. intros (_ & _ & Hb) Hv. apply (Hb k'); [|done]. apply elem_of_range. eauto. Qed.
End range.

Lemma Claim_law n h b e w d :
  wf n h b → (n < int64_max)%Z → order_ok e → w ≠ "" →
  (∀ k, pending (Claim e w d b).1 k = pending b k) ∧
  match (Claim e w d b).2 with
  | Ok (Some c) =>
      cu_Worker c = w ∧ (cu_Lease c ∉ h) ∧
      wf (n + 1) ({[cu_Lease c]} ∪ h) (Claim e w d b).1 ∧
      holds (Claim e w d b).1 c = true ∧ pending b (cu_Key c) ≠ [] ∧
      (∀ c', issued h c' → cu_Key c' = cu_Key c → holds b c' = false) ∧
      (∀ c', issued h c' → holds (Claim e w d b).1 c' = holds b c')
  | Ok None => (Claim e w d b).1 = b ∧ ∀ k u, units b !! k = Some u → claimable u = false
  | _ => False
  end.
Proof.
  intros Hwf Hn Ho Hw. unfold Claim.
  pose proof (claim_scan_spec (units b) (range_units e b)) as Hs.
  destruct (claim_scan _ _ _) as [[k u]|]; cbn [fst snd].
  2:{ split; [done|]. split; [done|]. intros k u Hk. apply (Hs k u); [|done].
      apply elem_of_range; eauto. }
  destruct Hs as [(Hk & Hcl & _) _].
  apply claimable_free in Hcl as (_ & Hfree & Hne).
  pose proof (wf_lookup _ _ _ _ _ Hwf Hk) as Hu.
  pose proof (wf_counter _ _ _ Hwf) as Hc.
  assert (i64 (leaseCounter b + 1) = leaseCounter b + 1)%Z as ->.
  { apply i64_id. unfold in_i64, int64_min, int64_max in *. lia. }
  set (tok := lease_token w (leaseCounter b + 1)).
  set (u' := set_claim w tok d _ u).
  pose proof (wf_token_fresh _ _ _ w Hwf) as Hfresh. fold tok in Hfresh.
  assert (key u = k) as Hkey by apply Hu.
  change (mkBackend _ _ _ _ _ _) with (put_unit k u'
    (mkBackend (units b) (dlq b) (leaseCounter b + 1) (b_threshold b) (b_maxWait b)
       (maxAttempts b))).
  set (b1 := mkBackend _ _ _ _ _ _).
  split.
  { intros k'. rewrite pending_put. case_decide as E; [|done].
    cbn [pending Memory_View]. by rewrite E, Hk. }
  simpl cu_Worker; simpl cu_Lease; simpl cu_Key. rewrite Hkey.
  split_and!; try done.
  - split; simpl.
    + apply map_Forall_insert_2.
      * apply wf_unit_set_claim; [eapply wf_unit_mono; [done|lia|set_solver]|done|set_solver].
      * intros k' v Hv. eapply wf_unit_mono; [by eapply wf_lookup|lia|set_solver].
    + lia.
    + intros t [->%elem_of_singleton|Ht]%elem_of_union.
      * exists w, (leaseCounter b + 1)%Z. split_and!; [done..|lia|lia].
      * destruct (wf_tokens _ _ _ Hwf _ Ht) as (w' & m & ? & ? & ?).
        exists w', m. split_and!; [done..|lia|lia].
  - rewrite holds_claim_of, claim_of_put, decide_True by done. by apply bool_decide_true.
  - cbn [pending Memory_View]. by rewrite Hk.
  - intros c' Hi Hck. eapply free_not_held; [done..|by rewrite Hck|done].
  - intros c' Hi. rewrite !holds_claim_of, claim_of_put. case_decide as E; [|done].
    pose proof (free_not_held _ _ _ _ u Hwf Hi ltac:(by rewrite E) Hfree) as Hnh.
    rewrite holds_claim_of in Hnh. rewrite Hnh. apply bool_decide_false.
    intros [= _ Hl]. apply Hfresh. by rewrite Hl.
Qed.

(** ** ReapExpired *)

Lemma reap_unit_spec now u :
  let '(u', rec, fl) := reap_unit now u in
  tasks u' = tasks u ∧
  (if rec then claimedBy u' = "" ∧ lease u' = "" ∧ claimedBy u ≠ "" ∧ (leaseExpires u < now)%Z
   else claimedBy u' = claimedBy u ∧ lease u' = lease u) ∧
  eligible u' = fl || eligible u.
Proof.
  unfold reap_unit. destruct (negb (bool_decide (claimedBy u = "")) && _)%bool eqn:Hrec; b2p;
    case_goal; by split_and!.
Qed.

Lemma wf_reap_unit n h k now u : wf_unit n h k u → wf_unit n h k (reap_unit now u).1.1.
Proof. intros. unfold reap_unit. repeat case_goal; simpl; auto with plq. Qed.

(** A range without repetition visits every unit once: the loop maps [reap_unit] over
    them and counts. *)
Lemma reap_scan_units now ks b r f k :
  NoDup ks →
  units (reap_scan now ks b r f).1 !! k =
  (if decide (k ∈ ks) then (λ u, (reap_unit now u).1.1) <$> units b !! k else units b !! k).
Proof.
  intros Hnd. revert b r f. induction Hnd as [|k' ks Hk' Hnd IH]; intros b r f; cbn [reap_scan].
  { done. }
  destruct (units b !! k') as [u|] eqn:Hu.
  - destruct (reap_unit now u) as [[u' rec] fl] eqn:Hr. rewrite IH.
    cbn [units put_unit set_units].
    destruct (decide (k = k')) as [->|Hne].
    + rewrite decide_False by done. rewrite decide_True by set_solver.
      rewrite lookup_insert_eq, Hu. cbn [fmap option_fmap option_map]. by rewrite Hr.
    + rewrite lookup_insert_ne by done. repeat case_decide; set_solver.
  - rewrite IH. destruct (decide (k = k')) as [->|Hne].
    + rewrite decide_False by done. rewrite decide_True by set_solver. by rewrite Hu.
    + repeat case_decide; set_solver.
Qed.

Lemma reap_scan_wf n h now ks b r f : wf n h b → wf n h (reap_scan now ks b r f).1.
Proof.
  revert b r f. induction ks as [|k ks IH]; intros b r f Hw; cbn [reap_scan]; [done|].
  destruct (units b !! k) as [u|] eqn:Hu; [|auto].
  destruct (reap_unit now u) as [[u' rec] fl] eqn:Hr. apply IH, wf_put; [done|].
  pose proof (wf_reap_unit _ _ _ now _ (wf_lookup _ _ _ _ _ Hw Hu)) as H.
  by rewrite Hr in H.
Qed.

Lemma ReapExpired_fst e now b :
  (ReapExpired e now b).1 = (reap_scan now (range_units e b) b 0 0).1.
Proof. unfold ReapExpired. by destruct (reap_scan _ _ _ _ _) as [? [? ?]]. Qed.

Lemma ReapExpired_units e now b k :
  order_ok e →
  units (ReapExpired e now b).1 !! k = (λ u, (reap_unit now u).1.1) <$> units b !! k.
Proof.
  intros Ho. rewrite ReapExpired_fst, reap_scan_units by by apply NoDup_range.
  case_decide as Hk; [done|]. rewrite elem_of_range in Hk by done.
  destruct (units b !! k); [|done]. by destruct Hk.
Qed.

(** the reaper's verdicts on a unit: lease expired; flushed *)
Definition reclaims (now : time) (u : unit) : bool := (reap_unit now u).1.2.
Definition flushes (now : time) (u : unit) : bool := (reap_unit now u).2.

Definition expired (now : time) (u : unit) : Prop :=
  claimedBy u ≠ "" ∧ (leaseExpires u < now)%Z.

Definition due (now : time) (u : unit) : Prop :=
  eligible u = false ∧ flushDeadline u ≠ 0%Z ∧ (flushDeadline u ≤ now)%Z.

Lemma reclaims_true now u : reclaims now u = true ↔ expired now u.
Proof.
  unfold reclaims, reap_unit, expired. cbn [fst snd].
  by rewrite andb_true_iff, negb_true_iff, bool_decide_eq_false, Z.ltb_lt.
Qed.

Lemma flushes_true now u :
  tasks u ≠ [] → flushes now u = true ↔ (claimedBy u = "" ∨ expired now u) ∧ due now u.
Proof.
  intros Hne. pose proof (reclaims_true now u) as Hrec.
  unfold reclaims, flushes, reap_unit, due, IsZero in *. cbn [fst snd] in *.
  destruct (negb (bool_decide (claimedBy u = "")) && (leaseExpires u <? now)%Z);
    simpl; rewrite !andb_true_iff, !negb_true_iff, ?bool_decide_eq_true, bool_decide_eq_false,
      Z.eqb_neq, Z.ltb_ge.
  - assert (expired now u) by (by apply Hrec). tauto.
  - assert (¬ expired now u) by (intros Hx; by apply Hrec in Hx). tauto.
Qed.

(** A unit that is due, and whose claim if any has lapsed, can be claimed after the pass. *)
Lemma reaped_claimable now u :
  tasks u ≠ [] → (claimedBy u ≠ "" → (leaseExpires u < now)%Z) →
  flushDeadline u ≠ 0%Z → (flushDeadline u ≤ now)%Z →
  claimable (reap_unit now u).1.1 = true.
Proof.
  intros Hne Hexp Hnz Hdue. pose proof (reap_unit_spec now u) as Hs.
  pose proof (reclaims_true now u) as Hrec. pose proof (flushes_true now u Hne) as Hfl.
  unfold reclaims, flushes, expired, due in *.
  destruct (reap_unit now u) as [[u' rec] fl]. cbn [fst snd] in *.
  destruct Hs as (Ht & Hc & He). unfold claimable. rewrite !andb_true_iff, negb_true_iff,
    bool_decide_eq_true, bool_decide_eq_false, Ht, He, orb_true_iff.
  destruct (decide (claimedBy u = "")) as [Hf|Hf]; split_and!; try done.
  - destruct (eligible u) eqn:Hel; [by right|left]. apply Hfl. by split_and!; [left|..].
  - destruct rec; destruct Hc as [Hc _]; [done|congruence].
  - destruct (eligible u) eqn:Hel; [by right|left]. apply Hfl. split_and!; auto.
  - destruct rec; destruct Hc as [Hc _]; [done|]. assert (false = true) by (apply Hrec; auto). done.
Qed.

Definition verdicts (p : unit → bool) (b : Backend) (ks : list WorkUnitKey) : Z :=
  list_Z_sum ((λ k, match units b !! k with Some u => b2z (p u) | None => 0%Z end) <$> ks).

Lemma verdicts_put p b k u ks :
  k ∉ ks → verdicts p (put_unit k u b) ks = verdicts p b ks.
Proof.
  intros Hk. unfold verdicts. f_equal. apply list_fmap_ext. intros i k' Hi. simpl.
  rewrite lookup_insert_ne; [done|]. intros ->. by destruct Hk; eapply list_elem_of_lookup_2.
Qed.

Lemma reap_scan_counts now ks b r f :
  NoDup ks → r = i64 r → f = i64 f →
  (reap_scan now ks b r f).2 =
    (i64 (r + verdicts (reclaims now) b ks), i64 (f + verdicts (flushes now) b ks)).
Proof.
  intros Hnd. revert b r f. induction Hnd as [|k ks Hk _ IH]; intros b r f Hr Hf;
    cbn [reap_scan].
  { unfold verdicts. cbn. by rewrite !Z.add_0_r, <- Hr, <- Hf. }
  unfold verdicts in *. rewrite !fmap_cons. cbn [list_Z_sum].
  destruct (units b !! k) as [u|] eqn:Hu; [|by rewrite IH].
  unfold reclaims at 1, flushes at 1.
  destruct (reap_unit now u) as [[u' rec] fl] eqn:Hru. cbn [fst snd].
  rewrite IH by (symmetry; apply i64_id, i64_range).
  pose proof (verdicts_put (reclaims now) b k u' ks Hk) as H1.
  pose proof (verdicts_put (flushes now) b k u' ks Hk) as H2. unfold verdicts in *.
  rewrite H1, H2, !i64_add_l. f_equal; f_equal; lia.
Qed.

Lemma verdicts_range p e b :
  order_ok e →
  verdicts p b (range_units e b) = Z.of_nat (size (filter (λ ku, p ku.2 = true) (units b))).
Proof.
  intros He. apply count_over_keys; [by apply NoDup_range|]. intros k. by apply elem_of_range.
Qed.

Lemma ReapExpired_counts e now b :
  order_ok e →
  (ReapExpired e now b).2 =
    (i64 (size (filter (λ ku, reclaims now ku.2 = true) (units b))),
     i64 (size (filter (λ ku, flushes now ku.2 = true) (units b))), None).
Proof.
  intros He. unfold ReapExpired.
  pose proof (reap_scan_counts now (range_units e b) b 0 0 (NoDup_range e He b) eq_refl eq_refl)
    as Hc. destruct (reap_scan now (range_units e b) b 0 0) as [b' [r f]]. cbn [fst snd] in *.
  rewrite !verdicts_range in Hc by done. by injection Hc as -> ->.
Qed.

Lemma ReapExpired_law n h b e now :
  wf n h b → order_ok e →
  wf n h (ReapExpired e now b).1 ∧
  (∀ k, pending (ReapExpired e now b).1 k = pending b k) ∧
  no_revival h b (ReapExpired e now b).1.
Proof.
  intros Hwf Ho. split_and!.
  - rewrite ReapExpired_fst. by apply reap_scan_wf.
  - intros k. cbn [pending Memory_View]. rewrite ReapExpired_units by done.
    destruct (units b !! k) as [u|]; [|done]. cbn [fmap option_fmap option_map].
    pose proof (reap_unit_spec now u) as H. destruct (reap_unit now u) as [[u' rec] fl].
    apply H.
  - intros c Hi. rewrite !holds_claim_of. unfold claim_of. rewrite ReapExpired_units by done.
    destruct (units b !! cu_Key c) as [u|]; [|done]. cbn [fmap option_fmap option_map].
    pose proof (reap_unit_spec now u) as H. destruct (reap_unit now u) as [[u' rec] fl].
    destruct H as (_ & Hr & _). simpl. intros Hh. b2p. injection Hh as Hcb Hl.
    apply bool_decide_true. destruct rec; [|by destruct Hr as [<- <-]; rewrite Hcb, Hl].
    destruct Hr as (_ & Hnil & _). rewrite Hnil in Hl.
    by destruct (wf_tokens_nonempty _ _ _ _ Hwf Hi).
Qed.

(** ** The driver satisfies the strict contract *)

#[export] Instance Memory_Strict : Strict Backend.
Proof.
  refine {| s_inv := wf; s_env_ok := order_ok; s_token_fresh := λ _ _, True;
    s_capacity := int64_max |}.
  - intros n n' h s Hw [Hn _]. eauto with plq.
  - intros n h s k Hw. cbn [pending Memory_View].
    destruct (units s !! k) as [u|] eqn:Hu; [|exists 0%Z; apply consecutive_nil].
    eexists. apply (wf_lookup _ _ _ _ _ Hw Hu).
  - intros n h s c c' _ _ _ Hk H1 H2. by eapply holds_inj.
  - intros n h e k p c s s' r Hw Hn _ [= <- <-].
    destruct (Enqueue_law n h s Hw Hn e k p c) as (? & ? & ? & q & [= <-] & ?). auto.
  - intros n h e w d s s' r Hw Hn He _ Hne Hr. cbn [be_Claim Memory_Backend] in Hr.
    destruct (Claim_law n h s e w d Hw Hn He Hne) as [Hp Hc]. rewrite Hr in Hp, Hc.
    split; [done|]. destruct r as [[c|]|err|]; [done|..|done|done].
    destruct Hc as [[= ->] _]. split; [eapply wf_mono; [done|lia]|done].
  - intros n h e c max s s' r Hw He Hi Hm Hr. cbn [be_Drain Memory_Backend] in Hr.
    rewrite (Drain_law n h s Hw) in Hr by done. injection Hr as <- <-.
    by split_and!.
  - intros n h e c q s s' r Hw He Hi Hr. cbn [be_Ack Memory_Backend] in Hr.
    pose proof (Ack_law n h s Hw e c q Hi) as H. by rewrite Hr in H.
  - intros n h e c s s' r Hw He Hi Hr. cbn [be_Release Memory_Backend] in Hr.
    pose proof (Release_law n h s Hw e c Hi) as H. by rewrite Hr in H.
  - intros n h e c d s s' r Hw He Hi Hr. cbn [be_Heartbeat Memory_Backend] in Hr.
    pose proof (Heartbeat_law n h s Hw e c d) as H. rewrite Hr in H.
    destruct H as (? & ? & Heq). cbn [snd] in Heq. subst r. split_and!; [done..|].
    by destruct (holds s c).
  - intros n h e c q reason s s' r Hw He Hi Hr. cbn [be_Fail Memory_Backend] in Hr.
    pose proof (Fail_law n h s Hw e c q reason Hi) as H. rewrite Hr in H.
    destruct H as [? H]. split; [done|]. destruct (holds s c); [by left|done].
  - intros n h e now s s' r Hw He Hr. cbn [be_ReapExpired Memory_Backend] in Hr.
    pose proof (ReapExpired_law n h s e now Hw He) as H. by rewrite Hr in H.
Defined.
