(* ===== verification/MemoryRun.v ===== *)
(** MemoryRun: whole histories of the in-memory driver (internal/memory/backend.go), any
    calls in any order with any handles, forged ones included; the invariants such a
    history keeps: well-formedness, and the gate (a unit is eligible only because it has
    accumulated the threshold or because its head has waited long enough). *)
From S2P Require Import Prelude Queue Contract Memory MemoryFacts.

(** ** Calls *)

Inductive mcall :=
  | CEnqueue (k : WorkUnitKey) (p : bytes) (cost : Z)
  | CClaim (w : WorkerID) (d : duration)
  | CDrain (c : ClaimedUnit) (max : Z)
  | CAck (c : ClaimedUnit) (q : Z)
  | CRelease (c : ClaimedUnit)
  | CHeartbeat (c : ClaimedUnit) (d : duration)
  | CFail (c : ClaimedUnit) (q : Z) (reason : string)
  | CReap (now : time).

Definition exec_call (e : Env) (x : mcall) (b : Backend) : Backend :=
  match x with
  | CEnqueue k p c => (Enqueue e k p c b).1
  | CClaim w d => (Claim e w d b).1
  | CDrain c max => (Drain e c max b).1
  | CAck c q => (Ack e c q b).1
  | CRelease c => (Release e c b).1
  | CHeartbeat c d => (Heartbeat e c d b).1
  | CFail c q reason => (Fail e c q reason b).1
  | CReap now => (ReapExpired e now b).1
  end.

(** the tokens a call issues *)
Definition issues (e : Env) (x : mcall) (b : Backend) : gset LeaseToken :=
  match x with
  | CClaim w d =>
      match (Claim e w d b).2 with Ok (Some c) => {[cu_Lease c]} | _ => ∅ end
  | _ => ∅
  end.

(** What the driver's users respect: worker ids are not empty, costs are not negative and
    the costs pending on a unit do not overflow, and no time read is past [T]. *)
Definition call_ok (T : time) (b : Backend) (x : mcall) : Prop :=
  match x with
  | CEnqueue k _ c => (0 ≤ c)%Z ∧ (total_cost (pending b k) + c ≤ int64_max)%Z
  | CClaim w _ => w ≠ ""
  | CReap now => (now ≤ T)%Z
  | _ => True
  end.

Section runs.
Context (o : Options) (T : time).

Inductive run : Z → gset LeaseToken → Backend → Prop :=
| run_new : run 0 ∅ (New o)
| run_call n h b e x :
    run n h b → (n < int64_max)%Z → order_ok e → (∀ i, env_now e i ≤ T)%Z →
    call_ok T b x →
    run (n + 1) (issues e x b ∪ h) (exec_call e x b).

(** ** Well-formedness *)

Lemma wf_call n h b e x :
  wf n h b → (n < int64_max)%Z → order_ok e → call_ok T b x →
  wf (n + 1) (issues e x b ∪ h) (exec_call e x b).
Proof.
  intros Hw Hn He Hx.
  assert (∀ b', wf n h b' → wf (n + 1) (∅ ∪ h) b') as Hup.
  { intros b' Hb'. rewrite (left_id_L ∅ (∪)). eapply wf_mono; [done|lia]. }
  destruct x as [k p c|w d|c max|c q|c|c d|c q reason|now]; cbn [issues exec_call].
  - rewrite (left_id_L ∅ (∪)). by apply (Enqueue_law n h b Hw Hn e k p c).
  - destruct (Claim_law n h b e w d Hw Hn He Hx) as [_ Hc].
    destruct (Claim e w d b).2 as [[c|]|err|]; [apply Hc| |done..].
    destruct Hc as [-> _]. by apply Hup.
  - apply Hup. unfold Drain. by destruct (held c b); [case_goal|].
  - apply Hup. destruct (held c b) as [u|] eqn:Hh.
    + rewrite (Ack_held n h b Hw e c q u Hh). pose proof (held_wf n h b Hw _ _ Hh) as [_ Hu].
      case_bool_decide as Hrest; [cbn [fst]; auto with plq|]. cbv zeta.
      apply acked_lt in Hrest. pose proof (wf_advance _ _ _ (env_now e 0) _ _ Hu Hrest).
      case_goal; cbn [fst]; apply wf_put; eauto with plq.
    + unfold Ack. by rewrite Hh.
  - apply Hup. unfold Release. destruct (held c b) as [u|] eqn:Hh; [|done].
    pose proof (held_wf n h b Hw _ _ Hh) as [_ Hu]. apply wf_put; eauto with plq.
  - by apply Hup, (Heartbeat_law n h b Hw).
  - apply Hup. destruct (held c b) as [u|] eqn:Hh; [|unfold Fail; by rewrite Hh].
    rewrite (Fail_held n h b Hw e c q reason u Hh).
    pose proof (held_wf n h b Hw _ _ Hh) as [_ Hu].
    destruct (tasks u) as [|hd tl] eqn:Ht; [done|]. cbn [fst]. cbv zeta. case_goal.
    + case_bool_decide as Htl; [auto with plq|]. apply wf_put; [auto with plq|].
      apply wf_unit_unclaim, wf_advance; [apply Hu|]. rewrite Ht.
      destruct tl; [done|simpl; lia].
    + apply wf_put; eauto with plq.
  - by apply Hup, ReapExpired_law.
Qed.

Lemma run_wf n h b : run n h b → wf n h b.
Proof.
  induction 1 as [|n h b e x Hr IH Hn He Hnow Hx]; [by apply wf_New|].
  by apply wf_call.
Qed.
(** ** The gate *)

(** the unit has reached its threshold, or its flush deadline is not after [T] *)
Definition ripe (u : unit) : Prop :=
  (DefaultThreshold o ≤ total_cost (tasks u))%Z ∨
  (oldestPending u + DefaultMaxWait o ≤ T)%Z.

Record gate_unit (u : unit) : Prop := {
  gu_threshold : threshold u = DefaultThreshold o;
  gu_maxWait : maxWait u = DefaultMaxWait o;
  gu_costs : Forall (λ t, (0 ≤ Cost t)%Z) (tasks u);
  gu_total : (total_cost (tasks u) ≤ int64_max)%Z;
  gu_ripe : eligible u = true → ripe u;
}.

Record gate (b : Backend) : Prop := {
  g_threshold : b_threshold b = DefaultThreshold o;
  g_maxWait : b_maxWait b = DefaultMaxWait o;
  g_units : map_Forall (λ _, gate_unit) (units b);
}.

Lemma total_cost_nonneg ts : Forall (λ t, (0 ≤ Cost t)%Z) ts → (0 ≤ total_cost ts)%Z.
Proof. intros H. apply list_Z_sum_nonneg. by apply Forall_fmap. Qed.

Lemma gate_cost u : gate_unit u → i64 (total_cost (tasks u)) = total_cost (tasks u).
Proof.
  intros Hg. apply i64_id. pose proof (total_cost_nonneg _ (gu_costs _ Hg)).
  pose proof (gu_total _ Hg). unfold in_i64, int64_min. lia.
Qed.

Lemma gate_put b k u : gate b → gate_unit u → gate (put_unit k u b).
Proof. intros [? ? ?] Hu. split; [done..|]. by apply map_Forall_insert_2. Qed.

Lemma gate_drop b k : gate b → gate (drop_unit k b).
Proof. intros [? ? ?]. split; [done..|]. by apply map_Forall_delete. Qed.

Lemma gate_lookup b k u : gate b → units b !! k = Some u → gate_unit u.
Proof. intros Hg. apply (g_units _ Hg). Qed.

(** the fields the gate reads are the same *)
Lemma gate_unit_same u u' :
  gate_unit u → tasks u' = tasks u → threshold u' = threshold u →
  maxWait u' = maxWait u → oldestPending u' = oldestPending u →
  eligible u' = eligible u → gate_unit u'.
Proof.
  intros [H1 H2 H3 H4 H5] Ht Hth Hm Ho He.
  split; unfold ripe in *; rewrite ?Ht, ?Hth, ?Hm, ?Ho, ?He; done.
Qed.

Lemma gate_unclaim u : gate_unit u → gate_unit (unclaim u).
Proof. intros Hg. by apply (gate_unit_same u). Qed.

Lemma gate_drop_tasks u i :
  gate_unit u →
  Forall (λ t, (0 ≤ Cost t)%Z) (drop i (tasks u)) ∧
  (total_cost (drop i (tasks u)) ≤ int64_max)%Z.
Proof.
  intros [_ _ Hc Ht _]. rewrite <- (take_drop i (tasks u)) in Hc, Ht.
  apply Forall_app in Hc as [Hc1 Hc2]. split; [done|].
  rewrite total_cost_app in Ht. apply total_cost_nonneg in Hc1. lia.
Qed.

Lemma gate_advance now i u :
  (now ≤ T)%Z → gate_unit u → gate_unit (advance now i u).
Proof.
  intros Hnow Hg. destruct (gate_drop_tasks u i Hg) as [Hc Ht].
  split; simpl; try done; [apply Hg..|]. unfold ripe. simpl.
  intros [H|H]%orb_true_iff; b2p.
  - left. rewrite i64_id in H; [by rewrite <- (gu_threshold _ Hg)|].
    apply total_cost_nonneg in Hc. unfold in_i64, int64_min. lia.
  - right. rewrite <- (gu_maxWait _ Hg). lia.
Qed.

Lemma gate_enqueue now p c n h k u :
  wf_queue n h k u → (tasks u ≠ [] → wf_unit n h k u) → gate_unit u →
  (0 ≤ c)%Z → (total_cost (tasks u) + c ≤ int64_max)%Z →
  (tasks u = [] → eligible u = false) → gate_unit (enqueue_unit now p c u).
Proof.
  intros Hq Hu Hg Hc Ht Hel. pose proof (total_cost_nonneg _ (gu_costs _ Hg)) as H0.
  split; simpl; try apply Hg.
  - apply Forall_app_2; [apply Hg|by repeat constructor].
  - rewrite total_cost_app. simpl. unfold total_cost at 2. simpl. lia.
  - unfold ripe. simpl. rewrite total_cost_app. unfold total_cost at 2. simpl.
    case_match eqn:Hle.
    + intros _. left. b2p. rewrite (wf_cost _ _ _ _ Hq), i64_add_l, i64_id,
        (gu_threshold _ Hg) in Hle; [lia|]. unfold in_i64, int64_min. lia.
    + intros He. case_bool_decide as Hempty; [by rewrite Hel in He|].
      destruct (gu_ripe _ Hg He) as [|]; [left; lia|by right].
Qed.

Lemma gate_reap n h k now u :
  (now ≤ T)%Z → wf_unit n h k u → gate_unit u → gate_unit (reap_unit now u).1.1.
Proof.
  intros Hnow Hu Hg. unfold reap_unit.
  set (u1 := if _ && (leaseExpires u <? now)%Z then unclaim u else u).
  assert (gate_unit u1 ∧ flushDeadline u1 = (oldestPending u1 + maxWait u1)%Z) as [Hg1 Hf1].
  { subst u1. pose proof (wf_flush _ _ _ _ Hu). case_match; [|done].
    split; [by apply gate_unclaim|done]. }
  clearbody u1. cbn [fst snd]. case_match eqn:Hfl; [|done].
  split; simpl; try apply Hg1. intros _. right. b2p. simpl.
  rewrite <- (gu_maxWait _ Hg1), <- Hf1. lia.
Qed.

Lemma gate_reap_scan n h now ks b r f :
  (now ≤ T)%Z → wf n h b → gate b → gate (reap_scan now ks b r f).1.
Proof.
  intros Hnow. revert b r f. induction ks as [|k ks IH]; intros b r f Hw Hg;
    cbn [reap_scan]; [done|].
  destruct (units b !! k) as [u|] eqn:Hu; [|auto].
  pose proof (wf_lookup _ _ _ _ _ Hw Hu) as Hwu.
  pose proof (wf_reap_unit _ _ _ now _ Hwu) as Hw'.
  pose proof (gate_reap _ _ _ _ _ Hnow Hwu (gate_lookup _ _ _ Hg Hu)) as Hg'.
  destruct (reap_unit now u) as [[u' rec] fl]. apply IH; [by apply wf_put|by apply gate_put].
Qed.

Lemma gate_call n h b e x :
  wf n h b → gate b → order_ok e → (∀ i, env_now e i ≤ T)%Z → call_ok T b x →
  gate (exec_call e x b).
Proof.
  intros Hw Hg He Hnow Hx. destruct x as [k p c|w d|c max|c q|c|c d|c q reason|now];
    cbn [exec_call].
  - destruct Hx as [Hc Ht]. cbn [pending Memory_View] in Ht. unfold Enqueue. cbn [fst].
    apply gate_put; [done|]. destruct (units b !! k) as [u|] eqn:Hu; cbn [default].
    + pose proof (wf_lookup _ _ _ _ _ Hw Hu) as Hwu.
      eapply gate_enqueue; try done; [apply Hwu|by eapply gate_lookup|].
      intros Hnil. by destruct (wf_work _ _ _ _ Hwu).
    + eapply (gate_enqueue _ _ _ n h k); try done; [apply wf_new_unit|].
      * by eapply wf_nonneg.
      * destruct Hg as [? ? ?]. split; simpl; try done.
  - unfold Claim. destruct (claim_scan _ _ _) as [[k u]|] eqn:Hs; [|done]. cbn [fst].
    pose proof (claim_scan_spec (units b) (range_units e b)) as Hspec. rewrite Hs in Hspec.
    destruct Hspec as [[Hu _] _]. destruct Hg as [? ? Hgu]. split; [done..|].
    apply map_Forall_insert_2; [|done]. apply (gate_unit_same u); try done. by eapply Hgu.
  - unfold Drain. by destruct (held c b); [case_goal|].
  - destruct (held c b) as [u|] eqn:Hh; [|unfold Ack; by rewrite Hh].
    rewrite (Ack_held n h b Hw e c q u Hh).
    pose proof (held_wf n h b Hw _ _ Hh) as [Hk Hu]. pose proof (gate_lookup _ _ _ Hg Hk) as Hgu.
    case_bool_decide as Hrest; [by apply gate_drop|]. cbv zeta.
    pose proof (gate_advance (env_now e 0) (acked q u) u (Hnow 0) Hgu) as Hadv.
    case_goal; cbn [fst]; apply gate_put; try done; [|by apply gate_unclaim].
    by eapply gate_unit_same.
  - unfold Release. destruct (held c b) as [u|] eqn:Hh; [|done].
    pose proof (held_wf n h b Hw _ _ Hh) as [Hk _].
    apply gate_put; [done|]. by eapply gate_unclaim, gate_lookup.
  - unfold Heartbeat. destruct (held c b) as [u|] eqn:Hh; [|done].
    pose proof (held_wf n h b Hw _ _ Hh) as [Hk _]. apply gate_put; [done|].
    apply (gate_unit_same u); try done. by eapply gate_lookup.
  - destruct (held c b) as [u|] eqn:Hh; [|unfold Fail; by rewrite Hh].
    rewrite (Fail_held n h b Hw e c q reason u Hh).
    pose proof (held_wf n h b Hw _ _ Hh) as [Hk Hu]. pose proof (gate_lookup _ _ _ Hg Hk) as Hgu.
    destruct (tasks u) as [|hd tl] eqn:Ht; [done|]. cbn [fst]. cbv zeta. case_goal.
    + assert (∀ d, gate (add_dead d b)) as Hd by (by intros d; destruct Hg).
      case_bool_decide; [by apply gate_drop|]. apply gate_put; [done|].
      by apply gate_unclaim, gate_advance.
    + apply gate_put; [done|]. apply gate_unclaim. by apply (gate_unit_same u).
  - rewrite ReapExpired_fst. by eapply gate_reap_scan.
Qed.

Lemma run_gate n h b : run n h b → gate b.
Proof.
  induction 1 as [|n h b e x Hr IH Hn He Hnow Hx]; [by split|].
  eapply gate_call; try done. by apply run_wf.
Qed.
End runs.
