(* ===== verification/MemoryProps.v ===== *)
(** MemoryProps: what the in-memory driver guarantees beyond the [Contract]: its
    invariant over any history, the eligibility gate, the age-fair claim, and the exact
    effect of each operation on each of its branches. *)
From S2P Require Import Prelude Queue Contract Memory MemoryFacts MemoryRun.

(** ** A history to apply the theorems to *)

Definition ex_opts : Options := mkOptions 3 (5 * Second) 2.
Definition ex_k1 : WorkUnitKey := mkKey "ws" "s1" "p1".
Definition ex_k2 : WorkUnitKey := mkKey "ws" "s1" "p2".

Definition ex_calls : list (Env * mcall) := [
  (env_at (1 * Second), CEnqueue ex_k1 "a" 2);
  (env_at (2 * Second), CEnqueue ex_k2 "x" 3);
  (env_at (3 * Second), CEnqueue ex_k1 "b" 2);
  (env_at (4 * Second), CClaim "w0" (3 * Second))].

Definition ex_run (l : list (Env * mcall)) : Backend :=
  foldl (λ b ex, exec_call ex.1 ex.2 b) (New ex_opts) l.

Definition ex_b : Backend := ex_run ex_calls.
Definition ex_T : time := 4 * Second.
Definition ex_c : ClaimedUnit := mkClaimed ex_k1 "w0" "w0-1" (7 * Second).
Definition ex_h : gset LeaseToken := {["w0-1"]} ∪ (∅ ∪ (∅ ∪ (∅ ∪ ∅))).

(** the side conditions of a call in that history *)
Ltac ex_ok := first [by intros l | by vm_compute | intros i; by vm_compute].

Lemma ex_run_ok : run ex_opts ex_T 4 ex_h ex_b.
Proof.
  change ex_h with (issues (env_at (4 * Second)) (CClaim "w0" (3 * Second))
    (ex_run (take 3 ex_calls)) ∪ (∅ ∪ (∅ ∪ (∅ ∪ ∅)))).
  apply (run_call _ _ 3 (∅ ∪ (∅ ∪ (∅ ∪ ∅))) (ex_run (take 3 ex_calls))); [|ex_ok..].
  apply (run_call _ _ 2 (∅ ∪ (∅ ∪ ∅)) (ex_run (take 2 ex_calls)) _ (CEnqueue ex_k1 "b" 2));
    [|ex_ok..].
  apply (run_call _ _ 1 (∅ ∪ ∅) (ex_run (take 1 ex_calls)) _ (CEnqueue ex_k2 "x" 3));
    [|ex_ok..].
  apply (run_call _ _ 0 ∅ (New ex_opts) _ (CEnqueue ex_k1 "a" 2)); [|ex_ok..].
  apply run_new.
Qed.

Lemma ex_wf : wf 4 ex_h ex_b.
Proof. eapply run_wf, ex_run_ok. Qed.

Lemma ex_held : ∃ u, held ex_c ex_b = Some u ∧
  tasks u = [mkTask 0 "a" 2; mkTask 1 "b" 2] ∧ attempts u = 0%Z.
Proof. eexists. split_and!; vm_compute; reflexivity. Qed.

Lemma ex_units k u : units ex_b !! k = Some u → k = ex_k1 ∨ k = ex_k2.
Proof.
  intros Hk%elem_of_dom_2. rewrite <- elem_of_elements in Hk.
  assert (elements (dom (units ex_b)) ⊆ [ex_k1; ex_k2]) as Hsub by (by vm_compute).
  apply Hsub in Hk. by rewrite !elem_of_cons, elem_of_nil in Hk; naive_solver.
Qed.

(** ** Histories *)

(** C18: The data invariant.  After any history of calls, with any handles, every
    unit has work, its tasks are numbered without a gap up to the next number, the
    enqueue times are parallel to the tasks, the flush clock is that of the head task,
    the running cost is exactly the sum of the pending costs, and reaching the threshold
    has made the unit eligible. *)
Theorem units_well_formed o T n h b k u :
  run o T n h b → units b !! k = Some u →
  key u = k ∧ tasks u ≠ [] ∧ length (enqAt u) = length (tasks u) ∧
  seqs (tasks u) = seqZ (nextSeq u - length (tasks u)) (length (tasks u)) ∧
  pendingCost u = total_cost (tasks u) ∧
  head (enqAt u) = Some (oldestPending u) ∧
  flushDeadline u = (oldestPending u + DefaultMaxWait o)%Z ∧
  ((DefaultThreshold o ≤ total_cost (tasks u))%Z → eligible u = true).
Proof.
  intros Hr Hu. pose proof (run_wf _ _ _ _ _ Hr) as Hw.
  pose proof (wf_lookup _ _ _ _ _ Hw Hu) as Hwu.
  pose proof (gate_lookup _ _ _ _ _ (run_gate _ _ _ _ _ Hr) Hu) as Hg.
  assert (pendingCost u = total_cost (tasks u)) as Hc
    by (rewrite (wf_cost _ _ _ _ Hwu); by eapply gate_cost).
  split_and!; try apply Hwu; [done|rewrite <- (gu_maxWait _ _ _ Hg); apply Hwu|].
  rewrite <- Hc, <- (gu_threshold _ _ _ Hg). apply (wf_gate _ _ _ _ Hwu).
Qed.

Lemma units_well_formed_witness :
  ∃ u, units ex_b !! ex_k1 = Some u ∧ pendingCost u = total_cost (tasks u).
Proof.
  destruct (units ex_b !! ex_k1) as [u|] eqn:Hu; [|by vm_compute in Hu].
  exists u. split; [done|]. by apply (units_well_formed _ _ _ _ _ _ _ ex_run_ok Hu).
Defined.

(** C16: The gate (I3).  A claim only ever hands out a unit whose pending cost has
    reached the threshold, or whose oldest task has been pending for the flush delay:
    its enqueue time plus the delay is not after the latest time [T] any call has read. *)
Theorem claimed_unit_is_ripe o T n h b e w d b' c :
  run o T n h b → order_ok e → Claim e w d b = (b', Ok (Some c)) →
  ∃ u, units b !! cu_Key c = Some u ∧ head (enqAt u) = Some (oldestPending u) ∧
    ((DefaultThreshold o ≤ total_cost (tasks u))%Z ∨
     (oldestPending u + DefaultMaxWait o ≤ T)%Z).
Proof.
  intros Hr He Hc. pose proof (run_wf _ _ _ _ _ Hr) as Hw.
  pose proof (claim_scan_spec (units b) (range_units e b)) as Hs. unfold Claim in Hc.
  destruct (claim_scan _ _ _) as [[k u]|]; [|done]. injection Hc as _ <-.
  destruct Hs as [(Hu & Hcl & _) _]. pose proof (wf_lookup _ _ _ _ _ Hw Hu) as Hwu.
  cbn [cu_Key key set_claim]. rewrite (wf_key _ _ _ _ Hwu). exists u. split; [done|].
  split; [apply Hwu|]. apply (gu_ripe o).
  - by eapply gate_lookup; [eapply run_gate|].
  - by apply claimable_free in Hcl as [? _].
Qed.

Lemma claimed_unit_is_ripe_witness :
  ∃ b' c, Claim (env_at (4 * Second)) "w1" Second ex_b = (b', Ok (Some c)) ∧
  ∃ u, units ex_b !! cu_Key c = Some u ∧ head (enqAt u) = Some (oldestPending u) ∧
    ((DefaultThreshold ex_opts ≤ total_cost (tasks u))%Z ∨
     (oldestPending u + DefaultMaxWait ex_opts ≤ ex_T)%Z).
Proof.
  eexists _, _. split; [vm_compute; reflexivity|].
  eapply (claimed_unit_is_ripe ex_opts ex_T 4 ex_h ex_b (env_at (4 * Second)) "w1" Second);
    [apply ex_run_ok|by intros l|vm_compute; reflexivity].
Defined.

(** ** Claim *)

(** C20: Age-fair choice.  A claim succeeds exactly when some unit is eligible, free
    and has work, and then takes one with the earliest flush deadline, the least key
    string breaking ties, whatever order the map is ranged in; the handle carries a token
    that no earlier claim issued. *)
Theorem claim_is_age_fair n h b e w d :
  wf n h b → (n < int64_max)%Z → order_ok e → w ≠ "" →
  match (Claim e w d b).2 with
  | Ok (Some c) =>
      cu_Worker c = w ∧ (cu_Lease c ∉ h) ∧ cu_LeaseTill c = (env_now e 0 + d)%Z ∧
      ∃ u, units b !! cu_Key c = Some u ∧ claimable u = true ∧
        ∀ k v, units b !! k = Some v → claimable v = true →
          (flushDeadline u < flushDeadline v)%Z ∨
          flushDeadline u = flushDeadline v ∧ str_lt (key_String k) (key_String (cu_Key c)) = false
  | Ok None => ∀ k u, units b !! k = Some u → claimable u = false
  | _ => False
  end.
Proof.
  intros Hw Hn He Hne. destruct (Claim_law n h b e w d Hw Hn He Hne) as [_ Hl].
  pose proof (claim_scan_spec (units b) (range_units e b)) as Hs. unfold Claim in *.
  destruct (claim_scan _ _ _) as [[k u]|]; cbn [fst snd] in *; [|by destruct Hl].
  destruct Hl as (Hcw & Hfr & _). split; [done|]. split; [done|]. split; [done|].
  destruct Hs as [Hb _]. pose proof Hb as (Hu & Hcl & _).
  cbn [cu_Key key set_claim]. rewrite (wf_key _ _ _ _ (wf_lookup _ _ _ _ _ Hw Hu)). exists u.
  split; [done|]. split; [done|]. intros k' v Hv Hcv.
  pose proof (best_of_range e He _ _ _ _ _ Hb Hv Hcv) as Hnb. unfold better in Hnb.
  rewrite (wf_key _ _ _ _ (wf_lookup _ _ _ _ _ Hw Hu)),
    (wf_key _ _ _ _ (wf_lookup _ _ _ _ _ Hw Hv)) in Hnb.
  apply orb_false_iff in Hnb as [H1 H2]. b2p.
  destruct (Z.eqb_spec (flushDeadline v) (flushDeadline u)); [right; by split|left; lia].
Qed.

Lemma claim_is_age_fair_witness :
  wf 4 ex_h ex_b ∧
  match (Claim (env_at (4 * Second)) "w1" Second ex_b).2 with
  | Ok (Some c) => cu_Key c = ex_k2 ∧ cu_Lease c ∉ ex_h
  | _ => False
  end.
Proof.
  pose proof (claim_is_age_fair 4 ex_h ex_b (env_at (4 * Second)) "w1" Second ex_wf
    ltac:(by vm_compute) ltac:(by intros l) ltac:(done)) as H.
  split; [apply ex_wf|].
  destruct (Claim (env_at (4 * Second)) "w1" Second ex_b).2 as [[c|]|err|] eqn:Hc;
    vm_compute in Hc; try discriminate Hc.
  split; [by injection Hc as <-|apply H].
Defined.

(** The choice does not depend on the map's iteration order, as long as the keys
    of the units print differently: two calls that read the same clock and range the map in
    two orders have the same effect and the same result. *)
Lemma claim_ignores_map_order n h b e1 e2 w d :
  wf n h b → order_ok e1 → order_ok e2 → env_now e1 0 = env_now e2 0 →
  (∀ k k' u u', units b !! k = Some u → units b !! k' = Some u' →
     key_String k = key_String k' → k = k') →
  Claim e1 w d b = Claim e2 w d b.
Proof.
  intros Hw He1 He2 Hnow Hinj. unfold Claim.
  pose proof (claim_scan_spec (units b) (range_units e1 b)) as H1.
  pose proof (claim_scan_spec (units b) (range_units e2 b)) as H2.
  destruct (claim_scan _ (range_units e1 b) _) as [[k1 u1]|],
    (claim_scan _ (range_units e2 b) _) as [[k2 u2]|]; [| | |done].
  - destruct H1 as [Hb1 _], H2 as [Hb2 _].
    pose proof Hb1 as (Hu1 & Hc1 & _). pose proof Hb2 as (Hu2 & Hc2 & _).
    pose proof (best_of_range e1 He1 _ _ _ _ _ Hb1 Hu2 Hc2) as Hn1.
    pose proof (best_of_range e2 He2 _ _ _ _ _ Hb2 Hu1 Hc1) as Hn2.
    assert (k1 = k2) as <-; [|simplify_eq; by rewrite Hnow].
    destruct (decide (key_String (key u1) = key_String (key u2))) as [Heq|Hne].
    + rewrite (wf_key _ _ _ _ (wf_lookup _ _ _ _ _ Hw Hu1)),
        (wf_key _ _ _ _ (wf_lookup _ _ _ _ _ Hw Hu2)) in Heq. by eapply Hinj.
    + destruct (better_total u1 u2 Hne); congruence.
  - destruct H1 as [(Hu & Hc & _) _]. rewrite (H2 k1 u1) in Hc; [done| |done].
    by apply elem_of_range.
  - destruct H2 as [(Hu & Hc & _) _]. rewrite (H1 k2 u2) in Hc; [done| |done].
    by apply elem_of_range.
Qed.

(** A quiet environment that ranges maps backwards. *)
Definition env_rev (t : time) : Env := mkEnv (λ _, t) (@rev _) "uuid" (λ _, NoFault).

Lemma env_rev_order_ok t : order_ok (env_rev t).
Proof. intros l. simpl. symmetry. apply Permutation_rev. Qed.

Lemma claim_ignores_map_order_witness :
  Claim (env_at (4 * Second)) "w1" Second ex_b = Claim (env_rev (4 * Second)) "w1" Second ex_b.
Proof.
  apply (claim_ignores_map_order 4 ex_h); [apply ex_wf|by intros l|apply env_rev_order_ok|done|].
  intros k k' u u' Hk Hk'.
  pose proof (ex_units _ _ Hk) as [-> | ->]; pose proof (ex_units _ _ Hk') as [-> | ->];
    by intros [=].
Defined.

(** Two units whose keys print alike, enqueued at the same instant. *)
Definition twin1 : WorkUnitKey := mkKey "a/b" "c" "p".
Definition twin2 : WorkUnitKey := mkKey "a" "b/c" "p".
Definition twins : Backend :=
  (Enqueue (env_at Second) twin2 "y" 3 (Enqueue (env_at Second) twin1 "x" 3 (New ex_opts)).1).1.

(** The tie-break is not always deterministic: keys with a slash in a component can
    print alike ([a/b],[c] and [a],[b/c]), and then, at equal flush deadlines, the map's
    iteration order decides which unit is claimed. *)
Lemma claim_tie_depends_on_map_order :
  key_String twin1 = key_String twin2 ∧
  cu_Key <$> (match (Claim (env_at Second) "w" Second twins).2 with Ok r => r | _ => None end) ≠
  cu_Key <$> (match (Claim (env_rev Second) "w" Second twins).2 with Ok r => r | _ => None end).
Proof. split; [done|]. by vm_compute. Qed.

(** Keys print differently when no component holds a slash, so for such keys
    [key_String] identifies the unit. *)
Lemma key_String_inj k k' :
  has_char "/" (Session k) = false → has_char "/" (Peer k) = false →
  has_char "/" (Session k') = false → has_char "/" (Peer k') = false →
  key_String k = key_String k' → k = k'.
Proof.
  destruct k as [w s p], k' as [w' s' p']. unfold key_String. simpl. intros Hs Hp Hs' Hp' Heq.
  assert (∀ a b c : string, a +:+ String "/" (b +:+ String "/" c) =
    (a +:+ String "/" b) +:+ String "/" c) as Hsplit by (intros; by rewrite str_app_assoc).
  change (w +:+ String "/" (s +:+ String "/" p) = w' +:+ String "/" (s' +:+ String "/" p'))
    in Heq.
  rewrite !Hsplit in Heq. apply split_last_inj in Heq as [Heq ->]; [|done..].
  by apply split_last_inj in Heq as [-> ->].
Qed.

Lemma key_String_inj_witness :
  key_String ex_k1 = key_String (mkKey "ws" "s1" "p1") ∧ ex_k1 = mkKey "ws" "s1" "p1".
Proof. split; [done|]. by apply key_String_inj. Defined.

(** ** Drain, acknowledge, fail *)

(** Drain hands out the oldest [max] tasks to the holder and changes nothing; it
    refuses a stale handle; a negative bound makes it panic. *)
Lemma drain_spec e c max b :
  Drain e c max b =
    (b, match held c b with
        | None => Err ErrLeaseLost
        | Some u => if (max <? 0)%Z then Panic else Ok (take (Z.to_nat max) (tasks u))
        end).
Proof.
  unfold Drain. destruct (held c b) as [u|]; [|done].
  destruct (Z.ltb_spec max 0) as [Hm|Hm], (Z.ltb_spec (length (tasks u)) max) as [Hl|Hl];
    [lia| | |].
  - rewrite (proj2 (Z.ltb_lt _ _)) by lia. done.
  - rewrite (proj2 (Z.ltb_ge _ _)) by lia. rewrite Nat2Z.id, firstn_all.
    rewrite take_ge by lia. done.
  - rewrite (proj2 (Z.ltb_ge _ _)) by lia. done.
Qed.

(** what the unit is once its acknowledged tasks are gone *)
Lemma advance_spec n h k now q u t rest :
  wf_queue n h k u → drop_while (through q) (tasks u) = t :: rest →
  let u' := advance now (acked q u) u in
  ∃ t0, enqAt u !! (length (tasks u) - length (t :: rest)) = Some t0 ∧
    tasks u' = t :: rest ∧ oldestPending u' = t0 ∧ flushDeadline u' = (t0 + maxWait u)%Z ∧
    attempts u' = 0%Z ∧ nextSeq u' = nextSeq u ∧
    claimedBy u' = claimedBy u ∧ lease u' = lease u ∧
    eligible u' = ((threshold u <=? i64 (total_cost (t :: rest)))%Z ||
      (negb (IsZero (t0 + maxWait u)) && (t0 + maxWait u <=? now)%Z)).
Proof.
  intros Hq Hrest u'. pose proof (wf_len _ _ _ _ Hq) as Hlen.
  assert (acked q u < length (tasks u)) as Hlt by (apply acked_lt; congruence).
  assert (drop (acked q u) (tasks u) = t :: rest) as Hd
    by (rewrite <- Hrest; apply drop_while_drop).
  assert (length (tasks u) - length (t :: rest) = acked q u) as Hidx.
  { rewrite <- Hd, length_drop. lia. }
  destruct (lookup_lt_is_Some_2 (enqAt u) (acked q u)) as [t0 Ht0]; [lia|].
  assert (head (drop (acked q u) (enqAt u)) = Some t0) as Hhd by (by rewrite (drop_S _ _ _ Ht0)).
  assert (tasks u' = t :: rest) as Ht by done.
  assert (oldestPending u' = t0) as Ho by (subst u'; simpl; by rewrite Hhd).
  assert (flushDeadline u' = (t0 + maxWait u)%Z) as Hf by (by rewrite <- Ho).
  exists t0. rewrite Hidx. split_and!; try done.
  by rewrite <- Hf, <- Ht, (Z.leb_antisym now).
Qed.

(** C19: Delete-on-ack, on each branch.  A stale handle changes nothing.  Otherwise the
    tasks up to [q] are deleted; an emptied unit is removed; else the gate is evaluated
    again on the rest, with the flush clock of the new head: a unit that stays eligible is
    kept under the same lease, renewed, and one that does not is freed and waits below the
    threshold again. *)
Theorem ack_spec n h b e c q :
  wf n h b →
  match held c b with
  | None => Ack e c q b = (b, Err ErrLeaseLost)
  | Some u =>
      let rest := drop_while (through q) (tasks u) in
      let b' := (Ack e c q b).1 in
      (∀ k, k ≠ cu_Key c → units b' !! k = units b !! k) ∧
      match rest with
      | [] => (Ack e c q b).2 = Ok false ∧ units b' !! cu_Key c = None
      | _ =>
          ∃ u' t0, units b' !! cu_Key c = Some u' ∧ tasks u' = rest ∧
            enqAt u !! (length (tasks u) - length rest) = Some t0 ∧
            oldestPending u' = t0 ∧ flushDeadline u' = (t0 + maxWait u)%Z ∧
            attempts u' = 0%Z ∧ nextSeq u' = nextSeq u ∧
            eligible u' = ((threshold u <=? i64 (total_cost rest))%Z ||
              (negb (IsZero (t0 + maxWait u)) && (t0 + maxWait u <=? env_now e 0)%Z)) ∧
            (Ack e c q b).2 = Ok (eligible u') ∧
            if eligible u' then
              claimedBy u' = claimedBy u ∧ lease u' = lease u ∧
              leaseExpires u' = (env_now e 1 + leaseDur u)%Z
            else claimedBy u' = "" ∧ lease u' = ""
      end
  end.
Proof.
  intros Hw. destruct (held c b) as [u|] eqn:Hh; [|unfold Ack; by rewrite Hh].
  cbv zeta. rewrite (Ack_held n h b Hw e c q u Hh).
  pose proof (held_wf n h b Hw _ _ Hh) as [_ Hu].
  destruct (drop_while (through q) (tasks u)) as [|t rest] eqn:Hrest.
  { rewrite bool_decide_true by done. cbn [fst snd drop_unit set_units units]. split_and!; [|done|].
    - intros k Hk. by rewrite lookup_delete_ne.
    - by rewrite lookup_delete_eq. }
  rewrite bool_decide_false by done. cbv zeta.
  pose proof (advance_spec _ _ _ (env_now e 0) _ _ _ _ (wf_core _ _ _ _ Hu) Hrest) as Hadv.
  set (u' := advance _ _ u) in *. cbv zeta in Hadv. clearbody u'.
  destruct Hadv as (t0 & Hat & Ht & Ho & Hf & Ha & Hn & Hcb & Hle & Hel). split.
  - intros k Hk. destruct (eligible u'); cbn [fst put_unit set_units units];
      by rewrite lookup_insert_ne.
  - exists (if eligible u' then set_leaseExpires (env_now e 1 + leaseDur u)%Z u' else unclaim u'), t0.
    rewrite <- Hel.
    assert (eligible (set_leaseExpires (env_now e 1 + leaseDur u) u') = eligible u') as He1 by done.
    assert (eligible (unclaim u') = eligible u') as He2 by done.
    destruct (eligible u'); cbn [fst snd put_unit set_units units];
      rewrite lookup_insert_eq, ?He1, ?He2; by split_and!.
Qed.

Lemma ack_spec_witness :
  wf 4 ex_h ex_b ∧
  (∃ u', units (Ack (env_at (5 * Second)) ex_c 0 ex_b).1 !! ex_k1 = Some u' ∧
     tasks u' = [mkTask 1 "b" 2] ∧ claimedBy u' = "") ∧
  (Ack (env_at (5 * Second)) ex_c 1 ex_b).2 = Ok false.
Proof.
  pose proof (ack_spec 4 ex_h ex_b (env_at (5 * Second)) ex_c 0 ex_wf) as H0.
  pose proof (ack_spec 4 ex_h ex_b (env_at (5 * Second)) ex_c 1 ex_wf) as H1.
  destruct ex_held as (u & Hu & Ht & _). rewrite Hu, Ht in H0, H1. cbv zeta in H0, H1.
  change (drop_while (through 0) [mkTask 0 "a" 2; mkTask 1 "b" 2]) with [mkTask 1 "b" 2] in H0.
  split; [apply ex_wf|]. split; [|apply H1].
  destruct H0 as [_ (u' & t0 & Hu' & Ht' & _)]. exists u'. split; [exact Hu'|].
  split; [exact Ht'|]. vm_compute in Hu'. by injection Hu' as <-.
Defined.

(** C32: A failure report, on each branch.  A stale handle changes nothing.  Otherwise the
    unit's attempts grow and it is freed with its tasks as they were; but when the
    attempts reach the cap and the reported task is the head, exactly that head moves to
    the dead-letter queue, the tasks behind it stay in order with attempts back at zero,
    and a unit with none left is removed. *)
Theorem fail_spec n h b e c q reason :
  wf n h b →
  match held c b with
  | None => Fail e c q reason b = (b, Err ErrLeaseLost)
  | Some u =>
      let b' := (Fail e c q reason b).1 in
      let att := i64 (attempts u + 1) in
      (Fail e c q reason b).2 = Ok tt ∧
      (∀ k, k ≠ cu_Key c → units b' !! k = units b !! k) ∧
      ∃ hd tl, tasks u = hd :: tl ∧
        if (maxAttempts b <=? att)%Z && (Seq hd =? q)%Z then
          dlq b' = dlq b ++ [mkDead (cu_Key c) hd reason] ∧
          match tl with
          | [] => units b' !! cu_Key c = None
          | _ => ∃ u', units b' !! cu_Key c = Some u' ∧ tasks u' = tl ∧ attempts u' = 0%Z ∧
                   claimedBy u' = "" ∧ lease u' = "" ∧
                   Some (oldestPending u') = enqAt u !! 1
          end
        else
          dlq b' = dlq b ∧
          ∃ u', units b' !! cu_Key c = Some u' ∧ tasks u' = tasks u ∧ attempts u' = att ∧
            claimedBy u' = "" ∧ lease u' = "" ∧ eligible u' = eligible u
  end.
Proof.
  intros Hw. destruct (held c b) as [u|] eqn:Hh; [|unfold Fail; by rewrite Hh].
  cbv zeta. rewrite (Fail_held n h b Hw e c q reason u Hh).
  pose proof (held_wf n h b Hw _ _ Hh) as [_ Hu].
  pose proof (wf_work _ _ _ _ Hu) as Hne. pose proof (wf_len _ _ _ _ Hu) as Hlen. unfold at_cap.
  destruct (tasks u) as [|hd tl] eqn:Ht; [done|]. cbn [fst snd]. split; [done|].
  set (cap := (maxAttempts b <=? i64 (attempts u + 1))%Z && (Seq hd =? q)%Z). split.
  { intros k Hk. destruct cap; [destruct (bool_decide (tl = []))|];
      cbn [add_dead put_unit drop_unit set_units units];
      by rewrite ?lookup_delete_ne, ?lookup_insert_ne. }
  exists hd, tl. split; [done|]. fold cap. destruct cap; cbv zeta.
  - destruct tl as [|t tl]; cbn [dlq add_dead drop_unit put_unit set_units units].
    { rewrite bool_decide_true by done. split; [done|].
      cbn [drop_unit set_units units]. by rewrite lookup_delete_eq. }
    rewrite bool_decide_false by done. cbn [dlq put_unit set_units units add_dead].
    split; [done|]. rewrite lookup_insert_eq. eexists. split; [done|].
    simpl in Hlen. destruct (enqAt u) as [|t0 [|t1 ats]] eqn:Hat; [done..|].
    cbn. by rewrite Ht, Hat.
  - split; [done|]. cbn [put_unit set_units units]. rewrite lookup_insert_eq.
    eexists. split; [done|]. cbn. by rewrite Ht.
Qed.

Lemma fail_spec_witness :
  wf 4 ex_h ex_b ∧ dlq (Fail (env_at (5 * Second)) ex_c 0 "boom" ex_b).1 = [] ∧
  ∃ u', units (Fail (env_at (5 * Second)) ex_c 0 "boom" ex_b).1 !! ex_k1 = Some u' ∧
    attempts u' = 1%Z ∧ claimedBy u' = "".
Proof.
  pose proof (fail_spec 4 ex_h ex_b (env_at (5 * Second)) ex_c 0 "boom" ex_wf) as H.
  split; [apply ex_wf|]. split; [by vm_compute|].
  destruct ex_held as (u & Hu & Ht & Ha). rewrite Hu in H. cbv zeta in H.
  destruct H as (_ & _ & hd & tl & Ht' & H). rewrite Ha in H. rewrite Ht in Ht'.
  injection Ht' as <- <-.
  change (maxAttempts ex_b) with 2%Z in H. destruct H as (_ & u' & Hu' & _ & Ha' & Hc' & _).
  exists u'. by split_and!.
Defined.

(** ** Enqueue and the reaper *)

(** C33: Enqueue, on both branches.  The task joins the end of its unit's FIFO under the
    next number.  The first task of a unit starts the flush clock; a task that joins a
    unit that has work, claimed or not, leaves its clock and its claim alone.  The unit
    becomes eligible when its cost reaches the threshold, and never stops being so. *)
Theorem enqueue_spec n h b e k p c :
  wf n h b → (n < int64_max)%Z →
  let b' := (Enqueue e k p c b).1 in
  ∃ q u', (Enqueue e k p c b).2 = Ok q ∧ units b' !! k = Some u' ∧
    (∀ k', k' ≠ k → units b' !! k' = units b !! k') ∧
    nextSeq u' = (q + 1)%Z ∧ pendingCost u' = i64 (total_cost (tasks u')) ∧
    match units b !! k with
    | None =>
        q = 0%Z ∧ tasks u' = [mkTask 0 p c] ∧ claimedBy u' = "" ∧
        flushDeadline u' = (env_now e 0 + b_maxWait b)%Z ∧
        eligible u' = (b_threshold b <=? pendingCost u')%Z
    | Some u =>
        q = nextSeq u ∧ tasks u' = tasks u ++ [mkTask q p c] ∧
        claimedBy u' = claimedBy u ∧ lease u' = lease u ∧
        flushDeadline u' = flushDeadline u ∧
        eligible u' = ((threshold u <=? pendingCost u')%Z || eligible u)
    end.
Proof.
  intros Hw Hn b'. destruct (Enqueue_law n h b Hw Hn e k p c) as (Hw' & _).
  unfold Enqueue in *. cbn [fst snd] in *. eexists _, _. split; [done|].
  subst b'. cbn [put_unit set_units units]. rewrite lookup_insert_eq. split; [done|].
  split; [intros k' Hk'; by rewrite lookup_insert_ne|].
  pose proof (wf_lookup _ _ _ k _ Hw' (lookup_insert_eq _ _ _)) as Hu'.
  split; [|split; [apply Hu'|]].
  - cbn [nextSeq enqueue_unit]. apply i64_id.
    assert (0 ≤ nextSeq (default (new_unit k b) (units b !! k)) ≤ n)%Z.
    { destruct (units b !! k) as [u|] eqn:Hu; cbn [from_option id].
      - pose proof (wf_lookup _ _ _ _ _ Hw Hu) as Hwu.
        pose proof (wf_base _ _ _ _ Hwu). pose proof (wf_next _ _ _ _ Hwu). lia.
      - pose proof (wf_nonneg n h b Hw). simpl. lia. }
    unfold in_i64, int64_min, int64_max in *. lia.
  - destruct (units b !! k) as [u|] eqn:Hu; cbn [from_option id].
    + pose proof (wf_work _ _ _ _ (wf_lookup _ _ _ _ _ Hw Hu)) as Hne.
      cbn [enqueue_unit tasks claimedBy lease flushDeadline eligible pendingCost].
      rewrite bool_decide_false by done. by destruct (_ <=? _)%Z.
    + cbn. by destruct (_ <=? _)%Z.
Qed.

Lemma enqueue_spec_witness :
  wf 4 ex_h ex_b ∧
  (Enqueue (env_at (5 * Second)) ex_k1 "c" 7 ex_b).2 = Ok 2%Z ∧
  ∃ u', units (Enqueue (env_at (5 * Second)) ex_k1 "c" 7 ex_b).1 !! ex_k1 = Some u' ∧
    claimedBy u' = "w0" ∧ nextSeq u' = 3%Z.
Proof.
  destruct (enqueue_spec 4 ex_h ex_b (env_at (5 * Second)) ex_k1 "c" 7 ex_wf) as
    (q & u' & Hq & Hu' & _ & Hn & _); [by vm_compute|].
  split; [apply ex_wf|]. assert (q = 2%Z) as -> by (vm_compute in Hq; by injection Hq as <-).
  split; [exact Hq|]. exists u'. split; [exact Hu'|]. split; [|exact Hn].
  vm_compute in Hu'. by injection Hu' as <-.
Defined.

(** C23: The reaper (I2 recovery and I3 flush).  A pass at [now] drops exactly the leases
    that expired strictly before [now], makes eligible exactly the free units whose flush
    deadline has been reached, changes neither tasks nor dead letters, and counts both
    kinds of change exactly, in whatever order it ranges the map. *)
Theorem reap_spec n h b e now :
  wf n h b → order_ok e →
  let b' := (ReapExpired e now b).1 in
  (∀ k, units b !! k = None → units b' !! k = None) ∧
  (∀ k u, units b !! k = Some u → ∃ u', units b' !! k = Some u' ∧ tasks u' = tasks u ∧
     (expired now u → claimedBy u' = "" ∧ lease u' = "") ∧
     (¬ expired now u → claimedBy u' = claimedBy u ∧ lease u' = lease u) ∧
     (eligible u' = true ↔ eligible u = true ∨ (claimedBy u' = "" ∧ due now u))) ∧
  ∃ r f, (ReapExpired e now b).2 = (i64 (size r), i64 (size f), None) ∧
    (∀ k u, (r : gmap WorkUnitKey unit) !! k = Some u ↔ units b !! k = Some u ∧ expired now u) ∧
    (∀ k u, (f : gmap WorkUnitKey unit) !! k = Some u ↔ units b !! k = Some u ∧
       (claimedBy u = "" ∨ expired now u) ∧ due now u).
Proof.
  intros Hw He b'. pose proof (reclaims_true now) as Hrec.
  assert (∀ k u, units b !! k = Some u →
    flushes now u = true ↔ (claimedBy u = "" ∨ expired now u) ∧ due now u) as Hfl.
  { intros k u Hu. apply flushes_true, (wf_work _ _ _ _ (wf_lookup _ _ _ _ _ Hw Hu)). }
  split_and!.
  - intros k Hk. subst b'. rewrite ReapExpired_units by done. by rewrite Hk.
  - intros k u Hu. subst b'. rewrite ReapExpired_units by done. rewrite Hu.
    eexists. split; [done|]. pose proof (reap_unit_spec now u) as Hs.
    specialize (Hrec u). specialize (Hfl k u Hu). unfold reclaims, flushes in *.
    destruct (reap_unit now u) as [[u' rec] fl]. cbn [fst snd] in *.
    destruct Hs as (Ht & Hc & ->). split; [done|]. destruct rec.
    + assert (expired now u) by (by apply Hrec). split_and!; [naive_solver..|].
      rewrite orb_true_iff. destruct Hc as [-> _]. tauto.
    + assert (¬ expired now u) as Hx by (intros Hx; by apply Hrec in Hx).
      split_and!; [naive_solver..|]. rewrite orb_true_iff. destruct Hc as [-> _]. tauto.
  - exists (filter (λ ku, reclaims now ku.2 = true) (units b)),
      (filter (λ ku, flushes now ku.2 = true) (units b)).
    split; [by apply ReapExpired_counts|].
    split; intros k u; rewrite map_lookup_filter_Some; simpl; [by rewrite Hrec|].
    split; intros [Hu Hf]; (split; [done|]); by apply (Hfl k u Hu).
Qed.

Lemma reap_spec_witness :
  wf 4 ex_h ex_b ∧
  (ReapExpired (env_at (8 * Second)) (8 * Second) ex_b).2 = (1%Z, 0%Z, None) ∧
  ∃ u', units (ReapExpired (env_at (8 * Second)) (8 * Second) ex_b).1 !! ex_k1 = Some u' ∧
    claimedBy u' = "".
Proof.
  destruct (reap_spec 4 ex_h ex_b (env_at (8 * Second)) (8 * Second) ex_wf) as (_ & Hu & _);
    [by intros l|].
  split; [apply ex_wf|]. split; [by vm_compute|].
  destruct ex_held as (u & (Hk & _)%held_Some & _).
  destruct (Hu ex_k1 u Hk) as (u' & Hu' & _). exists u'. split; [exact Hu'|].
  vm_compute in Hu'. by injection Hu' as <-.
Defined.

(** C24: No unit is stranded.  Once every claim on a unit has lapsed and its flush
    deadline has come, a reaper pass followed by a claim hands out that unit or one that
    has been waiting at least as long. *)
Theorem no_unit_is_stranded n h b e w d now k u :
  wf n h b → (n < int64_max)%Z → order_ok e → w ≠ "" →
  units b !! k = Some u →
  (claimedBy u ≠ "" → (leaseExpires u < now)%Z) →
  flushDeadline u ≠ 0%Z → (flushDeadline u ≤ now)%Z →
  ∃ c v, (Claim e w d (ReapExpired e now b).1).2 = Ok (Some c) ∧
    units b !! cu_Key c = Some v ∧
    (cu_Key c = k ∨ (flushDeadline v ≤ flushDeadline u)%Z).
Proof.
  intros Hw Hn He Hne Hu Hexp Hnz Hdue.
  set (b1 := (ReapExpired e now b).1). pose proof (ReapExpired_law n h b e now Hw He) as (Hw1 & _).
  fold b1 in Hw1. assert (∀ k, units b1 !! k = (λ u, (reap_unit now u).1.1) <$> units b !! k)
    as Hk1 by (intros; by apply ReapExpired_units).
  assert (∀ v, flushDeadline (reap_unit now v).1.1 = flushDeadline v) as Hfd.
  { intros v. unfold reap_unit. cbn [fst]. by repeat case_match. }
  assert (claimable (reap_unit now u).1.1 = true) as Hcl.
  { apply reaped_claimable; try done. apply (wf_work _ _ _ _ (wf_lookup _ _ _ _ _ Hw Hu)). }
  pose proof (claim_scan_spec (units b1) (range_units e b1)) as Hs. unfold Claim.
  destruct (claim_scan _ _ _) as [[k' v']|].
  - destruct Hs as [Hb _]. pose proof Hb as (Hv' & _). rewrite Hk1 in Hv'.
    apply fmap_Some_1 in Hv' as (v & Hv & ->). eexists _, v. split; [done|].
    cbn [cu_Key key set_claim].
    assert (units b1 !! k' = Some (reap_unit now v).1.1) as Hv1 by (by rewrite Hk1, Hv).
    rewrite (wf_key _ _ _ _ (wf_lookup _ _ _ _ _ Hw1 Hv1)). split; [done|]. right.
    assert (units b1 !! k = Some (reap_unit now u).1.1) as Hu1 by (by rewrite Hk1, Hu).
    pose proof (best_of_range e He _ _ _ _ _ Hb Hu1 Hcl) as Hnb. unfold better in Hnb.
    rewrite !Hfd in Hnb. apply orb_false_iff in Hnb as [Hlt _]. b2p. lia.
  - rewrite (Hs k (reap_unit now u).1.1) in Hcl; [done| |].
    + apply elem_of_range; [done|]. by rewrite Hk1, Hu.
    + by rewrite Hk1, Hu.
Qed.

Lemma no_unit_is_stranded_witness :
  ∃ u, units ex_b !! ex_k1 = Some u ∧
  ∃ c v, (Claim (env_at (9 * Second)) "w1" Second
      (ReapExpired (env_at (9 * Second)) (9 * Second) ex_b).1).2 = Ok (Some c) ∧
    units ex_b !! cu_Key c = Some v ∧
    (cu_Key c = ex_k1 ∨ (flushDeadline v ≤ flushDeadline u)%Z).
Proof.
  destruct (units ex_b !! ex_k1) as [u|] eqn:Hu; [|by vm_compute in Hu].
  exists u. split; [done|].
  assert (leaseExpires u = 7 * Second ∧ flushDeadline u = 6 * Second)%Z as [Hl Hf]
    by (vm_compute in Hu; by injection Hu as <-).
  apply (no_unit_is_stranded 4 ex_h ex_b (env_at (9 * Second)) "w1" Second (9 * Second) ex_k1 u);
    [apply ex_wf|by vm_compute|by intros l|done|done|..].
  - intros _. rewrite Hl. by vm_compute.
  - by rewrite Hf.
  - rewrite Hf. by vm_compute.
Defined.
