(* ===== verification/MemoryLease.v ===== *)
(** MemoryLease: a lease of the in-memory driver lasts (internal/memory/backend.go): until
    its holder ends it or a reaper comes after its expiry, nobody else is given the unit. *)
From S2P Require Import Prelude Queue Lease Memory MemoryFacts.

(** every unit is stored under its key *)
Definition keyed (b : Backend) : Prop := map_Forall (λ k u, key u = k) (units b).

Lemma keyed_put k u b : keyed b → key u = k → keyed (put_unit k u b).
Proof. intros Hb Hu. by apply map_Forall_insert_2. Qed.

Lemma keyed_drop k b : keyed b → keyed (drop_unit k b).
Proof. intros Hb. by apply map_Forall_delete. Qed.

Lemma held_lookup c b u : held c b = Some u → units b !! cu_Key c = Some u.
Proof. unfold held. destruct (units b !! _); [|done]. case_match; [|done]. by intros [= ->]. Qed.

Lemma recompute_key now u u' : recompute now u = Some u' → key u' = key u.
Proof. unfold recompute. destruct (enqAt u); [done|]. by intros [= <-]. Qed.

Lemma range_units_keys e b k u :
  claim_scan (units b) (range_units e b) None = Some (k, u) →
  units b !! k = Some u ∧ claimable u = true.
Proof.
  intros Hs. pose proof (claim_scan_spec (units b) (range_units e b)) as Hspec. rewrite Hs in Hspec.
  destruct Hspec as [(? & ? & _) _]. by split.
Qed.

(** ** What a call does to the other units *)

(** only the unit [k] may differ, and units are stored under their keys *)
Definition touches (k : WorkUnitKey) (b b' : Backend) : Prop :=
  keyed b' ∧ ∀ k', k' ≠ k → units b' !! k' = units b !! k'.

Lemma touches_put k u b : keyed b → key u = k → touches k b (put_unit k u b).
Proof.
  intros Hb Hu. split; [by apply keyed_put|]. intros k' Hne. cbn. by rewrite lookup_insert_ne.
Qed.

Lemma touches_drop k b : keyed b → touches k b (drop_unit k b).
Proof.
  intros Hb. split; [by apply keyed_drop|]. intros k' Hne. cbn. by rewrite lookup_delete_ne.
Qed.

Lemma touches_same k b : keyed b → touches k b b.
Proof. by split. Qed.

Lemma touches_dead k d b b' : touches k (add_dead d b) b' → touches k b b'.
Proof. done. Qed.

#[local] Hint Resolve touches_put touches_drop touches_same : core.

Lemma Ack_touches e c q b u :
  keyed b → held c b = Some u → touches (cu_Key c) b (Ack e c q b).1.
Proof.
  intros Hb Hh. pose proof (held_lookup _ _ _ Hh) as Hu. pose proof (Hb _ _ Hu) as Hk. simpl in Hk.
  unfold Ack. rewrite Hh. destruct (ack_scan _ _ _) as [i cost]. cbv zeta.
  case_bool_decide; [by apply touches_put|]. case_bool_decide.
  - cbn [key set_attempts set_queue]. rewrite Hk. by apply touches_drop.
  - destruct (recompute _ _) as [u'|] eqn:Hr; [|by apply touches_put].
    apply recompute_key in Hr. cbn in Hr.
    destruct (eligible u'); (apply touches_put; [done|cbn; congruence]).
Qed.

Lemma Fail_touches e c q reason b u :
  keyed b → held c b = Some u → touches (cu_Key c) b (Fail e c q reason b).1.
Proof.
  intros Hb Hh. pose proof (held_lookup _ _ _ Hh) as Hu. pose proof (Hb _ _ Hu) as Hk. simpl in Hk.
  unfold Fail. rewrite Hh. cbn [tasks set_attempts]. destruct (tasks u) as [|hd tl];
    [by apply touches_put|]. destruct (_ && _); [|by apply touches_put]. cbn [enqAt set_attempts].
  destruct (enqAt u) as [|t0 at_]; [eapply touches_dead, touches_put; done|].
  case_bool_decide.
  - cbn [key set_attempts set_queue]. rewrite Hk. eapply touches_dead. by apply touches_drop.
  - destruct (recompute _ _) as [u'|] eqn:Hr; [|eapply touches_dead, touches_put; done].
    apply recompute_key in Hr. cbn in Hr. eapply touches_dead, touches_put; [done|]. cbn. congruence.
Qed.

(** ** A lease *)

(** The unit of handle [c] is leased to its holder, to [t] at least. *)
Record leased (c : ClaimedUnit) (t : time) (b : Backend) : Prop := {
  le_worker : cu_Worker c ≠ "";
  le_keyed : keyed b;
  le_unit : ∃ u, units b !! cu_Key c = Some u ∧ claimedBy u = cu_Worker c ∧ lease u = cu_Lease c ∧
    (t <= leaseExpires u)%Z;
}.

(** the handles the driver takes for [c] *)
Definition same_handle (c c' : ClaimedUnit) : Prop :=
  cu_Key c' = cu_Key c ∧ cu_Worker c' = cu_Worker c ∧ cu_Lease c' = cu_Lease c.

Definition spares_of (c : ClaimedUnit) (t : time) : Env * qcall → Prop :=
  spares (same_handle c) (λ e d, env_now e 0 + d)%Z t.

Lemma leased_held c t b : leased c t b → is_Some (held c b).
Proof.
  intros [_ _ (u & Hu & Hw & Hl & _)]. unfold held. rewrite Hu, Hw, Hl, !bool_decide_true by done.
  by eexists.
Qed.

(** another handle on the unit is not accepted *)
Lemma leased_other c c' t b u :
  leased c t b → held c' b = Some u → ¬ same_handle c c' → cu_Key c' ≠ cu_Key c.
Proof.
  intros [_ _ (v & Hv & Hw & Hl & _)] Hh Hd Hk. apply Hd. unfold held in Hh. rewrite Hk, Hv in Hh.
  destruct (_ && _) eqn:Hb; [|done]. b2p. split_and!; congruence.
Qed.

Lemma leased_touches c t b b' k : leased c t b → touches k b b' → k ≠ cu_Key c → leased c t b'.
Proof. intros [Hw _ Hu] [Hk Ho] Hne. split; [done|done|]. by rewrite Ho by congruence. Qed.

(** a claim is given a free unit *)
Lemma leased_claim c t b e w d :
  leased c t b → leased c t (Claim e w d b).1 ∧
  ∀ c', (Claim e w d b).2 = Ok (Some c') → cu_Key c' ≠ cu_Key c.
Proof.
  intros [Hw Hk (u & Hu & Hcw & Hl & Ht)]. unfold Claim.
  destruct (claim_scan _ _ _) as [[k best]|] eqn:Hs.
  2:{ split; [by split; [..|by exists u]|done]. }
  apply range_units_keys in Hs as [Hb Hcl]. pose proof (Hk _ _ Hb) as Hkey. simpl in Hkey.
  assert (k ≠ cu_Key c) as Hne.
  { intros ->. rewrite Hu in Hb. injection Hb as ->. unfold claimable in Hcl. b2p. congruence. }
  cbn [fst snd]. split.
  - split; [done|by apply map_Forall_insert_2|]. exists u. cbn. by rewrite lookup_insert_ne.
  - intros c' [= <-]. cbn [cu_Key]. congruence.
Qed.

(** the reaper takes no lease that has not expired *)
Lemma leased_reap c t b now ks r f :
  (now <= t)%Z → leased c t b → leased c t (reap_scan now ks b r f).1.
Proof.
  intros Hnow. revert b r f. induction ks as [|k ks IH]; intros b r f Hb; cbn [reap_scan]; [done|].
  destruct (units b !! k) as [v|] eqn:Hv; [|by apply IH].
  destruct (reap_unit now v) as [[v' rec] fl] eqn:Hrv. apply IH.
  assert (key v' = key v) as Hkv.
  { unfold reap_unit in Hrv. injection Hrv as <- _ _. by repeat case_match. }
  pose proof Hb as [Hw Hk (u & Hu & Hcw & Hl & Ht)]. pose proof (Hk _ _ Hv) as Hkey. simpl in Hkey.
  split; [done|apply keyed_put; [done|congruence]|].
  destruct (decide (k = cu_Key c)) as [->|Hne].
  - exists v'. cbn. rewrite lookup_insert_eq. split; [done|]. rewrite Hu in Hv. injection Hv as <-.
    unfold reap_unit in Hrv. rewrite (bool_decide_false (claimedBy u = "")) in Hrv by congruence.
    rewrite (proj2 (Z.ltb_ge _ _)) in Hrv by lia. cbn [negb andb] in Hrv.
    rewrite (bool_decide_false (claimedBy u = "")) in Hrv by congruence. by injection Hrv as <- _ _.
  - exists u. cbn. by rewrite lookup_insert_ne.
Qed.

Lemma leased_call c t ex b : spares_of c t ex → leased c t b → leased c t (do_call ex.1 ex.2 b).
Proof.
  destruct ex as [e x]. intros Hs Hb. unfold spares_of, spares in Hs. cbn [fst snd] in *.
  destruct x as [k p cost|w d|c' max|c' q|c'|c' d|c' q reason|now];
    cbn [do_call be_Enqueue be_Claim be_Drain be_Ack be_Release be_Heartbeat be_Fail be_ReapExpired
      Memory_Backend].
  - pose proof Hb as [Hw Hk (u & Hu & Hcw & Hl & Ht)]. unfold Enqueue. cbn [fst].
    destruct (decide (k = cu_Key c)) as [->|Hne].
    + rewrite Hu. pose proof (Hk _ _ Hu) as Hkey. simpl in Hkey. cbn [default].
      split; [done|by apply keyed_put|]. eexists. cbn. by rewrite lookup_insert_eq.
    + eapply leased_touches; [done| |done]. apply touches_put; [done|].
      destruct (units b !! k) as [v|] eqn:Hv; [apply (Hk _ _ Hv)|done].
  - by apply leased_claim.
  - unfold Drain. destruct (held c' b); [|done]. by case_match.
  - destruct (held c' b) as [u|] eqn:Hh; [|unfold Ack; by rewrite Hh].
    eapply leased_touches; [done|eapply Ack_touches; [apply Hb|done]|by eapply leased_other].
  - unfold Release. destruct (held c' b) as [u|] eqn:Hh; [|done].
    eapply leased_touches; [done| |by eapply leased_other].
    apply touches_put; [apply Hb|]. apply held_lookup in Hh. by apply (le_keyed _ _ _ Hb) in Hh.
  - unfold Heartbeat. destruct (held c' b) as [u|] eqn:Hh; [|done]. cbn [fst].
    pose proof (held_lookup _ _ _ Hh) as Hu. pose proof (le_keyed _ _ _ Hb _ _ Hu) as Hku. simpl in Hku.
    destruct (decide (cu_Key c' = cu_Key c)) as [Heq|Hne].
    2:{ eapply leased_touches; [done|by apply touches_put; [apply Hb|]|done]. }
    pose proof Hb as [Hw Hk (v & Hv & Hcw & Hl & Ht)]. rewrite Heq in *. rewrite Hv in Hu.
    injection Hu as ->. split; [done|by apply keyed_put|]. eexists. cbn. rewrite lookup_insert_eq.
    split_and!; [done|done|done|]. apply Hs. unfold held in Hh. rewrite Heq, Hv in Hh.
    destruct (_ && _) eqn:Hd; [|done]. b2p. by split_and!; congruence.
  - destruct (held c' b) as [u|] eqn:Hh; [|unfold Fail; by rewrite Hh].
    eapply leased_touches; [done|eapply Fail_touches; [apply Hb|done]|by eapply leased_other].
  - rewrite ReapExpired_fst. by apply leased_reap.
Qed.

Lemma keyed_reap now ks b r f : keyed b → keyed (reap_scan now ks b r f).1.
Proof.
  revert b r f. induction ks as [|k ks IH]; intros b r f Hb; cbn [reap_scan]; [done|].
  destruct (units b !! k) as [v|] eqn:Hv; [|by apply IH].
  destruct (reap_unit now v) as [[v' rec] fl] eqn:Hrv. apply IH, keyed_put; [done|].
  unfold reap_unit in Hrv. injection Hrv as <- _ _. apply Hb in Hv. simpl in Hv.
  by repeat case_match.
Qed.

Lemma keyed_call ex b : keyed b → keyed (do_call ex.1 ex.2 b).
Proof.
  destruct ex as [e x]. intros Hb. cbn [fst snd].
  destruct x as [k p cost|w d|c' max|c' q|c'|c' d|c' q reason|now];
    cbn [do_call be_Enqueue be_Claim be_Drain be_Ack be_Release be_Heartbeat be_Fail be_ReapExpired
      Memory_Backend].
  - apply keyed_put; [done|]. cbn. destruct (units b !! k) as [v|] eqn:Hv; [apply (Hb _ _ Hv)|done].
  - unfold Claim. destruct (claim_scan _ _ _) as [[k best]|] eqn:Hs; [|done].
    apply range_units_keys in Hs as [Hk _]. apply map_Forall_insert_2; [|done]. by apply (Hb _ _ Hk).
  - unfold Drain. destruct (held c' b); [|done]. by case_match.
  - destruct (held c' b) as [u|] eqn:Hh; [|unfold Ack; by rewrite Hh]. by eapply Ack_touches.
  - unfold Release. destruct (held c' b) as [u|] eqn:Hh; [|done].
    apply keyed_put; [done|]. apply held_lookup in Hh. by apply Hb in Hh.
  - unfold Heartbeat. destruct (held c' b) as [u|] eqn:Hh; [|done].
    apply keyed_put; [done|]. apply held_lookup in Hh. by apply Hb in Hh.
  - destruct (held c' b) as [u|] eqn:Hh; [|unfold Fail; by rewrite Hh]. by eapply Fail_touches.
  - rewrite ReapExpired_fst. by apply keyed_reap.
Qed.

(** a claim leases the unit it returns *)
Lemma claim_leases e w d b b' c :
  keyed b → w ≠ "" → Claim e w d b = (b', Ok (Some c)) → leased c (cu_LeaseTill c) b'.
Proof.
  intros Hb Hw Hc. unfold Claim in Hc. destruct (claim_scan _ _ _) as [[k u]|] eqn:Hs; [|done].
  injection Hc as <- <-. apply range_units_keys in Hs as [Hu _]. pose proof (Hb _ _ Hu) as Hk.
  simpl in Hk. split; cbn [cu_Worker cu_Key cu_Lease cu_LeaseTill]; [done| |].
  - by apply map_Forall_insert_2.
  - eexists. cbn. rewrite Hk, lookup_insert_eq. by split_and!.
Qed.

(** C5: A lease of the in-memory driver lasts (Claim, and every other method).  After any
    calls, a worker claims a unit.  Then, until [cu_LeaseTill], whatever calls come, by
    anybody and with any handles, forged ones included, as long as the holder itself does
    not end the lease or shorten it and no reaper's clock is past it: the holder's handle is
    still accepted, and no claim is given the unit. *)
Theorem memory_lease_lasts o (before after : list (Env * qcall)) e w d b c :
  w ≠ "" → Claim e w d (do_calls before (New o)) = (b, Ok (Some c)) →
  Forall (spares_of c (cu_LeaseTill c)) after →
  is_Some (held c (do_calls after b)) ∧
  ∀ e' w' d' c', (Claim e' w' d' (do_calls after b)).2 = Ok (Some c') → cu_Key c' ≠ cu_Key c.
Proof.
  intros Hw Hc Hs.
  assert (keyed (do_calls before (New o))) as Hk.
  { apply (do_calls_keep (λ _, True)); [intros ex s _; apply keyed_call|by apply Forall_true|done]. }
  assert (leased c (cu_LeaseTill c) (do_calls after b)) as Hb.
  { apply (do_calls_keep (spares_of c (cu_LeaseTill c))); [intros; by apply leased_call|done|].
    by eapply claim_leases. }
  split; [by eapply leased_held|]. intros e' w' d'. by eapply leased_claim.
Qed.

(** A unit is claimed to second 4; then a producer adds to it, a forged handle tries to
    acknowledge it, its holder's lease is extended, and the reaper comes at second 4. *)
Definition ll_key : WorkUnitKey := mkKey "ws" "s" "p".
Definition ll_before : list (Env * qcall) := [(env_at Second, QEnqueue ll_key "a" 1)].
Definition ll_new : Backend := New (mkOptions 1 (5 * Second) 1).
Definition ll_claim : Backend * res (option ClaimedUnit) :=
  Claim (env_at Second) "w0" (3 * Second) (do_calls ll_before ll_new).
Definition ll_handle : ClaimedUnit := mkClaimed ll_key "w0" "w0-1" (4 * Second).
Definition ll_after : list (Env * qcall) :=
  [(env_at (2 * Second), QEnqueue ll_key "b" 1);
   (env_at (2 * Second), QAck (mkClaimed ll_key "w1" "w0-1" 0) 5);
   (env_at (3 * Second), QHeartbeat ll_handle (3 * Second));
   (env_at (4 * Second), QReap (4 * Second))].

Lemma memory_lease_lasts_witness :
  ll_claim.2 = Ok (Some ll_handle) ∧
  is_Some (held ll_handle (do_calls ll_after ll_claim.1)) ∧
  (Claim (env_at (4 * Second)) "w1" Second (do_calls ll_after ll_claim.1)).2 = Ok None.
Proof.
  split; [vm_compute; reflexivity|]. split; [|vm_compute; reflexivity].
  refine (proj1 (memory_lease_lasts (mkOptions 1 (5 * Second) 1) ll_before ll_after
    (env_at Second) "w0" (3 * Second) ll_claim.1 ll_handle _ _ _)).
  - done.
  - vm_compute. reflexivity.
  - unfold ll_after. repeat apply Forall_cons_2; [done| | | |apply Forall_nil_2].
    + cbn. by intros (_ & ? & _).
    + cbn. intros _. vm_compute. congruence.
    + cbn. done.
Defined.
