(* ===== verification/Client.v ===== *)
(** Client: any client of a backend, under the [Contract] alone: arbitrary calls with
    arbitrary issued handles, the dead-letter path [Fail] included (which the shared
    worker loop of internal/queue/worker.go never takes).  What a backend promises here
    is what internal/queue/backend.go documents for its methods, over whole histories. *)
From S2P Require Import Prelude Queue Contract.

(** ** Dead letters *)

(** A driver's dead letters, unit by unit in the order they were written, and what it
    promises of them: only [Fail] writes one, and it takes a task from the FIFO exactly
    when it writes it as the next letter of its unit. *)
Class Buries (S : Type) `{Contract S} := {
  letters : S → WorkUnitKey → list Task;

  letters_kept e s k :
    (∀ k' p c, letters (be_Enqueue e k' p c s).1 k = letters s k) ∧
    (∀ w d, letters (be_Claim e w d s).1 k = letters s k) ∧
    (∀ c m, letters (be_Drain e c m s).1 k = letters s k) ∧
    (∀ c q, letters (be_Ack e c q s).1 k = letters s k) ∧
    (∀ c, letters (be_Release e c s).1 k = letters s k) ∧
    (∀ c d, letters (be_Heartbeat e c d s).1 k = letters s k) ∧
    (∀ now, letters (be_ReapExpired e now s).1 k = letters s k);

  letters_fail n h e c q reason s s' r :
    inv n h s → env_ok e → issued h c → key_ok (cu_Key c) →
    be_Fail e c q reason s = (s', r) →
    (∀ k, k ≠ cu_Key c → letters s' k = letters s k) ∧
    ((pending s' (cu_Key c) = pending s (cu_Key c) ∧
      letters s' (cu_Key c) = letters s (cu_Key c)) ∨
     ∃ t ts, pending s (cu_Key c) = t :: ts ∧ Seq t = q ∧ pending s' (cu_Key c) = ts ∧
       letters s' (cu_Key c) = letters s (cu_Key c) ++ [t]);
}.

(** ** Histories *)

(** why a task is no longer pending *)
Inductive fate :=
  | Acknowledged (t : Task)
  | Buried (t : Task).

Definition fate_task (f : fate) : Task := match f with Acknowledged t | Buried t => t end.

Definition buried (fs : list fate) : list Task :=
  omap (λ f, match f with Buried t => Some t | Acknowledged _ => None end) fs.

Definition upd {A} (f : WorkUnitKey → list A) (k : WorkUnitKey) (l : list A) :
    WorkUnitKey → list A :=
  λ k', f k' ++ if decide (k' = k) then l else [].

Section client.
Context {S : Type} `{Contract S}.
Context (dead : S → WorkUnitKey → list Task).   (* the dead letters the history reads *)

(** The state of a history: calls so far, tokens issued, the backend, and for each unit
    the tasks enqueued and the fates the calls gave. *)
Record hist := mkHist {
  hs_n : Z;
  hs_toks : gset LeaseToken;
  hs_st : S;
  hs_enq : WorkUnitKey → list Task;
  hs_fates : WorkUnitKey → list fate;
}.

(** the tasks an acknowledgement through [q] is for: those handed out, through [q], if the
    handle is accepted *)
Definition acknowledges (s : S) (c : ClaimedUnit) (q : Z) : list fate :=
  if holds s c then
    Acknowledged <$>
      take_while (through q) (take (delivered s (cu_Key c)) (pending s (cu_Key c)))
  else [].

(** the letters of unit [k] written from [s] to [s'] *)
Definition buries (s s' : S) (k : WorkUnitKey) : list fate :=
  Buried <$> drop (length (dead s k)) (dead s' k).

Inductive call : hist → hist → Prop :=
| call_enqueue n h s enq fates e k p c s' r :
    (n < capacity S)%Z → env_ok e → key_ok k → cost_ok c →
    be_Enqueue e k p c s = (s', r) →
    call (mkHist n h s enq fates)
      (mkHist (n + 1) h s'
         (upd enq k match r with Ok q => [mkTask q p c] | _ => [] end) fates)
| call_claim n h s enq fates e w d s' r :
    (n < capacity S)%Z → env_ok e → token_fresh h e → w ≠ "" →
    be_Claim e w d s = (s', r) →
    call (mkHist n h s enq fates)
      (mkHist (n + 1) (match r with Ok (Some c) => {[cu_Lease c]} ∪ h | _ => h end)
         s' enq fates)
| call_drain n h s enq fates e c max s' r :
    env_ok e → issued h c → key_ok (cu_Key c) → (0 < max)%Z → be_Drain e c max s = (s', r) →
    call (mkHist n h s enq fates) (mkHist n h s' enq fates)
| call_ack n h s enq fates e c q s' r :
    env_ok e → issued h c → key_ok (cu_Key c) → be_Ack e c q s = (s', r) →
    call (mkHist n h s enq fates)
      (mkHist n h s' enq (upd fates (cu_Key c) (acknowledges s c q)))
| call_release n h s enq fates e c s' r :
    env_ok e → issued h c → key_ok (cu_Key c) → be_Release e c s = (s', r) →
    call (mkHist n h s enq fates) (mkHist n h s' enq fates)
| call_heartbeat n h s enq fates e c d s' r :
    env_ok e → issued h c → key_ok (cu_Key c) → be_Heartbeat e c d s = (s', r) →
    call (mkHist n h s enq fates) (mkHist n h s' enq fates)
| call_fail n h s enq fates e c q reason s' r :
    env_ok e → issued h c → key_ok (cu_Key c) → be_Fail e c q reason s = (s', r) →
    call (mkHist n h s enq fates)
      (mkHist n h s' enq (upd fates (cu_Key c) (buries s s' (cu_Key c))))
| call_reap n h s enq fates e now s' r :
    env_ok e → be_ReapExpired e now s = (s', r) →
    call (mkHist n h s enq fates) (mkHist n h s' enq fates).

Definition start (s0 : S) : hist := mkHist 0 ∅ s0 (λ _, []) (λ _, []).

(** ** Handles over a history *)

(** what every call keeps *)
Definition kept (x y : hist) : Prop :=
  inv (hs_n y) (hs_toks y) (hs_st y) ∧ hs_toks x ⊆ hs_toks y ∧
  no_revival (hs_toks x) (hs_st x) (hs_st y).

Lemma kept_view n n' h s s' enq enq' fates fates' :
  inv n' h s' → same_view h s s' → kept (mkHist n h s enq fates) (mkHist n' h s' enq' fates').
Proof. intros Hi [_ Hh]. split_and!; try done. intros c Hc. cbn. by rewrite Hh. Qed.

Lemma call_ok x y : inv (hs_n x) (hs_toks x) (hs_st x) → call x y → kept x y.
Proof.
  intros Hi Hc. destruct Hc as
    [n h s enq fates e k p c s' r Hn He Hkey Hcost Hr|n h s enq fates e w d s' r Hn He Ht Hw Hr
    |n h s enq fates e c max s' r He Hc Hkey Hm Hr|n h s enq fates e c q s' r He Hc Hkey Hr
    |n h s enq fates e c s' r He Hc Hkey Hr|n h s enq fates e c d s' r He Hc Hkey Hr
    |n h s enq fates e c q reason s' r He Hc Hkey Hr|n h s enq fates e now s' r He Hr]; simpl in *.
  - destruct (enqueue_law _ _ _ _ _ _ _ _ _ Hi Hn He Hkey Hcost Hr) as (Hi' & (_ & _ & Hnr) & _).
    by split_and!.
  - destruct (claim_law _ _ _ _ _ _ _ _ Hi Hn He Ht Hw Hr) as (_ & _ & Hc).
    destruct r as [[c|]|err|]; [|destruct Hc; by apply kept_view..|done].
    destruct Hc as (_ & _ & _ & Hi' & _ & _ & _ & _ & Hnr). split_and!; [done|set_solver|done].
  - destruct (drain_law _ _ _ _ _ _ _ _ Hi He Hc Hkey Hm Hr) as (Hi' & Hs & _).
    by apply kept_view.
  - destruct (ack_law _ _ _ _ _ _ _ _ Hi He Hc Hkey Hr) as (Hi' & _ & Ha).
    destruct (holds s c); [|destruct Ha as [Hs _]; by apply kept_view].
    destruct Ha as ((_ & _ & Hnr) & _). by split_and!.
  - destruct (release_law _ _ _ _ _ _ _ Hi He Hc Hkey Hr) as (Hi' & _ & Ha).
    destruct (holds s c); [|destruct Ha as [Hs _]; by apply kept_view].
    destruct Ha as ((_ & _ & Hnr) & _). by split_and!.
  - destruct (heartbeat_law _ _ _ _ _ _ _ _ Hi He Hc Hkey Hr) as (Hi' & Hs & _).
    by apply kept_view.
  - destruct (fail_law _ _ _ _ _ _ _ _ _ Hi He Hc Hkey Hr) as (Hi' & Ha).
    destruct (holds s c); [|destruct Ha as [Hs _]; by apply kept_view].
    destruct Ha as [((_ & _ & Hnr) & _)|[Hs _]]; [by split_and!|by apply kept_view].
  - destruct (reap_law _ _ _ _ _ _ _ Hi He Hr) as (Hi' & _ & Hnr & _). by split_and!.
Qed.

Lemma calls_ok x y : inv (hs_n x) (hs_toks x) (hs_st x) → rtc call x y → kept x y.
Proof.
  intros Hx Hxy. induction Hxy as [|x y z Hc _ IH].
  { split_and!; [done|done|by intros c _]. }
  destruct (call_ok _ _ Hx Hc) as (Hy & Hsub & Hnr).
  destruct (IH Hy) as (Hz & Hsub' & Hnr'). split_and!; [done|by etrans|].
  intros c Hi Hh. apply Hnr; [done|]. apply Hnr'; [|done]. unfold issued in *. by apply Hsub.
Qed.
End client.
Arguments hist S : clear implicits.

(** ** The books of a history *)

Section ledger.
Context {S : Type} `{Buries S}.

Lemma buried_app l1 l2 : buried (l1 ++ l2) = buried l1 ++ buried l2.
Proof. apply omap_app. Qed.

Lemma buried_acknowledged (ts : list Task) : buried (Acknowledged <$> ts) = [].
Proof. by induction ts. Qed.

Lemma buried_buried (ts : list Task) : buried (Buried <$> ts) = ts.
Proof. induction ts as [|t ts IH]; [done|]. cbn. by f_equal. Qed.

Lemma fate_tasks (f : Task → fate) (ts : list Task) : (∀ t, fate_task (f t) = t) → fate_task <$> (f <$> ts) = ts.
Proof. intros Hf. induction ts as [|t ts IH]; [done|]. rewrite !fmap_cons, Hf. by f_equal. Qed.

(** The books of unit [k]: what was enqueued is what met its fate, then what is pending; and
    the dead letters are the tasks whose fate was to be buried. *)
Definition balanced (x : hist S) (k : WorkUnitKey) : Prop :=
  hs_enq x k = (fate_task <$> hs_fates x k) ++ pending (hs_st x) k ∧
  letters (hs_st x) k = buried (hs_fates x k).

(** a call that gives no fate and enqueues nothing *)
Lemma balanced_same n n' h h' s s' enq fates k :
  pending s' k = pending s k → letters s' k = letters s k →
  balanced (mkHist n h s enq fates) k → balanced (mkHist n' h' s' enq fates) k.
Proof. unfold balanced. cbn. intros -> ->. done. Qed.

(** a call that gives the tasks [ts] at the head of unit [K] the fate [f] *)
Lemma balanced_fates n h s s' enq fates K k (f : Task → fate) (ts : list Task) :
  (∀ t, fate_task (f t) = t) → pending s K = ts ++ pending s' K →
  letters s' K = letters s K ++ buried (f <$> ts) →
  (k ≠ K → pending s' k = pending s k ∧ letters s' k = letters s k) →
  balanced (mkHist n h s enq fates) k →
  balanced (mkHist n h s' enq (upd fates K (f <$> ts))) k.
Proof.
  unfold balanced, upd. cbn [hs_enq hs_fates hs_st]. intros Hf Hp Hl Ho [He Hb].
  case_decide as Hk; [subst k|].
  - rewrite fmap_app, fate_tasks, buried_app, <- Hb by done. split; [|done].
    rewrite He, Hp. by rewrite (assoc_L (++)).
  - destruct Ho as [-> ->]; [done|]. by rewrite app_nil_r.
Qed.

Lemma client_call_balanced x y k :
  inv (hs_n x) (hs_toks x) (hs_st x) → call letters x y → balanced x k → balanced y k.
Proof.
  intros Hi Hc. destruct Hc as
    [n h s enq fates e k0 p c s' r Hn He Hkey Hcost Hr|n h s enq fates e w d s' r Hn He Ht Hw Hr
    |n h s enq fates e c max s' r He Hc Hkey Hm Hr|n h s enq fates e c q s' r He Hc Hkey Hr
    |n h s enq fates e c s' r He Hc Hkey Hr|n h s enq fates e c d s' r He Hc Hkey Hr
    |n h s enq fates e c q reason s' r He Hc Hkey Hr|n h s enq fates e now s' r He Hr];
    cbn [hs_n hs_toks hs_st] in *;
    destruct (letters_kept e s k) as (L1 & L2 & L3 & L4 & L5 & L6 & L7).
  - destruct (enqueue_law _ _ _ _ _ _ _ _ _ Hi Hn He Hkey Hcost Hr) as (_ & (Hk & _) & _ & _ & Hp).
    specialize (L1 k0 p c). rewrite Hr in L1. cbn [fst] in L1. unfold balanced, upd. cbn.
    rewrite L1. intros [Hen Hb]. split; [|done].
    case_decide as Hk0; [subst k0|by rewrite app_nil_r, Hk].
    destruct r; [rewrite Hp, Hen; by rewrite (assoc_L (++))|by rewrite app_nil_r, Hp|done].
  - destruct (claim_law _ _ _ _ _ _ _ _ Hi Hn He Ht Hw Hr) as (Hp & _).
    specialize (L2 w d). rewrite Hr in L2. by apply balanced_same.
  - destruct (drain_law _ _ _ _ _ _ _ _ Hi He Hc Hkey Hm Hr) as (_ & [Hp _] & _).
    specialize (L3 c max). rewrite Hr in L3. by apply balanced_same.
  - destruct (ack_law _ _ _ _ _ _ _ _ Hi He Hc Hkey Hr) as (_ & _ & Ha).
    assert (∀ k, letters s' k = letters s k) as Hl.
    { intros k'. destruct (letters_kept e s k') as (_ & _ & _ & L4' & _).
      specialize (L4' c q). by rewrite Hr in L4'. }
    unfold acknowledges. destruct (holds s c).
    + destruct Ha as ((Hk & _) & Hp & _). apply balanced_fates; try done.
      * by rewrite buried_acknowledged, app_nil_r.
      * intros Hne. by rewrite Hk.
    + destruct Ha as ([Hp _] & _). change [] with (Acknowledged <$> []).
      apply balanced_fates; [done|by rewrite Hp|by rewrite app_nil_r|by rewrite Hp].
  - destruct (release_law _ _ _ _ _ _ _ Hi He Hc Hkey Hr) as (_ & _ & Ha).
    specialize (L5 c). rewrite Hr in L5. apply balanced_same; [|done].
    destruct (holds s c); [|by destruct Ha as [[Hp _] _]]. destruct Ha as ((Hk & _) & Hp & _).
    destruct (decide (k = cu_Key c)) as [->|]; auto.
  - destruct (heartbeat_law _ _ _ _ _ _ _ _ Hi He Hc Hkey Hr) as (_ & [Hp _] & _).
    specialize (L6 c d). rewrite Hr in L6. by apply balanced_same.
  - destruct (fail_law _ _ _ _ _ _ _ _ _ Hi He Hc Hkey Hr) as (_ & Ha).
    destruct (letters_fail _ _ _ _ _ _ _ _ _ Hi He Hc Hkey Hr) as [Hlo Hl].
    assert (∀ k, k ≠ cu_Key c → pending s' k = pending s k) as Ho.
    { destruct (holds s c); [|by destruct Ha as [[Hp _] _]].
      by destruct Ha as [((Hk & _) & _)|[[Hp _] _]]. }
    unfold buries. destruct Hl as [[Hp Hl]|(t & ts & Hp & _ & Hp' & Hl')].
    + rewrite drop_ge by (rewrite Hl; lia). apply balanced_fates; [done|by rewrite Hp|by rewrite Hl, app_nil_r|auto].
    + rewrite Hl', drop_app_length. apply balanced_fates; [done|by rewrite Hp, Hp'|by rewrite Hl', buried_buried|auto].
  - destruct (reap_law _ _ _ _ _ _ _ Hi He Hr) as (_ & Hp & _).
    specialize (L7 now). rewrite Hr in L7. by apply balanced_same.
Qed.

Lemma calls_balanced x y k :
  inv (hs_n x) (hs_toks x) (hs_st x) → rtc (call letters) x y → balanced x k → balanced y k.
Proof.
  intros Hx Hxy. revert Hx. induction Hxy as [x|x y z Hc _ IH]; intros Hx Hb; [exact Hb|].
  destruct (call_ok _ _ _ Hx Hc) as (Hy & _). exact (IH Hy (client_call_balanced x y k Hx Hc Hb)).
Qed.
End ledger.
