(* ===== verification/ClientProps.v ===== *)
(** ClientProps: what any backend that satisfies the [Contract] guarantees over whole
    histories of calls, applied to the in-memory driver. *)
From S2P Require Import Prelude Queue Contract Client Memory MemoryFacts.

(** ** The dead letters of the in-memory driver *)

Definition mem_letters (b : Backend) (k : WorkUnitKey) : list Task :=
  dl_Task <$> filter (λ d, dl_Key d = k) (dlq b).

Lemma mem_letters_dlq b b' k : dlq b' = dlq b → mem_letters b' k = mem_letters b k.
Proof. unfold mem_letters. by intros ->. Qed.

Lemma reap_scan_dlq now ks b r f : dlq (reap_scan now ks b r f).1 = dlq b.
Proof.
  revert b r f. induction ks as [|k ks IH]; intros b r f; [done|]. cbn [reap_scan].
  destruct (units b !! k) as [u|]; [|apply IH]. destruct (reap_unit now u) as [[u' rec] fl].
  by rewrite IH.
Qed.

(** a report that is not answered with a dead letter leaves the store and the FIFO alone *)
Lemma mem_fail_letters n h e c q reason b :
  wf n h b →
  let b' := (Fail e c q reason b).1 in
  (∀ k, k ≠ cu_Key c → mem_letters b' k = mem_letters b k) ∧
  ((pending b' (cu_Key c) = pending b (cu_Key c) ∧
    mem_letters b' (cu_Key c) = mem_letters b (cu_Key c)) ∨
   ∃ t ts, pending b (cu_Key c) = t :: ts ∧ Seq t = q ∧ pending b' (cu_Key c) = ts ∧
     mem_letters b' (cu_Key c) = mem_letters b (cu_Key c) ++ [t]).
Proof.
  intros Hb b'. subst b'. destruct (held c b) as [u|] eqn:Hh.
  2:{ unfold Fail. rewrite Hh. by split; [|left]. }
  pose proof (held_wf n h b Hb _ _ Hh) as [Hk Hu]. rewrite (Fail_held n h b Hb e c q reason u Hh).
  assert (pending b (cu_Key c) = tasks u) as -> by (cbn [pending Memory_View]; by rewrite Hk).
  pose proof (wf_work _ _ _ _ Hu) as Hne. unfold at_cap. cbn [fst].
  destruct (tasks u) as [|hd tl] eqn:Ht; [done|].
  destruct ((maxAttempts b <=? i64 (attempts u + 1))%Z && (Seq hd =? q)%Z) eqn:Hcap.
  - apply andb_true_iff in Hcap as [_ Hs%Z.eqb_eq]. cbv zeta.
    set (b' := if bool_decide (tl = []) then _ else _).
    assert (dlq b' = dlq b ++ [mkDead (cu_Key c) hd reason]) as Hd by (subst b'; by case_bool_decide).
    assert (pending b' (cu_Key c) = tl) as Hp.
    { subst b'. case_bool_decide as Htl.
      - subst tl. change (pending (drop_unit (cu_Key c) b) (cu_Key c) = []).
        by rewrite pending_drop, decide_True.
      - change (pending (put_unit (cu_Key c) (unclaim (advance (env_now e 0) 1 u)) b) (cu_Key c) = tl).
        rewrite pending_put, decide_True by done. cbn. by rewrite Ht. }
    unfold mem_letters. rewrite Hd. split; [|right; exists hd, tl; split_and!; try done].
    + intros k Hne'. rewrite filter_app, filter_cons_False, app_nil_r by (cbn; congruence). done.
    + rewrite filter_app, filter_cons_True by done. by rewrite fmap_app.
  - split; [done|left]. split; [|done]. by rewrite pending_put, decide_True.
Qed.

#[export] Instance Memory_Buries : Buries Backend.
Proof.
  refine {| letters := mem_letters |}.
  - intros e s k. split_and!; intros; apply mem_letters_dlq; cbn.
    + done.
    + unfold Claim. by destruct (claim_scan _ _ _) as [[k' u]|].
    + unfold Drain. destruct (held c s); [|done]. by case_goal.
    + unfold Ack. destruct (held c s); [|done]. destruct (ack_scan _ _ _).
      case_bool_decide; [done|]. case_bool_decide; [done|]. destruct (recompute _ _); [|done].
      by case_goal.
    + unfold Release. by destruct (held c s).
    + unfold Heartbeat. by destruct (held c s).
    + rewrite ReapExpired_fst. apply reap_scan_dlq.
  - intros n h e c q reason s s' r Hi _ _ _ Hr.
    pose proof (mem_fail_letters n h e c q reason s Hi) as Hf. cbv zeta in Hf.
    cbn [be_Fail Memory_Backend] in Hr. by rewrite Hr in Hf.
Defined.

(** ** A history of the in-memory driver *)

Definition cl_opts : Options := mkOptions 1 (5 * Second) 1.
Definition cl_key : WorkUnitKey := mkKey "ws" "s" "p".

Definition cl_b1 : Backend := (Enqueue (env_at Second) cl_key "a" 1 (New cl_opts)).1.
Definition cl_b2 : Backend := (Claim (env_at Second) "w0" Second cl_b1).1.
Definition cl_b3 : Backend := (ReapExpired (env_at (3 * Second)) (3 * Second) cl_b2).1.
Definition cl_b4 : Backend := (Claim (env_at (4 * Second)) "w0" Second cl_b3).1.

(** the first worker's handle, reaped after three seconds, and the second one's *)
Definition cl_old : ClaimedUnit := mkClaimed cl_key "w0" "w0-1" (2 * Second).
Definition cl_new : ClaimedUnit := mkClaimed cl_key "w0" "w0-2" (5 * Second).

Definition cl_mid : hist Backend :=
  mkHist 2 ({["w0-1"]} ∪ ∅) cl_b3 (upd (λ _, []) cl_key [mkTask 0 "a" 1]) (λ _, []).
Definition cl_end : hist Backend :=
  mkHist 3 ({["w0-2"]} ∪ ({["w0-1"]} ∪ ∅)) cl_b4
    (upd (λ _, []) cl_key [mkTask 0 "a" 1]) (λ _, []).

Lemma cl_mid_reachable : rtc (call mem_letters) (start (New cl_opts)) cl_mid.
Proof.
  eapply rtc_l.
  { apply (call_enqueue mem_letters _ _ _ _ _ (env_at Second) cl_key "a" 1 cl_b1 (Ok 0%Z));
      [done|by intros l|done|done|by vm_compute]. }
  eapply rtc_l.
  { eapply (call_claim mem_letters _ _ _ _ _ (env_at Second) "w0" Second cl_b2 (Ok (Some cl_old)));
      [done|by intros l|done|done|by vm_compute]. }
  apply rtc_once, (call_reap mem_letters _ _ _ _ _ (env_at (3 * Second)) (3 * Second) cl_b3 (1, 0, None)%Z);
    [by intros l|by vm_compute].
Qed.

Lemma cl_end_reachable : rtc (call mem_letters) cl_mid cl_end.
Proof.
  apply rtc_once.
  exact (call_claim mem_letters 2 ({["w0-1"]} ∪ ∅) cl_b3 (upd (λ _, []) cl_key [mkTask 0 "a" 1]) (λ _, [])
    (env_at (4 * Second)) "w0" Second cl_b4 (Ok (Some cl_new)) eq_refl
    (λ l, reflexivity l) I ltac:(done) ltac:(by vm_compute)).
Qed.

Lemma cl_start : inv 0 ∅ (New cl_opts) ∧ ∀ k, pending (New cl_opts) k = [].
Proof. split; [by apply wf_New|done]. Qed.

(** ** The guarantees *)

(** C27: Stale handles stay stale (no ABA).  Once the backend has stopped accepting a
    handle it issued, no later history makes it accept that handle again, even when the
    same worker claims the same unit again: draining, acknowledging, failing, releasing
    with it all report a lost lease and change nothing observable, and heartbeats fail. *)
Theorem stale_handle_is_refused {S} `{Contract S} (dead : S → WorkUnitKey → list Task)
    (s0 : S) (x y : hist S) (c : ClaimedUnit) (e : Env) :
  inv 0 ∅ s0 → (∀ k, pending s0 k = []) → rtc (call dead) (start s0) x → rtc (call dead) x y →
  issued (hs_toks x) c → key_ok (cu_Key c) → holds (hs_st x) c = false → env_ok e →
  (∀ q s' r, be_Ack e c q (hs_st y) = (s', r) →
     r = Err ErrLeaseLost ∧ ∀ k, pending s' k = pending (hs_st y) k) ∧
  (∀ q m s' r, be_Fail e c q m (hs_st y) = (s', r) →
     r = Err ErrLeaseLost ∧ ∀ k, pending s' k = pending (hs_st y) k) ∧
  (∀ m s' r, (0 < m)%Z → be_Drain e c m (hs_st y) = (s', r) → r = Err ErrLeaseLost) ∧
  (∀ s' r, be_Release e c (hs_st y) = (s', r) → r = Err ErrLeaseLost) ∧
  (∀ d s' r, be_Heartbeat e c d (hs_st y) = (s', r) → ∃ err, r = Err err).
Proof.
  intros Hi Hp Hx Hy Hc Hkey Hh He.
  destruct (calls_ok dead (start s0) x Hi Hx) as (Hox & _).
  destruct (calls_ok dead x y Hox Hy) as (Hiy & Hsub & Hnr).
  assert (holds (hs_st y) c = false) as Hhy.
  { destruct (holds (hs_st y) c) eqn:Hc'; [|done]. apply Hnr in Hc'; [congruence|done]. }
  assert (issued (hs_toks y) c) as Hcy by (unfold issued in *; by apply Hsub).
  split_and!.
  - intros q s' r Hr. destruct (ack_law _ _ _ _ _ _ _ _ Hiy He Hcy Hkey Hr) as (_ & _ & Hl).
    rewrite Hhy in Hl. destruct Hl as ([Hpd _] & _ & ->). done.
  - intros q m s' r Hr. destruct (fail_law _ _ _ _ _ _ _ _ _ Hiy He Hcy Hkey Hr) as [_ Hl].
    rewrite Hhy in Hl. destruct Hl as [[Hpd _] ->]. done.
  - intros m s' r Hm Hr. destruct (drain_law _ _ _ _ _ _ _ _ Hiy He Hcy Hkey Hm Hr) as (_ & _ & _ & -> & _).
    by rewrite Hhy.
  - intros s' r Hr. destruct (release_law _ _ _ _ _ _ _ Hiy He Hcy Hkey Hr) as (_ & _ & Hl).
    rewrite Hhy in Hl. by destruct Hl.
  - intros d s' r Hr. destruct (heartbeat_law _ _ _ _ _ _ _ _ Hiy He Hcy Hkey Hr) as (_ & _ & _ & Hl).
    rewrite Hhy in Hl. destruct r; [done|by eexists|done].
Qed.

Lemma stale_handle_is_refused_witness :
  holds cl_b4 cl_new = true ∧
  ∀ s' r, be_Ack (env_at (4 * Second)) cl_old 0 cl_b4 = (s', r) → r = Err ErrLeaseLost.
Proof.
  split; [by vm_compute|]. intros s' r Hr.
  destruct (stale_handle_is_refused mem_letters (New cl_opts) cl_mid cl_end cl_old (env_at (4 * Second)))
    as (Ha & _); [apply cl_start..|apply cl_mid_reachable|apply cl_end_reachable| | | | |].
  - by vm_compute.
  - done.
  - by vm_compute.
  - by intros l.
  - by destruct (Ha _ _ _ Hr).
Defined.

(** C28: Every task is accounted for, poison included.  Over any history of calls, with any
    issued handles and with failure reports, the tasks enqueued to a unit are, in order,
    those a call took from the head of its FIFO, then those pending; each of the former was
    either named by an acknowledgement (it had been handed out, its number was within the
    acknowledged one, the handle was accepted) or written as a dead letter, and the dead
    letters the driver holds are exactly the latter, in order. *)
Theorem every_task_accounted {S} `{Buries S} (s0 : S) (x : hist S) (k : WorkUnitKey) :
  inv 0 ∅ s0 → (∀ k, pending s0 k = []) → (∀ k, letters s0 k = []) →
  rtc (call letters) (start s0) x →
  hs_enq x k = (fate_task <$> hs_fates x k) ++ pending (hs_st x) k ∧
  letters (hs_st x) k = buried (hs_fates x k).
Proof.
  intros Hi Hp Hl Hx. apply (calls_balanced (start s0) x k Hi Hx).
  split; cbn; [by rewrite Hp|by rewrite Hl].
Qed.

(** The second worker drains a task, acknowledges it, and reports the next one, which has
    used up its attempts. *)
Definition po_b1 : Backend := (Enqueue (env_at (4 * Second)) cl_key "b" 1 cl_b4).1.
Definition po_b2 : Backend := (Ack (env_at (5 * Second)) cl_new 0 po_b1).1.
Definition po_b3 : Backend := (Fail (env_at (5 * Second)) cl_new 1 "poison" po_b2).1.

Definition po_end : hist Backend :=
  mkHist 4 (hs_toks cl_end) po_b3
    (upd (hs_enq cl_end) cl_key [mkTask 1 "b" 1])
    (upd (upd (hs_fates cl_end) cl_key (acknowledges po_b1 cl_new 0)) cl_key
       (buries mem_letters po_b2 po_b3 cl_key)).

Lemma po_reachable : rtc (call mem_letters) cl_end po_end.
Proof.
  eapply rtc_l.
  { apply (call_enqueue mem_letters _ _ _ _ _ (env_at (4 * Second)) cl_key "b" 1 po_b1 (Ok 1%Z));
      [done|by intros l|done|done|by vm_compute]. }
  eapply rtc_l.
  { apply (call_ack mem_letters _ _ _ _ _ (env_at (5 * Second)) cl_new 0 po_b2 (Ok true));
      [by intros l|unfold issued; cbn; set_solver|done|by vm_compute]. }
  apply rtc_once, (call_fail mem_letters _ _ _ _ _ (env_at (5 * Second)) cl_new 1 "poison" po_b3 (Ok tt));
    [by intros l|unfold issued; cbn; set_solver|done|by vm_compute].
Qed.

Lemma every_task_accounted_witness :
  hs_enq po_end cl_key = [mkTask 0 "a" 1; mkTask 1 "b" 1] ∧
  hs_fates po_end cl_key = [Acknowledged (mkTask 0 "a" 1); Buried (mkTask 1 "b" 1)] ∧
  hs_enq po_end cl_key = (fate_task <$> hs_fates po_end cl_key) ++ pending (hs_st po_end) cl_key ∧
  letters (hs_st po_end) cl_key = buried (hs_fates po_end cl_key).
Proof.
  split; [by vm_compute|]. split; [by vm_compute|].
  apply (every_task_accounted (New cl_opts)); [apply cl_start..|done|].
  etrans; [apply cl_mid_reachable|]. etrans; [apply cl_end_reachable|apply po_reachable].
Defined.
