(* ===== verification/Worker.v ===== *)
(** Worker: the shared loop of internal/queue/worker.go (ProcessModel, BackoffConfig,
    Worker.Run, runOnce, heartbeat, Pool), over any [Backend].  The loop is a function of
    the backend's state and of what it reads from outside (a [World]); it returns the
    state, the telemetry and processing events in order, and the Go result.  Loops carry
    fuel; WorkerFacts.v proves how much is enough. *)
From S2P Require Import Prelude Queue.

(** ** Simulated work (ProcessModel) *)

Record ProcessModel := mkProcess {
  Kind : string;            (* zero | fixed | cost *)
  Base : duration;
  PerCost : duration;
}.

(** [func (p ProcessModel) work(t Task)]: the sleep it makes, if any. *)
Definition work (p : ProcessModel) (t : Task) : option duration :=
  if bool_decide (Kind p = "fixed") then Some (Base p)
  else if bool_decide (Kind p = "cost") then Some (i64 (Base p + i64 (Cost t * PerCost p)))
  else None.

(** ** Idle backoff (BackoffConfig) *)

Record BackoffConfig := mkBackoff {
  Min : duration;
  Max : duration;
}.

(** [func (b BackoffConfig) next(d time.Duration) time.Duration] *)
Definition next (b : BackoffConfig) (d : duration) : duration :=
  if (d <=? 0)%Z then Min b
  else
    let d := i64 (d * 2) in
    if (0 <? Max b)%Z && (Max b <? d)%Z then Max b else d.

(** ** Configuration and events *)

Record WorkerConfig := mkConfig {
  Lease : duration;
  Batch : Z;
  Backoff : BackoffConfig;
  Process : ProcessModel;
  hasOnProcess : bool;      (* cfg.OnProcess != nil *)
  hasRecorder : bool;       (* cfg.Recorder != nil *)
}.

(** What the loop does besides calling the backend, in order: calls of the hooks, and
    sleeps. *)
Inductive event :=
  | RecClaim (d : duration) (gotUnit : bool)   (* Recorder.Claim *)
  | OnProcess (k : WorkUnitKey) (t : Task)
  | Work (t : Task) (d : option duration)      (* Process.work *)
  | RecAck (n : Z)                             (* Recorder.Ack *)
  | RecLoop (d : duration)                     (* Recorder.Loop *)
  | Idle (d : duration).                       (* time.After(idle) *)

(** What the loop reads from outside: the environment of its successive backend calls,
    the elapsed times it measures, the number of heartbeats that fire while a batch is
    processed, and when its context is found cancelled. *)
Record World := mkWorld {
  w_env : nat → Env;
  w_since : nat → duration;
  w_beats : nat → nat;
  w_cancelled : nat → bool;
}.

(** A call returns, or the goroutine dies of a panic of the backend. *)
Inductive outcome (A : Type) :=
  | Returned (a : A)
  | Panicked.
Arguments Returned {A} _.
Arguments Panicked {A}.

Section worker.
Context {S : Type} `{Queue.Backend S}.
Context (cfg : WorkerConfig) (w : World) (id : WorkerID).

(** [heartbeat]: the ticker of period [Lease/3]; errors are ignored.  [i] numbers the
    backend calls made so far. *)
Definition tick : duration := Z.quot (Lease cfg) 3.

Fixpoint beats (m : nat) (i : nat) (c : ClaimedUnit) (s : S) : S :=
  match m with
  | O => s
  | Datatypes.S m => beats m (Datatypes.S i) c (be_Heartbeat (w_env w i) c (Lease cfg) s).1
  end.

Definition heartbeat (i : nat) (c : ClaimedUnit) (s : S) : nat * S :=
  if (tick <=? 0)%Z then (i, s)
  else (i + w_beats w i, beats (w_beats w i) i c s).

(** the loop over the batch: hook, then simulated work *)
Definition process_one (k : WorkUnitKey) (t : Task) : list event :=
  (if hasOnProcess cfg then [OnProcess k t] else []) ++ [Work t (work (Process cfg) t)].

Definition process (k : WorkUnitKey) (ts : list Task) : list event :=
  ts ≫= process_one k.

(** the inner loop of [runOnce]: drain, process, ack, until the unit is not held any
    more.  [None]: out of fuel. *)
Fixpoint drain_loop (fuel : nat) (i : nat) (c : ClaimedUnit) (s : S) (log : list event) :
    option (S * list event * outcome (bool * option error)) :=
  match fuel with
  | O => None
  | Datatypes.S fuel =>
      let '(s, r) := be_Drain (w_env w i) c (Batch cfg) s in
      match r with
      | Panic => Some (s, log, Panicked)
      | Err e => Some (s, log, Returned (true, Some e))
      | Ok tasks =>
          match last tasks with
          | None =>
              let '(s, r) := be_Release (w_env w (i + 1)) c s in
              match r with
              | Panic => Some (s, log, Panicked)
              | Err e => Some (s, log, Returned (true, Some e))
              | Ok _ => Some (s, log, Returned (true, None))
              end
          | Some t =>
              let '(i, s) := heartbeat (i + 1) c s in
              let log := log ++ process (cu_Key c) tasks in
              let '(s, r) := be_Ack (w_env w i) c (Seq t) s in
              match r with
              | Panic => Some (s, log, Panicked)
              | Err e => Some (s, log, Returned (true, Some e))
              | Ok held =>
                  let log := log ++
                    (if hasRecorder cfg
                     then [RecAck (length tasks); RecLoop (w_since w i)] else []) in
                  if held then drain_loop fuel (i + 1) c s log
                  else Some (s, log, Returned (true, None))
              end
          end
      end
  end.

(** [func (w *Worker) runOnce(ctx) (didWork bool, err error)] *)
Definition runOnce (fuel : nat) (i : nat) (s : S) :
    option (S * list event * outcome (bool * option error)) :=
  let '(s, r) := be_Claim (w_env w i) id (Lease cfg) s in
  let got := match r with Ok (Some _) => true | _ => false end in
  let log := if hasRecorder cfg then [RecClaim (w_since w i) got] else [] in
  match r with
  | Panic => Some (s, [], Panicked)
  | Err e => Some (s, log, Returned (false, Some e))
  | Ok None => Some (s, log, Returned (false, None))
  | Ok (Some c) => drain_loop fuel (i + 1) c s log
  end.
End worker.

(** ** Run and Pool *)

(** [func (w *Worker) Run(ctx) error]: round [j] of the loop reads the world [ws j]; its
    context is found cancelled at the top ([w_cancelled _ 0]) or during the sleep
    ([w_cancelled _ 1]).  [rounds] bounds the rounds and [fuel] each round's inner loop;
    [None]: out of either. *)
Section run.
Context {S : Type} `{Queue.Backend S}.
Context (cfg : WorkerConfig) (id : WorkerID) (ws : nat → World).

Fixpoint Run (rounds fuel : nat) (j : nat) (idle : duration) (s : S) (log : list event) :
    option (S * list event * outcome error) :=
  match rounds with
  | O => None
  | Datatypes.S rounds =>
      if w_cancelled (ws j) 0 then Some (s, log, Returned ErrCtxDone)
      else
        match runOnce cfg (ws j) id fuel 0 s with
        | None => None
        | Some (s, l, Panicked) => Some (s, log ++ l, Panicked)
        | Some (s, l, Returned (true, None)) =>
            Run rounds fuel (Datatypes.S j) 0 s (log ++ l)
        | Some (s, l, Returned _) =>
            let idle := next (Backoff cfg) idle in
            let log := log ++ l ++ [Idle idle] in
            if w_cancelled (ws j) 1 then Some (s, log, Returned ErrCtxDone)
            else Run rounds fuel (Datatypes.S j) idle s log
        end
  end.
End run.

(** [Pool.Run]: [n] workers named [w0], [w1], ...; their calls interleave, which the
    transition system of System.v models. *)
Definition worker_name (i : nat) : WorkerID := "w" +:+ pretty i.

Definition pool_ids (n : Z) : list WorkerID := worker_name <$> seq 0 (Z.to_nat n).

(** ** What the processing hook saw *)

Definition processed (log : list event) : list (WorkUnitKey * Task) :=
  omap (λ ev, match ev with OnProcess k t => Some (k, t) | _ => None end) log.
