(* ===== verification/WorkerFacts.v ===== *)
(** WorkerFacts: what the shared worker loop does against any backend that satisfies the
    [Contract]: the backoff schedule, and that one round of an undisturbed worker
    terminates, processes a prefix of its unit's FIFO exactly once and in order, and gives
    the unit up. *)
From S2P Require Import Prelude Queue Contract Worker.

(** ** Backoff *)

Section backoff.
Context (b : BackoffConfig) (Hmin : (0 < Min b ≤ Max b)%Z) (Hmax : (Max b < 2 ^ 62)%Z).

Lemma next_zero : next b 0 = Min b.
Proof. done. Qed.

Lemma next_positive d : (0 < d ≤ Max b)%Z → next b d = Z.min (2 * d) (Max b).
Proof.
  intros Hd. unfold next. rewrite (proj2 (Z.leb_gt _ _)) by lia.
  rewrite (i64_id (d * 2)) by (unfold in_i64, int64_min, int64_max; lia).
  rewrite (proj2 (Z.ltb_lt 0 _)) by lia. simpl.
  destruct (Z.ltb_spec (Max b) (d * 2)); lia.
Qed.

(** the idle time after [k] consecutive empty rounds *)
Fixpoint idle_after (k : nat) : duration :=
  match k with O => 0 | Datatypes.S k => next b (idle_after k) end.

Lemma idle_after_iter k : Nat.iter k (next b) 0%Z = idle_after k.
Proof. induction k as [|k IH]; [done|]. simpl. by rewrite IH. Qed.

Lemma idle_after_closed k : idle_after (Datatypes.S k) = Z.min (2 ^ k * Min b) (Max b).
Proof.
  induction k as [|k IH].
  - cbn [idle_after]. rewrite next_zero. lia.
  - cbn [idle_after] in *. rewrite IH. rewrite next_positive.
    + rewrite Nat2Z.inj_succ, Z.pow_succ_r by lia.
      pose proof (Z.pow_pos_nonneg 2 k). lia.
    + pose proof (Z.pow_pos_nonneg 2 k). nia.
Qed.
End backoff.

(** ** One round of an undisturbed worker *)

Lemma processed_app l1 l2 : processed (l1 ++ l2) = processed l1 ++ processed l2.
Proof. unfold processed. apply omap_app. Qed.

Lemma processed_process cfg k ts :
  processed (process cfg k ts) = if hasOnProcess cfg then (k,.) <$> ts else [].
Proof.
  unfold process. induction ts as [|t ts IH]; [by simpl; case_goal|].
  rewrite bind_cons, processed_app, IH. unfold process_one. by destruct (hasOnProcess cfg).
Qed.

Section round.
Context {S : Type} `{Contract S}.
Context (cfg : WorkerConfig) (w : World) (n : Z) (h : gset LeaseToken).
Context (Henv : ∀ i, env_ok (w_env w i)) (Hbatch : (0 < Batch cfg)%Z).

Lemma beats_same m i c s :
  inv n h s → issued h c → key_ok (cu_Key c) →
  inv n h (beats cfg w m i c s) ∧ same_view h s (beats cfg w m i c s) ∧
  ∀ k, delivered s k ≤ delivered (beats cfg w m i c s) k.
Proof.
  revert i s. induction m as [|m IH]; intros i s Hi Hc Hk; simpl; [split; auto with plq|].
  destruct (be_Heartbeat (w_env w i) c (Lease cfg) s) as [s1 r] eqn:Hb.
  destruct (heartbeat_law _ _ _ _ _ _ _ _ Hi (Henv i) Hc Hk Hb) as (Hi1 & [Hp Hh] & Hd & _).
  simpl. destruct (IH (Datatypes.S i) s1 Hi1 Hc Hk) as (Hi2 & [Hp2 Hh2] & Hd2).
  split; [done|]. split; [|intros k; etrans; [apply Hd|apply Hd2]].
  split; intros; [by rewrite Hp2, Hp|by rewrite Hh2, Hh].
Qed.

Lemma heartbeat_same i c s i' s' :
  inv n h s → issued h c → key_ok (cu_Key c) → heartbeat cfg w i c s = (i', s') →
  inv n h s' ∧ same_view h s s' ∧ ∀ k, delivered s k ≤ delivered s' k.
Proof.
  intros Hi Hc Hk. unfold heartbeat. case_goal; intros [= <- <-]; [split_and!; auto with plq|].
  by apply beats_same.
Qed.

(** What [drain_loop] achieves from a state where its handle is accepted. *)
Definition round_done (K : WorkUnitKey) (c : ClaimedUnit) (s : S) (log : list event)
    (out : option (S * list event * outcome (bool * option error))) : Prop :=
  ∃ s' log' ps,
    out = Some (s', log ++ log', Returned (true, None)) ∧
    pending s K = ps ++ pending s' K ∧
    processed log' = (if hasOnProcess cfg then (K,.) <$> ps else []) ∧
    inv n h s' ∧ frame h K s s' ∧ holds s' c = false.

Lemma round_done_step K c s s1 ps1 log l1 out :
  pending s K = ps1 ++ pending s1 K → frame h K s s1 →
  processed l1 = (if hasOnProcess cfg then (K,.) <$> ps1 else []) →
  round_done K c s1 (log ++ l1) out → round_done K c s log out.
Proof.
  intros Hp Hf Hl (s' & l2 & ps2 & -> & Hp2 & Hl2 & Hi & Hf2 & Hh).
  exists s', (l1 ++ l2), (ps1 ++ ps2). rewrite !(assoc_L (++)). split_and!; try done.
  - by rewrite Hp, Hp2, (assoc_L (++)).
  - rewrite processed_app, Hl, Hl2. case_goal; [by rewrite fmap_app|done].
  - by eapply frame_trans.
Qed.

(** what a turn acknowledges is the batch it drained *)
Lemma batch_acked s s3 K (t : Task) (m d2 : nat) :
  inv n h s → let ts := take m (pending s K) in
  last ts = Some t → Nat.min m (length (pending s K)) ≤ d2 →
  pending s K = take_while (through (Seq t)) (take d2 (pending s K)) ++ pending s3 K →
  pending s K = ts ++ pending s3 K ∧ ts ≠ [].
Proof.
  intros Hi ts Hlast Hd Hp. split; [|by intros Hts; rewrite Hts in Hlast].
  destruct (pending_consecutive _ _ _ K Hi) as [b Hcons].
  rewrite <- (take_drop m (pending s K)) in Hcons. fold ts in Hcons.
  rewrite Hp at 1. f_equal. rewrite <- (take_drop m (pending s K)). fold ts.
  apply (acked_batch _ _ _ _ _ Hcons Hlast). subst ts. rewrite length_take. lia.
Qed.

Lemma drain_loop_spec fuel i c s log :
  inv n h s → issued h c → key_ok (cu_Key c) → holds s c = true →
  length (pending s (cu_Key c)) < fuel →
  round_done (cu_Key c) c s log (drain_loop cfg w fuel i c s log).
Proof.
  revert i s log. induction fuel as [|fuel IH]; intros i s log Hi Hc Hk Hh Hf; [lia|].
  cbn [drain_loop]. destruct (be_Drain _ c _ s) as [s1 r1] eqn:Hd.
  destruct (drain_law _ _ _ _ _ _ _ _ Hi (Henv i) Hc Hk Hbatch Hd)
    as (Hi1 & Hv1 & _ & -> & Hdel).
  specialize (Hdel Hh).
  rewrite Hh. pose proof Hv1 as [Hp1 Hh1].
  set (ts := take _ (pending s (cu_Key c))).
  destruct (last ts) as [t|] eqn:Hlast.
  - destruct (heartbeat _ _ _ _ _) as [i2 s2] eqn:Hb.
    destruct (heartbeat_same _ _ _ _ _ Hi1 Hc Hk Hb) as (Hi2 & [Hp2 Hh2] & Hd2).
    destruct (be_Ack _ c _ s2) as [s3 r3] eqn:Ha.
    destruct (ack_law _ _ _ _ _ _ _ _ Hi2 (Henv i2) Hc Hk Ha) as (Hi3 & _ & Ha3).
    rewrite Hh2, Hh1, Hh in Ha3 by done. destruct Ha3 as (Hf3 & Hp3 & ->).
    rewrite Hp2, Hp1 in Hp3.
    destruct (batch_acked _ s3 _ t (Z.to_nat (Batch cfg)) (delivered s2 (cu_Key c)) Hi Hlast
      ltac:(etrans; [exact Hdel|apply Hd2]) Hp3) as [Hps Hne]. fold ts in Hps, Hne.
    assert (frame h (cu_Key c) s s3) as Hfr.
    { eapply frame_trans; [|exact Hf3]. apply same_view_frame.
      split; intros; [by rewrite Hp2, Hp1|by rewrite Hh2, Hh1]. }
    set (tel := if hasRecorder cfg then _ else _).
    rewrite <- (assoc_L (++)).
    assert (processed (process cfg (cu_Key c) ts ++ tel) =
            if hasOnProcess cfg then (cu_Key c,.) <$> ts else []) as Hl.
    { rewrite processed_app, processed_process. subst tel.
      destruct (hasRecorder cfg); simpl; by rewrite app_nil_r. }
    apply (round_done_step _ _ _ s3 ts _ (process cfg (cu_Key c) ts ++ tel) _ Hps Hfr Hl).
    destruct (holds s3 c) eqn:Hheld.
    + apply IH; try done. rewrite Hps, length_app in Hf.
      destruct ts; simpl in *; [done|lia].
    + exists s3, [], []. rewrite app_nil_r.
      split_and!; try done; [by case_goal|by apply same_view_frame].
  - destruct (be_Release _ c s1) as [s2 r2] eqn:Hr.
    destruct (release_law _ _ _ _ _ _ _ Hi1 (Henv (i + 1)) Hc Hk Hr) as (Hi2 & _ & Hr2).
    rewrite Hh1, Hh in Hr2 by done. destruct Hr2 as (Hf2 & Hp2 & Hnh & ->).
    exists s2, [], []. rewrite app_nil_r. split_and!; try done.
    + by rewrite Hp2, Hp1.
    + by case_goal.
    + eapply frame_trans; [by apply same_view_frame|done].
Qed.
End round.

(** One round of a worker nobody disturbs: it never panics and never runs out of a fuel
    larger than the longest FIFO; it either claims nothing and changes nothing, or takes
    one unit, processes a prefix of its FIFO in order and once each, acknowledges exactly
    that prefix and gives the unit up. *)
Lemma runOnce_spec {S} `{Contract S} cfg w id n h s fuel :
  inv n h s → (n < capacity S)%Z →
  (∀ i, env_ok (w_env w i)) → token_fresh h (w_env w 0) →
  (0 < Batch cfg)%Z → id ≠ "" → (∀ k, length (pending s k) < fuel) →
  ∃ s' log did err,
    runOnce cfg w id fuel 0 s = Some (s', log, Returned (did, err)) ∧
    (if did then
       err = None ∧ ∃ c ps, cu_Worker c = id ∧ pending s (cu_Key c) ≠ [] ∧
         pending s (cu_Key c) = ps ++ pending s' (cu_Key c) ∧
         processed log = (if hasOnProcess cfg then (cu_Key c,.) <$> ps else []) ∧
         inv (n + 1) ({[cu_Lease c]} ∪ h) s' ∧ holds s' c = false ∧
         frame h (cu_Key c) s s'
     else same_view h s s' ∧ processed log = [] ∧ inv (n + 1) h s').
Proof.
  intros Hi Hn He Hfr Hb Hid Hfuel. unfold runOnce.
  destruct (be_Claim _ id _ s) as [s1 r] eqn:Hc.
  destruct (claim_law _ _ _ _ _ _ _ _ Hi Hn (He 0) Hfr Hid Hc) as (Hp & _ & Hr).
  assert (∀ d g, processed (if hasRecorder cfg then [RecClaim d g] else []) = []) as Hrec.
  { intros. by destruct (hasRecorder cfg). }
  destruct r as [[c|]|e|]; [|destruct Hr as [? ?]; eexists s1, _, false, _; by split_and!..|done].
  destruct Hr as (Hw & Hkey & Hfresh & Hi1 & Hh & Hne & (Hothers & Hoh & Hnr)).
  set (log0 := if hasRecorder cfg then _ else _).
  destruct (drain_loop_spec cfg w (n + 1) ({[cu_Lease c]} ∪ h) He Hb fuel (0 + 1) c s1 log0)
    as (s' & l & ps & Hout & Hps & Hl & Hi2 & (Hf1 & Hf2 & Hf3) & Hnh).
  { done. } { unfold issued. set_solver. } { done. } { done. } { by rewrite Hp. }
  exists s', (log0 ++ l), true, None. split; [done|]. split; [done|].
  exists c, ps. rewrite processed_app, Hl. subst log0. rewrite Hrec, <- !Hp.
  split_and!; try done; [by rewrite Hp|].
  split_and!.
  - intros k Hk. by rewrite Hf1, Hp.
  - intros c' Hc' Hk. rewrite Hf2, Hoh by (try done; unfold issued in *; set_solver). done.
  - intros c' Hc' Hh'. apply Hnr; [done|]. apply Hf3; [unfold issued in *; set_solver|done].
Qed.
