(* ===== verification/WorkerProps.v ===== *)
(** WorkerProps: what the shared worker loop guarantees, over any backend that satisfies
    the [Contract], applied to the in-memory driver. *)
From S2P Require Import Prelude Queue Contract Worker WorkerFacts Memory MemoryFacts.

Definition wk_opts : Options := mkOptions 2 (5 * Second) 3.
Definition wk_key : WorkUnitKey := mkKey "ws" "s" "p".

Definition wk_b : Backend :=
  (Enqueue (env_at Second) wk_key "b" 2 (Enqueue (env_at Second) wk_key "a" 2 (New wk_opts)).1).1.

Definition wk_cfg : WorkerConfig :=
  mkConfig (3 * Second) 1 (mkBackoff Millisecond Second) (mkProcess "zero" 0 0) true true.

(** The clock stands at two seconds; one heartbeat fires while each batch is processed. *)
Definition wk_world : World := mkWorld (λ _, env_at (2 * Second)) (λ _, 0%Z) (λ _, 1) (λ _, false).

Lemma wk_inv : inv 2 ∅ wk_b.
Proof.
  destruct (Enqueue_law 0 ∅ (New wk_opts) (wf_New 0 wk_opts ltac:(lia)) ltac:(done)
    (env_at Second) wk_key "a" 2) as [H1 _].
  by destruct (Enqueue_law 1 ∅ _ H1 ltac:(done) (env_at Second) wk_key "b" 2) as [H2 _].
Qed.

(** C31: One round of a worker nobody disturbs terminates, with fuel past the longest
    unit.  Either it claims nothing, processes nothing and changes nothing observable; or
    it claims one unit that has work, under its own name, processes a prefix of the unit's
    FIFO, each task once and in order, deletes exactly that prefix, leaves the other units
    alone, and ends without error and without the lease. *)
Theorem round_processes_a_prefix {S} `{Contract S} cfg w id n h s fuel :
  inv n h s → (n < capacity S)%Z → (∀ i, env_ok (w_env w i)) → token_fresh h (w_env w 0) →
  (0 < Batch cfg)%Z → id ≠ "" → hasOnProcess cfg = true →
  (∀ k, length (pending s k) < fuel) →
  ∃ s' log did err,
    runOnce cfg w id fuel 0 s = Some (s', log, Returned (did, err)) ∧
    if did then
      err = None ∧ ∃ c ps, cu_Worker c = id ∧ pending s (cu_Key c) ≠ [] ∧
        pending s (cu_Key c) = ps ++ pending s' (cu_Key c) ∧
        processed log = (cu_Key c,.) <$> ps ∧ holds s' c = false ∧
        ∀ k, k ≠ cu_Key c → pending s' k = pending s k
    else (∀ k, pending s' k = pending s k) ∧ processed log = [].
Proof.
  intros Hi Hn He Ht Hb Hid Hop Hf.
  destruct (runOnce_spec cfg w id n h s fuel Hi Hn He Ht Hb Hid Hf)
    as (s' & log & did & err & Hr & Hd).
  exists s', log, did, err. split; [done|]. destruct did.
  - destruct Hd as (-> & c & ps & Hw & Hne & Hp & Hpr & _ & Hh & Hfr & _).
    split; [done|]. exists c, ps. rewrite Hop in Hpr. by split_and!.
  - destruct Hd as ([Hp _] & Hpr & _). by split.
Qed.

Lemma round_processes_a_prefix_witness :
  ∃ s' log, runOnce wk_cfg wk_world "w0" 5 0 wk_b = Some (s', log, Returned (true, None)) ∧
    processed log = [(wk_key, mkTask 0 "a" 2); (wk_key, mkTask 1 "b" 2)] ∧
    ∃ ps, pending wk_b wk_key = ps ++ pending s' wk_key.
Proof.
  destruct (round_processes_a_prefix wk_cfg wk_world "w0" 2 ∅ wk_b 5 wk_inv)
    as (s' & log & did & err & Hr & Hd); [done|by intros i l|done|done|done|done|..].
  - intros k. cbn [pending Memory_View].
    destruct (decide (k = wk_key)) as [->|Hk]; [vm_compute; lia|].
    unfold wk_b, Enqueue. cbn [fst put_unit set_units units].
    rewrite !lookup_insert_ne by done. cbn [New units]. rewrite lookup_empty. simpl. lia.
  - assert ((λ r, (processed r.1.2, r.2)) <$> runOnce wk_cfg wk_world "w0" 5 0 wk_b =
      Some ([(wk_key, mkTask 0 "a" 2); (wk_key, mkTask 1 "b" 2)], Returned (true, None))) as Hrun
      by (vm_compute; reflexivity).
    rewrite Hr in Hrun. injection Hrun as Hlog -> ->.
    destruct Hd as (_ & c & ps & _ & _ & Hp & Hpr & _).
    exists s', log. split; [exact Hr|]. split; [exact Hlog|]. exists ps.
    assert (cu_Key c = wk_key) as <-; [|exact Hp].
    rewrite Hlog in Hpr. destruct ps as [|t ps]; [done|]. by injection Hpr as <-.
Defined.

(** The idle backoff: after [k+1] consecutive rounds without work the worker sleeps
    min(2^k * Min, Max), so the sleep doubles from Min up to the cap and stays there. *)
Lemma backoff_doubles_to_cap b k :
  (0 < Min b ≤ Max b)%Z → (Max b < 2 ^ 62)%Z →
  Nat.iter (Datatypes.S k) (next b) 0%Z = Z.min (2 ^ k * Min b) (Max b).
Proof. intros Hmin Hmax. rewrite <- (idle_after_closed b Hmin Hmax). apply idle_after_iter. Qed.

Lemma backoff_doubles_to_cap_witness :
  Nat.iter 4 (next (mkBackoff Millisecond (5 * Millisecond))) 0%Z = (5 * Millisecond)%Z ∧
  Nat.iter 4 (next (mkBackoff Millisecond (5 * Millisecond))) 0%Z =
    Z.min (2 ^ 3%nat * Millisecond) (5 * Millisecond).
Proof.
  split; [by vm_compute|].
  apply (backoff_doubles_to_cap (mkBackoff Millisecond (5 * Millisecond)) 3); by vm_compute.
Defined.

(** A backend that fails every call does not make the worker spin: over the stub
    backend, whose methods all fail, [Run] sleeps after every round, for the time the
    backoff schedule gives, until its context is cancelled. *)
Lemma failing_backend_backs_off cfg id ws j fuel s :
  hasRecorder cfg = false →
  (∀ i, i < j → w_cancelled (ws i) 0 = false ∧ w_cancelled (ws i) 1 = false) →
  w_cancelled (ws j) 0 = true →
  Run cfg id ws (Datatypes.S j) fuel 0 0 (s : Unimplemented) [] =
    Some (s, (λ i, Idle (Nat.iter (Datatypes.S i) (next (Backoff cfg)) 0%Z)) <$> seq 0 j,
          Returned ErrCtxDone).
Proof.
  intros Hrec Hlive Hend.
  assert (∀ m i log idle, i + m = j →
    Run cfg id ws (Datatypes.S m) fuel i idle (s : Unimplemented) log =
      Some (s, log ++ ((λ x, Idle (Nat.iter (Datatypes.S x) (next (Backoff cfg)) idle)) <$> seq 0 m),
            Returned ErrCtxDone)) as Hgo; [|by apply (Hgo j 0)].
  induction m as [|m IH]; intros i log idle Hij.
  - rewrite Nat.add_0_r in Hij. subst i. cbn [Run]. by rewrite Hend, app_nil_r.
  - destruct (Hlive i) as [H0 H1]; [lia|].
    remember (Datatypes.S m) as m1 eqn:Hm1. cbn [Run]. rewrite H0. unfold runOnce.
    cbn [be_Claim Unimplemented_Backend]. rewrite Hrec, H1.
    subst m1. rewrite IH by lia. cbn [seq]. rewrite fmap_cons, <- fmap_S_seq, <- list_fmap_compose.
    rewrite <- !(assoc_L (++)). simpl. do 4 f_equal.
    apply (f_equal (cons _)), list_fmap_ext. intros x y _. simpl. by rewrite <- Nat.iter_succ_r.
Qed.

Definition stub_cfg : WorkerConfig :=
  mkConfig Second 1 (mkBackoff 1 3) (mkProcess "zero" 0 0) false false.

Definition stub_worlds (i : nat) : World :=
  mkWorld (λ _, env_at 0) (λ _, 0%Z) (λ _, 0) (λ _, bool_decide (3 ≤ i)).

Lemma failing_backend_backs_off_witness :
  Run stub_cfg "w0" stub_worlds 4 1 0 0 UnimplementedStub [] =
  Some (UnimplementedStub, [Idle 1; Idle 2; Idle 3], Returned ErrCtxDone).
Proof.
  refine (failing_backend_backs_off stub_cfg "w0" stub_worlds 3 1 UnimplementedStub eq_refl _ eq_refl).
  intros i Hi. simpl. by rewrite bool_decide_false by lia.
Defined.

(** The workers of a pool have distinct names, so the leases they take are told
    apart. *)
Lemma pool_names_distinct (n : Z) : NoDup (pool_ids n).
Proof.
  unfold pool_ids. apply NoDup_fmap_2; [|apply NoDup_seq].
  intros i j Hij. unfold worker_name in Hij. by simplify_eq.
Qed.
