(* ===== verification/System.v ===== *)
(** System: many workers, producers and the reaper over one backend, as a transition
    system whose steps are single backend calls (internal/queue/worker.go: Worker.runOnce
    run by Pool; internal/loadgen: produce, reaperLoop; a crash abandons a worker at any
    point).  For any backend that satisfies the [Contract]: no task is lost, duplicated
    or reordered in its unit's FIFO, no task is acknowledged before it was processed, and
    first-time processing follows FIFO order, whatever the interleaving and the crashes. *)
From S2P Require Import Prelude Queue Contract.

(** ** States and steps *)

(** Where a worker that holds a unit stands in [runOnce]. *)
Inductive pc :=
  | Ready (c : ClaimedUnit)       (* about to drain *)
  | Busy (c : ClaimedUnit) (batch : list Task) (base j : nat)
      (* [j] tasks of the batch processed; [base], a ghost: the number of tasks of the
         unit acknowledged when the batch was drained *)
  | Closing (c : ClaimedUnit).    (* drained nothing, about to release *)

Definition handle (p : pc) : ClaimedUnit :=
  match p with Ready c | Busy c _ _ _ | Closing c => c end.

Inductive event :=
  | Enqueued (k : WorkUnitKey) (t : Task)
  | Processed (k : WorkUnitKey) (p : nat) (t : Task)  (* [p]: position in the FIFO *)
  | Acked (k : WorkUnitKey) (ts : list Task).

Definition enq_of (l : list event) (k : WorkUnitKey) : list Task :=
  omap (λ ev, match ev with
    | Enqueued k' t => if decide (k' = k) then Some t else None
    | _ => None end) l.

Definition acked_of (l : list event) (k : WorkUnitKey) : list Task :=
  l ≫= λ ev, match ev with
    | Acked k' ts => if decide (k' = k) then ts else []
    | _ => [] end.

(** position [p] of unit [k] has been processed at least once *)
Definition was_processed (l : list event) (k : WorkUnitKey) (p : nat) : Prop :=
  ∃ t, Processed k p t ∈ l.

Section system.
Context {S : Type} `{Contract S}.

Record sys := mkSys {
  st : S;
  pcs : gmap nat pc;            (* workers that are inside [runOnce] *)
  log : list event;
  toks : gset LeaseToken;       (* the lease tokens issued so far *)
  calls : Z;                    (* enqueues and claims so far *)
}.

Definition init (s0 : S) : sys := mkSys s0 ∅ [] ∅ 0.

Inductive step : sys → sys → Prop :=
(** a producer enqueues *)
| step_enqueue s e k p cost s' r :
    (calls s < capacity S)%Z → env_ok e → key_ok k → cost_ok cost →
    be_Enqueue e k p cost (st s) = (s', r) →
    step s (mkSys s' (pcs s)
      (log s ++ match r with Ok q => [Enqueued k (mkTask q p cost)] | _ => [] end)
      (toks s) (calls s + 1))
(** an idle worker claims *)
| step_claim s i e w d s' r :
    (calls s < capacity S)%Z → env_ok e → token_fresh (toks s) e → w ≠ "" →
    pcs s !! i = None →
    be_Claim e w d (st s) = (s', r) →
    step s (match r with
            | Ok (Some c) => mkSys s' (<[i := Ready c]> (pcs s)) (log s)
                               ({[cu_Lease c]} ∪ toks s) (calls s + 1)
            | _ => mkSys s' (pcs s) (log s) (toks s) (calls s + 1)
            end)
(** it drains a batch; an error ends the round *)
| step_drain s i c e max s' r :
    env_ok e → (0 < max)%Z → pcs s !! i = Some (Ready c) →
    be_Drain e c max (st s) = (s', r) →
    step s (mkSys s'
      (match r with
       | Ok [] => <[i := Closing c]> (pcs s)
       | Ok ts => <[i := Busy c ts (length (acked_of (log s) (cu_Key c))) 0]> (pcs s)
       | _ => delete i (pcs s)
       end) (log s) (toks s) (calls s))
(** it processes the next task of the batch *)
| step_process s i c ts base j t :
    pcs s !! i = Some (Busy c ts base j) → ts !! j = Some t →
    step s (mkSys (st s) (<[i := Busy c ts base (j + 1)]> (pcs s))
      (log s ++ [Processed (cu_Key c) (base + j) t]) (toks s) (calls s))
(** it acknowledges the batch *)
| step_ack s i c ts base t e s' r :
    env_ok e → pcs s !! i = Some (Busy c ts base (length ts)) → last ts = Some t →
    be_Ack e c (Seq t) (st s) = (s', r) →
    step s (mkSys s'
      (match r with
       | Ok true => <[i := Ready c]> (pcs s)
       | _ => delete i (pcs s)
       end)
      (log s ++ match r with Ok _ => [Acked (cu_Key c) ts] | _ => [] end)
      (toks s) (calls s))
(** it releases a unit that drained empty *)
| step_release s i c e s' r :
    env_ok e → pcs s !! i = Some (Closing c) →
    be_Release e c (st s) = (s', r) →
    step s (mkSys s' (delete i (pcs s)) (log s) (toks s) (calls s))
(** the heartbeat goroutine of a worker fires *)
| step_heartbeat s i p e d s' r :
    env_ok e → pcs s !! i = Some p →
    be_Heartbeat e (handle p) d (st s) = (s', r) →
    step s (mkSys s' (pcs s) (log s) (toks s) (calls s))
(** a worker crashes: it calls nothing any more *)
| step_crash s i :
    step s (mkSys (st s) (delete i (pcs s)) (log s) (toks s) (calls s))
(** the reaper runs *)
| step_reap s e now s' r :
    env_ok e → be_ReapExpired e now (st s) = (s', r) →
    step s (mkSys s' (pcs s) (log s) (toks s) (calls s)).

Definition reachable (s0 : S) : sys → Prop := rtc step (init s0).

(** ** An executable scheduler *)

(** One step chosen by an action; [None] when the action is not enabled. *)
Inductive action :=
  | DoEnqueue (e : Env) (k : WorkUnitKey) (p : bytes) (cost : Z)
  | DoClaim (i : nat) (e : Env) (w : WorkerID) (d : duration)
  | DoDrain (i : nat) (e : Env) (max : Z)
  | DoProcess (i : nat)
  | DoAck (i : nat) (e : Env)
  | DoRelease (i : nat) (e : Env)
  | DoHeartbeat (i : nat) (e : Env) (d : duration)
  | DoCrash (i : nat)
  | DoReap (e : Env) (now : time).

(** the environments the action shows to the backend behave *)
Definition action_ok (s : sys) (a : action) : Prop :=
  match a with
  | DoEnqueue e k _ cost => env_ok e ∧ key_ok k ∧ cost_ok cost
  | DoDrain _ e _ | DoAck _ e | DoRelease _ e | DoHeartbeat _ e _ | DoReap e _ => env_ok e
  | DoClaim _ e _ _ => env_ok e ∧ token_fresh (toks s) e
  | DoProcess _ | DoCrash _ => True
  end.

Definition exec1 (s : sys) (a : action) : option sys :=
  match a with
  | DoEnqueue e k p cost =>
      if bool_decide (calls s < capacity S)%Z then
        let '(s', r) := be_Enqueue e k p cost (st s) in
        Some (mkSys s' (pcs s)
          (log s ++ match r with Ok q => [Enqueued k (mkTask q p cost)] | _ => [] end)
          (toks s) (calls s + 1))
      else None
  | DoClaim i e w d =>
      if bool_decide (calls s < capacity S)%Z && bool_decide (w ≠ "")
         && bool_decide (pcs s !! i = None) then
        let '(s', r) := be_Claim e w d (st s) in
        Some (match r with
              | Ok (Some c) => mkSys s' (<[i := Ready c]> (pcs s)) (log s)
                                 ({[cu_Lease c]} ∪ toks s) (calls s + 1)
              | _ => mkSys s' (pcs s) (log s) (toks s) (calls s + 1)
              end)
      else None
  | DoDrain i e max =>
      match pcs s !! i with
      | Some (Ready c) =>
          if bool_decide (0 < max)%Z then
            let '(s', r) := be_Drain e c max (st s) in
            Some (mkSys s'
              (match r with
               | Ok [] => <[i := Closing c]> (pcs s)
               | Ok ts => <[i := Busy c ts (length (acked_of (log s) (cu_Key c))) 0]> (pcs s)
               | _ => delete i (pcs s)
               end) (log s) (toks s) (calls s))
          else None
      | _ => None
      end
  | DoProcess i =>
      match pcs s !! i with
      | Some (Busy c ts base j) =>
          t ← ts !! j;
          Some (mkSys (st s) (<[i := Busy c ts base (j + 1)]> (pcs s))
            (log s ++ [Processed (cu_Key c) (base + j) t]) (toks s) (calls s))
      | _ => None
      end
  | DoAck i e =>
      match pcs s !! i with
      | Some (Busy c ts base j) =>
          t ← last ts;
          if bool_decide (j = length ts) then
            let '(s', r) := be_Ack e c (Seq t) (st s) in
            Some (mkSys s'
              (match r with
               | Ok true => <[i := Ready c]> (pcs s)
               | _ => delete i (pcs s)
               end)
              (log s ++ match r with Ok _ => [Acked (cu_Key c) ts] | _ => [] end)
              (toks s) (calls s))
          else None
      | _ => None
      end
  | DoRelease i e =>
      match pcs s !! i with
      | Some (Closing c) =>
          let '(s', _) := be_Release e c (st s) in
          Some (mkSys s' (delete i (pcs s)) (log s) (toks s) (calls s))
      | _ => None
      end
  | DoHeartbeat i e d =>
      p ← pcs s !! i;
      let '(s', _) := be_Heartbeat e (handle p) d (st s) in
      Some (mkSys s' (pcs s) (log s) (toks s) (calls s))
  | DoCrash i => Some (mkSys (st s) (delete i (pcs s)) (log s) (toks s) (calls s))
  | DoReap e now =>
      let '(s', _) := be_ReapExpired e now (st s) in
      Some (mkSys s' (pcs s) (log s) (toks s) (calls s))
  end.

Fixpoint exec (s : sys) (acts : list action) : option sys :=
  match acts with
  | [] => Some s
  | a :: acts => s' ← exec1 s a; exec s' acts
  end.
End system.
Arguments sys S : clear implicits.
