(* ===== verification/SystemFacts.v ===== *)
(** SystemFacts: the invariant of the multi-worker system and its consequences, for any
    backend that satisfies the [Contract]. *)
From S2P Require Import Prelude Queue Contract System.

(** ** The logs *)

Lemma enq_of_app l1 l2 k : enq_of (l1 ++ l2) k = enq_of l1 k ++ enq_of l2 k.
Proof. apply omap_app. Qed.

Lemma acked_of_app l1 l2 k : acked_of (l1 ++ l2) k = acked_of l1 k ++ acked_of l2 k.
Proof. apply bind_app. Qed.

Lemma was_processed_app l1 l2 k p :
  was_processed (l1 ++ l2) k p ↔ was_processed l1 k p ∨ was_processed l2 k p.
Proof. unfold was_processed. setoid_rewrite elem_of_app. firstorder. Qed.

Lemma was_processed_one k k' p p' t :
  was_processed [Processed k p t] k' p' ↔ k' = k ∧ p' = p.
Proof.
  unfold was_processed. setoid_rewrite list_elem_of_singleton.
  split; [by intros [? [= -> -> _]]|intros [-> ->]; eauto].
Qed.

Lemma was_processed_mono l l' k p : was_processed l k p → was_processed (l ++ l') k p.
Proof. rewrite was_processed_app. auto. Qed.

#[export] Hint Rewrite enq_of_app acked_of_app : plq_simp.
#[export] Hint Resolve was_processed_mono : plq.

(** First-time processing in FIFO order: when a position is processed, it is the position
    of that task in the unit's FIFO, and every earlier position has been processed
    before. *)
Definition fifo_processing (l : list event) : Prop :=
  ∀ l1 k p t l2, l = l1 ++ Processed k p t :: l2 →
    enq_of l1 k !! p = Some t ∧ ∀ p', p' < p → was_processed l1 k p'.

Lemma snoc_split {A} (l l1 l2 : list A) x y :
  l ++ [x] = l1 ++ y :: l2 →
  (l2 = [] ∧ l1 = l ∧ y = x) ∨ ∃ l2', l2 = l2' ++ [x] ∧ l = l1 ++ y :: l2'.
Proof.
  intros Heq. destruct l2 as [|z l2 _] using rev_ind.
  - apply app_inj_tail in Heq as [-> ->]. auto.
  - right. exists l2. rewrite app_comm_cons, (assoc_L (++)) in Heq.
    apply app_inj_tail in Heq as [-> ->]. done.
Qed.

Lemma fifo_processing_snoc l ev :
  fifo_processing l →
  (∀ k p t, ev = Processed k p t →
     enq_of l k !! p = Some t ∧ ∀ p', p' < p → was_processed l k p') →
  fifo_processing (l ++ [ev]).
Proof.
  intros Hl Hev l1 k p t l2 Heq.
  apply snoc_split in Heq as [(-> & -> & Heq)|(l2' & -> & ->)]; [by apply Hev|by eapply Hl].
Qed.

Lemma fifo_processing_app l evs :
  fifo_processing l → Forall (λ ev, ∀ k p t, ev ≠ Processed k p t) evs →
  fifo_processing (l ++ evs).
Proof.
  intros Hl Hevs. revert l Hl. induction Hevs as [|ev evs Hev _ IH]; intros l Hl.
  { by rewrite app_nil_r. }
  rewrite cons_middle, (assoc_L (++)). apply IH, fifo_processing_snoc; [done|].
  intros k p t ->. by destruct (Hev k p t).
Qed.

(** open the guards and the backend call of an action, and leave the call's result *)
Ltac call_in Hx :=
  repeat match type of Hx with
  | (if ?b then _ else _) = _ => destruct b eqn:?; [|discriminate Hx]
  | (let '(_, _) := ?p in _) = _ => destruct p eqn:?
  | match ?o with Some _ => _ | None => None end = Some _ =>
      destruct o as [[| |]|] eqn:?; try discriminate Hx
  | match ?o with Some _ => _ | None => None end = Some _ =>
      destruct o eqn:?; [|discriminate Hx]
  | Some _ = Some _ => injection Hx as <-
  end.

Section facts.
Context {S : Type} `{Contract S}.

(** What holds of a worker inside [runOnce]: its batch is the stretch of the FIFO from
    [base], everything before its next task has been processed, and while its lease is
    good nothing has been acknowledged since it drained and its batch is within reach of
    an acknowledgement. *)
Definition pc_ok (s : sys S) (p : pc) : Prop :=
  (issued (toks s) (handle p) ∧ key_ok (cu_Key (handle p))) ∧
  match p with
  | Busy c ts base j =>
      let k := cu_Key c in
      ts ≠ [] ∧ j ≤ length ts ∧
      (∀ m, m < length ts → enq_of (log s) k !! (base + m) = ts !! m) ∧
      (∀ q, q < base + j → was_processed (log s) k q) ∧
      (holds (st s) c = true →
       base = length (acked_of (log s) k) ∧ length ts ≤ delivered (st s) k)
  | _ => True
  end.

Record sys_ok (s : sys S) : Prop := {
  ok_inv : inv (calls s) (toks s) (st s);
  ok_fifo : ∀ k, enq_of (log s) k = acked_of (log s) k ++ pending (st s) k;
  ok_pcs : ∀ i p, pcs s !! i = Some p → pc_ok s p;
  ok_distinct : ∀ i j p q, pcs s !! i = Some p → pcs s !! j = Some q → i ≠ j →
    cu_Key (handle p) = cu_Key (handle q) → cu_Lease (handle p) ≠ cu_Lease (handle q);
  ok_acked : ∀ k p, p < length (acked_of (log s) k) → was_processed (log s) k p;
  ok_order : fifo_processing (log s);
}.

(** A step that removes no task, revives no handle, logs nothing and only advances
    workers among harmless states keeps the invariant. *)
Lemma sys_ok_quiet s s' ps' :
  sys_ok s → inv (calls s) (toks s) s' →
  (∀ k, pending s' k = pending (st s) k) → no_revival (toks s) (st s) s' →
  (∀ k, delivered (st s) k ≤ delivered s' k) →
  (∀ i p, ps' !! i = Some p → ∃ p0, pcs s !! i = Some p0 ∧ handle p = handle p0 ∧
     (p = p0 ∨ pc_ok (mkSys s' ps' (log s) (toks s) (calls s)) p)) →
  sys_ok (mkSys s' ps' (log s) (toks s) (calls s)).
Proof.
  intros Hs Hi Hp Hr Hd Hps. split; simpl; try done.
  - intros k. by rewrite Hp, (ok_fifo _ Hs).
  - intros i p Hip. destruct (Hps i p Hip) as (p0 & Hp0 & Hh & [->|Hok]); [|done].
    destruct (ok_pcs _ Hs i p0 Hp0) as [Hiss Hok]. split; [done|].
    destruct p0 as [c|c ts base j|c]; simpl in *; [done| |done].
    destruct Hok as (? & ? & ? & ? & Hb). split_and!; auto. intros Hh'.
    destruct Hb as [-> Hm]; [apply Hr; [apply Hiss|done]|]. split; [done|by etrans].
  - intros i j p q Hip Hjq Hne. destruct (Hps i p Hip) as (p0 & Hp0 & -> & _).
    destruct (Hps j q Hjq) as (q0 & Hq0 & -> & _). by eapply (ok_distinct _ Hs).
  - intros k p. apply (ok_acked _ Hs).
  - apply (ok_order _ Hs).
Qed.

Lemma sys_ok_drop s s' i :
  sys_ok s → inv (calls s) (toks s) s' →
  (∀ k, pending s' k = pending (st s) k) → no_revival (toks s) (st s) s' →
  (∀ k, delivered (st s) k ≤ delivered s' k) →
  sys_ok (mkSys s' (delete i (pcs s)) (log s) (toks s) (calls s)).
Proof.
  intros Hs Hi Hp Hr Hd. apply sys_ok_quiet; try done.
  intros j p [_ Hj]%lookup_delete_Some. exists p. auto.
Qed.

Lemma sys_ok_same s s' :
  sys_ok s → inv (calls s) (toks s) s' →
  (∀ k, pending s' k = pending (st s) k) → no_revival (toks s) (st s) s' →
  (∀ k, delivered (st s) k ≤ delivered s' k) →
  sys_ok (mkSys s' (pcs s) (log s) (toks s) (calls s)).
Proof. intros Hs Hi Hp Hr Hd. apply sys_ok_quiet; try done. intros j p Hj. exists p. auto. Qed.

Lemma same_view_no_revival h s s' : same_view h s s' → no_revival h s s'.
Proof. intros [_ Hh] c Hc. by rewrite Hh. Qed.

Lemma sys_ok_enqueue s e k p cost s' r :
  sys_ok s → (calls s < capacity S)%Z → env_ok e → key_ok k → cost_ok cost →
  be_Enqueue e k p cost (st s) = (s', r) →
  sys_ok (mkSys s' (pcs s)
    (log s ++ match r with Ok q => [Enqueued k (mkTask q p cost)] | _ => [] end)
    (toks s) (calls s + 1)).
Proof.
  intros Hs Hn He Hkey Hcost Hr.
  destruct (enqueue_law _ _ _ _ _ _ _ _ _ (ok_inv _ Hs) Hn He Hkey Hcost Hr)
    as (Hi & (Hf & _) & Hh & Hd & Hp).
  set (evs := match r with Ok q => _ | _ => _ end).
  assert (∀ k', pending s' k' = pending (st s) k' ++ enq_of evs k') as Hpe.
  { intros k'. destruct (decide (k' = k)) as [->|Hne].
    - destruct r; [|by rewrite app_nil_r|done]. subst evs. simpl.
      by rewrite decide_True.
    - rewrite Hf by done. destruct r; subst evs; simpl; rewrite ?decide_False by done;
        by rewrite app_nil_r. }
  assert (∀ k', acked_of evs k' = []) as Hae by (intros k'; by destruct r).
  split; simpl.
  - done.
  - intros k'. rewrite enq_of_app, acked_of_app, Hae, app_nil_r, Hpe, (ok_fifo _ Hs).
    by rewrite (assoc_L (++)).
  - intros i pr Hpr. destruct (ok_pcs _ Hs _ _ Hpr) as [Hiss Hok]. split; [done|].
    destruct pr as [c|c ts base j|c]; simpl in *; [done| |done].
    destruct Hok as (? & ? & Hlk & Hpr' & Hb). split_and!; auto with plq.
    + intros m Hm. rewrite enq_of_app, lookup_app_l; [auto|].
      apply lookup_lt_is_Some. rewrite Hlk by done. by apply lookup_lt_is_Some.
    + intros Hhs. rewrite acked_of_app, Hae, app_nil_r. rewrite Hh in Hhs by apply Hiss.
      destruct (Hb Hhs) as [-> Hm]. split; [done|by etrans].
  - apply (ok_distinct _ Hs).
  - intros k' q. rewrite acked_of_app, Hae, app_nil_r. intros Hq.
    by apply was_processed_mono, (ok_acked _ Hs).
  - apply fifo_processing_app; [apply (ok_order _ Hs)|].
    destruct r; subst evs; repeat constructor; done.
Qed.

Lemma sys_ok_claim s i e w d s' r :
  sys_ok s → (calls s < capacity S)%Z → env_ok e → token_fresh (toks s) e → w ≠ "" →
  pcs s !! i = None → be_Claim e w d (st s) = (s', r) →
  sys_ok (match r with
          | Ok (Some c) => mkSys s' (<[i := Ready c]> (pcs s)) (log s)
                             ({[cu_Lease c]} ∪ toks s) (calls s + 1)
          | _ => mkSys s' (pcs s) (log s) (toks s) (calls s + 1)
          end).
Proof.
  intros Hs Hn He Hfr Hw Hidle Hr.
  destruct (claim_law _ _ _ _ _ _ _ _ (ok_inv _ Hs) Hn He Hfr Hw Hr) as (Hp & Hd & Hc).
  assert (∀ s1, inv (calls s + 1) (toks s) s1 → same_view (toks s) (st s) s1 →
    (∀ k, delivered (st s) k ≤ delivered s1 k) →
    sys_ok (mkSys s1 (pcs s) (log s) (toks s) (calls s + 1))) as Hnone.
  { intros s1 Hi1 [Hp1 Hh1] Hd1. destruct (sys_ok_same (mkSys (st s) (pcs s) (log s) (toks s)
      (calls s + 1)) s1); simpl; auto.
    - destruct Hs as [? ? Hpcs ? ? ?]. split; auto. eapply inv_mono; [done|simpl; lia].
    - intros c Hc1. by rewrite Hh1.
    - by split. }
  destruct r as [[c|]|err|]; [|by apply Hnone; destruct Hc..|done].
  destruct Hc as (_ & Hkey & Hfresh & Hi & Hh & _ & (_ & _ & Hnr)).
  split; simpl; try done.
  - intros k. by rewrite Hp, (ok_fifo _ Hs).
  - intros j p [[<- <-]|[Hne Hj]]%lookup_insert_Some.
    { split; [|done]. split; [unfold issued; set_solver|done]. }
    destruct (ok_pcs _ Hs _ _ Hj) as [[Hiss Hkj] Hok].
    split; [split; [unfold issued in *; set_solver|done]|].
    destruct p as [c'|c' ts base m|c']; simpl in *; [done| |done].
    destruct Hok as (? & ? & ? & ? & Hb). split_and!; auto.
    intros Hh'. destruct Hb as [-> Hm]; [by apply Hnr|]. split; [done|by etrans].
  - assert (∀ j q, pcs s !! j = Some q → cu_Lease c ≠ cu_Lease (handle q)) as Hnew.
    { intros j q Hj Heq. apply Hfresh. rewrite Heq. apply (ok_pcs _ Hs _ _ Hj). }
    intros a b p q [[<- <-]|[Hna Ha]]%lookup_insert_Some
      [[<- <-]|[Hnb Hb]]%lookup_insert_Some Hab Hk; simpl; try done.
    + by eapply Hnew.
    + intros Heq. by eapply Hnew.
    + by eapply (ok_distinct _ Hs).
  - apply (ok_acked _ Hs).
  - apply (ok_order _ Hs).
Qed.

Lemma pending_prefix (s : sys S) c ts base :
  sys_ok s → base = length (acked_of (log s) (cu_Key c)) →
  (∀ m, m < length ts → enq_of (log s) (cu_Key c) !! (base + m) = ts !! m) →
  ∃ rest, pending (st s) (cu_Key c) = ts ++ rest.
Proof.
  intros Hs -> Hlk. exists (drop (length ts) (pending (st s) (cu_Key c))).
  rewrite <- (take_drop (length ts) (pending _ _)) at 1. f_equal.
  apply list_eq. intros m. destruct (decide (m < length ts)) as [Hm|Hm].
  - rewrite lookup_take_lt by done. rewrite <- Hlk, (ok_fifo _ Hs) by done.
    rewrite lookup_app_r by lia. f_equal. lia.
  - rewrite lookup_take_ge, (lookup_ge_None_2 ts) by lia. done.
Qed.

(** a worker is handed some tasks from the head of its unit *)
Lemma sys_ok_handed s i c s' (m : nat) :
  let ts := take m (pending (st s) (cu_Key c)) in
  sys_ok s → pcs s !! i = Some (Ready c) → inv (calls s) (toks s) s' →
  same_view (toks s) (st s) s' → (∀ k, delivered (st s) k ≤ delivered s' k) →
  length ts ≤ delivered s' (cu_Key c) →
  sys_ok (mkSys s'
    (match ts with
     | [] => <[i := Closing c]> (pcs s)
     | _ => <[i := Busy c ts (length (acked_of (log s) (cu_Key c))) 0]> (pcs s)
     end) (log s) (toks s) (calls s)).
Proof.
  intros ts Hs Hpc Hi Hv Hd Hlen. destruct (ok_pcs _ Hs _ _ Hpc) as [[Hiss Hkey] _]. simpl in Hiss, Hkey.
  pose proof (same_view_no_revival _ _ _ Hv) as Hnr. destruct Hv as [Hp Hh].
  assert (∀ p', handle p' = c →
    pc_ok (mkSys s' (<[i := p']> (pcs s)) (log s) (toks s) (calls s)) p' →
    sys_ok (mkSys s' (<[i := p']> (pcs s)) (log s) (toks s) (calls s))) as Hgo.
  { intros p' Hhd Hok. apply sys_ok_quiet; try done.
    intros j q [[<- <-]|[Hne Hj]]%lookup_insert_Some; [|exists q; auto].
    exists (Ready c). auto. }
  assert (∀ ts', ts' = ts → ts' ≠ [] →
    sys_ok (mkSys s' (<[i := Busy c ts' (length (acked_of (log s) (cu_Key c))) 0]> (pcs s))
      (log s) (toks s) (calls s))) as Hbusy.
  { intros ts' -> Hne. apply Hgo; [done|]. split; [done|]. simpl. split_and!; try done.
    - lia.
    - intros x Hx. rewrite (ok_fifo _ Hs), lookup_app_r by lia.
      rewrite Nat.add_comm, Nat.add_sub. subst ts. rewrite length_take in Hx.
      rewrite lookup_take_lt; [done|]. lia.
    - intros q Hq. apply (ok_acked _ Hs). lia. }
  clearbody ts. destruct ts as [|t ts0]; [|by apply Hbusy].
  by apply Hgo.
Qed.

Lemma sys_ok_drain s i c e max s' r :
  sys_ok s → env_ok e → (0 < max)%Z → pcs s !! i = Some (Ready c) →
  be_Drain e c max (st s) = (s', r) →
  sys_ok (mkSys s'
    (match r with
     | Ok [] => <[i := Closing c]> (pcs s)
     | Ok ts => <[i := Busy c ts (length (acked_of (log s) (cu_Key c))) 0]> (pcs s)
     | _ => delete i (pcs s)
     end) (log s) (toks s) (calls s)).
Proof.
  intros Hs He Hmax Hpc Hr. destruct (ok_pcs _ Hs _ _ Hpc) as [[Hiss Hkey] _]. simpl in Hiss, Hkey.
  destruct (drain_law _ _ _ _ _ _ _ _ (ok_inv _ Hs) He Hiss Hkey Hmax Hr)
    as (Hi & Hv & Hd & -> & Hdel).
  destruct (holds (st s) c) eqn:Hc.
  - apply (sys_ok_handed s i c s'); try done. rewrite length_take. by apply Hdel.
  - apply sys_ok_drop; try done; [apply Hv|by apply same_view_no_revival].
Qed.

Lemma sys_ok_process s i c ts base j t :
  sys_ok s → pcs s !! i = Some (Busy c ts base j) → ts !! j = Some t →
  sys_ok (mkSys (st s) (<[i := Busy c ts base (j + 1)]> (pcs s))
    (log s ++ [Processed (cu_Key c) (base + j) t]) (toks s) (calls s)).
Proof.
  intros Hs Hpc Ht. destruct (ok_pcs _ Hs _ _ Hpc) as [Hiss (Hne & Hj & Hlk & Hpr & Hb)].
  pose proof (lookup_lt_Some _ _ _ Ht) as Hlt.
  assert (∀ k, enq_of (log s ++ [Processed (cu_Key c) (base + j) t]) k = enq_of (log s) k)
    as He by (intros; by rewrite enq_of_app, app_nil_r).
  assert (∀ k, acked_of (log s ++ [Processed (cu_Key c) (base + j) t]) k = acked_of (log s) k)
    as Ha by (intros; rewrite acked_of_app; simpl; by rewrite app_nil_r).
  split; simpl; try apply Hs.
  - intros k. by rewrite He, Ha, (ok_fifo _ Hs).
  - intros i' p [[<- <-]|[Hne' Hi']]%lookup_insert_Some.
    + split; [done|]. simpl. split_and!.
      * done.
      * lia.
      * intros m. rewrite He. auto.
      * intros q Hq. rewrite was_processed_app, was_processed_one.
        destruct (decide (q = base + j)) as [->|]; [auto|left; apply Hpr; lia].
      * rewrite Ha. auto.
    + destruct (ok_pcs _ Hs _ _ Hi') as [? Hok]. split; [done|].
      destruct p as [c'|c' ts' base' j'|c']; simpl in *; [done| |done].
      destruct Hok as (? & ? & ? & ? & ?). split_and!; auto with plq.
      * intros m. rewrite He. auto.
      * by rewrite Ha.
  - intros a b p q [[<- <-]|[Hna Hpa]]%lookup_insert_Some
      [[<- <-]|[Hnb Hpb]]%lookup_insert_Some Hab; try done; simpl.
    + by apply (ok_distinct _ Hs _ _ _ _ Hpc Hpb).
    + by apply (ok_distinct _ Hs _ _ _ _ Hpa Hpc).
    + by apply (ok_distinct _ Hs _ _ _ _ Hpa Hpb).
  - intros k p. rewrite Ha. intros Hp. by apply was_processed_mono, (ok_acked _ Hs).
  - apply fifo_processing_snoc; [apply Hs|]. intros k p t' [= <- <- <-].
    split; [by rewrite Hlk|]. intros q Hq. apply Hpr. lia.
Qed.

(** The batch at the head is acknowledged: the other workers' batches keep their place. *)
Lemma sys_ok_acked s i c ts s' ps' :
  let base := length (acked_of (log s) (cu_Key c)) in
  sys_ok s → pcs s !! i = Some (Busy c ts base (length ts)) → inv (calls s) (toks s) s' →
  frame (toks s) (cu_Key c) (st s) s' →
  (∀ k, k ≠ cu_Key c → delivered (st s) k ≤ delivered s' k) → holds (st s) c = true →
  pending (st s) (cu_Key c) = ts ++ pending s' (cu_Key c) →
  (∀ j p, ps' !! j = Some p → (j ≠ i ∧ pcs s !! j = Some p) ∨ (j = i ∧ p = Ready c)) →
  sys_ok (mkSys s' ps' (log s ++ [Acked (cu_Key c) ts]) (toks s) (calls s)).
Proof.
  intros base Hs Hpc Hi (Hf & Hfh & Hnr) Hd Hc Hrest Hps.
  destruct (ok_pcs _ Hs _ _ Hpc) as [[Hiss Hkey] (_ & _ & _ & Hpr & _)]. simpl in Hiss, Hkey, Hpr.
  set (l' := log s ++ [Acked (cu_Key c) ts]).
  assert (∀ k, enq_of l' k = enq_of (log s) k) as Hel
    by (intros; unfold l'; by rewrite enq_of_app, app_nil_r).
  assert (∀ k, acked_of l' k = acked_of (log s) k ++ if decide (cu_Key c = k) then ts else [])
    as Hal by (intros; unfold l'; rewrite acked_of_app; simpl; by rewrite app_nil_r).
  split; simpl; try done.
  - intros k. rewrite Hel, Hal, (ok_fifo _ Hs), <- (assoc_L (++)). f_equal.
    case_decide as Hk; [by rewrite <- Hk|by rewrite Hf].
  - intros j p Hj. destruct (Hps _ _ Hj) as [[Hji Hj']|[-> ->]]; [|by split].
    destruct (ok_pcs _ Hs _ _ Hj') as [[? Hkj] Hok]. split; [done|].
    destruct p as [c'|c' ts' base' j'|c']; simpl in *; [done| |done].
    destruct Hok as (? & ? & ? & ? & Hb'). split_and!; auto.
    + intros m. rewrite Hel. auto.
    + intros. unfold l'. auto with plq.
    + intros Hh'. apply Hnr in Hh'; [|done]. rewrite Hal.
      case_decide as Hk.
      2:{ rewrite app_nil_r. destruct (Hb' Hh') as [-> Hm]. split; [done|].
          etrans; [exact Hm|]. apply Hd. congruence. }
      destruct (ok_distinct _ Hs _ _ _ _ Hpc Hj'); [done..|].
      by eapply (holds_unique _ _ _ _ _ (ok_inv _ Hs)).
  - intros a b p q Hpa Hpb Hab Hk.
    destruct (Hps _ _ Hpa) as [[Hai Ha']|[-> ->]], (Hps _ _ Hpb) as [[Hbi Hb']|[-> ->]].
    + by apply (ok_distinct _ Hs _ _ _ _ Ha' Hb').
    + by apply (ok_distinct _ Hs _ _ _ _ Ha' Hpc).
    + by apply (ok_distinct _ Hs _ _ _ _ Hpc Hb').
    + done.
  - intros k p. rewrite Hal, length_app. intros Hpl. apply was_processed_mono.
    destruct (decide (p < length (acked_of (log s) k))); [by apply (ok_acked _ Hs)|].
    case_decide as Hk; [|simpl in Hpl; lia]. subst k. apply Hpr. lia.
  - unfold l'. apply fifo_processing_app; [apply Hs|]. by repeat constructor.
Qed.

Lemma sys_ok_ack s i c ts base t e s' r :
  sys_ok s → env_ok e → pcs s !! i = Some (Busy c ts base (length ts)) →
  last ts = Some t → be_Ack e c (Seq t) (st s) = (s', r) →
  sys_ok (mkSys s'
    (match r with
     | Ok true => <[i := Ready c]> (pcs s)
     | _ => delete i (pcs s)
     end)
    (log s ++ match r with Ok _ => [Acked (cu_Key c) ts] | _ => [] end)
    (toks s) (calls s)).
Proof.
  intros Hs He Hpc Hlast Hr.
  destruct (ok_pcs _ Hs _ _ Hpc) as [[Hiss Hkey] (Hne & _ & Hlk & Hpr & Hb)].
  simpl in Hiss, Hkey, Hb.
  destruct (ack_law _ _ _ _ _ _ _ _ (ok_inv _ Hs) He Hiss Hkey Hr) as (Hi & Hd & Ha).
  destruct (holds (st s) c) eqn:Hc.
  2:{ destruct Ha as (Hv & Hd' & ->). rewrite app_nil_r.
      apply sys_ok_drop; [done..|apply Hv|by eapply same_view_no_revival|done]. }
  destruct Ha as ((Hf & Hfh & Hnr) & Hp & ->). destruct (Hb eq_refl) as [Hbase Hlen].
  destruct (pending_prefix s c ts base Hs Hbase Hlk) as [rest Hrest].
  assert (pending s' (cu_Key c) = rest) as Hp'.
  { destruct (pending_consecutive _ _ _ (cu_Key c) (ok_inv _ Hs)) as [b Hcons].
    rewrite Hrest in Hcons, Hp. rewrite (acked_batch _ _ _ _ _ Hcons Hlast Hlen) in Hp.
    by apply app_inv_head in Hp. }
  rewrite <- Hp' in Hrest. subst base.
  destruct (holds s' c); (eapply sys_ok_acked; try done).
  - intros j p [[<- <-]|[? ?]]%lookup_insert_Some; auto.
  - intros j p [? ?]%lookup_delete_Some; auto.
Qed.

Lemma sys_ok_release s i c e s' r :
  sys_ok s → env_ok e → pcs s !! i = Some (Closing c) →
  be_Release e c (st s) = (s', r) →
  sys_ok (mkSys s' (delete i (pcs s)) (log s) (toks s) (calls s)).
Proof.
  intros Hs He Hpc Hr. destruct (ok_pcs _ Hs _ _ Hpc) as [[Hiss Hkey] _].
  destruct (release_law _ _ _ _ _ _ _ (ok_inv _ Hs) He Hiss Hkey Hr) as (Hi & Hd & Hh). simpl in Hh.
  destruct (holds (st s) c).
  - destruct Hh as ((Hf & _ & Hnr) & Hp & _). apply sys_ok_drop; try done.
    intros k. destruct (decide (k = cu_Key c)) as [->|]; auto.
  - destruct Hh as [[Hp Hsame] _]. apply sys_ok_drop; try done.
    intros c' Hc'. by rewrite Hsame.
Qed.

Lemma sys_ok_step s s' : sys_ok s → step s s' → sys_ok s'.
Proof.
  intros Hs Hst. destruct Hst as [ | | | | | | s i p e d s' r He Hp Hb | | s e now s' r He Hb].
  - by eapply sys_ok_enqueue.
  - by eapply sys_ok_claim.
  - by eapply sys_ok_drain.
  - by apply sys_ok_process.
  - by eapply sys_ok_ack.
  - by eapply sys_ok_release.
  - destruct (ok_pcs _ Hs _ _ Hp) as [[Hiss Hkey] _].
    destruct (heartbeat_law _ _ _ _ _ _ _ _ (ok_inv _ Hs) He Hiss Hkey Hb) as (Hi & Hv & Hd & _).
    pose proof (same_view_no_revival _ _ _ Hv). destruct Hv. by apply sys_ok_same.
  - apply sys_ok_drop; try done; [apply Hs|by intros ? ?].
  - destruct (reap_law _ _ _ _ _ _ _ (ok_inv _ Hs) He Hb) as (Hi & Hpd & Hr & Hd).
    by apply sys_ok_same.
Qed.

Lemma sys_ok_init s0 : inv 0 ∅ s0 → (∀ k, pending s0 k = []) → sys_ok (init s0).
Proof.
  intros Hi Hp. split; simpl; try done.
  - intros k p Hlt. simpl in Hlt. lia.
  - intros l1 k p t l2 Heq. by destruct l1.
Qed.

Lemma reachable_ok s0 s :
  inv 0 ∅ s0 → (∀ k, pending s0 k = []) → reachable s0 s → sys_ok s.
Proof.
  intros Hi Hp Hr. assert (sys_ok (init s0)) as Hs0 by by apply sys_ok_init.
  revert Hs0. unfold reachable in Hr. induction Hr as [|a b c Hab _ IH]; [done|].
  intros Ha. apply IH. by eapply sys_ok_step.
Qed.

(** what holds of every reachable state, for the theorems on each driver *)
Lemma exclusive_ok s i j p q :
  sys_ok s → pcs s !! i = Some p → pcs s !! j = Some q →
  cu_Key (handle p) = cu_Key (handle q) →
  holds (st s) (handle p) = true → holds (st s) (handle q) = true → i = j.
Proof.
  intros Hs Hpi Hqj Hk Hhp Hhq. destruct (decide (i = j)) as [|Hne]; [done|].
  destruct (ok_distinct _ Hs _ _ _ _ Hpi Hqj Hne Hk).
  eapply (holds_unique _ _ _ _ _ (ok_inv _ Hs)); try done; by eapply (ok_pcs _ Hs).
Qed.

Lemma system_safe s0 s :
  inv 0 ∅ s0 → (∀ k, pending s0 k = []) → reachable s0 s →
  (∀ k, enq_of (log s) k = acked_of (log s) k ++ pending (st s) k) ∧
  (∀ k p, p < length (acked_of (log s) k) → was_processed (log s) k p) ∧
  (∀ i j p q, pcs s !! i = Some p → pcs s !! j = Some q →
     cu_Key (handle p) = cu_Key (handle q) →
     holds (st s) (handle p) = true → holds (st s) (handle q) = true → i = j).
Proof.
  intros Hi Hp Hr. pose proof (reachable_ok s0 s Hi Hp Hr) as Hs. split_and!; [apply Hs|apply Hs|].
  intros i j p q. by apply exclusive_ok.
Qed.

(** *** The scheduler makes steps of the system *)

Lemma exec1_step s a s' : action_ok s a → exec1 s a = Some s' → step s s'.
Proof.
  intros Ha Hx. destruct a; simpl in *; unfold mbind, option_bind in *; call_in Hx;
    simplify_eq; b2p; subst; destruct_and?; by econstructor.
Qed.

(** every action of a run shows the backend a well-behaved environment *)
Fixpoint acts_ok (s : sys S) (acts : list action) : Prop :=
  match acts with
  | [] => True
  | a :: acts =>
      action_ok s a ∧ match exec1 s a with Some s' => acts_ok s' acts | None => True end
  end.

Lemma acts_ok_Forall s acts : (∀ s, Forall (action_ok s) acts) → acts_ok s acts.
Proof.
  revert s. induction acts as [|a acts IH]; intros s Hf; [done|]. cbn [acts_ok].
  split; [by apply (Forall_inv (Hf s))|]. destruct (exec1 s a) as [s'|]; [|done].
  apply IH. intros s2. by apply (Forall_inv_tail (Hf s2)).
Qed.

Lemma exec_reachable s0 acts s s' :
  acts_ok s acts → reachable s0 s → exec s acts = Some s' → reachable s0 s'.
Proof.
  revert s. induction acts as [|a acts IH]; intros s Hok Hr Hx.
  { cbn [exec] in Hx. by injection Hx as <-. }
  cbn [acts_ok exec] in *. destruct Hok as [Ha Hok].
  destruct (exec1 s a) as [s1|] eqn:Hstep; [|done].
  eapply IH; [done| |done]. eapply rtc_r; [done|]. by eapply exec1_step.
Qed.
End facts.
