(* ===== verification/SystemOnce.v ===== *)
(** SystemOnce: exactly-once processing while leases last.  Over a backend that meets the
    [Strict] contract, in every run of the system of System.v in which no worker crashes
    inside its round and the reaper takes no lease a worker still holds, each task is
    processed once, in the order it was enqueued (internal/queue/worker_test.go checks
    one such run: a pool of four workers on one unit). *)
From S2P Require Import Prelude Queue Contract System SystemFacts.

(** the tasks of a unit in the order they were processed, every processing counted *)
Definition processed_of (l : list event) (k : WorkUnitKey) : list Task :=
  omap (λ ev, match ev with
    | Processed k' _ t => if decide (k' = k) then Some t else None
    | _ => None end) l.

Lemma processed_of_app l1 l2 k : processed_of (l1 ++ l2) k = processed_of l1 k ++ processed_of l2 k.
Proof. apply omap_app. Qed.

Lemma prefix_snoc {A} (l1 l2 : list A) x :
  l1 `prefix_of` l2 → l2 !! length l1 = Some x → l1 ++ [x] `prefix_of` l2.
Proof.
  intros [l ->] Hx. rewrite lookup_app_r, Nat.sub_diag in Hx by done.
  destruct l as [|y l]; [done|]. injection Hx as ->. exists l. by rewrite <- (assoc_L (++)).
Qed.

Section once.
Context {S : Type} `{Strict S}.

(** What a calm run allows: a crash only of a worker that is not in its round, and a pass
    of the reaper only when the workers keep the leases they hold. *)
Definition calm (s : sys S) (a : action) (s' : sys S) : bool :=
  match a with
  | DoCrash i => bool_decide (pcs s !! i = None)
  | DoReap _ _ => forallb (λ ip, implb (holds (st s) (handle ip.2)) (holds (st s') (handle ip.2)))
                    (map_to_list (pcs s))
  | _ => true
  end.

Definition calm_step (s s' : sys S) : Prop :=
  ∃ a, action_ok s a ∧ exec1 s a = Some s' ∧ calm s a s' = true.

(** the states of the calm runs from [s0] *)
Definition calmly (s0 : S) : sys S → Prop := rtc calm_step (init s0).

Lemma calm_step_step s s' : calm_step s s' → step s s'.
Proof. intros (a & Ha & Hx & _). by eapply exec1_step. Qed.

Lemma calm_reap s e now s' i p :
  calm s (DoReap e now) s' = true → pcs s !! i = Some p →
  holds (st s) (handle p) = true → holds (st s') (handle p) = true.
Proof.
  cbn [calm]. rewrite forallb_forall. intros Hc Hi Hh. specialize (Hc (i, p)).
  cbn [snd] in Hc. rewrite Hh in Hc. apply Hc.
  by apply list_elem_of_In, elem_of_map_to_list.
Qed.

(** a calm run, executed *)
Fixpoint exec_calm (s : sys S) (acts : list action) : option (sys S) :=
  match acts with
  | [] => Some s
  | a :: acts => s' ← exec1 s a; if calm s a s' then exec_calm s' acts else None
  end.

Lemma exec_calm_calmly s0 s acts s' :
  acts_ok s acts → calmly s0 s → exec_calm s acts = Some s' → calmly s0 s'.
Proof.
  revert s. induction acts as [|a acts IH]; intros s Hok Hr Hx.
  { cbn [exec_calm] in Hx. by injection Hx as <-. }
  cbn [acts_ok exec_calm] in *. destruct Hok as [Ha Hok]. unfold mbind, option_bind in Hx.
  destruct (exec1 s a) as [s1|] eqn:Hs; [|done]. destruct (calm s a s1) eqn:Hc; [|done].
  apply (IH s1); [done| |done]. eapply rtc_r; [done|]. by exists a.
Qed.

(** ** The invariant of calm runs *)

(** worker [i] is processing a batch of unit [k] *)
Definition busy (ps : gmap nat pc) (i : nat) (k : WorkUnitKey) : Prop :=
  ∃ c ts base j, ps !! i = Some (Busy c ts base j) ∧ cu_Key c = k.

Record once_ok (s : sys S) : Prop := {
  on_sys : sys_ok s;
  on_held : ∀ i p, pcs s !! i = Some p → holds (st s) (handle p) = true;
  on_busy : ∀ i c ts base j, pcs s !! i = Some (Busy c ts base j) →
    length (processed_of (log s) (cu_Key c)) = base + j;
  on_idle : ∀ k, (∀ i, ¬ busy (pcs s) i k) →
    length (processed_of (log s) k) = length (acked_of (log s) k);
  on_prefix : ∀ k, processed_of (log s) k `prefix_of` enq_of (log s) k;
}.

(** every worker in its round holds its unit, so no two of them are at one unit *)
Lemma alone s i j p q :
  once_ok s → pcs s !! i = Some p → pcs s !! j = Some q →
  cu_Key (handle p) = cu_Key (handle q) → i = j.
Proof.
  intros Ho Hp Hq Hk. pose proof (on_held _ Ho _ _ Hp). pose proof (on_held _ Ho _ _ Hq).
  by eapply (exclusive_ok s); [apply Ho|..].
Qed.

Lemma not_busy s i p k :
  once_ok s → pcs s !! i = Some p → cu_Key (handle p) = k →
  (∀ c ts base j, p ≠ Busy c ts base j) → ∀ j, ¬ busy (pcs s) j k.
Proof.
  intros Ho Hp Hk Hnb j (c & ts & base & m & Hj & Hc).
  assert (i = j) as <- by (eapply (alone s); [done..|by rewrite Hk, <- Hc]).
  rewrite Hp in Hj. injection Hj as ->. by eapply Hnb.
Qed.

(** A handle of another unit, and a handle of a worker other than [i], survive what worker
    [i] does to its own unit. *)
Lemma others_keep s i p0 h s' j p :
  once_ok s → pcs s !! i = Some p0 → h = toks s →
  frame h (cu_Key (handle p0)) (st s) s' →
  pcs s !! j = Some p → j ≠ i → holds s' (handle p) = true.
Proof.
  intros Ho Hi -> (_ & Hh & _) Hj Hne. rewrite Hh; [by eapply on_held| |].
  - apply (ok_pcs _ (on_sys _ Ho) _ _ Hj).
  - intros Hk. apply Hne. by eapply (alone s).
Qed.

(** A step that logs no processing and no acknowledgement, and leaves the same workers
    busy with the same batches. *)
Lemma once_quiet s s' :
  once_ok s → sys_ok s' →
  (∀ i p, pcs s' !! i = Some p → holds (st s') (handle p) = true) →
  (∀ k, processed_of (log s') k = processed_of (log s) k) →
  (∀ k, acked_of (log s') k = acked_of (log s) k) →
  (∀ k, enq_of (log s) k `prefix_of` enq_of (log s') k) →
  (∀ i c ts base j, pcs s' !! i = Some (Busy c ts base j) ↔
     pcs s !! i = Some (Busy c ts base j)) →
  once_ok s'.
Proof.
  intros Ho Hs Hh Hp Ha He Hb. split; [done|done|..].
  - intros i c ts base j Hi. rewrite Hp. by eapply on_busy, Hb.
  - intros k Hk. rewrite Hp, Ha. apply (on_idle _ Ho). intros i (c & ts & base & j & Hi & Hc).
    apply (Hk i). exists c, ts, base, j. by rewrite Hb.
  - intros k. rewrite Hp. etrans; [apply (on_prefix _ Ho)|apply He].
Qed.

(** replacing the state of one worker that was not busy by one that is not *)
Lemma busy_insert (ps : gmap nat pc) i p0 p j c ts base m :
  (∀ c ts base m, p ≠ Busy c ts base m) → (∀ c ts base m, ps !! i = Some p0 → p0 ≠ Busy c ts base m) →
  (ps !! i = Some p0 ∨ ps !! i = None) →
  <[i := p]> ps !! j = Some (Busy c ts base m) ↔ ps !! j = Some (Busy c ts base m).
Proof.
  intros Hp Hp0 Hi. destruct (decide (i = j)) as [<-|Hne]; [|rewrite lookup_insert_ne; [done|exact Hne]].
  rewrite lookup_insert_eq. split; [by intros [= ?%Hp]|].
  intros Hb. destruct Hi as [Hi|Hi]; rewrite Hb in Hi; [|done]. injection Hi as <-.
  by destruct (Hp0 _ _ _ _ Hb eq_refl).
Qed.

Lemma busy_delete (ps : gmap nat pc) i p0 j c ts base m :
  ps !! i = Some p0 → (∀ c ts base m, p0 ≠ Busy c ts base m) →
  delete i ps !! j = Some (Busy c ts base m) ↔ ps !! j = Some (Busy c ts base m).
Proof.
  intros Hi Hp0. rewrite lookup_delete_Some. split; [by intros []|]. intros Hb. split; [|done].
  intros <-. rewrite Hi in Hb. injection Hb as ->. by eapply Hp0.
Qed.

Lemma once_enqueue s e k p cost s' r :
  once_ok s → (calls s < capacity S)%Z → env_ok e →
  be_Enqueue e k p cost (st s) = (s', r) →
  sys_ok (mkSys s' (pcs s)
    (log s ++ match r with Ok q => [Enqueued k (mkTask q p cost)] | _ => [] end)
    (toks s) (calls s + 1)) →
  once_ok (mkSys s' (pcs s)
    (log s ++ match r with Ok q => [Enqueued k (mkTask q p cost)] | _ => [] end)
    (toks s) (calls s + 1)).
Proof.
  intros Ho Hn He Hr Hs'.
  destruct (s_enqueue _ _ _ _ _ _ _ _ _ (ok_inv _ (on_sys _ Ho)) Hn He Hr) as (_ & _ & Hh & _).
  apply (once_quiet s); [done|done|..]; cbn [st pcs log].
  - intros i pr Hi. rewrite Hh; [by eapply on_held|apply (ok_pcs _ (on_sys _ Ho) _ _ Hi)].
  - intros k'. rewrite processed_of_app. by destruct r; rewrite app_nil_r.
  - intros k'. rewrite acked_of_app. by destruct r; rewrite app_nil_r.
  - intros k'. rewrite enq_of_app. by apply prefix_app_r.
  - done.
Qed.

Lemma once_claim s i e w d s' r :
  once_ok s → (calls s < capacity S)%Z → env_ok e → token_fresh (toks s) e → w ≠ "" →
  pcs s !! i = None → be_Claim e w d (st s) = (s', r) →
  let s1 := match r with
            | Ok (Some c) => mkSys s' (<[i := Ready c]> (pcs s)) (log s)
                               ({[cu_Lease c]} ∪ toks s) (calls s + 1)
            | _ => mkSys s' (pcs s) (log s) (toks s) (calls s + 1)
            end in
  sys_ok s1 → once_ok s1.
Proof.
  intros Ho Hn He Hfr Hw Hi Hr s1 Hs'.
  destruct (s_claim _ _ _ _ _ _ _ _ (ok_inv _ (on_sys _ Ho)) Hn He Hfr Hw Hr) as (_ & Hc).
  assert (∀ j p, pcs s !! j = Some p → issued (toks s) (handle p)) as Hiss
    by (intros j p Hj; apply (ok_pcs _ (on_sys _ Ho) _ _ Hj)).
  destruct r as [[c|]|err|]; [|destruct Hc as [_ [_ Hv]]..|done]; subst s1;
    (apply (once_quiet s); [done|exact Hs'|..]; cbn [st pcs log]; try done).
  - destruct Hc as (_ & _ & _ & Hh & _ & _ & Hsame).
    intros j p [[<- <-]|[Hne Hj]]%lookup_insert_Some; [done|].
    rewrite Hsame; [by eapply on_held|by eapply Hiss].
  - intros j c' ts base m. apply (busy_insert _ _ (Ready c)); [done|congruence|by right].
  - intros j p Hj. rewrite Hv; [by eapply on_held|by eapply Hiss].
  - intros j p Hj. rewrite Hv; [by eapply on_held|by eapply Hiss].
Qed.

Lemma once_drain s i c e max s' r :
  once_ok s → env_ok e → (0 < max)%Z → pcs s !! i = Some (Ready c) →
  be_Drain e c max (st s) = (s', r) →
  let s1 := mkSys s'
    (match r with
     | Ok [] => <[i := Closing c]> (pcs s)
     | Ok ts => <[i := Busy c ts (length (acked_of (log s) (cu_Key c))) 0]> (pcs s)
     | _ => delete i (pcs s)
     end) (log s) (toks s) (calls s) in
  sys_ok s1 → once_ok s1.
Proof.
  intros Ho He Hm Hi Hr s1 Hs'. pose proof (on_held _ Ho _ _ Hi) as Hc. cbn [handle] in Hc.
  destruct (s_drain _ _ _ _ _ _ _ _ (ok_inv _ (on_sys _ Ho)) He
    (proj1 (proj1 (ok_pcs _ (on_sys _ Ho) _ _ Hi))) Hm Hr) as (_ & [_ Hv] & ->).
  subst s1. cbn [handle] in Hs' |- *. rewrite Hc in Hs' |- *. set (ts := take _ _) in *. clearbody ts.
  assert (∀ ps : gmap nat pc, (∀ j p, ps !! j = Some p → ∃ p', pcs s !! j = Some p' ∧ handle p = handle p') →
    ∀ j p, ps !! j = Some p → holds s' (handle p) = true) as Hheld.
  { intros ps Hps j p Hj. destruct (Hps j p Hj) as (p' & Hp' & ->).
    rewrite Hv; [by eapply on_held|apply (ok_pcs _ (on_sys _ Ho) _ _ Hp')]. }
  assert (∀ q, handle q = c → ∀ j p, <[i := q]> (pcs s) !! j = Some p →
    ∃ p', pcs s !! j = Some p' ∧ handle p = handle p') as Hins.
  { intros q Hq j p [[<- <-]|[Hne Hj]]%lookup_insert_Some; eauto. }
  destruct ts as [|t ts].
  { apply (once_quiet s); try done; cbn [st pcs log].
    - apply Hheld. by apply Hins.
    - intros j c' ts base m. apply (busy_insert _ _ (Ready c)); [done|done|by left]. }
  split; [done| | | |]; cbn [st pcs log].
  - apply Hheld. by apply Hins.
  - intros j c' ts' base m [[<- [= <- <- <- <-]]|[Hne Hj]]%lookup_insert_Some;
      [|by eapply on_busy].
    rewrite Nat.add_0_r. apply (on_idle _ Ho). by eapply not_busy.
  - intros k Hk. apply (on_idle _ Ho). intros j (c' & ts' & base & m & Hj & Hck).
    apply (Hk j). exists c', ts', base, m. split; [|done].
    rewrite lookup_insert_ne; [done|]. intros <-. by rewrite Hi in Hj.
  - apply (on_prefix _ Ho).
Qed.

Lemma once_process s i c ts base j t :
  once_ok s → pcs s !! i = Some (Busy c ts base j) → ts !! j = Some t →
  let s1 := mkSys (st s) (<[i := Busy c ts base (j + 1)]> (pcs s))
    (log s ++ [Processed (cu_Key c) (base + j) t]) (toks s) (calls s) in
  sys_ok s1 → once_ok s1.
Proof.
  intros Ho Hi Ht s1 Hs'. subst s1.
  destruct (ok_pcs _ (on_sys _ Ho) _ _ Hi) as [_ (_ & _ & Hlk & _ & _)].
  pose proof (on_busy _ Ho _ _ _ _ _ Hi) as Hlen.
  assert (∀ k, processed_of (log s ++ [Processed (cu_Key c) (base + j) t]) k =
    processed_of (log s) k ++ if decide (cu_Key c = k) then [t] else []) as Hp.
  { intros k. rewrite processed_of_app. cbn [processed_of omap list_omap]. by case_decide. }
  split; [done| | | |]; cbn [st pcs log].
  - intros j' p [[<- <-]|[Hne Hj]]%lookup_insert_Some; [|by eapply on_held].
    apply (on_held _ Ho _ _ Hi).
  - intros j' c' ts' base' m [[<- [= <- <- <- <-]]|[Hne Hj]]%lookup_insert_Some.
    + rewrite Hp, decide_True, length_app, Hlen by done. cbn [length]. lia.
    + rewrite Hp, decide_False, app_nil_r; [by eapply on_busy|].
      intros Hk. apply Hne. by eapply (alone s).
  - intros k Hk. assert (cu_Key c ≠ k) as Hck.
    { intros Hck. apply (Hk i). exists c, ts, base, (j + 1). by rewrite lookup_insert_eq. }
    rewrite Hp, decide_False, app_nil_r, acked_of_app by done. cbn. rewrite app_nil_r.
    apply (on_idle _ Ho). intros j' (c' & ts' & base' & m & Hj & Hk').
    apply (Hk j'). exists c', ts', base', m. split; [|done].
    rewrite lookup_insert_ne; [done|]. intros <-. rewrite Hi in Hj. by injection Hj as <- <- <- <-.
  - intros k. rewrite Hp, enq_of_app, app_nil_r. case_decide as Hk; [subst k|by rewrite app_nil_r; apply (on_prefix _ Ho)].
    apply prefix_snoc; [apply (on_prefix _ Ho)|]. rewrite Hlen, Hlk; [done|].
    by eapply lookup_lt_Some.
Qed.

Lemma once_ack s i c ts base t e s' r :
  once_ok s → env_ok e → pcs s !! i = Some (Busy c ts base (length ts)) →
  last ts = Some t → be_Ack e c (Seq t) (st s) = (s', r) →
  let s1 := mkSys s'
    (match r with
     | Ok true => <[i := Ready c]> (pcs s)
     | _ => delete i (pcs s)
     end)
    (log s ++ match r with Ok _ => [Acked (cu_Key c) ts] | _ => [] end)
    (toks s) (calls s) in
  sys_ok s1 → once_ok s1.
Proof.
  intros Ho He Hi Hl Hr s1 Hs'. pose proof (on_held _ Ho _ _ Hi) as Hc. cbn [handle] in Hc.
  destruct (ok_pcs _ (on_sys _ Ho) _ _ Hi) as [[Hiss _] (_ & _ & _ & _ & Hb)].
  destruct (s_ack _ _ _ _ _ _ _ _ (ok_inv _ (on_sys _ Ho)) He Hiss Hr) as (_ & Ha).
  cbn [handle] in Ha. rewrite Hc in Ha. destruct Ha as (Hf & _ & ->). destruct (Hb Hc) as [Hbase _].
  assert (∀ j p, j ≠ i → pcs s !! j = Some p → holds s' (handle p) = true) as Hkeep
    by (intros j p Hne Hj; exact (others_keep s i _ _ _ j p Ho Hi eq_refl Hf Hj Hne)).
  assert (∀ k, processed_of (log s ++ [Acked (cu_Key c) ts]) k = processed_of (log s) k) as Hp
    by (intros k; by rewrite processed_of_app, app_nil_r).
  assert (∀ j k, busy (pcs s) j k → j ≠ i → busy (pcs s1) j k) as Hbusy.
  { intros j k (c' & ts' & base' & m & Hj & Hk) Hne. exists c', ts', base', m. split; [|done].
    subst s1. cbn [pcs]. destruct (holds s' c); [rewrite lookup_insert_ne|rewrite lookup_delete_ne]; done. }
  subst s1. split; [done| | | |]; cbn [st pcs log] in *.
  - intros j p Hj. destruct (holds s' c) eqn:Hh.
    + apply lookup_insert_Some in Hj as [[<- <-]|[Hne Hj]]; [done|by eapply Hkeep].
    + apply lookup_delete_Some in Hj as [Hne Hj]. by eapply Hkeep.
  - intros j c' ts' base' m Hj. rewrite Hp. apply (on_busy _ Ho j _ ts').
    destruct (holds s' c); [by apply lookup_insert_Some in Hj as [[? ?]|[? ?]]
      |by apply lookup_delete_Some in Hj as [? ?]].
  - intros k Hk. rewrite Hp, acked_of_app. cbn. rewrite app_nil_r.
    destruct (decide (cu_Key c = k)) as [<-|Hne].
    + rewrite length_app, <- Hbase. apply (on_busy _ Ho _ _ _ _ _ Hi).
    + rewrite app_nil_r. apply (on_idle _ Ho). intros j Hj. apply (Hk j), Hbusy; [done|].
      intros ->. destruct Hj as (c' & ts' & base' & m & Hj & Hk'). congruence.
  - intros k. rewrite Hp, enq_of_app, app_nil_r. apply (on_prefix _ Ho).
Qed.

Lemma once_release s i c e s' r :
  once_ok s → env_ok e → pcs s !! i = Some (Closing c) → be_Release e c (st s) = (s', r) →
  let s1 := mkSys s' (delete i (pcs s)) (log s) (toks s) (calls s) in
  sys_ok s1 → once_ok s1.
Proof.
  intros Ho He Hi Hr s1 Hs'. pose proof (on_held _ Ho _ _ Hi) as Hc. cbn [handle] in Hc.
  destruct (s_release _ _ _ _ _ _ _ (ok_inv _ (on_sys _ Ho)) He
    (proj1 (proj1 (ok_pcs _ (on_sys _ Ho) _ _ Hi))) Hr) as (_ & Ha).
  cbn [handle] in Ha. rewrite Hc in Ha. destruct Ha as (Hf & _).
  apply (once_quiet s); try done; cbn [s1 st pcs log].
  - intros j p [Hne Hj]%lookup_delete_Some. exact (others_keep s i _ _ _ j p Ho Hi eq_refl Hf Hj (not_eq_sym Hne)).
  - intros j c' ts base m. by eapply busy_delete.
Qed.

Lemma once_heartbeat s i p e d s' r :
  once_ok s → env_ok e → pcs s !! i = Some p → be_Heartbeat e (handle p) d (st s) = (s', r) →
  let s1 := mkSys s' (pcs s) (log s) (toks s) (calls s) in
  sys_ok s1 → once_ok s1.
Proof.
  intros Ho He Hi Hr s1 Hs'. destruct (ok_pcs _ (on_sys _ Ho) _ _ Hi) as [[Hiss _] _].
  destruct (s_heartbeat _ _ _ _ _ _ _ _ (ok_inv _ (on_sys _ Ho)) He Hiss Hr) as (_ & [_ Hv] & _).
  apply (once_quiet s); try done. intros j q Hj. cbn [s1 st pcs] in *.
  rewrite Hv; [by eapply on_held|]. apply (ok_pcs _ (on_sys _ Ho) _ _ Hj).
Qed.

Lemma once_calm_step s s' : once_ok s → calm_step s s' → once_ok s'.
Proof.
  intros Ho (a & Ha & Hx & Hcalm).
  assert (sys_ok s') as Hs' by (eapply sys_ok_step; [apply Ho|by eapply exec1_step]).
  destruct a; simpl in *; unfold mbind, option_bind in *; call_in Hx;
    simplify_eq; b2p; subst; destruct_and?.
  - by eapply once_enqueue.
  - by eapply once_claim.
  - by eapply once_drain.
  - by apply once_process.
  - by eapply once_ack.
  - by eapply once_release.
  - by eapply (once_heartbeat s i (Ready _)).
  - by eapply (once_heartbeat s i (Busy _ _ _ _)).
  - by eapply (once_heartbeat s i (Closing _)).
  - rewrite delete_id by done. by destruct s.
  - apply (once_quiet s); try done. intros j q Hj. cbn [pcs] in Hj.
    eapply (calm_reap s e now _ j); [exact Hcalm|done|by eapply on_held].
Qed.

Lemma calmly_ok s0 s :
  inv 0 ∅ s0 → (∀ k, pending s0 k = []) → calmly s0 s → once_ok s.
Proof.
  intros Hi Hp Hr. assert (once_ok (init s0)) as Ho.
  { split; [by apply sys_ok_init|done..]. }
  revert Ho. unfold calmly in Hr. induction Hr as [|a b c Hab _ IH]; [done|].
  intros Ha. apply IH. by eapply once_calm_step.
Qed.

(** ** What it gives *)

Definition works_on (k : WorkUnitKey) (p : pc) : bool :=
  match p with Busy c _ _ _ => bool_decide (cu_Key c = k) | _ => false end.

Lemma acked_le_processed s k :
  once_ok s → length (acked_of (log s) k) ≤ length (processed_of (log s) k).
Proof.
  intros Ho. destruct (decide (map_Exists (λ _ p, works_on k p = true) (pcs s))) as [Hx|Hx].
  - destruct Hx as (i & p & Hi & Hk). destruct p as [|c ts base j|]; try done.
    apply bool_decide_eq_true in Hk as <-. rewrite (on_busy _ Ho _ _ _ _ _ Hi).
    destruct (ok_pcs _ (on_sys _ Ho) _ _ Hi) as [_ (_ & _ & _ & _ & Hb)].
    destruct (Hb (on_held _ Ho _ _ Hi)) as [-> _]. lia.
  - rewrite (on_idle _ Ho); [done|]. intros i (c & ts & base & j & Hi & Hk).
    apply Hx. exists i, (Busy c ts base j). split; [done|]. by apply bool_decide_eq_true.
Qed.

Lemma acked_then_busy s k : once_ok s → acked_of (log s) k `prefix_of` processed_of (log s) k.
Proof.
  intros Ho. assert (acked_of (log s) k `prefix_of` enq_of (log s) k) as Ha.
  { rewrite (ok_fifo _ (on_sys _ Ho)). by apply prefix_app_r. }
  destruct (prefix_weak_total _ _ _ Ha (on_prefix _ Ho k)) as [|Hp]; [done|].
  by rewrite (prefix_length_eq _ _ Hp (acked_le_processed s k Ho)).
Qed.
End once.
