(* ===== verification/SystemProps.v ===== *)
(** SystemProps: what the multi-worker system guarantees, whatever the interleaving of
    producers, workers, crashes and the reaper, over any backend that satisfies the
    [Contract], and what it guarantees over one that is [Strict]; each theorem is applied to
    the in-memory driver. *)
From S2P Require Import Prelude Queue Contract System SystemFacts SystemOnce Memory MemoryFacts.

(** ** A run of the in-memory driver: a worker crashes half-way, another finishes *)

Definition demo_opts : Options := mkOptions 2 (5 * Second) 3.
Definition demo_key : WorkUnitKey := mkKey "ws" "s1" "p1".

Definition demo_acts : list action := [
  DoEnqueue (env_at (1 * Second)) demo_key "a" 1;
  DoEnqueue (env_at (2 * Second)) demo_key "b" 1;
  DoClaim 0 (env_at (2 * Second)) "w0" (3 * Second);
  DoDrain 0 (env_at (2 * Second)) 10;
  DoProcess 0;
  DoHeartbeat 0 (env_at (3 * Second)) (3 * Second);
  DoCrash 0;
  DoReap (env_at (9 * Second)) (9 * Second);
  DoClaim 1 (env_at (9 * Second)) "w1" (3 * Second);
  DoDrain 1 (env_at (9 * Second)) 10;
  DoProcess 1;
  DoProcess 1;
  DoAck 1 (env_at (10 * Second));
  DoEnqueue (env_at (10 * Second)) demo_key "c" 1].

Ltac quiet :=
  repeat (apply Forall_cons_2; [repeat split; by intros l|]); apply Forall_nil_2.

Lemma quiet_actions (s : sys Backend) : Forall (action_ok s) demo_acts.
Proof. unfold demo_acts. quiet. Qed.

(** The system after that run. *)
Definition demo_end : sys Backend := default (init (New demo_opts)) (exec (init (New demo_opts)) demo_acts).

Lemma demo_reachable : reachable (New demo_opts) demo_end.
Proof.
  eapply (exec_reachable _ demo_acts).
  - apply acts_ok_Forall, quiet_actions.
  - apply rtc_refl.
  - vm_compute. done.
Qed.

Lemma demo_start : inv 0 ∅ (New demo_opts) ∧ ∀ k, pending (New demo_opts) k = [].
Proof. split; [by apply wf_New|done]. Qed.

(** ** The guarantees *)

(** C1: No task is lost, invented or reordered.  In every reachable state the
    tasks enqueued to a unit are, in order, those acknowledged so far followed by those
    the backend still has pending. *)
Theorem no_task_lost {S} `{Contract S} (s0 : S) (s : sys S) (k : WorkUnitKey) :
  inv 0 ∅ s0 → (∀ k, pending s0 k = []) → reachable s0 s →
  enq_of (log s) k = acked_of (log s) k ++ pending (st s) k.
Proof. intros Hi Hp Hr. by apply (ok_fifo _ (reachable_ok _ _ Hi Hp Hr)). Qed.

Lemma no_task_lost_witness :
  enq_of (log demo_end) demo_key = [mkTask 0 "a" 1; mkTask 1 "b" 1; mkTask 0 "c" 1] ∧
  acked_of (log demo_end) demo_key = [mkTask 0 "a" 1; mkTask 1 "b" 1] ∧
  enq_of (log demo_end) demo_key =
    acked_of (log demo_end) demo_key ++ pending (st demo_end) demo_key.
Proof.
  split; [vm_compute; reflexivity|]. split; [vm_compute; reflexivity|].
  apply (no_task_lost (New demo_opts)); [apply demo_start..|apply demo_reachable].
Defined.

(** C2: At-least-once processing.  A task is acknowledged, hence deleted, only
    after some worker has processed it: every acknowledged task appears in the log of
    processed tasks, under its own position in its unit's FIFO. *)
Theorem acked_was_processed {S} `{Contract S} (s0 : S) (s : sys S) (k : WorkUnitKey)
    (p : nat) (t : Task) :
  inv 0 ∅ s0 → (∀ k, pending s0 k = []) → reachable s0 s →
  acked_of (log s) k !! p = Some t → Processed k p t ∈ log s.
Proof.
  intros Hi Hp Hr Hk. pose proof (reachable_ok _ _ Hi Hp Hr) as Hs.
  destruct (ok_acked _ Hs k p) as [t' Ht']; [by eapply lookup_lt_Some|].
  replace t with t'; [done|].
  apply list_elem_of_split in Ht' as (l1 & l2 & Heq).
  destruct (ok_order _ Hs _ _ _ _ _ Heq) as [Ht' _].
  pose proof (ok_fifo _ Hs k) as Hf. rewrite Heq, enq_of_app in Hf at 1.
  pose proof (f_equal (.!! p) Hf) as Hlk. cbn beta in Hlk.
  rewrite (lookup_app_l_Some _ _ _ _ Ht'), (lookup_app_l_Some _ _ _ _ Hk) in Hlk. congruence.
Qed.

Lemma acked_was_processed_witness :
  acked_of (log demo_end) demo_key !! 1 = Some (mkTask 1 "b" 1) ∧
  Processed demo_key 1 (mkTask 1 "b" 1) ∈ log demo_end.
Proof.
  split; [vm_compute; reflexivity|].
  apply (acked_was_processed (New demo_opts)); [apply demo_start..|apply demo_reachable|].
  vm_compute. reflexivity.
Defined.

(** C3: Per-unit ordering (I1).  When a worker processes the task at position
    [p] of a unit, it is the task that was enqueued [p]-th, and every earlier task of the
    unit has been processed before; so first-time processing follows enqueue order even
    when leases expire, workers crash and tasks are delivered again. *)
Theorem first_processing_is_fifo {S} `{Contract S} (s0 : S) (s : sys S)
    (l1 l2 : list event) (k : WorkUnitKey) (p : nat) (t : Task) :
  inv 0 ∅ s0 → (∀ k, pending s0 k = []) → reachable s0 s →
  log s = l1 ++ Processed k p t :: l2 →
  enq_of l1 k !! p = Some t ∧ ∀ p', p' < p → ∃ t', Processed k p' t' ∈ l1.
Proof. intros Hi Hp Hr Hl. by apply (ok_order _ (reachable_ok _ _ Hi Hp Hr) _ _ _ _ _ Hl). Qed.

Lemma first_processing_is_fifo_witness :
  enq_of (take 4 (log demo_end)) demo_key !! 1 = Some (mkTask 1 "b" 1) ∧
  ∀ p', p' < 1 → ∃ t', Processed demo_key p' t' ∈ take 4 (log demo_end).
Proof.
  apply (first_processing_is_fifo (New demo_opts) demo_end _ (drop 5 (log demo_end)));
    [apply demo_start..|apply demo_reachable|].
  vm_compute. reflexivity.
Defined.

(** C4: Exclusive claim (I2).  At no time do two workers have handles of one
    unit that the backend would both accept. *)
Theorem exclusive_claim {S} `{Contract S} (s0 : S) (s : sys S) (i j : nat) (p q : pc) :
  inv 0 ∅ s0 → (∀ k, pending s0 k = []) → reachable s0 s →
  pcs s !! i = Some p → pcs s !! j = Some q → cu_Key (handle p) = cu_Key (handle q) →
  holds (st s) (handle p) = true → holds (st s) (handle q) = true → i = j.
Proof.
  intros Hi Hp Hr. by apply exclusive_ok, (reachable_ok s0).
Qed.

(** Two workers in turn on one unit: the first one's lease expires while it works. *)
Definition demo_two_acts : list action := take 6 demo_acts ++ [
  DoReap (env_at (9 * Second)) (9 * Second);
  DoClaim 1 (env_at (9 * Second)) "w1" (3 * Second)].

Lemma quiet_actions_two (s : sys Backend) : Forall (action_ok s) demo_two_acts.
Proof. cbv [demo_two_acts demo_acts app take]. quiet. Qed.

Definition demo_two : sys Backend :=
  default (init (New demo_opts)) (exec (init (New demo_opts)) demo_two_acts).

Lemma demo_two_reachable : reachable (New demo_opts) demo_two.
Proof.
  eapply (exec_reachable _ demo_two_acts).
  - apply acts_ok_Forall, quiet_actions_two.
  - apply rtc_refl.
  - vm_compute. done.
Qed.

Lemma exclusive_claim_witness :
  (handle <$> pcs demo_two !! 0) =
    Some (mkClaimed demo_key "w0" "w0-1" (5 * Second)) ∧
  ∃ p, pcs demo_two !! 1 = Some p ∧ holds (st demo_two) (handle p) = true ∧
    ∀ i q, pcs demo_two !! i = Some q → cu_Key (handle q) = cu_Key (handle p) →
      holds (st demo_two) (handle q) = true → i = 1.
Proof.
  split; [vm_compute; reflexivity|]. eexists. split; [vm_compute; reflexivity|].
  split; [vm_compute; reflexivity|]. intros i q Hq Hk Hh.
  eapply (exclusive_claim (New demo_opts) demo_two i 1 q);
    [apply demo_start..|apply demo_two_reachable|exact Hq| |exact Hk|exact Hh|];
    vm_compute; reflexivity.
Defined.

(** ** Runs in which leases last *)

(** C6: Exactly once.  Over a driver that meets the [Strict] contract, in every run in which
    no worker crashes inside its round and the reaper takes no lease a worker still holds,
    the tasks of a unit are processed in the order they were enqueued, each of them once;
    those acknowledged are the first of those processed, and all of them when no worker is
    at work on the unit. *)
Theorem exactly_once_while_leases_last {S} `{Strict S} (s0 : S) (s : sys S) (k : WorkUnitKey) :
  inv 0 ∅ s0 → (∀ k, pending s0 k = []) → calmly s0 s →
  processed_of (log s) k `prefix_of` enq_of (log s) k ∧
  acked_of (log s) k `prefix_of` processed_of (log s) k ∧
  ((∀ i, ¬ busy (pcs s) i k) → processed_of (log s) k = acked_of (log s) k).
Proof.
  intros Hi Hp Hr. pose proof (calmly_ok s0 s Hi Hp Hr) as Ho.
  split; [apply (on_prefix _ Ho)|]. split; [by apply acked_then_busy|].
  intros Hk. symmetry. apply prefix_length_eq; [by apply acked_then_busy|].
  by rewrite (on_idle _ Ho _ Hk).
Qed.

(** Two workers on one unit, one after the other, with a pass of the reaper between a
    batch's processing and its acknowledgement. *)
Definition demo_calm_acts : list action := [
  DoEnqueue (env_at (1 * Second)) demo_key "a" 1;
  DoEnqueue (env_at (2 * Second)) demo_key "b" 1;
  DoEnqueue (env_at (2 * Second)) demo_key "c" 1;
  DoClaim 0 (env_at (2 * Second)) "w0" (3 * Second);
  DoDrain 0 (env_at (2 * Second)) 2;
  DoProcess 0;
  DoProcess 0;
  DoReap (env_at (3 * Second)) (3 * Second);
  DoAck 0 (env_at (3 * Second));
  DoEnqueue (env_at (4 * Second)) demo_key "d" 1;
  DoClaim 1 (env_at (4 * Second)) "w1" (3 * Second);
  DoDrain 1 (env_at (4 * Second)) 5;
  DoProcess 1].

Lemma quiet_actions_calm (s : sys Backend) : Forall (action_ok s) demo_calm_acts.
Proof. unfold demo_calm_acts. quiet. Qed.

Lemma exactly_once_while_leases_last_witness :
  ∃ s, calmly (New demo_opts) s ∧
    seqs (processed_of (log s) demo_key) = [0; 1; 2]%Z ∧
    seqs (enq_of (log s) demo_key) = [0; 1; 2; 3]%Z ∧
    processed_of (log s) demo_key `prefix_of` enq_of (log s) demo_key.
Proof.
  destruct (exec_calm (init (New demo_opts)) demo_calm_acts) as [s|] eqn:Hx; [|by vm_compute in Hx].
  assert (calmly (New demo_opts) s) as Hs.
  { eapply (exec_calm_calmly _ (init (New demo_opts)) demo_calm_acts);
      [apply acts_ok_Forall, quiet_actions_calm|apply rtc_refl|exact Hx]. }
  exists s. split; [exact Hs|].
  assert (match exec_calm (init (New demo_opts)) demo_calm_acts with
    | Some s => seqs (processed_of (log s) demo_key) = [0; 1; 2]%Z ∧
        seqs (enq_of (log s) demo_key) = [0; 1; 2; 3]%Z
    | None => False end) as Hl by (vm_compute; by split).
  rewrite Hx in Hl. destruct Hl as [H1 H2]. split; [exact H1|]. split; [exact H2|].
  apply (exactly_once_while_leases_last (New demo_opts) s demo_key); [apply demo_start..|exact Hs].
Defined.
