(* ===== verification/WorkerSystem.v ===== *)
(** WorkerSystem: the loop of Worker.v runs in the system of System.v.  Every execution of
    [Worker.Run], whatever the backend answers and wherever it is cut short, is a schedule
    of the steps of one worker of the system, with the same final backend, the same tasks
    processed and the same batches acknowledged; so what System.v proves of all schedules
    holds of the code's loop.  *)
From S2P Require Worker WorkerFacts.
From S2P Require Import Prelude Queue Contract Memory MemoryFacts System SystemFacts SystemProps.

(** ** What is observed of a worker *)

(** the tasks the system's log shows processed, in order *)
Definition hooked (evs : list event) : list (WorkUnitKey * Task) :=
  omap (λ ev, match ev with Processed k _ t => Some (k, t) | _ => None end) evs.

(** the sizes of the batches it shows acknowledged *)
Definition batches (evs : list event) : list Z :=
  omap (λ ev, match ev with Acked _ ts => Some (Z.of_nat (length ts)) | _ => None end) evs.

(** the same in the telemetry of a worker *)
Definition recorded (l : list Worker.event) : list Z :=
  omap (λ ev, match ev with Worker.RecAck n => Some n | _ => None end) l.

Lemma hooked_app l1 l2 : hooked (l1 ++ l2) = hooked l1 ++ hooked l2.
Proof. apply omap_app. Qed.
Lemma batches_app l1 l2 : batches (l1 ++ l2) = batches l1 ++ batches l2.
Proof. apply omap_app. Qed.
Lemma recorded_app l1 l2 : recorded (l1 ++ l2) = recorded l1 ++ recorded l2.
Proof. apply omap_app. Qed.

(** the steps of processing a batch *)
Definition steps_of (K : WorkUnitKey) (base j : nat) (ts : list Task) : list event :=
  imap (λ x t, Processed K (base + (j + x)) t) ts.

Lemma steps_of_cons K base j t ts :
  steps_of K base j (t :: ts) = Processed K (base + j) t :: steps_of K base (Datatypes.S j) ts.
Proof.
  unfold steps_of. cbn [imap]. rewrite Nat.add_0_r. f_equal.
  apply imap_ext. intros x y _. unfold compose. f_equal. lia.
Qed.

Lemma steps_of_hooked K base j ts : hooked (steps_of K base j ts) = (K,.) <$> ts.
Proof.
  revert j. induction ts as [|t ts IH]; intros j; [done|].
  rewrite steps_of_cons. cbn. by rewrite <- (IH (Datatypes.S j)).
Qed.

Lemma steps_of_batches K base j ts : batches (steps_of K base j ts) = [].
Proof.
  revert j. induction ts as [|t ts IH]; intros j; [done|].
  rewrite steps_of_cons. cbn. apply (IH (Datatypes.S j)).
Qed.

(** ** One worker *)

Section sim.
Context {S : Type} `{Contract S}.
Context (cfg : Worker.WorkerConfig) (id : WorkerID) (i : nat).
Context (Hbatch : (0 < Worker.Batch cfg)%Z) (Hid : id ≠ "").

(** the action is one of worker [i] called [id], in an environment of the world [w] *)
Definition own (w : Worker.World) (a : action) : Prop :=
  match a with
  | DoClaim j e x d => j = i ∧ e = Worker.w_env w 0 ∧ x = id ∧ d = Worker.Lease cfg
  | DoDrain j e max => j = i ∧ (∃ n, e = Worker.w_env w n) ∧ max = Worker.Batch cfg
  | DoAck j e | DoRelease j e | DoHeartbeat j e _ => j = i ∧ ∃ n, e = Worker.w_env w n
  | DoProcess j => j = i
  | _ => False
  end.

(** the events agree with the telemetry *)
Definition agrees (evs : list event) (l : list Worker.event) : Prop :=
  (Worker.hasOnProcess cfg = true → Worker.processed l = hooked evs) ∧
  (Worker.hasRecorder cfg = true → recorded l = batches evs).

Lemma agrees_app evs1 evs2 l1 l2 :
  agrees evs1 l1 → agrees evs2 l2 → agrees (evs1 ++ evs2) (l1 ++ l2).
Proof.
  intros [Hp1 Hr1] [Hp2 Hr2]. split; intros Ho.
  - by rewrite WorkerFacts.processed_app, hooked_app, Hp1, Hp2.
  - by rewrite recorded_app, batches_app, Hr1, Hr2.
Qed.

Lemma agrees_nil : agrees [] [].
Proof. done. Qed.

Lemma exec_app (s : sys S) acts1 acts2 s1 s2 :
  exec s acts1 = Some s1 → exec s1 acts2 = Some s2 → exec s (acts1 ++ acts2) = Some s2.
Proof.
  revert s. induction acts1 as [|a acts IH]; intros s Hx Hy; [by injection Hx as ->|].
  cbn in *. unfold mbind, option_bind in *. destruct (exec1 s a); [by apply IH|done].
Qed.

(** a schedule of worker [i]: from [s] to [s'], logging [evs] *)
Definition sched (P : action → Prop) (s s' : sys S) (evs : list event) : Prop :=
  ∃ acts, Forall P acts ∧ exec s acts = Some s' ∧ log s' = log s ++ evs.

Lemma sched_refl P s : sched P s s [].
Proof. exists []. by rewrite app_nil_r. Qed.

Lemma sched_trans P s1 s2 s3 l1 l2 : sched P s1 s2 l1 → sched P s2 s3 l2 → sched P s1 s3 (l1 ++ l2).
Proof.
  intros (a1 & HP1 & He1 & Hl1) (a2 & HP2 & He2 & Hl2). exists (a1 ++ a2).
  split; [by apply Forall_app|]. split; [by eapply exec_app|].
  by rewrite Hl2, Hl1, (assoc_L (++)).
Qed.

Lemma sched_one (P : action → Prop) a s s' evs :
  P a → exec1 s a = Some s' → log s' = log s ++ evs → sched P s s' evs.
Proof.
  intros HP He Hl. exists [a]. split; [by constructor|]. split; [|done].
  cbn. unfold mbind, option_bind. by rewrite He.
Qed.

Lemma sched_weaken (P Q : action → Prop) s s' evs :
  (∀ a, P a → Q a) → sched P s s' evs → sched Q s s' evs.
Proof. intros HPQ (a & HP & ?). exists a. split; [|done]. by eapply Forall_impl. Qed.

Context (w : Worker.World).

(** the heartbeats of a batch *)
Lemma beats_sim m n c (s : sys S) p :
  pcs s !! i = Some p → handle p = c →
  sched (own w) s (mkSys (Worker.beats cfg w m n c (st s)) (pcs s) (log s) (toks s) (calls s)) [].
Proof.
  revert n s. induction m as [|m IH]; intros n s Hp Hc; cbn [Worker.beats].
  { destruct s. apply sched_refl. }
  destruct (be_Heartbeat (Worker.w_env w n) c (Worker.Lease cfg) (st s)) as [s1 r] eqn:Hb.
  change (@nil event) with (@nil event ++ []).
  apply (sched_trans _ _ (mkSys s1 (pcs s) (log s) (toks s) (calls s))).
  - apply (sched_one _ (DoHeartbeat i (Worker.w_env w n) (Worker.Lease cfg))).
    + split; [done|]. by exists n.
    + cbn [exec1]. unfold mbind, option_bind. by rewrite Hp, Hc, Hb.
    + cbn [log]. by rewrite app_nil_r.
  - apply (IH (Datatypes.S n) (mkSys s1 (pcs s) (log s) (toks s) (calls s)) Hp Hc).
Qed.

Lemma heartbeat_sim n c (s : sys S) p n' s' :
  pcs s !! i = Some p → handle p = c → Worker.heartbeat cfg w n c (st s) = (n', s') →
  sched (own w) s (mkSys s' (pcs s) (log s) (toks s) (calls s)) [].
Proof.
  intros Hp Hc. unfold Worker.heartbeat. destruct (_ <=? _)%Z; intros [= _ <-].
  - destruct s. apply sched_refl.
  - by eapply beats_sim.
Qed.

(** the processing of a batch *)
Lemma process_sim c ts base (s : sys S) ts1 ts2 :
  ts = ts1 ++ ts2 → pcs s !! i = Some (Busy c ts base (length ts1)) →
  sched (own w) s
    (mkSys (st s) (<[i := Busy c ts base (length ts)]> (pcs s))
       (log s ++ steps_of (cu_Key c) base (length ts1) ts2) (toks s) (calls s))
    (steps_of (cu_Key c) base (length ts1) ts2).
Proof.
  intros Hts. revert s ts1 Hts. induction ts2 as [|t ts2 IH]; intros s ts1 -> Hp.
  { rewrite app_nil_r in *. unfold steps_of. cbn [imap]. rewrite insert_id, app_nil_r by done.
    destruct s. apply sched_refl. }
  rewrite steps_of_cons.
  pose (s1 := mkSys (st s) (<[i := Busy c (ts1 ++ t :: ts2) base (length ts1 + 1)]> (pcs s))
    (log s ++ [Processed (cu_Key c) (base + length ts1) t]) (toks s) (calls s)).
  apply (sched_trans _ _ s1 _ [_]).
  - apply (sched_one _ (DoProcess i)); [done| |done].
    cbn [exec1]. rewrite Hp. unfold mbind, option_bind.
    by rewrite lookup_app_r, Nat.sub_diag by lia.
  - specialize (IH s1 (ts1 ++ [t])). rewrite length_app in IH. cbn [length] in IH.
    assert (length ts1 + 1 = Datatypes.S (length ts1)) as Hl by lia.
    rewrite <- (assoc_L (++)), Hl in IH. specialize (IH eq_refl).
    cbn [s1 st pcs log toks calls] in IH. rewrite Hl, lookup_insert_eq in IH.
    specialize (IH eq_refl). rewrite insert_insert_eq, <- (assoc_L (++)) in IH.
    exact IH.
Qed.

(** *** A round *)

Lemma recorded_process K ts : recorded (Worker.process cfg K ts) = [].
Proof.
  unfold Worker.process. induction ts as [|t ts IH]; [done|].
  rewrite bind_cons, recorded_app, IH. unfold Worker.process_one.
  by destruct (Worker.hasOnProcess cfg).
Qed.

Lemma process_agrees K base ts : agrees (steps_of K base 0 ts) (Worker.process cfg K ts).
Proof.
  split; intros Ho.
  - by rewrite WorkerFacts.processed_process, Ho, steps_of_hooked.
  - by rewrite recorded_process, steps_of_batches.
Qed.

(** a part of a round: from [s] to [s'], having logged [l] *)
Definition part (s s' : sys S) (l : list Worker.event) : Prop :=
  ∃ evs, sched (own w) s s' evs ∧ agrees evs l.

Lemma part_trans s1 s2 s3 l1 l2 : part s1 s2 l1 → part s2 s3 l2 → part s1 s3 (l1 ++ l2).
Proof.
  intros (e1 & Hs1 & Ha1) (e2 & Hs2 & Ha2). exists (e1 ++ e2).
  split; [by eapply sched_trans|by apply agrees_app].
Qed.

Lemma part_one a s s' evs l :
  own w a → exec1 s a = Some s' → log s' = log s ++ evs → agrees evs l → part s s' l.
Proof. intros Ho Hx Hl Ha. exists evs. split; [by eapply sched_one|done]. Qed.

(** the worker is out of its round *)
Definition out_of (s s' : sys S) : Prop := pcs s' = delete i (pcs s) ∧ calls s' = calls s.

(** a batch: heartbeats, then the tasks *)
Lemma batch_sim n c t ts base (s : sys S) n' s' :
  last ts = Some t → pcs s !! i = Some (Busy c ts base 0) →
  Worker.heartbeat cfg w n c (st s) = (n', s') →
  ∃ s2, part s s2 (Worker.process cfg (cu_Key c) ts) ∧ st s2 = s' ∧
    pcs s2 = <[i := Busy c ts base (length ts)]> (pcs s) ∧ calls s2 = calls s.
Proof.
  intros Ht Hp Hb.
  eexists. split; [|split; [|split]]; [exists ([] ++ steps_of (cu_Key c) base 0 ts); split| | |].
  - eapply sched_trans; [by eapply (heartbeat_sim n c s)|].
    exact (process_sim c ts base (mkSys s' (pcs s) (log s) (toks s) (calls s)) [] ts eq_refl Hp).
  - apply process_agrees.
  - done.
  - done.
  - done.
Qed.

Lemma ack_sim n c ts base t d (s : sys S) s' r :
  last ts = Some t → pcs s !! i = Some (Busy c ts base (length ts)) →
  be_Ack (Worker.w_env w n) c (Seq t) (st s) = (s', r) →
  part s
    (mkSys s' (match r with Ok true => <[i := Ready c]> (pcs s) | _ => delete i (pcs s) end)
       (log s ++ match r with Ok _ => [Acked (cu_Key c) ts] | _ => [] end) (toks s) (calls s))
    (match r with
     | Ok _ => if Worker.hasRecorder cfg
               then [Worker.RecAck (length ts); Worker.RecLoop d] else []
     | _ => [] end).
Proof.
  intros Ht Hp Ha. eapply (part_one (DoAck i (Worker.w_env w n))).
  - split; [done|]. by exists n.
  - cbn [exec1]. unfold mbind, option_bind. by rewrite Hp, Ht, bool_decide_true, Ha.
  - done.
  - destruct r as [held| |]; [|done..]. split; intros Ho; [by case_goal|by rewrite Ho].
Qed.

Lemma release_sim n c (s : sys S) s' r :
  pcs s !! i = Some (Closing c) → be_Release (Worker.w_env w n) c (st s) = (s', r) →
  part s (mkSys s' (delete i (pcs s)) (log s) (toks s) (calls s)) [].
Proof.
  intros Hp Hr. eapply (part_one (DoRelease i (Worker.w_env w n)) _ _ []).
  - split; [done|]. by exists n.
  - cbn [exec1]. by rewrite Hp, Hr.
  - cbn [log]. by rewrite app_nil_r.
  - done.
Qed.

Lemma drain_one n c (s : sys S) s' r :
  pcs s !! i = Some (Ready c) →
  be_Drain (Worker.w_env w n) c (Worker.Batch cfg) (st s) = (s', r) →
  part s (mkSys s'
    (match r with
     | Ok [] => <[i := Closing c]> (pcs s)
     | Ok ts => <[i := Busy c ts (length (acked_of (log s) (cu_Key c))) 0]> (pcs s)
     | _ => delete i (pcs s)
     end) (log s) (toks s) (calls s)) [].
Proof.
  intros Hp Hd. eapply (part_one (DoDrain i (Worker.w_env w n) (Worker.Batch cfg)) _ _ []).
  - split; [done|]. split; [by exists n|done].
  - cbn [exec1]. by rewrite Hp, bool_decide_true, Hd.
  - cbn [log]. by rewrite app_nil_r.
  - done.
Qed.

Lemma round_over (s s2 : sys S) l0 l l1 :
  l = l0 ++ l1 → out_of s s2 → part s s2 l1 →
  ∃ s3 l2, l = l0 ++ l2 ∧ st s3 = st s2 ∧ out_of s s3 ∧ part s s3 l2.
Proof. intros. by exists s2, l1. Qed.

(** The whole round once the unit is claimed. *)
Lemma drain_sim fuel n c (s : sys S) l0 s' l out :
  pcs s !! i = Some (Ready c) →
  Worker.drain_loop cfg w fuel n c (st s) l0 = Some (s', l, out) →
  ∃ s2 l1, l = l0 ++ l1 ∧ st s2 = s' ∧ out_of s s2 ∧ part s s2 l1.
Proof.
  revert n s l0. induction fuel as [|fuel IH]; intros n s l0 Hp; [done|].
  cbn [Worker.drain_loop].
  destruct (be_Drain _ c _ (st s)) as [s1 r1] eqn:Hd.
  pose proof (drain_one n c s s1 r1 Hp Hd) as H1d. set (base := length (acked_of _ _)) in H1d.
  destruct r1 as [ts|err|];
    [|by intros [= <- <- _]; refine (round_over _ _ _ _ _ _ _ H1d); [by rewrite app_nil_r|]..].
  destruct (last ts) as [t|] eqn:Ht.
  - assert (match ts with [] => <[i := Closing c]> (pcs s) | _ :: _ => <[i := Busy c ts base 0]> (pcs s) end
      = <[i := Busy c ts base 0]> (pcs s)) as Hm by (by destruct ts).
    rewrite Hm in H1d. clear Hm.
    destruct (Worker.heartbeat _ _ _ _ _) as [n2 s2] eqn:Hb.
    destruct (batch_sim (n + 1) c t ts base
      (mkSys s1 (<[i := Busy c ts base 0]> (pcs s)) (log s) (toks s) (calls s)) n2 s2 Ht
      (lookup_insert_eq _ _ _) Hb)
      as (y2 & H2 & <- & Hp2 & Hc2). cbn [pcs calls] in Hp2, Hc2.
    destruct (be_Ack _ c _ (st y2)) as [s3 r3] eqn:Ha.
    assert (pcs y2 !! i = Some (Busy c ts base (length ts))) as Hp2i
      by (by rewrite Hp2, lookup_insert_eq).
    pose proof (ack_sim n2 c ts base t (Worker.w_since w n2) y2 s3 r3 Ht Hp2i Ha) as H3.
    pose proof (part_trans _ _ _ _ _ H1d (part_trans _ _ _ _ _ H2 H3)) as H123.
    assert (∀ p, delete i (<[i := p]> (pcs y2)) = delete i (pcs s)) as Hdel
      by (intros p; by rewrite Hp2, !insert_insert_eq, delete_insert_eq).
    assert (delete i (pcs y2) = delete i (pcs s)) as Hdel2
      by (by rewrite Hp2, insert_insert_eq, delete_insert_eq).
    destruct r3 as [held|err|]; [destruct held|..].
    + intros Hx. destruct (IH (n2 + 1) (mkSys s3 (<[i := Ready c]> (pcs y2))
        (log y2 ++ [Acked (cu_Key c) ts]) (toks y2) (calls y2))
        _ (lookup_insert_eq _ _ _) Hx) as (y4 & l4 & -> & <- & [Hp4 Hc4] & H4).
      exists y4. eexists. split; [|split; [done|split]].
      * rewrite <- !(assoc_L (++)). reflexivity.
      * split; [rewrite Hp4; apply Hdel|by rewrite Hc4].
      * rewrite (assoc_L (++)). by apply (part_trans _ _ _ _ _ H123 H4).
    + intros [= <- <- _]. refine (round_over _ _ _ _ _ _ _ H123); [by rewrite <- (assoc_L (++))|done].
    + intros [= <- <- _]. by refine (round_over _ _ _ _ _ _ _ H123); [rewrite !app_nil_r|].
    + intros [= <- <- _]. by refine (round_over _ _ _ _ _ _ _ H123); [rewrite !app_nil_r|].
  - apply last_None in Ht as ->.
    destruct (be_Release _ c s1) as [s2 r2] eqn:Hr.
    pose proof (release_sim (n + 1) c
      (mkSys s1 (<[i := Closing c]> (pcs s)) (log s) (toks s) (calls s)) s2 r2
      (lookup_insert_eq _ _ _) Hr) as H2.
    pose proof (part_trans _ _ _ _ _ H1d H2) as H12. cbn [pcs log toks calls] in H12.
    rewrite delete_insert_eq in H12.
    destruct r2; intros [= <- <- _];
      (refine (round_over _ _ _ _ _ _ _ H12); [by rewrite app_nil_r|done]).
Qed.

Lemma runOnce_sim fuel (s : sys S) s' l out :
  pcs s !! i = None → (calls s < capacity S)%Z →
  Worker.runOnce cfg w id fuel 0 (st s) = Some (s', l, out) →
  ∃ s2, st s2 = s' ∧ pcs s2 = pcs s ∧ calls s2 = (calls s + 1)%Z ∧ part s s2 l.
Proof.
  intros Hp Hc. unfold Worker.runOnce.
  destruct (be_Claim _ id _ (st s)) as [s1 r] eqn:Hcl.
  assert (exec1 s (DoClaim i (Worker.w_env w 0) id (Worker.Lease cfg)) = Some (match r with
    | Ok (Some c) => mkSys s1 (<[i := Ready c]> (pcs s)) (log s) ({[cu_Lease c]} ∪ toks s) (calls s + 1)
    | _ => mkSys s1 (pcs s) (log s) (toks s) (calls s + 1)
    end)) as Hx by (cbn [exec1]; by rewrite !bool_decide_true, Hcl).
  assert (∀ s2 (got : bool), exec1 s (DoClaim i (Worker.w_env w 0) id (Worker.Lease cfg)) = Some s2 →
    log s2 = log s →
    part s s2 [] ∧
    part s s2 (if Worker.hasRecorder cfg then [Worker.RecClaim (Worker.w_since w 0) got] else []))
    as H1p.
  { intros s2 got H1x Hl. split;
      (refine (part_one _ _ _ [] _ _ H1x _ _); [by repeat split|by rewrite app_nil_r|]); [done|].
    split; intros _; by destruct (Worker.hasRecorder cfg). }
  destruct r as [[c|]|err|].
  - intros Hd. destruct (H1p _ true Hx eq_refl) as [_ H1c].
    destruct (drain_sim fuel 1 c (mkSys s1 (<[i := Ready c]> (pcs s)) (log s) ({[cu_Lease c]} ∪ toks s)
      (calls s + 1)) _ s' l out (lookup_insert_eq _ _ _) Hd) as (s2 & l2 & -> & <- & [Hp2 Hc2] & H2).
    exists s2. cbn [pcs calls] in Hp2, Hc2. rewrite delete_insert_eq, delete_id in Hp2 by done.
    split_and!; try done. by apply (part_trans _ _ _ _ _ H1c H2).
  - intros [= <- <- _]. exists (mkSys s1 (pcs s) (log s) (toks s) (calls s + 1)).
    split_and!; [done..|]. by apply (H1p _ false Hx).
  - intros [= <- <- _]. exists (mkSys s1 (pcs s) (log s) (toks s) (calls s + 1)).
    split_and!; [done..|]. by apply (H1p _ false Hx).
  - intros [= <- <- _]. exists (mkSys s1 (pcs s) (log s) (toks s) (calls s + 1)).
    split_and!; [done..|]. by apply (H1p _ false Hx).
Qed.
End sim.

(** ** Run *)

Section run.
Context {S : Type} `{Contract S}.
Context (cfg : Worker.WorkerConfig) (id : WorkerID) (i : nat).
Context (Hbatch : (0 < Worker.Batch cfg)%Z) (Hid : id ≠ "").
Context (ws : nat → Worker.World).

(** the schedule of a run: every action is the worker's, in one of its rounds' worlds *)
Definition ran (s s' : sys S) (l : list Worker.event) : Prop :=
  ∃ evs, sched (λ a, ∃ j, own cfg id i (ws j) a) s s' evs ∧ agrees cfg evs l.

Lemma ran_refl s l : agrees cfg [] l → ran s s l.
Proof. intros Ha. exists []. split; [apply sched_refl|done]. Qed.

Lemma ran_trans s1 s2 s3 l1 l2 : ran s1 s2 l1 → ran s2 s3 l2 → ran s1 s3 (l1 ++ l2).
Proof.
  intros (e1 & Hs1 & Ha1) (e2 & Hs2 & Ha2). exists (e1 ++ e2).
  split; [by eapply sched_trans|by apply agrees_app].
Qed.

Lemma part_ran j s s' l : part cfg id i (ws j) s s' l → ran s s' l.
Proof.
  intros (evs & Hs & Ha). exists evs. split; [|done]. eapply sched_weaken; [|exact Hs]. by exists j.
Qed.

Lemma idle_ran s d : ran s s [Worker.Idle d].
Proof. by apply ran_refl. Qed.

Lemma run_sim (rounds fuel j : nat) idle (s : sys S) l0 s' l out :
  pcs s !! i = None → (calls s + rounds <= capacity S)%Z →
  Worker.Run cfg id ws rounds fuel j idle (st s) l0 = Some (s', l, out) →
  ∃ s2 l1, l = l0 ++ l1 ∧ st s2 = s' ∧ pcs s2 = pcs s ∧
    (calls s2 <= calls s + rounds)%Z ∧ ran s s2 l1.
Proof.
  revert j idle s l0. induction rounds as [|rounds IH]; intros j idle s l0 Hp Hc; [done|].
  cbn [Worker.Run]. destruct (Worker.w_cancelled (ws j) 0).
  { intros [= <- <- _]. exists s, []. rewrite app_nil_r. split_and!; [done..|lia|by apply ran_refl]. }
  assert (calls s < capacity S)%Z as Hcap by lia.
  destruct (Worker.runOnce cfg (ws j) id fuel 0 (st s)) as [[[s1 l1] r]|] eqn:Hr; [|done].
  destruct (runOnce_sim cfg id i Hbatch Hid (ws j) fuel s s1 l1 r Hp Hcap Hr)
    as (y & <- & Hpy & Hcy & Hy%part_ran).
  pose proof (ran_trans _ _ _ _ _ Hy (idle_ran y (Worker.next (Worker.Backoff cfg) idle))) as Hyi.
  assert (∀ j idle l1, ran s y l1 →
    Worker.Run cfg id ws rounds fuel j idle (st y) (l0 ++ l1) = Some (s', l, out) →
    ∃ s2 l2, l = l0 ++ l2 ∧ st s2 = s' ∧ pcs s2 = pcs s ∧
      (calls s2 <= calls s + Datatypes.S rounds)%Z ∧ ran s s2 l2) as Hgo.
  { intros j' idle' l1' Hy1 Hx. rewrite <- Hpy in Hp.
    destruct (IH j' idle' y _ Hp ltac:(lia) Hx) as (s2 & l2 & -> & <- & Hp2 & Hc2 & H2).
    exists s2, (l1' ++ l2). rewrite (assoc_L (++)).
    split_and!; [done|done|by rewrite Hp2|lia|by eapply ran_trans]. }
  destruct r as [[[] [err|]]|];
    [destruct (Worker.w_cancelled (ws j) 1)|by apply Hgo|destruct (Worker.w_cancelled (ws j) 1)..|].
  all: try (by apply Hgo).
  all: intros [= <- <- _]; exists y; eexists; (split; [reflexivity|]); split_and!; [done..|lia|done].
Qed.
End run.

(** C9: The code's loop is one worker of the system (Worker.Run, runOnce, heartbeat), over
    any driver.  Whatever the backend answers and wherever the context is cancelled, if a
    run of the loop returns, or panics, then from any state of the system in which the worker
    is idle there is a schedule of that worker's own steps, in the environments its calls
    saw, that ends with the same backend and the worker idle again; the hook was called with
    the tasks the schedule processes, in order, and the recorder was told of the batches it
    acknowledges.  So what holds of every state the system reaches holds after the run. *)
Theorem worker_runs_in_the_system {S} `{Contract S} (cfg : Worker.WorkerConfig) (id : WorkerID)
    (i : nat) (ws : nat → Worker.World) (rounds fuel : nat) (s : sys S) (s' : S)
    (l : list Worker.event) (out : Worker.outcome error) :
  (0 < Worker.Batch cfg)%Z → id ≠ "" → pcs s !! i = None → (calls s + rounds <= capacity S)%Z →
  Worker.Run cfg id ws rounds fuel 0 0 (st s) [] = Some (s', l, out) →
  ∃ acts s2 evs,
    Forall (λ a, ∃ j, own cfg id i (ws j) a) acts ∧ exec s acts = Some s2 ∧
    st s2 = s' ∧ pcs s2 = pcs s ∧ log s2 = log s ++ evs ∧
    (Worker.hasOnProcess cfg = true → Worker.processed l = hooked evs) ∧
    (Worker.hasRecorder cfg = true → recorded l = batches evs) ∧
    ∀ s0, reachable s0 s → acts_ok s acts → reachable s0 s2.
Proof.
  intros Hb Hid Hp Hc Hr.
  destruct (run_sim cfg id i Hb Hid ws rounds fuel 0 0 s [] s' l out Hp Hc Hr)
    as (s2 & l1 & -> & Hs2 & Hp2 & _ & evs & (acts & Ha & Hx & Hl) & Hh & Hrec).
  exists acts, s2, evs. split_and!; try done. intros s0 Hr0 Hok. by eapply exec_reachable.
Qed.

(** A worker that takes the demo unit, its two tasks in one batch, then finds nothing and is
    cancelled. *)
Definition run_cfg : Worker.WorkerConfig :=
  Worker.mkConfig (3 * Second) 2 (Worker.mkBackoff Millisecond Second)
    (Worker.mkProcess "zero" 0 0) true true.

Definition run_worlds (j : nat) : Worker.World :=
  Worker.mkWorld (λ _, env_at (2 * Second)) (λ _, 0%Z) (λ _, 1) (λ _, bool_decide (2 ≤ j)).

(** the demo's two tasks enqueued, no worker *)
Definition run_start : sys Backend :=
  default (init (New demo_opts)) (exec (init (New demo_opts)) (take 2 demo_acts)).

Lemma worker_runs_in_the_system_witness :
  ∃ acts s2 evs, exec run_start acts = Some s2 ∧ log s2 = log run_start ++ evs ∧
    hooked evs = [(demo_key, mkTask 0 "a" 1); (demo_key, mkTask 1 "b" 1)] ∧
    batches evs = [2]%Z.
Proof.
  assert ((λ r, (Worker.processed r.1.2, recorded r.1.2)) <$>
    Worker.Run run_cfg "w0" run_worlds 4 4 0 0 (st run_start) [] =
    Some ([(demo_key, mkTask 0 "a" 1); (demo_key, mkTask 1 "b" 1)], [2]%Z)) as Hrun
    by (vm_compute; reflexivity).
  destruct (Worker.Run run_cfg "w0" run_worlds 4 4 0 0 (st run_start) []) as [[[s' l] out]|] eqn:Hr;
    [|discriminate Hrun].
  injection Hrun as Hl Hb.
  destruct (worker_runs_in_the_system run_cfg "w0" 0 run_worlds 4 4 run_start s' l out)
    as (acts & s2 & evs & _ & Hx & _ & _ & Hlog & Hh & Hrec & _);
    [done|done|reflexivity|vm_compute; congruence|exact Hr|].
  exists acts, s2, evs. split; [exact Hx|]. split; [exact Hlog|].
  split; [by rewrite <- Hh|by rewrite <- Hrec].
Defined.
