(* ===== verification/Cut.v ===== *)
(** Cut: calls cut short.  A context that is done while a backend call is under way
    (internal/loadgen/chaos.go cancels a worker's mid-flight) leaves the call executed with
    its reply lost, or not executed, or half of a read done.  [Cuttable] states what a driver
    promises of such calls; the system of System.v extended with them ([flaky]) keeps the
    same invariant, and a round of the worker's loop under cut calls is a run of it. *)
From S2P Require Worker WorkerFacts.
From S2P Require Import Prelude Queue Contract Lease System SystemFacts WorkerSystem.

(** ** What a driver promises *)

Section hidden.
Context {S : Type} `{Contract S}.

(** nothing a client could see happened *)
Definition hidden (n : Z) (h : gset LeaseToken) (s s' : S) : Prop :=
  inv n h s' ∧ same_view h s s' ∧ ∀ k, delivered s k ≤ delivered s' k.

(** A call that may have been cut, [x], seen against the same call answered, [y]: it is the
    answered call, or it returns an error and the reply was lost, or nothing happened. *)
Definition cut_of {A} (n : Z) (h : gset LeaseToken) (s : S) (x y : S * res A) : Prop :=
  x = y ∨ ∃ err, x.2 = Err err ∧ (x.1 = y.1 ∨ hidden n h s x.1).

(** the same, when what did not happen left the state as it was *)
Definition cut_at {A} (s : S) (x y : S * res A) : Prop :=
  x = y ∨ ∃ err, x.2 = Err err ∧ (x.1 = y.1 ∨ x.1 = s).

Lemma cut_at_of {A} n h s (x y : S * res A) : inv n h s → cut_at s x y → cut_of n h s x y.
Proof.
  intros Hs [?|(err & Herr & [?|Hx])]; [by left|right..]; exists err; [by auto|].
  split; [done|right]. rewrite Hx. split_and!; [done|apply same_view_refl|done].
Qed.
End hidden.

(** [cut_ok e]: what the driver allows to be cut in this call.  A drain may also return
    less than it was asked for, from the head of the unit and within the reach of an
    acknowledgement. *)
Class Cuttable (S : Type) `{Contract S} := {
  cut_ok : Env → Prop;
  cut_answered e : cut_ok e → env_ok (answered e);
  fresh_answered h e : token_fresh h e → token_fresh h (answered e);

  (** the driver makes the tokens, or its database does *)
  token_source :
    (∀ h e, token_fresh h e) ∨
    (∀ e w d s s' c, be_Claim e w d s = (s', Ok (Some c)) → cu_Lease c = env_uuid e);

  cut_claim n h e w d s :
    inv n h s → (n < capacity S)%Z → cut_ok e → token_fresh h e → w ≠ "" →
    cut_of (n + 1) h s (be_Claim e w d s) (be_Claim (answered e) w d s);

  cut_drain n h e c max s :
    inv n h s → cut_ok e → issued h c → key_ok (cu_Key c) → (0 < max)%Z →
    cut_of n h s (be_Drain e c max s) (be_Drain (answered e) c max s) ∨
    ∃ s' m, be_Drain e c max s = (s', Ok (take m (pending s (cu_Key c)))) ∧
      hidden n h s s' ∧ length (take m (pending s (cu_Key c))) ≤ delivered s' (cu_Key c);

  cut_ack n h e c q s :
    inv n h s → cut_ok e → issued h c → key_ok (cu_Key c) →
    cut_of n h s (be_Ack e c q s) (be_Ack (answered e) c q s);

  cut_release n h e c s :
    inv n h s → cut_ok e → issued h c → key_ok (cu_Key c) →
    cut_of n h s (be_Release e c s) (be_Release (answered e) c s);

  cut_heartbeat n h e c d s :
    inv n h s → cut_ok e → issued h c → key_ok (cu_Key c) →
    cut_of n h s (be_Heartbeat e c d s) (be_Heartbeat (answered e) c d s);
}.

(** ** The system with cut calls *)

Section flaky.
Context {S : Type} `{Cuttable S}.

(** the worker's place after a drain *)
Definition drained_to (s : sys S) (i : nat) (c : ClaimedUnit) (r : res (list Task)) : gmap nat pc :=
  match r with
  | Ok [] => <[i := Closing c]> (pcs s)
  | Ok ts => <[i := Busy c ts (length (acked_of (log s) (cu_Key c))) 0]> (pcs s)
  | _ => delete i (pcs s)
  end.

(** A step of the system, a call that was cut and showed nothing, or a drain that was. *)
Inductive flaky : sys S → sys S → Prop :=
| flaky_step s s' : step s s' → flaky s s'
| flaky_hidden s e x n :
    cut_ok e → (n = calls s ∨ (calls s <= n <= capacity S)%Z) →
    hidden n (toks s) (st s) (do_call e x (st s)) →
    flaky s (mkSys (do_call e x (st s)) (pcs s) (log s) (toks s) n)
| flaky_drain s i c e max s' m :
    cut_ok e → pcs s !! i = Some (Ready c) →
    be_Drain e c max (st s) = (s', Ok (take m (pending (st s) (cu_Key c)))) →
    hidden (calls s) (toks s) (st s) s' →
    length (take m (pending (st s) (cu_Key c))) ≤ delivered s' (cu_Key c) →
    flaky s (mkSys s' (drained_to s i c (Ok (take m (pending (st s) (cu_Key c))))) (log s)
      (toks s) (calls s)).

Lemma flaky_ok s s' : sys_ok s → flaky s s' → sys_ok s'.
Proof.
  intros Hs Hf. destruct Hf as [s s' Hst|s e x n He Hn Hh|s i c e max s' m He Hp Hd Hh Hlen].
  - by eapply sys_ok_step.
  - destruct Hh as (Hi & Hv & Hd).
    apply (sys_ok_same (mkSys (st s) (pcs s) (log s) (toks s) n)); cbn; try done.
    + destruct Hs as [? ? Hpcs ? ? ?]. split; try done.
      destruct Hn as [->|Hn]; [done|by eapply inv_mono].
    + apply Hv.
    + by apply same_view_no_revival.
  - destruct Hh as (Hi & Hv & Hdel).
    exact (sys_ok_handed s i c s' m Hs Hp Hi Hv Hdel Hlen).
Qed.

Lemma flakies_ok s s' : sys_ok s → rtc flaky s s' → sys_ok s'.
Proof. intros Hs. induction 1 as [|x y z Hf _ IH]; [done|]. by apply IH, (flaky_ok x). Qed.

(** what the system guarantees still *)
Lemma flaky_safe s0 s :
  inv 0 ∅ s0 → (∀ k, pending s0 k = []) → rtc flaky (init s0) s →
  (∀ k, enq_of (log s) k = acked_of (log s) k ++ pending (st s) k) ∧
  (∀ k p, p < length (acked_of (log s) k) → was_processed (log s) k p) ∧
  fifo_processing (log s).
Proof.
  intros Hi Hp Hr. assert (sys_ok s) as Hs by (eapply flakies_ok; [by apply sys_ok_init|exact Hr]).
  split_and!; apply Hs.
Qed.

Lemma steps_flaky s s' : rtc step s s' → rtc flaky s s'.
Proof. intros Hr. induction Hr; [done|]. eapply rtc_l; [by apply flaky_step|done]. Qed.

(** ** A worker's cut calls *)

Context (cfg : Worker.WorkerConfig) (id : WorkerID) (i : nat).
Context (Hbatch : (0 < Worker.Batch cfg)%Z) (Hid : id ≠ "").

(** it calls nothing more, in that state of the backend *)
Definition left_at (s : sys S) (s' : S) : sys S :=
  mkSys s' (delete i (pcs s)) (log s) (toks s) (calls s).

Lemma crash_at (s s1 : sys S) s' :
  rtc flaky s s1 → st s1 = s' → delete i (pcs s1) = delete i (pcs s) → log s1 = log s →
  toks s1 = toks s → calls s1 = calls s → rtc flaky s (left_at s s').
Proof.
  intros Hr <- Hp Hl Ht Hc. eapply rtc_r; [exact Hr|]. apply flaky_step.
  unfold left_at. rewrite <- Hp, <- Hl, <- Ht, <- Hc. apply step_crash.
Qed.

(** a call that showed nothing, of a worker that stops there *)
Lemma hidden_crash (s : sys S) e x s' :
  sys_ok s → cut_ok e → do_call e x (st s) = s' → hidden (calls s) (toks s) (st s) s' →
  rtc flaky s (left_at s s').
Proof.
  intros Hs He <- Hh.
  eapply (crash_at _ (mkSys (do_call e x (st s)) (pcs s) (log s) (toks s) (calls s))); try done.
  apply rtc_once, flaky_hidden; auto.
Qed.

(** an answered call of the worker *)
Lemma answered_step (s : sys S) a s' :
  action_ok s a → exec1 s a = Some s' → rtc flaky s s'.
Proof. intros Ha Hx. by apply rtc_once, flaky_step, (exec1_step s a). Qed.

Lemma claim_cut e d (s : sys S) s' r :
  sys_ok s → cut_ok e → token_fresh (toks s) e → (calls s < capacity S)%Z → pcs s !! i = None →
  be_Claim e id d (st s) = (s', r) →
  ∃ s2, rtc flaky s s2 ∧ st s2 = s' ∧ log s2 = log s ∧ calls s2 = (calls s + 1)%Z ∧
    pcs s2 = match r with Ok (Some c) => <[i := Ready c]> (pcs s) | _ => pcs s end ∧
    ((∀ h e, token_fresh h e) ∨ toks s2 ⊆ {[env_uuid e]} ∪ toks s).
Proof.
  intros Hs He Hf Hn Hp Hc.
  pose proof (cut_claim _ _ e id d _ (ok_inv _ Hs) Hn He Hf Hid) as Hcut. rewrite Hc in Hcut.
  destruct (be_Claim (answered e) id d (st s)) as [s1 r1] eqn:Ha.
  pose (y := match r1 with
    | Ok (Some c) => mkSys s1 (<[i := Ready c]> (pcs s)) (log s) ({[cu_Lease c]} ∪ toks s) (calls s + 1)
    | _ => mkSys s1 (pcs s) (log s) (toks s) (calls s + 1) end).
  assert (rtc flaky s y) as Hy.
  { apply (answered_step s (DoClaim i (answered e) id d)).
    - split; [by apply cut_answered|by apply fresh_answered].
    - cbn [exec1]. by rewrite !bool_decide_true, Ha. }
  assert ((∀ h e, token_fresh h e) ∨ toks y ⊆ {[env_uuid e]} ∪ toks s) as Ht.
  { destruct token_source as [?|Htok]; [by left|right]. subst y.
    destruct r1 as [[c|]|err|]; cbn [toks]; [|set_solver..].
    by rewrite (Htok _ _ _ _ _ _ Ha). }
  destruct Hcut as [[= -> ->]|(err & Herr & Hcut)]; cbn [fst snd] in *; [|subst r; destruct Hcut as [->|Hh]].
  - exists y. split_and!; try done; subst y; by destruct r1 as [[c|]|err|].
  - exists (mkSys s1 (pcs s) (log s) (toks y) (calls s + 1)). split_and!; try done.
    destruct r1 as [[c|]|err1|]; try exact Hy. eapply rtc_r; [exact Hy|]. apply flaky_step.
    subst y. cbn [toks]. pose proof (step_crash
      (mkSys s1 (<[i := Ready c]> (pcs s)) (log s) ({[cu_Lease c]} ∪ toks s) (calls s + 1)) i) as Hst.
    cbn [st pcs log toks calls] in Hst. by rewrite delete_insert_eq, delete_id in Hst.
  - exists (mkSys s' (pcs s) (log s) (toks s) (calls s + 1)). split_and!; try done; [|set_solver].
    apply rtc_once. pose proof (flaky_hidden s e (QClaim id d) (calls s + 1) He) as Hst.
    cbn [do_call] in Hst. rewrite Hc in Hst. apply Hst; [right; lia|done].
Qed.

(** the worker's handle *)
Lemma handle_issued (s : sys S) p :
  sys_ok s → pcs s !! i = Some p → issued (toks s) (handle p) ∧ key_ok (cu_Key (handle p)).
Proof. intros Hs Hp. apply (ok_pcs _ Hs _ _ Hp). Qed.

Lemma drain_cut e c (s : sys S) s' r :
  sys_ok s → cut_ok e → pcs s !! i = Some (Ready c) →
  be_Drain e c (Worker.Batch cfg) (st s) = (s', r) →
  rtc flaky s (mkSys s' (drained_to s i c r) (log s) (toks s) (calls s)).
Proof.
  intros Hs He Hp Hd. destruct (handle_issued s _ Hs Hp) as [Hi Hk].
  pose proof (cut_drain _ _ e c _ _ (ok_inv _ Hs) He Hi Hk Hbatch) as Hcut. rewrite Hd in Hcut.
  destruct Hcut as [Hcut|(s1 & m & [= -> ->] & Hh & Hm)].
  2:{ apply rtc_once. by eapply flaky_drain. }
  destruct (be_Drain (answered e) c _ (st s)) as [s1 r1] eqn:Ha.
  assert (rtc flaky s (mkSys s1 (drained_to s i c r1) (log s) (toks s) (calls s))) as Hy.
  { apply (answered_step s (DoDrain i (answered e) (Worker.Batch cfg))); [by apply cut_answered|].
    cbn [exec1]. by rewrite Hp, bool_decide_true, Ha. }
  destruct Hcut as [[= -> ->]|(err & Herr & Hcut)]; cbn [fst snd] in *; [done|subst r; destruct Hcut as [->|Hh]].
  - eapply crash_at; [exact Hy|done| |done..]. cbn [pcs]. unfold drained_to.
    destruct r1 as [[|t ts]| |]; by rewrite ?delete_insert_eq, ?delete_delete_eq.
  - eapply (hidden_crash s e (QDrain c (Worker.Batch cfg))); [done|done|cbn; by rewrite Hd|done].
Qed.

Lemma ack_cut e c ts base t (s : sys S) s' r :
  sys_ok s → cut_ok e → pcs s !! i = Some (Busy c ts base (length ts)) → last ts = Some t →
  be_Ack e c (Seq t) (st s) = (s', r) →
  ∃ evs, hooked evs = [] ∧
    (∀ held, r = Ok held → batches evs = [Z.of_nat (length ts)]) ∧
    rtc flaky s (mkSys s' (match r with Ok true => <[i := Ready c]> (pcs s) | _ => delete i (pcs s) end)
      (log s ++ evs) (toks s) (calls s)).
Proof.
  intros Hs He Hp Ht Hd. destruct (handle_issued s _ Hs Hp) as [Hi Hk].
  pose proof (cut_ack _ _ e c (Seq t) _ (ok_inv _ Hs) He Hi Hk) as Hcut. cbn [handle] in Hcut.
  rewrite Hd in Hcut.
  destruct (be_Ack (answered e) c _ (st s)) as [s1 r1] eqn:Ha.
  assert (rtc flaky s (mkSys s1
    (match r1 with Ok true => <[i := Ready c]> (pcs s) | _ => delete i (pcs s) end)
    (log s ++ match r1 with Ok _ => [Acked (cu_Key c) ts] | _ => [] end) (toks s) (calls s))) as Hy.
  { apply (answered_step s (DoAck i (answered e))); [by apply cut_answered|].
    cbn [exec1]. unfold mbind, option_bind. by rewrite Hp, Ht, bool_decide_true, Ha. }
  destruct Hcut as [[= -> ->]|(err & Herr & Hcut)]; cbn [fst snd] in *; [|subst r; destruct Hcut as [->|Hh]].
  - exists (match r1 with Ok _ => [Acked (cu_Key c) ts] | _ => [] end). split_and!; [by destruct r1| |done].
    by intros held ->.
  - exists (match r1 with Ok _ => [Acked (cu_Key c) ts] | _ => [] end). split_and!; [by destruct r1|done|].
    eapply rtc_r; [exact Hy|]. apply flaky_step.
    pose proof (step_crash (mkSys s1
      (match r1 with Ok true => <[i := Ready c]> (pcs s) | _ => delete i (pcs s) end)
      (log s ++ match r1 with Ok _ => [Acked (cu_Key c) ts] | _ => [] end) (toks s) (calls s)) i) as Hst.
    cbn [st pcs log toks calls] in Hst.
    by destruct r1 as [[|]| |]; rewrite ?delete_insert_eq, ?delete_delete_eq in Hst.
  - exists []. rewrite app_nil_r. split_and!; [done|done|].
    eapply (hidden_crash s e (QAck c (Seq t))); [done|done|cbn; by rewrite Hd|done].
Qed.

Lemma release_cut e c (s : sys S) s' r :
  sys_ok s → cut_ok e → pcs s !! i = Some (Closing c) → be_Release e c (st s) = (s', r) →
  rtc flaky s (left_at s s').
Proof.
  intros Hs He Hp Hd. destruct (handle_issued s _ Hs Hp) as [Hi Hk].
  pose proof (cut_release _ _ e c _ (ok_inv _ Hs) He Hi Hk) as Hcut. cbn [handle] in Hcut.
  rewrite Hd in Hcut.
  destruct (be_Release (answered e) c (st s)) as [s1 r1] eqn:Ha.
  assert (rtc flaky s (left_at s s1)) as Hy.
  { apply (answered_step s (DoRelease i (answered e))); [by apply cut_answered|].
    cbn [exec1]. by rewrite Hp, Ha. }
  destruct Hcut as [[= -> ->]|(err & Herr & Hcut)]; cbn [fst snd] in *; [done|subst r; destruct Hcut as [->|Hh]]; [done|].
  eapply (hidden_crash s e (QRelease c)); [done|done|cbn; by rewrite Hd|done].
Qed.

(** a heartbeat, whose result nobody reads *)
Lemma heartbeat_cut e p d (s : sys S) :
  sys_ok s → cut_ok e → pcs s !! i = Some p →
  rtc flaky s (mkSys (be_Heartbeat e (handle p) d (st s)).1 (pcs s) (log s) (toks s) (calls s)).
Proof.
  intros Hs He Hp. destruct (handle_issued s _ Hs Hp) as [Hi Hk].
  pose proof (cut_heartbeat _ _ e _ d _ (ok_inv _ Hs) He Hi Hk) as Hcut.
  destruct (be_Heartbeat (answered e) (handle p) d (st s)) as [s1 r1] eqn:Ha.
  assert (rtc flaky s (mkSys s1 (pcs s) (log s) (toks s) (calls s))) as Hy.
  { apply (answered_step s (DoHeartbeat i (answered e) d)); [by apply cut_answered|].
    cbn [exec1]. unfold mbind, option_bind. by rewrite Hp, Ha. }
  destruct Hcut as [->|(err & _ & [->|Hh])]; [done..|].
  apply rtc_once, (flaky_hidden s e (QHeartbeat (handle p) d)); auto.
Qed.
End flaky.

(** ** A worker's run under cut calls *)

Section run.
Context {S : Type} `{Cuttable S}.
Context (cfg : Worker.WorkerConfig) (id : WorkerID) (i : nat).
Context (Hbatch : (0 < Worker.Batch cfg)%Z) (Hid : id ≠ "").

(** What the hook saw is what was processed; what the recorder was told of was
    acknowledged, but not the reverse: a reply may be lost. *)
Definition tells (evs : list event) (l : list Worker.event) : Prop :=
  (Worker.hasOnProcess cfg = true → Worker.processed l = hooked evs) ∧
  recorded l `sublist_of` batches evs.

Lemma tells_app evs1 evs2 l1 l2 :
  tells evs1 l1 → tells evs2 l2 → tells (evs1 ++ evs2) (l1 ++ l2).
Proof.
  intros [Hp1 Hr1] [Hp2 Hr2]. split.
  - intros Ho. by rewrite WorkerFacts.processed_app, hooked_app, Hp1, Hp2.
  - rewrite recorded_app, batches_app. by apply sublist_app.
Qed.

Lemma tells_nothing l : Worker.processed l = [] → recorded l = [] → tells [] l.
Proof. intros Hp Hr. split; [done|by rewrite Hr]. Qed.

(** a part of the worker's history *)
Definition went (s s2 : sys S) (l : list Worker.event) : Prop :=
  ∃ evs, rtc flaky s s2 ∧ log s2 = log s ++ evs ∧ tells evs l.

Lemma went_trans s1 s2 s3 l1 l2 : went s1 s2 l1 → went s2 s3 l2 → went s1 s3 (l1 ++ l2).
Proof.
  intros (e1 & Hr1 & Hl1 & Ht1) (e2 & Hr2 & Hl2 & Ht2). exists (e1 ++ e2). split_and!.
  - by etrans.
  - by rewrite Hl2, Hl1, (assoc_L (++)).
  - by apply tells_app.
Qed.

Lemma went_ok s s2 l : sys_ok s → went s s2 l → sys_ok s2.
Proof. intros Hs (evs & Hr & _). by eapply flakies_ok. Qed.

Lemma went_quiet s s2 l :
  rtc flaky s s2 → log s2 = log s → Worker.processed l = [] → recorded l = [] → went s s2 l.
Proof.
  intros Hr Hl Hp Hq. exists []. rewrite app_nil_r. split_and!; [done..|by apply tells_nothing].
Qed.

Context (w : Worker.World) (Hw : ∀ n, cut_ok (Worker.w_env w n)).

Lemma beats_cut m n p (s : sys S) :
  sys_ok s → pcs s !! i = Some p →
  rtc flaky s (mkSys (Worker.beats cfg w m n (handle p) (st s)) (pcs s) (log s) (toks s) (calls s)).
Proof.
  revert n s. induction m as [|m IH]; intros n s Hs Hp; cbn [Worker.beats]; [by destruct s|].
  pose proof (heartbeat_cut i (Worker.w_env w n) p (Worker.Lease cfg) s Hs (Hw n) Hp) as Hr.
  etrans; [exact Hr|].
  exact (IH (Datatypes.S n) (mkSys _ (pcs s) (log s) (toks s) (calls s)) (flakies_ok _ _ Hs Hr) Hp).
Qed.

(** the tasks of a batch from the [j]-th *)
Lemma process_cut c ts base ts1 ts2 (s : sys S) :
  ts = ts1 ++ ts2 → pcs s !! i = Some (Busy c ts base (length ts1)) →
  rtc step s (mkSys (st s) (<[i := Busy c ts base (length ts)]> (pcs s))
    (log s ++ steps_of (cu_Key c) base (length ts1) ts2) (toks s) (calls s)).
Proof.
  intros Hts. revert s ts1 Hts. induction ts2 as [|t ts2 IH]; intros s ts1 -> Hp.
  { rewrite app_nil_r in *. unfold steps_of. cbn [imap]. rewrite insert_id, app_nil_r by done.
    by destruct s. }
  rewrite steps_of_cons. eapply rtc_l; [eapply (step_process s i c _ base (length ts1) t Hp)|].
  { by rewrite lookup_app_r, Nat.sub_diag by lia. }
  set (s1 := mkSys _ _ _ _ _).
  specialize (IH s1 (ts1 ++ [t])). rewrite length_app in IH. cbn [length] in IH.
  rewrite <- (assoc_L (++)) in IH. specialize (IH eq_refl (lookup_insert_eq _ _ _)).
  cbn [s1 st pcs log toks calls] in IH. rewrite insert_insert_eq, <- (assoc_L (++)) in IH.
  rewrite Nat.add_1_r in IH. exact IH.
Qed.

(** a batch: heartbeats, then the tasks *)
Lemma batch_cut n c t ts base (s : sys S) n' s' :
  sys_ok s → last ts = Some t → pcs s !! i = Some (Busy c ts base 0) →
  Worker.heartbeat cfg w n c (st s) = (n', s') →
  went s (mkSys s' (<[i := Busy c ts base (length ts)]> (pcs s))
    (log s ++ steps_of (cu_Key c) base 0 ts) (toks s) (calls s)) (Worker.process cfg (cu_Key c) ts).
Proof.
  intros Hs Ht Hp Hb. exists (steps_of (cu_Key c) base 0 ts). split_and!; [|done|].
  - assert (rtc flaky s (mkSys s' (pcs s) (log s) (toks s) (calls s))) as R1.
    { unfold Worker.heartbeat in Hb. destruct (_ <=? _)%Z; injection Hb as _ <-; [by destruct s|].
      exact (beats_cut _ n _ s Hs Hp). }
    etrans; [exact R1|]. apply steps_flaky.
    exact (process_cut c ts base [] ts (mkSys s' (pcs s) (log s) (toks s) (calls s)) eq_refl Hp).
  - split; [|rewrite recorded_process; apply sublist_nil_l].
    intros Ho. by rewrite WorkerFacts.processed_process, Ho, steps_of_hooked.
Qed.

(** the worker is out of its round, in the backend's state [s'] *)
Definition out_at (s : sys S) (s' : S) (l : list Worker.event) : Prop :=
  ∃ s2, went s s2 l ∧ st s2 = s' ∧ pcs s2 = delete i (pcs s) ∧ toks s2 = toks s ∧ calls s2 = calls s.

Lemma out_at_left (s : sys S) s' : rtc flaky s (left_at i s s') → out_at s s' [].
Proof. intros Hr. exists (left_at i s s'). split_and!; [by apply went_quiet|done..]. Qed.

(** a part of the round, then the rest *)
Lemma out_at_trans (s s1 : sys S) s' l1 l2 :
  went s s1 l1 → delete i (pcs s1) = delete i (pcs s) → toks s1 = toks s → calls s1 = calls s →
  out_at s1 s' l2 → out_at s s' (l1 ++ l2).
Proof.
  intros R1 Hp Ht Hc (s2 & R2 & Hst & Hp2 & Ht2 & Hc2). exists s2.
  split_and!; [by eapply went_trans|done|congruence..].
Qed.

Lemma drained_to_err (s : sys S) c r s' :
  (∀ ts, r ≠ Ok ts) →
  mkSys s' (drained_to s i c r) (log s) (toks s) (calls s) = left_at i s s'.
Proof. intros Hr. unfold left_at, drained_to. by destruct r as [ts| |]; [destruct (Hr ts)|..]. Qed.

(** one turn of the inner loop: a batch drained, processed and acknowledged *)
Lemma turn_cut n c t ts (s : sys S) s1 n2 s2 s3 r :
  sys_ok s → pcs s !! i = Some (Ready c) → last ts = Some t →
  be_Drain (Worker.w_env w n) c (Worker.Batch cfg) (st s) = (s1, Ok ts) →
  Worker.heartbeat cfg w (n + 1) c s1 = (n2, s2) →
  be_Ack (Worker.w_env w n2) c (Seq t) s2 = (s3, r) →
  ∃ y, st y = s3 ∧ toks y = toks s ∧ calls y = calls s ∧
    pcs y = match r with Ok true => <[i := Ready c]> (pcs s) | _ => delete i (pcs s) end ∧
    went s y (Worker.process cfg (cu_Key c) ts ++
      match r with
      | Ok _ => if Worker.hasRecorder cfg
                then [Worker.RecAck (length ts); Worker.RecLoop (Worker.w_since w n2)] else []
      | _ => [] end).
Proof.
  intros Hs Hp Ht Hd Hb Ha. set (base := length (acked_of (log s) (cu_Key c))).
  pose proof (drain_cut cfg i Hbatch _ c s s1 _ Hs (Hw n) Hp Hd) as R1.
  assert (drained_to s i c (Ok ts) = <[i := Busy c ts base 0]> (pcs s)) as Hm by by destruct ts.
  rewrite Hm in R1. clear Hm. set (y1 := mkSys s1 _ _ _ _) in R1.
  pose proof (flakies_ok _ _ Hs R1) as Hs1.
  pose proof (batch_cut (n + 1) c t ts base y1 n2 s2 Hs1 Ht (lookup_insert_eq _ _ _) Hb) as R2.
  set (y2 := mkSys s2 _ _ _ _) in R2. pose proof (went_ok _ _ _ Hs1 R2) as Hs2.
  destruct (ack_cut i (Worker.w_env w n2) c ts base t y2 s3 r Hs2 (Hw n2) (lookup_insert_eq _ _ _) Ht Ha)
    as (evs & Hh & Hbt & R3).
  eexists (mkSys s3 _ (log y2 ++ evs) (toks s) (calls s)). split_and!; [done|done|done|..].
  2:{ eapply (went_trans _ y2); [eapply (went_trans _ y1 _ [] _); [by apply went_quiet|exact R2]|].
      exists evs. split; [exact R3|]. split; [done|]. split.
      - intros _. rewrite Hh. destruct r; [by case_goal|done..].
      - destruct r as [held| |]; [|apply sublist_nil_l..]. rewrite (Hbt held) by done.
        by destruct (Worker.hasRecorder cfg); [|apply sublist_nil_l]. }
  - cbn [pcs y2 y1]. rewrite !insert_insert_eq. by destruct r as [[|]| |]; rewrite ?delete_insert_eq.
Qed.

Lemma drain_loop_cut fuel n c (s : sys S) l0 s' l out :
  sys_ok s → pcs s !! i = Some (Ready c) →
  Worker.drain_loop cfg w fuel n c (st s) l0 = Some (s', l, out) →
  ∃ l1, l = l0 ++ l1 ∧ out_at s s' l1.
Proof.
  revert n s l0. induction fuel as [|fuel IH]; intros n s l0 Hs Hp; [done|].
  cbn [Worker.drain_loop].
  destruct (be_Drain _ c _ (st s)) as [s1 r1] eqn:Hd.
  pose proof (drain_cut cfg i Hbatch _ c s s1 r1 Hs (Hw n) Hp Hd) as R1.
  destruct r1 as [ts|err|].
  2,3: rewrite drained_to_err in R1 by done; intros [= <- <- _]; exists [];
    rewrite app_nil_r; split; [done|by apply out_at_left].
  destruct (last ts) as [t|] eqn:Ht.
  - destruct (Worker.heartbeat _ _ _ _ _) as [n2 s2] eqn:Hb.
    destruct (be_Ack _ c _ s2) as [s3 r3] eqn:Ha.
    destruct (turn_cut n c t ts s s1 n2 s2 s3 r3 Hs Hp Ht Hd Hb Ha) as (y & Hst & Hty & Hcy & Hpy & Hy).
    assert (∀ l1, went s y l1 → r3 ≠ Ok true → out_at s s3 l1) as Hover.
    { intros l1 Hl1 Hne. exists y. split_and!; try done. rewrite Hpy. by destruct r3 as [[|]| |]. }
    destruct r3 as [[|]|err|].
    + rewrite <- Hst. intros Hx.
      destruct (IH (n2 + 1) y _ (went_ok _ _ _ Hs Hy) ltac:(rewrite Hpy; apply lookup_insert_eq) Hx)
        as (l4 & -> & R4).
      eexists. split; [by rewrite <- !(assoc_L (++))|]. rewrite (assoc_L (++)).
      eapply out_at_trans; [exact Hy|by rewrite Hpy, delete_insert_eq|done..].
    + intros [= <- <- _]. eexists. rewrite <- (assoc_L (++)). split; [done|by apply Hover].
    + intros [= <- <- _]. eexists. split; [done|]. rewrite app_nil_r in Hy. by apply Hover.
    + intros [= <- <- _]. eexists. split; [done|]. rewrite app_nil_r in Hy. by apply Hover.
  - apply last_None in Ht as ->.
    destruct (be_Release _ c s1) as [s2 r2] eqn:Hr.
    pose proof (release_cut i _ c _ s2 r2 (flakies_ok _ _ Hs R1) (Hw (n + 1)) (lookup_insert_eq _ _ _) Hr)
      as R2.
    assert (out_at s s2 []) as Ho.
    { apply out_at_left. etrans; [exact R1|]. unfold left_at in *. cbn [pcs log toks calls] in R2.
      cbn [drained_to] in R2. by rewrite delete_insert_eq in R2. }
    destruct r2; intros [= <- <- _]; exists []; by rewrite app_nil_r.
Qed.

Lemma runOnce_cut fuel (s : sys S) s' l out :
  sys_ok s → pcs s !! i = None → (calls s < capacity S)%Z → token_fresh (toks s) (Worker.w_env w 0) →
  Worker.runOnce cfg w id fuel 0 (st s) = Some (s', l, out) →
  ∃ s2, st s2 = s' ∧ pcs s2 = pcs s ∧ calls s2 = (calls s + 1)%Z ∧ went s s2 l ∧
    ((∀ h e, token_fresh h e) ∨ toks s2 ⊆ {[env_uuid (Worker.w_env w 0)]} ∪ toks s).
Proof.
  intros Hs Hp Hc Hf. unfold Worker.runOnce.
  destruct (be_Claim _ id _ (st s)) as [s1 r] eqn:Hcl.
  destruct (claim_cut cfg id i Hbatch Hid _ _ s s1 r Hs (Hw 0) Hf Hc Hp Hcl) as (y & Hy & <- & Hl & Hcy & Hpy & Ht).
  assert (∀ got : bool, went s y
    (if Worker.hasRecorder cfg then [Worker.RecClaim (Worker.w_since w 0) got] else [])) as R1
    by (intros got; apply went_quiet; [done|done|by case_goal..]).
  destruct r as [[c|]|err|].
  - intros Hd. destruct (drain_loop_cut fuel 1 c y _ s' l out (flakies_ok _ _ Hs Hy)
      ltac:(rewrite Hpy; apply lookup_insert_eq) Hd) as (l2 & -> & s2 & R2 & <- & Hp2 & Ht2 & Hc2).
    exists s2. rewrite Hp2, Hpy, delete_insert_eq, delete_id, Hc2, Ht2 by done.
    split_and!; try done. by eapply went_trans.
  - intros [= <- <- _]. by exists y.
  - intros [= <- <- _]. by exists y.
  - intros [= <- <- _]. exists y. split_and!; try done. by apply went_quiet.
Qed.
End run.
