(* ===== verification/MemoryCut.v ===== *)
(** MemoryCut: the in-memory driver does not look at its context, so none of its calls is
    ever cut (internal/memory/backend.go). *)
From S2P Require Import Prelude Queue Contract Cut Memory MemoryFacts.

(** a call reads the clock and a map's order, never the network *)
#[export] Instance Memory_Cuttable : Cuttable Backend.
Proof.
  refine {| cut_ok := order_ok |}; try done; intros.
  - by left.
  - by left.
  - by left; left.
  - by left.
  - by left.
  - by left.
Defined.
