(* ===== verification/Conformance.v ===== *)
(** Conformance: the contract test of tests/conformance/conformance.go, one definition per
    scenario, over any [Backend].  A scenario is a program in a small monad that threads
    the backend, counts the calls (each reads its own environment) and stops at the first
    [t.Fatal]; running a driver through the suite is evaluating it. *)
From S2P Require Import Prelude Queue.

(** ** The test monad *)

(** What a scenario asks the factory to build. *)
Record Config := mkConf {
  Threshold : Z;
  MaxWait : duration;
  cf_MaxAttempts : Z;
}.

(** [t.Fatal]: the message; a panic fails the test too. *)
Inductive verdict (A : Type) :=
  | Pass (a : A)
  | Fatal (msg : string).
Arguments Pass {A} _.
Arguments Fatal {A} _.

Section suite.
Context {S : Type} `{Queue.Backend S} (newBackend : Config → S) (w : nat → Env).

(** The number of calls made so far and the backend. *)
Definition test (A : Type) : Type := nat * S → verdict (A * (nat * S)).

Instance test_ret : MRet test := λ A a st, Pass (a, st).
Instance test_bind : MBind test := λ A B f m st,
  match m st with
  | Pass (a, st') => f a st'
  | Fatal msg => Fatal msg
  end.

(** a call of the backend: its result *)
Definition call {A} (f : Env → S → S * res A) : test (res A) :=
  λ '(i, s), let '(s', r) := f (w i) s in Pass (r, (Datatypes.S i, s')).

Definition fatal {A} (msg : string) : test A := λ _, Fatal msg.

(** [ok(t, err, what)], with the value *)
Definition ok {A} (what : string) (r : res A) : test A :=
  match r with Ok a => mret a | _ => fatal what end.

Definition require (b : bool) (msg : string) : test () := if b then mret tt else fatal msg.

(** [c, _ := be.Claim(...)]: an error is dropped, leaving a nil unit *)
Definition ignored {A} (r : res (option A)) : option A :=
  match r with Ok o => o | _ => None end.

(** [time.Now()], read by the test itself *)
Definition now : test time := λ '(i, s), Pass (env_now (w i) 0, (i, s)).

(** [ReapExpired] returns its counts with the error *)
Definition reap (t : time) : test (Z * Z) :=
  λ '(i, s), match be_ReapExpired (w i) t s with
  | (s', (r, f, None)) => Pass ((r, f), (Datatypes.S i, s'))
  | (_, (_, _, Some _)) => Fatal "reap"
  end.

Definition build (c : Config) : test () := λ '(i, _), Pass (tt, (i, newBackend c)).

Definition tkey : WorkUnitKey := mkKey "ws" "s" "p".
Definition Minute : duration := 60 * Second.

Fixpoint enqueueN (n : nat) (cost : Z) : test () :=
  match n with
  | O => mret tt
  | Datatypes.S n =>
      r ← call (λ e, be_Enqueue e tkey "x" cost); ok "enqueue" r;; enqueueN n cost
  end.

Definition claim (w : WorkerID) (d : duration) : test (option ClaimedUnit) :=
  r ← call (λ e, be_Claim e w d); ok "claim" r.

Definition claimed (w : WorkerID) (d : duration) (msg : string) : test ClaimedUnit :=
  c ← claim w d; match c with Some c => mret c | None => fatal msg end.

Definition claim_ignored (w : WorkerID) (d : duration) : test (option ClaimedUnit) :=
  r ← call (λ e, be_Claim e w d); mret (ignored r).

Definition drain (c : ClaimedUnit) (max : Z) : test (list Task) :=
  r ← call (λ e, be_Drain e c max); ok "drain" r.

Definition ack (c : ClaimedUnit) (q : Z) : test bool :=
  r ← call (λ e, be_Ack e c q); ok "ack" r.

(** [tasks[i].Seq]: an index out of range panics *)
Definition seq_at (ts : list Task) (i : nat) : test Z :=
  match ts !! i with Some t => mret (Seq t) | None => fatal "index out of range" end.

Definition is_nil {A} (o : option A) : bool := match o with None => true | _ => false end.
Definition in_order (qs : list Z) : bool := bool_decide (qs = Z.of_nat <$> seq 0 (length qs)).

(** ** The scenarios *)

Definition happyPath : test () :=
  build (mkConf 100 Hour 3);;
  enqueueN 5 30;;
  c ← claimed "w" Minute "expected a claim, got nil";
  tasks ← drain c 10;
  require (bool_decide (length tasks = 5)) "drained, want 5";;
  require (in_order (seqs tasks)) "order";;
  q ← seq_at tasks 4;
  held ← ack c q;
  require (negb held) "expected released after full drain";;
  c2 ← claim_ignored "w" Minute;
  require (is_nil c2) "claimed a drained unit".

Definition gateBelowThreshold : test () :=
  build (mkConf 100 Hour 3);;
  enqueueN 1 40;;
  c ← claim_ignored "w" Minute;
  require (is_nil c) "claimed a sub-threshold unit";;
  t ← now;
  rf ← reap (t + 2 * Hour)%Z;
  require (rf.2 =? 1)%Z "flushed, want 1";;
  c ← claim_ignored "w" Minute;
  require (negb (is_nil c)) "unit not claimable after flush".

(** the drain/ack cycles of [inOrderAcrossBatches]; each round acknowledges a task, so
    fuel past the number of tasks is enough *)
Fixpoint cycles (fuel : nat) (c : ClaimedUnit) (got : list Z) : test (list Z) :=
  match fuel with
  | O => fatal "out of fuel"
  | Datatypes.S fuel =>
      tasks ← drain c 3;
      match last tasks with
      | None => r ← call (λ e, be_Release e c); ok "release" r;; mret got
      | Some t =>
          held ← ack c (Seq t);
          if held : bool then cycles fuel c (got ++ seqs tasks)
          else mret (got ++ seqs tasks)
      end
  end.

Definition inOrderAcrossBatches : test () :=
  build (mkConf 1 Hour 3);;
  enqueueN 10 1;;
  c ← claimed "w" Minute "expected a claim";
  got ← cycles 11 c [];
  require (bool_decide (length got = 10)) "processed, want n (no double-processing)";;
  require (in_order got) "out of order".

Definition keepThenRebuffer : test () :=
  build (mkConf 100 Hour 3);;
  enqueueN 5 30;;
  c ← claimed "w" Minute "nil unit";
  tasks ← drain c 3;
  q ← seq_at tasks 2;
  held ← ack c q;
  require (negb held) "expected release: remainder (60) below T and not aged";;
  c2 ← claim_ignored "w" Minute;
  require (is_nil c2) "re-buffered unit should not be claimable";;
  enqueueN 2 30;;
  c3 ← claim_ignored "w" Minute;
  require (negb (is_nil c3)) "unit should be claimable after crossing T again".

Definition flushIsPerHead : test () :=
  build (mkConf 1000 (10 * Second) 3);;
  enqueueN 2 1;;
  t ← now;
  rf ← reap (t + 11 * Second)%Z;
  require (rf.2 =? 1)%Z "flushed, want 1";;
  c ← claimed "w" Minute "flushed unit should be claimable";
  tasks ← drain c 1;
  require (bool_decide (seqs tasks = [0%Z])) "expected head seq 0";;
  q ← seq_at tasks 0;
  held ← ack c q;
  require (negb held) "per-head: tail must re-buffer, not stay held";;
  c2 ← claim_ignored "w" Minute;
  require (is_nil c2) "per-head: tail must not be claimable".

Definition leaseReclaimRedelivers : test () :=
  build (mkConf 1 Hour 3);;
  enqueueN 3 1;;
  c ← claimed "w" Second "nil unit";
  tasks ← drain c 3;
  q ← seq_at tasks 0;
  ack c q;;
  t ← now;
  rf ← reap (t + 2 * Second)%Z;
  require (rf.1 =? 1)%Z "reclaimed, want 1";;
  c2 ← claimed "w2" Minute "reclaimed unit should be claimable";
  tasks2 ← drain c2 3;
  q1 ← seq_at tasks2 0;
  require (bool_decide (length tasks2 = 2) && (q1 =? 1)%Z) "expected redelivery from seq 1".

Definition fail_task (c : ClaimedUnit) (q : Z) : test () :=
  r ← call (λ e, be_Fail e c q "boom"); ok "fail" r.

Fixpoint repeatM (n : nat) (m : test ()) : test () :=
  match n with O => mret tt | Datatypes.S n => m;; repeatM n m end.

Definition poisonToDLQ : test () :=
  build (mkConf 1 Hour 2);;
  enqueueN 2 1;;
  repeatM 2 (c ← claimed "w" Minute "expected a claim";
             tasks ← drain c 10;
             q ← seq_at tasks 0;
             require (q =? 0)%Z "head should be seq 0";;
             fail_task c 0);;
  c ← claimed "w" Minute "unit should be claimable after poison head DLQ'd";
  tasks ← drain c 10;
  require (bool_decide (seqs tasks = [1%Z])) "expected only seq 1 to remain".

Definition failNonHeadDoesNotDLQ : test () :=
  build (mkConf 1 Hour 2);;
  enqueueN 2 1;;
  repeatM 3 (c ← claimed "w" Minute "expected a claim"; fail_task c 1);;
  c ← claimed "w" Minute "nil unit";
  tasks ← drain c 10;
  require (bool_decide (seqs tasks = [0%Z; 1%Z])) "non-head fail must not DLQ".

(** [Run]: every scenario, by name *)
Definition Run (s0 : S) : list (string * bool) :=
  (λ '(name, t), (name, match (t : test ()) (0, s0) with Pass _ => true | Fatal _ => false end)) <$>
  [("HappyPath_GateClaimDrainAck", happyPath);
   ("GateBelowThreshold", gateBelowThreshold);
   ("InOrderAcrossBatches", inOrderAcrossBatches);
   ("KeepThenRebuffer", keepThenRebuffer);
   ("FlushIsPerHead", flushIsPerHead);
   ("LeaseReclaimRedelivers", leaseReclaimRedelivers);
   ("PoisonToDLQ", poisonToDLQ);
   ("FailNonHeadDoesNotDLQ", failNonHeadDoesNotDLQ)].
End suite.
