(* ===== verification/Ordering.v ===== *)
(** Ordering: the crash proof of tests/proofs (ordering_test.go, proofs_test.go) as a
    program over any backend, in the test monad of Conformance.v, for any number of tasks
    and any crash point; and [Solo], what a driver does when a single unit is worked on by
    one worker at a time.  A driver that is [Solo] passes the crash proof at every size,
    whatever the clock. *)
From S2P Require Import Prelude Queue Conformance.

#[local] Existing Instances test_ret test_bind.

(** ** The test *)

Section crash.
Context {S : Type} `{Queue.Backend S} (newBackend : Config → S) (w : nat → Env).

(** [claimRetry]: poll until a unit comes back *)
Fixpoint claimRetry (tries : nat) (worker : WorkerID) (lease : duration) : test ClaimedUnit :=
  match tries with
  | O => fatal "no unit claimable after retries"
  | Datatypes.S tries =>
      c ← claim w worker lease;
      match c with Some c => mret c | None => claimRetry tries worker lease end
  end.

(** the enqueue loop: the payload of task [i] is [[]byte{byte(i)}] *)
Fixpoint enqueueFrom (i m : nat) : test () :=
  match m with
  | O => mret tt
  | Datatypes.S m =>
      r ← call w (λ e, be_Enqueue e tkey (String (ascii_of_nat i) "") 1);
      ok "enqueue" r;; enqueueFrom (Datatypes.S i) m
  end.

(** worker B: drain and acknowledge until nothing is left or the unit is not held *)
Fixpoint drainAll (fuel : nat) (c : ClaimedUnit) (n : Z) (log : list Z) : test (list Z) :=
  match fuel with
  | O => fatal "out of fuel"
  | Datatypes.S fuel =>
      batch ← drain w c n;
      match last batch with
      | None => mret log
      | Some t =>
          held ← ack w c (Seq t);
          if held : bool then drainAll fuel c n (log ++ seqs batch)
          else mret (log ++ seqs batch)
      end
  end.

(** [n] tasks; worker A processes and acknowledges the first [k], then crashes; the reaper
    takes its lease back; worker B goes on.  The log of the tasks' numbers. *)
Definition crashLog (n k : nat) : test (list Z) :=
  build newBackend (mkConf 1 Hour 3);;
  enqueueFrom 0 n;;
  ca ← claimRetry 100 "A" Second;
  batch ← drain w ca n;
  require (bool_decide (k ≤ length batch)) "slice bounds out of range";;
  ack w ca (k - 1);;
  t ← now w;
  rf ← reap w (t + 2 * Second)%Z;
  require (rf.1 =? 1)%Z "reclaimed, want 1 (the crashed worker's lease)";;
  cb ← claimRetry 100 "B" Minute;
  drainAll (Datatypes.S n) cb n (seqs (take k batch)).

(** the test's verdict on that log; the source has [n = 10] and [k = 3] *)
Definition orderingUnderCrash (n k : nat) : test () :=
  log ← crashLog n k;
  require (bool_decide (length log = n)) "processed, want n (no dup, no loss)";;
  require (in_order log) "out of order".

Definition TestOrderingUnderCrash : test () := orderingUnderCrash 10 3.
End crash.

(** ** One unit, one worker at a time *)

(** A lease: its handle, how long it lasts and until when, and how many tasks at the head
    of the unit were handed out under it, at least. *)
Record lease_on := mkLeaseOn {
  lo_handle : ClaimedUnit;
  lo_dur : duration;
  lo_till : time;
  lo_seen : nat;
}.

Definition saw (n : nat) (l : lease_on) : lease_on :=
  mkLeaseOn (lo_handle l) (lo_dur l) (lo_till l) n.

(** Lease durations that every driver keeps exactly: whole milliseconds, up to an hour. *)
Definition whole (d : duration) : Prop := (0 < d <= Hour)%Z ∧ (Millisecond | d)%Z.

(** what tasks of cost one cost together *)
Lemma unit_costs ts : Forall (λ t, Cost t = 1%Z) ts → total_cost ts = length ts.
Proof.
  induction 1 as [|t ts Ht _ IH]; [done|]. rewrite total_cost_cons, Ht, IH, length_cons. lia.
Qed.

(** more tasks than a test has *)
Definition many : Z := 2 ^ 31 - 1.

(** [solo s ts q o]: the queue [s], whose gate opens at any task, holds the tasks [ts] of
    the test's unit and nothing else, the next one is numbered [q], and [o] is the lease on
    it, if any.  The laws say what a driver then does, in a [good] environment. *)
Class Solo (S : Type) `{Queue.Backend S} := {
  solo : S → list Task → Z → option lease_on → Prop;
  good : Env → Prop;

  solo_enqueue e p s ts q :
    good e → (0 ≤ q < many)%Z → solo s ts q None →
    ∃ s', be_Enqueue e tkey p 1 s = (s', Ok q) ∧ solo s' (ts ++ [mkTask q p 1]) (q + 1) None;

  solo_claim e w d s ts q :
    good e → whole d → w ≠ "" → ts ≠ [] → solo s ts q None →
    ∃ s' c i, be_Claim e w d s = (s', Ok (Some c)) ∧
      solo s' ts q (Some (mkLeaseOn c d (env_now e i + d) 0));

  solo_drain e max s ts q l :
    good e → (0 < max)%Z → solo s ts q (Some l) →
    ∃ s', be_Drain e (lo_handle l) max s = (s', Ok (take (Z.to_nat max) ts)) ∧
      solo s' ts q (Some (saw (Nat.min (Z.to_nat max) (length ts)) l));

  solo_ack e i s ts q c d x n :
    good e → length (take_while (through i) ts) ≤ n → solo s ts q (Some (mkLeaseOn c d x n)) →
    ∃ s', match drop_while (through i) ts with
          | [] => be_Ack e c i s = (s', Ok false)
          | rest => be_Ack e c i s = (s', Ok true) ∧
              ∃ j, solo s' rest q (Some (mkLeaseOn c d (env_now e j + d) 0))
          end;

  solo_reap e t s ts q l :
    good e → ts ≠ [] → (lo_till l < t)%Z → solo s ts q (Some l) →
    ∃ s', be_ReapExpired e t s = (s', (1, 0, None)%Z) ∧ solo s' ts q None;
}.

Section solo.
Context {S : Type} `{Solo S} (newBackend : Config → S) (w : nat → Env).
Hypothesis Hgood : ∀ i, good (w i).

Lemma bind_pass {A B} (m : test (S := S) A) (f : A → test (S := S) B) st a st' :
  m st = Pass (a, st') → (m ≫= f) st = f a st'.
Proof. intros Hm. unfold mbind, test_bind. by rewrite Hm. Qed.

Lemma call_pass {A} (f : Env → S → S * res A) i s s' r :
  f (w i) s = (s', r) → call w f (i, s) = Pass (r, (Datatypes.S i, s')).
Proof. intros Hf. unfold call. by rewrite Hf. Qed.

(** the tasks an enqueue loop makes, task [j] with payload [p j] *)
Definition tasks_from (p : nat → bytes) (i m : nat) : list Task :=
  (λ j : nat, mkTask j (p j) 1) <$> seq i m.

(** [[]byte{byte(j)}] *)
Definition byte_at (j : nat) : bytes := String (ascii_of_nat j) "".

Abbreviation bytes_from := (tasks_from byte_at).

Lemma enqueueN_pass (m i j : nat) s ts :
  (i + m ≤ many)%Z → solo s ts i None →
  ∃ s', enqueueN w m 1 (j, s) = Pass (tt, (j + m, s')) ∧
    solo s' (ts ++ tasks_from (λ _, "x") i m) (i + m) None.
Proof.
  revert i j s ts. induction m as [|m IH]; intros i j s ts Hm Hs.
  { exists s. by rewrite Nat.add_0_r, Z.add_0_r, app_nil_r. }
  destruct (solo_enqueue (w j) "x" s ts i (Hgood j) ltac:(lia) Hs) as (s1 & He & Hs1).
  destruct (IH (Datatypes.S i) (Datatypes.S j) s1 (ts ++ [mkTask i "x" 1]))
    as (s' & Hr & Hs'); [lia|by replace (Z.of_nat (Datatypes.S i)) with (i + 1)%Z by lia|].
  exists s'. split.
  - cbn [enqueueN]. rewrite (bind_pass _ _ _ _ _ (call_pass _ _ _ _ _ He)).
    cbn [ok]. rewrite (bind_pass _ _ _ (Z.of_nat i) (Datatypes.S j, s1)) by done.
    rewrite Hr. by replace (Datatypes.S j + m) with (j + Datatypes.S m) by lia.
  - rewrite <- (assoc_L (++)) in Hs'.
    by replace (Z.of_nat i + Datatypes.S m)%Z with (Datatypes.S i + m)%Z by lia.
Qed.

Lemma enqueueFrom_pass (m i j : nat) s ts :
  (i + m ≤ many)%Z → solo s ts i None →
  ∃ s', enqueueFrom w i m (j, s) = Pass (tt, (j + m, s')) ∧
    solo s' (ts ++ bytes_from i m) (i + m) None.
Proof.
  revert i j s ts. induction m as [|m IH]; intros i j s ts Hm Hs.
  { exists s. by rewrite Nat.add_0_r, Z.add_0_r, app_nil_r. }
  destruct (solo_enqueue (w j) (String (ascii_of_nat i) "") s ts i (Hgood j) ltac:(lia) Hs)
    as (s1 & He & Hs1).
  destruct (IH (Datatypes.S i) (Datatypes.S j) s1 (ts ++ [mkTask i (String (ascii_of_nat i) "") 1]))
    as (s' & Hr & Hs'); [lia|by replace (Z.of_nat (Datatypes.S i)) with (i + 1)%Z by lia|].
  exists s'. split.
  - cbn [enqueueFrom]. rewrite (bind_pass _ _ _ _ _ (call_pass _ _ _ _ _ He)).
    cbn [ok]. rewrite (bind_pass _ _ _ (Z.of_nat i) (Datatypes.S j, s1)) by done.
    rewrite Hr. by replace (Datatypes.S j + m) with (j + Datatypes.S m) by lia.
  - rewrite <- (assoc_L (++)) in Hs'.
    by replace (Z.of_nat i + Datatypes.S m)%Z with (Datatypes.S i + m)%Z by lia.
Qed.

Lemma claim_pass worker d j s ts q :
  whole d → worker ≠ "" → ts ≠ [] → solo s ts q None →
  ∃ s' c i, claim w worker d (j, s) = Pass (Some c, (Datatypes.S j, s')) ∧
    solo s' ts q (Some (mkLeaseOn c d (env_now (w j) i + d) 0)).
Proof.
  intros Hd Hw Hts Hs.
  destruct (solo_claim (w j) worker d s ts q (Hgood j) Hd Hw Hts Hs) as (s' & c & i & Hc & Hs').
  exists s', c, i. split; [|done]. unfold claim.
  by rewrite (bind_pass _ _ _ _ _ (call_pass _ _ _ _ _ Hc)).
Qed.

Lemma claimRetry_pass tries worker d j s ts q :
  whole d → worker ≠ "" → ts ≠ [] → solo s ts q None →
  ∃ s' c i, claimRetry w (Datatypes.S tries) worker d (j, s) = Pass (c, (Datatypes.S j, s')) ∧
    solo s' ts q (Some (mkLeaseOn c d (env_now (w j) i + d) 0)).
Proof.
  intros Hd Hw Hts Hs. destruct (claim_pass worker d j s ts q Hd Hw Hts Hs) as (s' & c & i & Hc & Hs').
  exists s', c, i. split; [|done]. cbn [claimRetry]. by rewrite (bind_pass _ _ _ _ _ Hc).
Qed.

Lemma claimed_pass msg worker d j s ts q :
  whole d → worker ≠ "" → ts ≠ [] → solo s ts q None →
  ∃ s' c i, claimed w worker d msg (j, s) = Pass (c, (Datatypes.S j, s')) ∧
    solo s' ts q (Some (mkLeaseOn c d (env_now (w j) i + d) 0)).
Proof.
  intros Hd Hw Hts Hs. destruct (claim_pass worker d j s ts q Hd Hw Hts Hs) as (s' & c & i & Hc & Hs').
  exists s', c, i. split; [|done]. unfold claimed. by rewrite (bind_pass _ _ _ _ _ Hc).
Qed.

Lemma drain_pass max j s ts q l :
  (0 < max)%Z → solo s ts q (Some l) →
  ∃ s', drain w (lo_handle l) max (j, s) = Pass (take (Z.to_nat max) ts, (Datatypes.S j, s')) ∧
    solo s' ts q (Some (saw (Nat.min (Z.to_nat max) (length ts)) l)).
Proof.
  intros Hm Hs. destruct (solo_drain (w j) max s ts q l (Hgood j) Hm Hs) as (s' & Hd & Hs').
  exists s'. split; [|done]. unfold drain. by rewrite (bind_pass _ _ _ _ _ (call_pass _ _ _ _ _ Hd)).
Qed.

(** Worker B finishes: one batch, since it asks for more than is left. *)
Lemma drainAll_pass fuel n j s b ts q c d x m log :
  ts ≠ [] → (length ts ≤ n)%Z → consecutive b ts → solo s ts q (Some (mkLeaseOn c d x m)) →
  ∃ st, drainAll w (Datatypes.S fuel) c n log (j, s) = Pass (log ++ seqs ts, st).
Proof.
  intros Hts Hn Hb Hs. cbn [drainAll].
  assert (0 < length ts) as Hl by (destruct ts; [done|simpl; lia]).
  destruct (drain_pass n j s ts q _ ltac:(lia) Hs) as (s1 & Hd & Hs1).
  cbn [lo_handle lo_dur lo_till saw] in Hd, Hs1. rewrite Nat.min_r in Hs1 by lia.
  rewrite (bind_pass _ _ _ _ _ Hd), take_ge by lia. clear Hd.
  destruct ts as [|t0 ts0] using rev_ind; [done|]. clear IHts0. rewrite last_snoc.
  assert (length (take_while (through (Seq t0)) (ts0 ++ [t0])) ≤ length (ts0 ++ [t0])) as Hle
    by apply take_while_length.
  destruct (solo_ack (w (Datatypes.S j)) (Seq t0) s1 _ q c d x _ (Hgood _) Hle Hs1) as (s2 & Ha).
  assert (drop_while (through (Seq t0)) (ts0 ++ [t0]) = []) as Hdw.
  { rewrite <- (app_nil_r (ts0 ++ [t0])) in Hb. pose proof (take_through_prefix _ _ _ _ Hb) as Htk.
    rewrite app_nil_r in Htk. pose proof (take_drop_while (through (Seq t0)) (ts0 ++ [t0])) as Htd.
    rewrite Htk in Htd. apply (app_inv_head (ts0 ++ [t0])). by rewrite Htd, app_nil_r. }
  rewrite Hdw in Ha. eexists. unfold ack.
  rewrite (bind_pass _ _ _ false (Datatypes.S (Datatypes.S j), s2)); [done|].
  by rewrite (bind_pass _ _ _ _ _ (call_pass _ _ _ _ _ Ha)).
Qed.

Lemma tasks_from_seqs p (i m : nat) : seqs (tasks_from p i m) = seqZ i m.
Proof.
  unfold seqs, tasks_from. rewrite <- list_fmap_compose. unfold seqZ, compose. cbn [Seq].
  rewrite Nat2Z.id. apply list_eq. intros j. rewrite !list_lookup_fmap.
  destruct (decide (j < m)) as [Hj|Hj].
  - rewrite !lookup_seq_lt by done. cbn. f_equal. lia.
  - rewrite !lookup_seq_ge by lia. done.
Qed.

Lemma tasks_from_app p (i m1 m2 : nat) :
  tasks_from p i (m1 + m2) = tasks_from p i m1 ++ tasks_from p (i + m1) m2.
Proof. unfold tasks_from. by rewrite seq_app, fmap_app. Qed.

Lemma tasks_from_length p (i m : nat) : length (tasks_from p i m) = m.
Proof. unfold tasks_from. by rewrite length_fmap, length_seq. Qed.

Lemma tasks_from_consecutive p (i m : nat) : consecutive i (tasks_from p i m).
Proof. unfold consecutive. by rewrite tasks_from_seqs, tasks_from_length. Qed.

Lemma tasks_from_nonempty p (i m : nat) : 0 < m → tasks_from p i m ≠ [].
Proof. intros Hm Hb. apply (f_equal length) in Hb. rewrite tasks_from_length in Hb. simpl in Hb. lia. Qed.

Lemma tasks_from_drop p (k m : nat) :
  drop_while (through (k - 1)) (tasks_from p 0 (k + m)) = tasks_from p k m.
Proof.
  pose proof (take_drop_while (through (k - 1)) (tasks_from p 0 (k + m))) as Ht.
  revert Ht. rewrite tasks_from_app. rewrite take_while_app; [by intros Ht%app_inv_head|..];
    apply Forall_lookup; intros i t Hi; unfold through;
    pose proof (lookup_lt_Some _ _ _ Hi) as Hlt; rewrite tasks_from_length in Hlt;
    rewrite (consecutive_lookup _ _ _ _ (tasks_from_consecutive _ _ _) Hi).
  - apply Z.leb_le. lia.
  - apply Z.leb_gt. lia.
Qed.

Lemma in_order_seqZ (n : nat) : in_order (seqZ 0 n) = true.
Proof.
  unfold in_order. apply bool_decide_eq_true. unfold seqZ.
  rewrite length_fmap, length_seq, Nat2Z.id. apply list_fmap_ext. intros. lia.
Qed.

(** An acknowledgement that leaves tasks keeps the lease, renewed. *)
Lemma ack_keep_pass i j s ts q c d x n :
  drop_while (through i) ts ≠ [] → length (take_while (through i) ts) ≤ n →
  solo s ts q (Some (mkLeaseOn c d x n)) →
  ∃ s' a, ack w c i (j, s) = Pass (true, (Datatypes.S j, s')) ∧
    solo s' (drop_while (through i) ts) q (Some (mkLeaseOn c d (env_now (w j) a + d) 0)).
Proof.
  intros Hne Hle Hs. destruct (solo_ack (w j) i s ts q c d x n (Hgood j) Hle Hs) as (s' & Ha).
  destruct (drop_while _ ts) as [|t rest]; [done|]. destruct Ha as (Ha & a & Hs').
  exists s', a. split; [|done]. unfold ack. by rewrite (bind_pass _ _ _ _ _ (call_pass _ _ _ _ _ Ha)).
Qed.

Lemma reap_pass t j s ts q l :
  ts ≠ [] → (lo_till l < t)%Z → solo s ts q (Some l) →
  ∃ s', reap w t (j, s) = Pass ((1, 0)%Z, (Datatypes.S j, s')) ∧ solo s' ts q None.
Proof.
  intros Hts Ht Hs. destruct (solo_reap (w j) t s ts q l (Hgood j) Hts Ht Hs) as (s' & Hr & Hs').
  exists s'. split; [|done]. unfold reap. by rewrite Hr.
Qed.

(** A clock that does not go back between two calls. *)
Definition forward : Prop := ∀ i a, (env_now (w i) a <= env_now (w (Datatypes.S i)) 0)%Z.

(** Worker A and the reaper: [k] tasks acknowledged, the lease taken back. *)
Lemma recovery_pass (n k j : nat) s (q : Z) (f : list Task → test (S := S) (list Z)) :
  k < n → forward → solo s (bytes_from 0 n) q None →
  ∃ j' s', solo s' (bytes_from k (n - k)) q None ∧
    (ca ← claimRetry w 100 "A" Second;
     batch ← drain w ca n;
     require (bool_decide (k ≤ length batch)) "slice bounds out of range";;
     ack w ca (k - 1);;
     t ← now w;
     rf ← reap w (t + 2 * Second)%Z;
     require (rf.1 =? 1)%Z "reclaimed, want 1 (the crashed worker's lease)";;
     f batch) (j, s) = f (bytes_from 0 n) (j', s').
Proof.
  intros Hk Hclock Hs. pose proof (tasks_from_nonempty byte_at 0 n ltac:(lia)) as Hne.
  assert (whole Second) as HS by (split; [unfold Second, Hour; lia|by exists 1000%Z]).
  destruct (claimRetry_pass 99 "A" Second j s _ _ HS ltac:(done) Hne Hs) as (s1 & ca & a1 & H1 & Hs1).
  rewrite (bind_pass _ _ _ _ _ H1). clear H1.
  destruct (drain_pass n (Datatypes.S j) s1 _ _ _ ltac:(lia) Hs1) as (s2 & H2 & Hs2).
  cbn [lo_handle lo_dur lo_till saw] in H2, Hs2. rewrite Nat2Z.id, (tasks_from_length byte_at), Nat.min_id in Hs2.
  rewrite (bind_pass _ _ _ _ _ H2), Nat2Z.id. clear H2.
  rewrite take_ge by (by rewrite (tasks_from_length byte_at)).
  rewrite (tasks_from_length byte_at), bool_decide_true by lia.
  rewrite (bind_pass _ _ _ tt (Datatypes.S (Datatypes.S j), s2)) by done.
  assert (drop_while (through (k - 1)) (bytes_from 0 n) = bytes_from k (n - k)) as Hdrop.
  { replace n with (k + (n - k)) at 1 by lia. apply (tasks_from_drop byte_at). }
  pose proof (tasks_from_nonempty byte_at k (n - k) ltac:(lia)) as Hne'. rewrite <- Hdrop in Hne'.
  assert (length (take_while (through (k - 1)) (bytes_from 0 n)) ≤ n) as Hseen.
  { rewrite <- (tasks_from_length byte_at 0 n) at 2. apply take_while_length. }
  destruct (ack_keep_pass (k - 1) (Datatypes.S (Datatypes.S j)) s2 _ _ _ _ _ _ Hne' Hseen Hs2)
    as (s3 & a3 & H3 & Hs3).
  rewrite (bind_pass _ _ _ _ _ H3). clear H3. rewrite Hdrop in Hne', Hs3.
  set (j3 := Datatypes.S (Datatypes.S j)) in *.
  rewrite (bind_pass _ _ _ (env_now (w (Datatypes.S j3)) 0) (Datatypes.S j3, s3)) by done.
  assert (env_now (w j3) a3 + Second < env_now (w (Datatypes.S j3)) 0 + 2 * Second)%Z as Hlt
    by (pose proof (Hclock j3 a3); unfold Second; lia).
  destruct (reap_pass (env_now (w (Datatypes.S j3)) 0 + 2 * Second) (Datatypes.S j3) s3 _ _
    (mkLeaseOn ca Second (env_now (w j3) a3 + Second) 0) Hne' Hlt Hs3) as (s4 & H4 & Hs4).
  rewrite (bind_pass _ _ _ _ _ H4). clear H4.
  exists (Datatypes.S (Datatypes.S j3)), s4. split; [done|].
  by rewrite (bind_pass _ _ _ tt (Datatypes.S (Datatypes.S j3), s4)).
Qed.

(** The log of the crash run is the tasks' numbers, each once, in order. *)
Lemma crashLog_pass (n k : nat) s0 :
  k < n → (n ≤ many)%Z → forward → solo (newBackend (mkConf 1 Hour 3)) [] 0 None →
  ∃ st, crashLog newBackend w n k (0, s0) = Pass (seqZ 0 n, st).
Proof.
  intros Hk Hn Hclock Hnew. unfold crashLog.
  rewrite (bind_pass _ _ _ tt (0, newBackend (mkConf 1 Hour 3))) by done.
  destruct (enqueueFrom_pass n 0 0 _ [] ltac:(lia) Hnew) as (s1 & H1 & Hs1). cbn [app Nat.add] in H1, Hs1.
  rewrite (bind_pass _ _ _ _ _ H1). clear H1.
  destruct (recovery_pass n k n s1 _ (λ batch, cb ← claimRetry w 100 "B" Minute;
    drainAll w (Datatypes.S n) cb n (seqs (take k batch))) Hk Hclock Hs1) as (j & s2 & Hs2 & ->).
  assert (whole Minute) as HM by (split; [unfold Minute, Second, Hour; lia|by exists 60000%Z]).
  destruct (claimRetry_pass 99 "B" Minute j s2 _ _ HM ltac:(done)
    (tasks_from_nonempty byte_at k (n - k) ltac:(lia)) Hs2) as (s3 & cb & a3 & H3 & Hs3).
  rewrite (bind_pass _ _ _ _ _ H3). clear H3.
  destruct (drainAll_pass n n (Datatypes.S j) s3 k _ _ _ _ _ _ (seqs (take k (bytes_from 0 n)))
    (tasks_from_nonempty byte_at k (n - k) ltac:(lia)) ltac:(rewrite (tasks_from_length byte_at); lia)
    (tasks_from_consecutive byte_at k (n - k)) Hs3) as (st & ->).
  exists st. do 2 f_equal.
  assert (bytes_from 0 n = bytes_from 0 k ++ bytes_from k (n - k)) as Hsplit.
  { replace n with (k + (n - k)) at 1 by lia. apply (tasks_from_app byte_at). }
  change 0%Z with (Z.of_nat 0). rewrite <- (tasks_from_seqs byte_at 0 n), Hsplit, take_app_le, take_ge
    by (rewrite (tasks_from_length byte_at); lia).
  unfold seqs. by rewrite fmap_app.
Qed.

(** A driver that is [Solo] passes the crash proof, at any size and any crash point. *)
Lemma orderingUnderCrash_pass (n k : nat) s0 :
  k < n → (n ≤ many)%Z → forward → solo (newBackend (mkConf 1 Hour 3)) [] 0 None →
  ∃ st, orderingUnderCrash newBackend w n k (0, s0) = Pass (tt, st).
Proof.
  intros Hk Hn Hclock Hnew. destruct (crashLog_pass n k s0 Hk Hn Hclock Hnew) as (st & Hl).
  exists st. unfold orderingUnderCrash. rewrite (bind_pass _ _ _ _ _ Hl).
  rewrite bool_decide_true by (unfold seqZ; rewrite length_fmap, length_seq; lia).
  cbn [require]. rewrite (bind_pass _ _ _ tt st) by done. by rewrite in_order_seqZ.
Qed.
End solo.
