(* ===== verification/ConformanceProps.v ===== *)
(** ConformanceProps: the conformance suite, run on the drivers. *)
From S2P Require Import Prelude Queue Conformance Memory.

(** The factory of the in-memory driver (tests/conformance/conformance_test.go). *)
Definition memory_factory (c : Config) : Backend :=
  New (mkOptions (Threshold c) (MaxWait c) (cf_MaxAttempts c)).

(** A world whose clock advances by a millisecond from one call to the next. *)
Definition ticking (i : nat) : Env :=
  mkEnv (λ j, 1000 * Second + i * Millisecond + j)%Z (λ l, l) "uuid" (λ _, NoFault).

(** The in-memory driver passes every scenario of the conformance suite: the gate,
    order across batches, keep and re-buffer, per-head flush, lease reclaim and
    redelivery, poison to the dead-letter queue, and no dead-lettering of a task that is
    not the head. *)
Lemma memory_conforms :
  Forall (λ nt, nt.2 = true) (Conformance.Run memory_factory ticking (New (mkOptions 0 0 0))) ∧
  length (Conformance.Run memory_factory ticking (New (mkOptions 0 0 0))) = 8.
Proof. split; [|done]. repeat constructor. Qed.
