(* ===== verification/OrderingMemory.v ===== *)
(** OrderingMemory: the in-memory driver working on a single unit, and the crash proof of
    tests/proofs on it, at every size and on every clock. *)
From S2P Require Import Prelude Queue Conformance Ordering Memory MemoryFacts ConformanceProps.

(** ** The driver with one unit *)

(** the unit of the test: every task costs one, so the gate is open *)
Record lane (ts : list Task) (q : Z) (o : option lease_on) (u : unit) : Prop := {
  ln_key : key u = tkey;
  ln_tasks : tasks u = ts;
  ln_work : ts ≠ [];
  ln_len : length (enqAt u) = length ts;
  ln_next : nextSeq u = q;
  ln_few : (length ts <= q <= many)%Z;
  ln_unit : Forall (λ t, Cost t = 1%Z) ts;
  ln_cost : pendingCost u = length ts;
  ln_gate : threshold u = 1%Z;
  ln_open : eligible u = true;
  ln_lease : match o with
    | None => claimedBy u = ""
    | Some l => claimedBy u ≠ "" ∧ cu_Key (lo_handle l) = tkey ∧
        claimedBy u = cu_Worker (lo_handle l) ∧ lease u = cu_Lease (lo_handle l) ∧
        leaseDur u = lo_dur l ∧ leaseExpires u = lo_till l
    end;
}.

Definition memory_solo (b : Backend) (ts : list Task) (q : Z) (o : option lease_on) : Prop :=
  b_threshold b = 1%Z ∧
  ((ts = [] ∧ q = 0%Z ∧ o = None ∧ units b = ∅) ∨
   ∃ u, units b = {[tkey := u]} ∧ lane ts q o u).

Lemma few_in_i64 x : (0 <= x <= many + 1)%Z → i64 x = x.
Proof. intros Hx. apply i64_id. unfold in_i64, int64_min, int64_max, many in *. lia. Qed.

Lemma range_one e b u : order_ok e → units b = {[tkey := u]} → range_units e b = [tkey].
Proof.
  intros He Hu. unfold range_units. apply Permutation_singleton_r. rewrite (He _), Hu.
  by rewrite dom_singleton_L, elements_singleton.
Qed.

Lemma put_one u u' b : units b = {[tkey := u]} → units (put_unit tkey u' b) = {[tkey := u']}.
Proof. intros Hu. cbn [put_unit set_units units]. rewrite Hu. apply insert_singleton_eq. Qed.

Lemma lane_enqueue now p ts q o u :
  (0 <= q < many)%Z → lane ts q o u →
  lane (ts ++ [mkTask q p 1]) (q + 1) o (enqueue_unit now p 1 u).
Proof.
  intros Hq [Hk Ht Hw Hl Hn Hf Hc Hp Hg Ho Hle].
  assert (i64 (pendingCost u + 1) = length ts + 1)%Z as Hpc
    by (rewrite Hp; apply few_in_i64; lia).
  split; cbn [enqueue_unit key tasks enqAt nextSeq pendingCost threshold eligible claimedBy lease
    leaseDur leaseExpires]; try done.
  - by rewrite Ht, Hn.
  - by destruct ts.
  - rewrite !length_app, Hl. done.
  - rewrite Hn. apply few_in_i64. lia.
  - rewrite length_app. cbn [length]. lia.
  - apply Forall_app. by repeat constructor.
  - rewrite Hpc, length_app. cbn [length]. lia.
  - by destruct (_ <=? _)%Z.
Qed.

Lemma lane_first now p b :
  b_threshold b = 1%Z → lane [mkTask 0 p 1] 1 None (enqueue_unit now p 1 (new_unit tkey b)).
Proof.
  intros Hb. split; try done; cbn.
  - by repeat constructor.
  - rewrite Hb. done.
Qed.

Lemma memory_solo_enqueue e p b ts q :
  order_ok e → (0 ≤ q < many)%Z → memory_solo b ts q None →
  ∃ b', Enqueue e tkey p 1 b = (b', Ok q) ∧ memory_solo b' (ts ++ [mkTask q p 1]) (q + 1) None.
Proof.
  intros _ Hq [Hb [(-> & -> & _ & Hu)|(u & Hu & Hl)]]; eexists; unfold Enqueue.
  - rewrite Hu, lookup_empty. split; [done|]. split; [done|]. right. eexists.
    split; [|by apply lane_first]. cbn [put_unit set_units units]. by rewrite Hu, insert_empty.
  - rewrite Hu, lookup_singleton_eq. cbn [from_option id]. rewrite (ln_next _ _ _ _ Hl).
    split; [done|]. split; [done|]. right. eexists.
    split; [by eapply put_one|by apply lane_enqueue].
Qed.

Lemma memory_solo_claim e w d b ts q :
  order_ok e → w ≠ "" → ts ≠ [] → memory_solo b ts q None →
  ∃ b' c i, Claim e w d b = (b', Ok (Some c)) ∧
    memory_solo b' ts q (Some (mkLeaseOn c d (env_now e i + d) 0)).
Proof.
  intros He Hw Hts [Hb [(-> & _)|(u & Hu & Hl)]]; [done|].
  unfold Claim. rewrite (range_one e b u He Hu), Hu. cbn [claim_scan].
  rewrite lookup_singleton_eq. unfold claimable.
  rewrite (ln_open _ _ _ _ Hl), (ln_tasks _ _ _ _ Hl).
  pose proof (ln_lease _ _ _ _ Hl) as Hc. cbn beta iota in Hc.
  rewrite !bool_decide_true, bool_decide_false by done. cbn [andb negb].
  eexists _, _, 0. split; [done|]. split; [done|]. right. eexists.
  split; [cbn [units]; apply insert_singleton_eq|].
  destruct Hl. split; try done.
Qed.

Lemma held_lane b u ts q l :
  units b = {[tkey := u]} → lane ts q (Some l) u →
  cu_Key (lo_handle l) = tkey ∧ held (lo_handle l) b = Some u.
Proof.
  intros Hu Hl. destruct (ln_lease _ _ _ _ Hl) as (_ & Hk & Hw & Hle & _).
  split; [done|]. unfold held. rewrite Hk, Hu, lookup_singleton_eq.
  by rewrite !bool_decide_true by done.
Qed.

Lemma memory_solo_drain e max b ts q l :
  (0 < max)%Z → memory_solo b ts q (Some l) →
  ∃ b', Drain e (lo_handle l) max b = (b', Ok (take (Z.to_nat max) ts)) ∧
    memory_solo b' ts q (Some (saw (Nat.min (Z.to_nat max) (length ts)) l)).
Proof.
  intros Hm [Hb [(_ & _ & [=] & _)|(u & Hu & Hl)]]. exists b. split.
  2:{ split; [done|]. right. exists u. split; [done|]. by destruct Hl. }
  destruct (held_lane b u ts q l Hu Hl) as [_ Hh]. unfold Drain.
  rewrite Hh, (ln_tasks _ _ _ _ Hl). destruct (Z.ltb_spec (length ts) max).
  - rewrite (proj2 (Z.ltb_ge _ _)) by lia. by rewrite Nat2Z.id, !take_ge by lia.
  - by rewrite (proj2 (Z.ltb_ge _ _)) by lia.
Qed.

(** what an acknowledgement leaves of the unit's queue, and its cost *)
Lemma lane_scan i ts q o u :
  lane ts q o u →
  ack_scan i (tasks u) (pendingCost u) =
    (length (take_while (through i) ts), Z.of_nat (length (drop_while (through i) ts))) ∧
  drop (length (take_while (through i) ts)) ts = drop_while (through i) ts ∧
  Forall (λ t, Cost t = 1%Z) (drop_while (through i) ts) ∧
  length ts = length (take_while (through i) ts) + length (drop_while (through i) ts).
Proof.
  intros Hl. pose proof (take_drop_while (through i) ts) as Hsplit.
  pose proof (ln_unit _ _ _ _ Hl) as Hone. rewrite <- Hsplit, Forall_app in Hone.
  destruct Hone as [H1 H2]. pose proof (f_equal length Hsplit) as Hlen. rewrite length_app in Hlen.
  pose proof (ln_few _ _ _ _ Hl) as Hf. split_and!; [|apply drop_while_drop|done|done].
  rewrite (ln_tasks _ _ _ _ Hl), (ln_cost _ _ _ _ Hl), <- (few_in_i64 (length ts)) by lia.
  rewrite ack_scan_spec, (unit_costs _ H1), few_in_i64 by lia. f_equal. lia.
Qed.

Lemma memory_solo_ack e i b ts q c d x n :
  memory_solo b ts q (Some (mkLeaseOn c d x n)) →
  ∃ b', match drop_while (through i) ts with
        | [] => Ack e c i b = (b', Ok false)
        | rest => Ack e c i b = (b', Ok true) ∧
            ∃ j, memory_solo b' rest q (Some (mkLeaseOn c d (env_now e j + d) 0))
        end.
Proof.
  intros [Hb [(_ & _ & [=] & _)|(u & Hu & Hl)]].
  destruct (held_lane b u ts q _ Hu Hl) as [Hk Hh]. cbn [lo_handle] in Hk, Hh.
  destruct (lane_scan i ts q _ u Hl) as (Hs & Hd & Hone & Hlen).
  unfold Ack. rewrite Hh, Hs, (ln_tasks _ _ _ _ Hl), Hd.
  rewrite bool_decide_false by (rewrite (ln_len _ _ _ _ Hl); lia).
  cbv zeta. cbn [tasks set_attempts set_queue].
  destruct (drop_while (through i) ts) as [|t rest].
  { rewrite bool_decide_true by done. by eexists. }
  rewrite bool_decide_false by done. unfold recompute. cbn [enqAt set_attempts set_queue].
  destruct (drop _ (enqAt u)) as [|t0 ats] eqn:Hat.
  { apply (f_equal length) in Hat. rewrite length_drop, (ln_len _ _ _ _ Hl) in Hat.
    cbn [length] in Hat, Hlen. lia. }
  cbn [threshold pendingCost set_queue set_attempts]. rewrite (ln_gate _ _ _ _ Hl).
  rewrite (proj2 (Z.leb_le 1 _)) by (cbn [length]; lia). cbn [orb eligible].
  eexists. split; [done|]. exists 1. split; [done|]. right. eexists. rewrite Hk.
  split; [by eapply put_one|]. apply (f_equal length) in Hat.
  rewrite length_drop, (ln_len _ _ _ _ Hl) in Hat.
  destruct Hl. split; cbn; try done; [cbn in Hat, Hlen |- *; lia..|].
  destruct ln_lease0 as (? & ? & ? & ? & Hdur & _). by rewrite Hdur.
Qed.

Lemma memory_solo_reap e t b ts q l :
  order_ok e → (lo_till l < t)%Z → memory_solo b ts q (Some l) →
  ∃ b', ReapExpired e t b = (b', (1, 0, None)%Z) ∧ memory_solo b' ts q None.
Proof.
  intros He Ht [Hb [(_ & _ & [=] & _)|(u & Hu & Hl)]].
  unfold ReapExpired. rewrite (range_one e b u He Hu). cbn [reap_scan].
  rewrite Hu, lookup_singleton_eq. unfold reap_unit.
  pose proof (ln_lease _ _ _ _ Hl) as (Hne & Hk & _ & _ & _ & Hx).
  rewrite (bool_decide_false _ Hne), Hx, (proj2 (Z.ltb_lt _ _) Ht). cbn [negb andb].
  assert (eligible (unclaim u) = true) as -> by apply Hl.
  rewrite !andb_false_r. cbn [andb]. eexists. split; [done|]. split; [done|]. right. eexists.
  split; [by eapply put_one|]. by destruct Hl.
Qed.

#[export] Instance Memory_Solo : Solo Backend.
Proof.
  refine {| solo := memory_solo; good := order_ok |}.
  - intros. by apply memory_solo_enqueue.
  - intros. by apply memory_solo_claim.
  - intros e max s ts q l _ Hm Hs. by apply memory_solo_drain.
  - intros e i s ts q c d x n _ _ Hs. by eapply memory_solo_ack.
  - intros e t s ts q l He _ Ht Hs. by eapply memory_solo_reap.
Defined.

(** C36: The crash proof, at every size (tests/proofs/ordering_test.go has ten tasks and a
    crash after three).  On the in-memory driver, whatever the order of map iterations and
    whatever a clock shows that does not go back from one call to the next, the test passes
    for any number [n] of tasks and any crash point [k < n]: worker A acknowledges [k] tasks
    and crashes, the reaper takes its lease back, worker B finishes, and the tasks processed
    are exactly the [n] enqueued, each once, in order. *)
Theorem memory_survives_a_crash (w : nat → Env) (n k : nat) (b : Backend) :
  (∀ i, order_ok (w i)) → forward w → k < n → (n ≤ many)%Z →
  ∃ st, orderingUnderCrash memory_factory w n k (0, b) = Pass (tt, st).
Proof.
  intros Hw Hf Hk Hn. apply orderingUnderCrash_pass; [done..|].
  split; [done|]. left. by split_and!.
Qed.

(** A clock that advances by a millisecond at each call, and stands still within it. *)
Definition stepping (i : nat) : Env := env_at (1000 * Second + i * Millisecond).

Lemma stepping_forward : forward stepping.
Proof. intros i a. cbn [stepping env_at env_now]. unfold Millisecond. lia. Qed.

Lemma memory_survives_a_crash_witness :
  forward stepping ∧
  ∃ st, TestOrderingUnderCrash memory_factory stepping (0, New (mkOptions 0 0 0)) = Pass (tt, st).
Proof.
  split; [apply stepping_forward|].
  apply (memory_survives_a_crash stepping 10 3); [by intros i l|apply stepping_forward|lia|done].
Defined.
