(* ===== verification/Routing.v ===== *)
(** Routing: how the sharded drivers pick a primary (internal/postgres/backend.go and
    internal/valkey/backend.go: shardForWorkspace, the rotation of Claim).  Both use the
    same scheme: FNV-1a of the workspace modulo the number of shards. *)
From S2P Require Import Prelude.

(** ** The hash (hash/fnv, New32a) *)

Definition u32 (x : Z) : Z := (x mod 2 ^ 32)%Z.

Definition fnv_step (h : Z) (c : ascii) : Z :=
  u32 (Z.lxor h (Z.of_N (N_of_ascii c)) * 16777619).

Fixpoint fnv_write (h : Z) (s : string) : Z :=
  match s with
  | EmptyString => h
  | String c s => fnv_write (fnv_step h c) s
  end.

Definition Sum32 (s : string) : Z := fnv_write 2166136261 s.

(** ** Shards *)

(** [shardForWorkspace]: the index of the owning shard among [n]; with one shard the
    workspace is not hashed. *)
Definition shard_index (n : nat) (ws : string) : nat :=
  if bool_decide (n = 1) then 0 else Z.to_nat (Sum32 ws mod u32 n).

(** The cursor [rr], an atomic [uint64], advanced by one: its new value. *)
Definition rr_next (rr : Z) : Z := ((rr + 1) mod 2 ^ 64)%Z.

(** [(start+i)%n] with [start := int(b.rr.Add(1))]: the index Claim consults in its
    [i]-th turn.  [None]: a negative index, which panics. *)
Definition rotation (rr : Z) (n i : nat) : option nat :=
  let x := Z.rem (i64 (i64 (rr_next rr) + i)) n in
  if (x <? 0)%Z then None else Some (Z.to_nat x).

(** ** Facts *)

Lemma Sum32_range s : (0 <= Sum32 s < 2 ^ 32)%Z.
Proof.
  unfold Sum32. assert (∀ h, (0 <= h < 2 ^ 32)%Z → (0 <= fnv_write h s < 2 ^ 32)%Z) as H.
  { induction s as [|c s IH]; intros h Hh; simpl; [done|]. apply IH. unfold fnv_step, u32.
    apply Z.mod_pos_bound. lia. }
  apply H. lia.
Qed.

Lemma shard_index_lt (n : nat) ws : 0 < n → (n < 2 ^ 32)%Z → shard_index n ws < n.
Proof.
  intros H0 Hn. unfold shard_index. case_bool_decide; [lia|]. unfold u32.
  rewrite (Z.mod_small n) by lia. pose proof (Z.mod_pos_bound (Sum32 ws) n). lia.
Qed.

Lemma rotation_nonneg (rr : Z) (n i : nat) :
  (0 <= rr)%Z → (rr + 1 + i <= int64_max)%Z → 0 < n →
  rotation rr n i = Some (Z.to_nat ((rr + 1 + i) mod n)) ∧ Z.to_nat ((rr + 1 + i) mod n) < n.
Proof.
  intros H0 Hmax Hn. unfold rotation, rr_next, int64_max in *.
  rewrite (Z.mod_small (rr + 1)) by lia.
  rewrite (i64_id (rr + 1)), i64_id by (unfold in_i64, int64_min, int64_max; lia).
  rewrite Z.rem_mod_nonneg by lia. pose proof (Z.mod_pos_bound (rr + 1 + i) n).
  rewrite (proj2 (Z.ltb_ge _ _)) by lia. split; [done|lia].
Qed.

(** In [n] turns every shard is consulted. *)
Lemma rotation_covers (rr : Z) (n j : nat) :
  (0 <= rr)%Z → (rr + 1 + n <= int64_max)%Z → j < n →
  ∃ i, i < n ∧ rotation rr n i = Some j.
Proof.
  intros H0 Hmax Hj. exists (Z.to_nat ((j - (rr + 1)) mod n)).
  pose proof (Z.mod_pos_bound (j - (rr + 1)) n) as Hm.
  destruct (rotation_nonneg rr n (Z.to_nat ((j - (rr + 1)) mod n))) as [-> _]; [done|lia|lia|].
  split; [lia|]. rewrite Z2Nat.id, Zplus_mod_idemp_r by lia.
  replace (rr + 1 + (j - (rr + 1)))%Z with (Z.of_nat j) by lia.
  rewrite Z.mod_small by lia. by rewrite Nat2Z.id.
Qed.

(** A claim finds work wherever it is: whatever the cursor, in as many turns as there
    are shards the rotation consults the shard that owns any given workspace, and that
    shard is a function of the workspace and the number of shards alone. *)
Lemma claim_consults_owner (rr : Z) (n : nat) (ws : string) :
  (0 <= rr)%Z → (rr + 1 + n <= int64_max)%Z → 0 < n → (n < 2 ^ 32)%Z →
  shard_index n ws < n ∧ ∃ i, i < n ∧ rotation rr n i = Some (shard_index n ws).
Proof.
  intros H0 Hmax Hn Hw. pose proof (shard_index_lt n ws Hn Hw) as Hlt. split; [done|].
  by apply rotation_covers.
Qed.

(** The hash is FNV-1a: published values for [""], ["a"] and ["foobar"]. *)
Example fnv_vectors :
  Sum32 "" = 2166136261%Z ∧ Sum32 "a" = 3826002220%Z ∧ Sum32 "foobar" = 3214735720%Z.
Proof. split_and!; vm_compute; reflexivity. Qed.

Lemma claim_consults_owner_witness :
  shard_index 4 "ws-1" = 1 ∧
  shard_index 4 "ws-1" < 4 ∧ ∃ i, i < 4 ∧ rotation 41 4 i = Some (shard_index 4 "ws-1").
Proof.
  split; [vm_compute; reflexivity|]. apply claim_consults_owner; vm_compute; first [congruence|lia].
Defined.
