(* ===== verification/Postgres.v ===== *)
(** Postgres: the Postgres driver (internal/postgres/backend.go over schema.sql).  A
    database is a record of its tables; each SQL statement of the driver is a function from
    tables to tables and rows; a method is the sequence of round trips the driver makes,
    each of which may fail as the environment says.  What the server alone decides (the
    text form of uuids, the collation, interval arithmetic in floats) is a parameter. *)
From S2P Require Import Prelude Queue Routing.

(** What the code relies on of the server. *)
Class PgService := {
  uuid_in : string → option string;      (* [$n::uuid]: the canonical text, if valid *)
  text_lt : string → string → bool;      (* the collation of text columns *)
  epoch_ns : Z → duration;               (* EXTRACT(EPOCH FROM d), as nanoseconds *)
}.

(** ** Tables (schema.sql) *)

(** A row of [work_units]; its primary key is the map's key.  [option]: nullable. *)
Record wrow := mkRow {
  pending_cost : Z;
  next_seq : Z;
  threshold : Z;
  max_wait_ms : Z;
  eligible : bool;
  claimed_by : option string;
  lease_token : option string;
  lease_ms : option Z;
  lease_expires : option time;
  oldest_pending_at : option time;
  flush_deadline : option time;
}.

Record trow := mkTRow {
  t_key : WorkUnitKey;
  t_seq : Z;
  t_payload : bytes;
  t_cost : Z;
  t_attempts : Z;
  t_enqueued_at : time;
}.

Record drow := mkDRow {
  d_task : trow;
  d_failed_at : time;
  d_reason : string;
}.

Record db := mkDb {
  work_units : gmap WorkUnitKey wrow;
  tasks : list trow;                      (* rows, in insertion order *)
  dead_letters : list drow;
  tenant_config : gmap string (Z * Z);    (* ws ↦ threshold, max_wait_ms *)
}.

Definition empty_db (tc : gmap string (Z * Z)) : db := mkDb ∅ [] [] tc.

Definition set_row (k : WorkUnitKey) (w : wrow) (d : db) : db :=
  mkDb (<[k := w]> (work_units d)) (tasks d) (dead_letters d) (tenant_config d).

Definition set_tasks (ts : list trow) (d : db) : db :=
  mkDb (work_units d) ts (dead_letters d) (tenant_config d).

(** ** SQL pieces *)

Definition int4 (x : Z) : bool := (- 2 ^ 31 <=? x)%Z && (x <=? 2 ^ 31 - 1)%Z.
Definition int8 (x : Z) : bool := (int64_min <=? x)%Z && (x <=? int64_max)%Z.

(** [x * interval '1 ms'] *)
Definition interval_ms (x : Z) : duration := (x * Millisecond)%Z.

Definition out_of_range : string := "integer out of range".

(** A statement: an error that leaves the tables as they were, or the new tables and the
    rows it returns. *)
Definition stmt (A : Type) : Type := db → string + db * A.

(** [WHERE ws=$1 AND sess=$2 AND peer=$3] *)
Definition of_unit (k : WorkUnitKey) (d : db) : list trow :=
  filter (λ t, t_key t = k) (tasks d).

(** [min(c)] over rows: NULL when there is none *)
Definition sql_min (l : list Z) : option Z :=
  match l with [] => None | x :: l => Some (foldl Z.min x l) end.

(** [min_enq + max_wait_ms * interval '1 ms'] of a nullable time *)
Definition flush_at (w : wrow) (min_enq : option time) : option time :=
  (λ t, t + interval_ms (max_wait_ms w))%Z <$> min_enq.

(** [head.min_enq IS NOT NULL AND head.min_enq + ... <= now()] *)
Definition aged (now : time) (o : option time) : bool :=
  match o with Some t => (t <=? now)%Z | None => false end.

Section driver.
Context `{PgService}.

(** *** Enqueue *)

(** the upsert of [work_units]; [None]: a numeric overflow *)
Definition upsert (now : time) (t wait cost : Z) (o : option wrow) : option wrow :=
  match o with
  | None =>
      Some (mkRow cost 0 t wait (t <=? cost)%Z None None None None
              (Some now) (Some (now + interval_ms wait)%Z))
  | Some w =>
      let pc := (pending_cost w + cost)%Z in
      if int8 pc && int8 (next_seq w + 1) then
        let revive := (pending_cost w =? 0)%Z in
        Some (mkRow pc (next_seq w + 1) (threshold w) (max_wait_ms w)
                ((threshold w <=? pc)%Z || eligible w)
                (claimed_by w) (lease_token w) (lease_ms w) (lease_expires w)
                (if revive then Some now else oldest_pending_at w)
                (if revive then Some (now + interval_ms (max_wait_ms w))%Z
                 else flush_deadline w))
      else None
  end.

Definition enqueue_stmt (now : time) (k : WorkUnitKey) (t wait cost : Z) (p : bytes) : stmt Z :=
  λ d,
    if negb (int4 t && int4 wait) then inl out_of_range
    else
      match upsert now t wait cost (work_units d !! k) with
      | None => inl out_of_range
      | Some w =>
          if negb (int4 cost) then inl out_of_range
          else if existsb (λ t, bool_decide (t_seq t = next_seq w)) (of_unit k d)
          then inl "duplicate key"
          else inr (set_tasks (tasks d ++ [mkTRow k (next_seq w) p cost 0 now]) (set_row k w d),
                    next_seq w)
      end.

(** *** Claim *)

Definition key_lt (a b : WorkUnitKey) : bool :=
  if bool_decide (Workspace a = Workspace b) then
    if bool_decide (Session a = Session b) then text_lt (Peer a) (Peer b)
    else text_lt (Session a) (Session b)
  else text_lt (Workspace a) (Workspace b).

(** [ORDER BY flush_deadline NULLS LAST, ws, sess, peer] *)
Definition before (a b : WorkUnitKey * wrow) : bool :=
  match flush_deadline a.2, flush_deadline b.2 with
  | Some x, Some y => (x <? y)%Z || ((x =? y)%Z && key_lt a.1 b.1)
  | Some _, None => true
  | None, Some _ => false
  | None, None => key_lt a.1 b.1
  end.

(** [WHERE eligible AND claimed_by IS NULL] *)
Definition claimable (w : wrow) : bool := eligible w && bool_decide (claimed_by w = None).

Fixpoint pick (l : list (WorkUnitKey * wrow)) (best : option (WorkUnitKey * wrow)) :
    option (WorkUnitKey * wrow) :=
  match l with
  | [] => best
  | x :: l =>
      if claimable x.2 then
        match best with
        | None => pick l (Some x)
        | Some y => pick l (if before x y then Some x else best)
        end
      else pick l best
  end.

Definition set_lease (by_ tok : option string) (ms : option Z) (exp : option time) (w : wrow) :
    wrow :=
  mkRow (pending_cost w) (next_seq w) (threshold w) (max_wait_ms w) (eligible w)
    by_ tok ms exp (oldest_pending_at w) (flush_deadline w).

(** [claimed_by=NULL, lease_token=NULL, lease_expires=NULL] *)
Definition free (w : wrow) : wrow := set_lease None None (lease_ms w) None w.

Definition claim_stmt (now : time) (uuid : string) (worker : WorkerID) (leaseMs : Z) :
    stmt (option (WorkUnitKey * string * time)) :=
  λ d,
    if negb (int4 leaseMs) then inl out_of_range
    else
      match pick (map_to_list (work_units d)) None with
      | None => inr (d, None)
      | Some (k, w) =>
          let exp := (now + interval_ms leaseMs)%Z in
          inr (set_row k (set_lease (Some worker) (Some uuid) (Some leaseMs) (Some exp) w) d,
               Some (k, uuid, exp))
      end.

(** *** The lease check *)

Definition leased (w : wrow) (worker tok : string) : bool :=
  bool_decide (claimed_by w = Some worker) && bool_decide (lease_token w = Some tok).

(** the row a handle names: [WHERE ... AND claimed_by=$4 AND lease_token=$5::uuid] *)
Definition leased_row (c : ClaimedUnit) (d : db) : string + option wrow :=
  match uuid_in (cu_Lease c) with
  | None => inl "invalid input syntax for type uuid"
  | Some u =>
      inr (match work_units d !! cu_Key c with
           | Some w => if leased w (cu_Worker c) u then Some w else None
           | None => None
           end)
  end.

Definition check_stmt (c : ClaimedUnit) : stmt bool :=
  λ d, match leased_row c d with
       | inl e => inl e
       | inr o => inr (d, bool_decide (is_Some o))
       end.

(** *** Drain *)

Definition seq_le (a b : trow) : Prop := (t_seq a <= t_seq b)%Z.

#[export] Instance seq_le_dec : RelDecision seq_le.
Proof. intros a b. unfold seq_le. apply _. Defined.

Definition to_task (t : trow) : Task := mkTask (t_seq t) (t_payload t) (t_cost t).

Definition drain_stmt (k : WorkUnitKey) (max : Z) : stmt (list Task) :=
  λ d,
    if (max <? 0)%Z then inl "LIMIT must not be negative"
    else inr (d, to_task <$> take (Z.to_nat max) (merge_sort seq_le (of_unit k d))).

(** *** Ack *)

Definition acked_rows (k : WorkUnitKey) (q : Z) (d : db) : list trow :=
  filter (λ t, (t_seq t <= q)%Z) (of_unit k d).

Definition left_rows (k : WorkUnitKey) (q : Z) (d : db) : list trow :=
  filter (λ t, ¬ (t_seq t <= q)%Z) (of_unit k d).

Definition sum_cost (ts : list trow) : Z := list_Z_sum (t_cost <$> ts).

(** [DELETE FROM tasks WHERE ... AND seq <= $6] *)
Definition delete_through (k : WorkUnitKey) (q : Z) (d : db) : list trow :=
  filter (λ t, ¬ (t_key t = k ∧ (t_seq t <= q)%Z)) (tasks d).

Definition ack_stmt (now : time) (c : ClaimedUnit) (q : Z) : stmt (option bool) :=
  λ d,
    let k := cu_Key c in
    match uuid_in (cu_Lease c) with
    | None => inl "invalid input syntax for type uuid"
    | Some u =>
        match work_units d !! k with
        | None => inr (set_tasks (delete_through k q d) d, None)
        | Some w =>
            let pc := (pending_cost w - sum_cost (acked_rows k q d))%Z in
            let min_enq := sql_min (t_enqueued_at <$> left_rows k q d) in
            let keep := (threshold w <=? pc)%Z || aged now (flush_at w min_enq) in
            let w' :=
              mkRow pc (next_seq w) (threshold w) (max_wait_ms w) keep
                (if keep then Some (cu_Worker c) else None)
                (if keep then Some u else None)
                (lease_ms w)
                (if keep then (λ ms, now + interval_ms ms)%Z <$> lease_ms w else None)
                min_enq (flush_at w min_enq) in
            if int8 pc then inr (set_row k w' (set_tasks (delete_through k q d) d), Some keep)
            else inl out_of_range
        end
    end.

(** *** Release and Heartbeat: the number of rows affected *)

Definition update_leased (c : ClaimedUnit) (f : wrow → wrow) : stmt Z :=
  λ d, match leased_row c d with
       | inl e => inl e
       | inr None => inr (d, 0%Z)
       | inr (Some w) => inr (set_row (cu_Key c) (f w) d, 1%Z)
       end.

Definition release_stmt (c : ClaimedUnit) : stmt Z := update_leased c free.

Definition heartbeat_stmt (now : time) (c : ClaimedUnit) (ms : Z) : stmt Z :=
  λ d,
    if negb (int4 ms) then inl out_of_range
    else update_leased c (λ w,
      set_lease (claimed_by w) (lease_token w) (Some ms) (Some (now + interval_ms ms)%Z) w) d.

(** *** Fail *)

Definition bump (k : WorkUnitKey) (q : Z) (t : trow) : trow :=
  if bool_decide (t_key t = k ∧ t_seq t = q) then
    mkTRow (t_key t) (t_seq t) (t_payload t) (t_cost t) (t_attempts t + 1) (t_enqueued_at t)
  else t.

(** [UPDATE tasks SET attempts = attempts + 1 ... RETURNING attempts, cost] *)
Definition attempt_stmt (k : WorkUnitKey) (q : Z) : stmt (option (Z * Z)) :=
  λ d,
    match filter (λ t, t_seq t = q) (of_unit k d) with
    | [] => inr (d, None)
    | t :: _ =>
        if int4 (t_attempts t + 1) then
          inr (set_tasks (bump k q <$> tasks d) d, Some (t_attempts t + 1, t_cost t)%Z)
        else inl out_of_range
    end.

(** [SELECT min(seq)], scanned into an int64: NULL is an error *)
Definition head_stmt (k : WorkUnitKey) : stmt Z :=
  λ d, match sql_min (t_seq <$> of_unit k d) with
       | None => inl "cannot scan NULL into *int64"
       | Some x => inr (d, x)
       end.

Definition bury_stmt (now : time) (k : WorkUnitKey) (q : Z) (reason : string) (cost : Z) :
    stmt () :=
  λ d,
    let moved := filter (λ t, t_seq t = q) (of_unit k d) in
    let rest := filter (λ t, t_seq t ≠ q) (of_unit k d) in
    let min_enq := sql_min (t_enqueued_at <$> rest) in
    let d1 := mkDb (work_units d) (filter (λ t, ¬ (t_key t = k ∧ t_seq t = q)) (tasks d))
                (dead_letters d ++ ((λ t, mkDRow t now reason) <$> moved)) (tenant_config d) in
    match work_units d !! k with
    | None => inr (d1, tt)
    | Some w =>
        let pc := (pending_cost w - cost)%Z in
        if int8 pc then
          inr (set_row k
                 (mkRow pc (next_seq w) (threshold w) (max_wait_ms w)
                    ((threshold w <=? pc)%Z || aged now (flush_at w min_enq))
                    None None (lease_ms w) None min_enq (flush_at w min_enq)) d1, tt)
        else inl out_of_range
    end.

Definition unlease_stmt (k : WorkUnitKey) : stmt () :=
  λ d, match work_units d !! k with
       | None => inr (d, tt)
       | Some w => inr (set_row k (free w) d, tt)
       end.

(** *** ReapExpired, Stats, Reset *)

(** [WHERE claimed_by IS NOT NULL AND lease_expires < $1] *)
Definition lapsed (now : time) (w : wrow) : bool :=
  negb (bool_decide (claimed_by w = None)) &&
  match lease_expires w with Some t => (t <? now)%Z | None => false end.

(** [WHERE NOT eligible AND claimed_by IS NULL AND flush_deadline <= $1 AND pending_cost > 0] *)
Definition flushable (now : time) (w : wrow) : bool :=
  negb (eligible w) && bool_decide (claimed_by w = None) &&
  aged now (flush_deadline w) && (0 <? pending_cost w)%Z.

Definition set_eligible (w : wrow) : wrow :=
  mkRow (pending_cost w) (next_seq w) (threshold w) (max_wait_ms w) true (claimed_by w)
    (lease_token w) (lease_ms w) (lease_expires w) (oldest_pending_at w) (flush_deadline w).

Definition update_where (p : wrow → bool) (f : wrow → wrow) : stmt Z :=
  λ d,
    inr (mkDb ((λ w, if p w then f w else w) <$> work_units d) (tasks d) (dead_letters d)
           (tenant_config d),
         Z.of_nat (size (filter (λ kw, p kw.2 = true) (work_units d)))).

Definition reclaim_stmt (now : time) : stmt Z := update_where (lapsed now) free.
Definition flush_stmt (now : time) : stmt Z := update_where (flushable now) set_eligible.

Definition count_rows (p : wrow → bool) (d : db) : Z :=
  Z.of_nat (size (filter (λ kw, p kw.2 = true) (work_units d))).

(** rows not eligible and free: their oldest pending times *)
Definition waiting (d : db) : list time :=
  omap (λ kw, if negb (eligible kw.2) && bool_decide (claimed_by kw.2 = None)
              then oldest_pending_at kw.2 else None) (map_to_list (work_units d)).

Definition stats_stmt (now : time) : stmt (Z * Z * Z * Z) :=
  λ d, inr (d, (Z.of_nat (size (work_units d)), count_rows claimable d,
                match sql_min (waiting d) with Some t => (now - t)%Z | None => 0%Z end,
                Z.of_nat (length (dead_letters d)))).

Definition truncate_stmt : stmt () := λ d, inr (empty_db (tenant_config d), tt).

Definition tenant_stmt (ws : string) : stmt (option (Z * Z)) :=
  λ d, inr (d, tenant_config d !! ws).

(** ** Round trips *)

(** A program over one primary: it counts its round trips and works on the tables. *)
Definition prog (A : Type) : Type := nat * db → (nat * db) * res A.

#[export] Instance prog_ret : MRet prog := λ A a st, (st, Ok a).
#[export] Instance prog_bind : MBind prog := λ A B f m st,
  let '(st, r) := m st in
  match r with Ok a => f a st | Err e => (st, Err e) | Panic => (st, Panic) end.

Definition throw {A} (e : Queue.error) : prog A := λ st, (st, Err e).

(** one statement, sent and answered, as the [i]-th round trip's fate says *)
Definition exec (e : Env) {A} (f : time → stmt A) : prog A := λ '(i, d),
  match env_net e i with
  | Lost msg => ((Datatypes.S i, d), Err (ErrDriver msg))
  | NoFault =>
      match f (env_now e i) d with
      | inl msg => ((Datatypes.S i, d), Err (ErrDriver msg))
      | inr (d', a) => ((Datatypes.S i, d'), Ok a)
      end
  | Unacked msg =>
      ((Datatypes.S i, match f (env_now e i) d with inl _ => d | inr (d', _) => d' end),
       Err (ErrDriver msg))
  end.

(** [pool.Begin ... tx.Commit], with the deferred rollback: the body's statements read the
    time of the transaction's start, and its changes last only if the commit is executed. *)
Definition transaction (e : Env) {A} (body : time → prog A) : prog A := λ '(i, d),
  match env_net e i with
  | Lost msg | Unacked msg => ((Datatypes.S i, d), Err (ErrDriver msg))
  | NoFault =>
      let '((j, d'), r) := body (env_now e i) (Datatypes.S i, d) in
      match r with
      | Ok a =>
          match env_net e j with
          | NoFault => ((Datatypes.S j, d'), Ok a)
          | Lost msg => ((Datatypes.S j, d), Err (ErrDriver msg))
          | Unacked msg => ((Datatypes.S j, d'), Err (ErrDriver msg))
          end
      | r => ((j, d), r)
      end
  end.

(** a statement of a transaction: [now()] is the transaction's *)
Definition tx_exec (e : Env) {A} (f : stmt A) : prog A := exec e (λ _, f).

(** ** The driver *)

Record Options := mkOptions {
  DSNs : list string;
  DefaultThreshold : Z;
  DefaultMaxWait : duration;
  MaxAttempts : Z;
}.

Record Backend := mkBackend {
  shards : list db;
  maxTries : Z;
  defT : Z;                                  (* tenantCache *)
  defWait : duration;
  cache : gmap string (Z * duration);
  rr : Z;
}.

(** [New]: one primary per DSN, found holding the tables [dbs]; [None]: ErrNoDSN. *)
Definition New (o : Options) (dbs : string → db) : option Backend :=
  match DSNs o with
  | [] => None
  | _ =>
      let ma := if (MaxAttempts o <=? 0)%Z then 3%Z else MaxAttempts o in
      Some (mkBackend (dbs <$> DSNs o) ma (DefaultThreshold o) (DefaultMaxWait o) ∅ 0)
  end.

Definition set_shard (j : nat) (d : db) (b : Backend) : Backend :=
  mkBackend (<[j := d]> (shards b)) (maxTries b) (defT b) (defWait b) (cache b) (rr b).

Definition route (b : Backend) (k : WorkUnitKey) : nat :=
  shard_index (length (shards b)) (Workspace k).

(** run a program on shard [j]; an index out of range panics *)
Definition on_shard {A} (j i : nat) (p : prog A) (b : Backend) : Backend * nat * res A :=
  match shards b !! j with
  | None => (b, i, Panic)
  | Some d => let '((i', d'), r) := p (i, d) in (set_shard j d' b, i', r)
  end.

(** an operation on the shard that owns the unit *)
Definition routed {A} (k : WorkUnitKey) (p : prog A) (b : Backend) : Backend * res A :=
  let '(b, _, r) := on_shard (route b k) 0 p b in (b, r).

(** [tenantCache.get]: any error of the query, a missing row included, yields the
    defaults, and the answer is cached for good. *)
Definition tenant_get (e : Env) (ws : string) (b : Backend) : Backend * nat * (Z * duration) :=
  match cache b !! ws with
  | Some v => (b, 0, v)
  | None =>
      let '(b, i, r) :=
        on_shard (shard_index (length (shards b)) ws) 0 (exec e (λ _, tenant_stmt ws)) b in
      let v :=
        match r with
        | Ok (Some (t, waitMs)) => (t, i64 (waitMs * Millisecond))
        | _ => (defT b, defWait b)
        end in
      (mkBackend (shards b) (maxTries b) (defT b) (defWait b) (<[ws := v]> (cache b)) (rr b),
       i, v)
  end.

Definition Enqueue (e : Env) (k : WorkUnitKey) (payload : bytes) (cost : Z) (b : Backend) :
    Backend * res Z :=
  let '(b, i, (t, wait)) := tenant_get e (Workspace k) b in
  let '(b, _, r) :=
    on_shard (route b k) i
      (exec e (λ now, enqueue_stmt now k t (Milliseconds wait) cost payload)) b in
  (b, r).

Fixpoint claim_turns (e : Env) (worker : WorkerID) (leaseMs rr : Z) (todo i : nat)
    (b : Backend) : Backend * res (option ClaimedUnit) :=
  match todo with
  | O => (b, Ok None)
  | Datatypes.S todo =>
      match rotation rr (length (shards b)) i with
      | None => (b, Panic)
      | Some j =>
          let '(b, _, r) :=
            on_shard j i (exec e (λ now, claim_stmt now (env_uuid e) worker leaseMs)) b in
          match r with
          | Ok None => claim_turns e worker leaseMs rr todo (Datatypes.S i) b
          | Ok (Some (k, tok, exp)) => (b, Ok (Some (mkClaimed k worker tok exp)))
          | Err err => (b, Err err)
          | Panic => (b, Panic)
          end
      end
  end.

Definition Claim (e : Env) (worker : WorkerID) (lease : duration) (b : Backend) :
    Backend * res (option ClaimedUnit) :=
  let r := rr b in
  let b := mkBackend (shards b) (maxTries b) (defT b) (defWait b) (cache b) (rr_next r) in
  claim_turns e worker (Milliseconds lease) r (length (shards b)) 0 b.

(** [checkLease], [checkLeaseForUpdate] *)
Definition checkLease (e : Env) (c : ClaimedUnit) : prog () :=
  ok ← exec e (λ _, check_stmt c);
  if (ok : bool) then mret tt else throw ErrLeaseLost.

Definition Drain (e : Env) (c : ClaimedUnit) (max : Z) (b : Backend) : Backend * res (list Task) :=
  routed (cu_Key c) (checkLease e c;; exec e (λ _, drain_stmt (cu_Key c) max)) b.

Definition Ack (e : Env) (c : ClaimedUnit) (throughSeq : Z) (b : Backend) : Backend * res bool :=
  routed (cu_Key c)
    (transaction e (λ now,
       checkLease e c;;
       keep ← tx_exec e (ack_stmt now c throughSeq);
       match keep with Some held => mret held | None => throw (ErrDriver "no rows") end)) b.

(** [Exec] and the test on [RowsAffected] *)
Definition affected (m : prog Z) : prog () :=
  n ← m; if (n =? 0)%Z then throw ErrLeaseLost else mret tt.

Definition Release (e : Env) (c : ClaimedUnit) (b : Backend) : Backend * res () :=
  routed (cu_Key c) (affected (exec e (λ _, release_stmt c))) b.

Definition Heartbeat (e : Env) (c : ClaimedUnit) (extend : duration) (b : Backend) :
    Backend * res () :=
  routed (cu_Key c)
    (affected (exec e (λ now, heartbeat_stmt now c (Milliseconds extend)))) b.

(** the body of Fail's transaction *)
Definition fail_tx (e : Env) (c : ClaimedUnit) (seq : Z) (reason : string) (maxTries : Z)
    (now : time) : prog () :=
  let k := cu_Key c in
  let unlease := tx_exec e (unlease_stmt k) in
  checkLease e c;;
  att ← tx_exec e (attempt_stmt k seq);
  match att with
  | Some (attempts, cost) =>
      if (maxTries <=? attempts)%Z then
        headSeq ← tx_exec e (head_stmt k);
        if (seq =? headSeq)%Z then tx_exec e (bury_stmt now k seq reason cost)
        else unlease
      else unlease
  | None => unlease
  end.

Definition Fail (e : Env) (c : ClaimedUnit) (seq : Z) (reason : string) (b : Backend) :
    Backend * res () :=
  routed (cu_Key c) (transaction e (fail_tx e c seq reason (maxTries b))) b.

(** the loop over the shards; an error stops it and the counts so far are returned *)
Fixpoint reap_shards (e : Env) (now : time) (todo j i : nat) (b : Backend) (r f : Z) :
    Backend * (Z * Z * option Queue.error) :=
  match todo with
  | O => (b, (r, f, None))
  | Datatypes.S todo =>
      let '(b, i, x) := on_shard j i (exec e (λ _, reclaim_stmt now)) b in
      match x with
      | Ok n =>
          let '(b, i, y) := on_shard j i (exec e (λ _, flush_stmt now)) b in
          match y with
          | Ok m => reap_shards e now todo (Datatypes.S j) i b (i64 (r + n)) (i64 (f + m))
          | Err err => (b, (i64 (r + n), f, Some err))
          | Panic => (b, (i64 (r + n), f, None))
          end
      | Err err => (b, (r, f, Some err))
      | Panic => (b, (r, f, None))
      end
  end.

Definition ReapExpired (e : Env) (now : time) (b : Backend) :
    Backend * (Z * Z * option Queue.error) :=
  reap_shards e now (length (shards b)) 0 0 b 0 0.

Definition Close (b : Backend) : Backend * res () := (b, Ok tt).

#[export] Instance Postgres_Backend : Queue.Backend Backend := {|
  be_Enqueue := Enqueue;
  be_Claim := Claim;
  be_Drain := Drain;
  be_Ack := Ack;
  be_Release := Release;
  be_Heartbeat := Heartbeat;
  be_Fail := Fail;
  be_ReapExpired := ReapExpired;
  be_Close := Close;
|}.

Fixpoint stats_shards (e : Env) (ds : list db) (i : nat) (out : Stats) : res Stats :=
  match ds with
  | [] => Ok out
  | d :: ds =>
      match exec e stats_stmt (i, d) with
      | (_, Ok (total, elig, age, dlq)) =>
          let o := epoch_ns age in
          stats_shards e ds (Datatypes.S i)
            (mkStats (i64 (TotalUnits out + total)) (i64 (EligibleUnits out + elig))
               (PendingTasks out) (i64 (DeadLetters out + dlq))
               (if (OldestBelowT out <? o)%Z then o else OldestBelowT out))
      | (_, Err err) => Err err
      | (_, Panic) => Panic
      end
  end.

#[export] Instance Postgres_Stater : Stater Backend := λ e b,
  stats_shards e (shards b) 0 (mkStats 0 0 0 0 0).

Fixpoint reset_shards (e : Env) (todo j : nat) (b : Backend) : Backend * res () :=
  match todo with
  | O => (b, Ok tt)
  | Datatypes.S todo =>
      let '(b, _, r) := on_shard j j (exec e (λ _, truncate_stmt)) b in
      match r with
      | Ok _ => reset_shards e todo (Datatypes.S j) b
      | Err err => (b, Err err)
      | Panic => (b, Panic)
      end
  end.

#[export] Instance Postgres_Resetter : Resetter Backend := λ e b,
  reset_shards e (length (shards b)) 0 b.
End driver.
