(* ===== verification/PostgresFacts.v ===== *)
(** PostgresFacts: the invariant of one primary's tables, what each statement of the
    driver does to what a client sees, and, lifted over the shards, that the Postgres
    driver satisfies the [Strict] contract. *)
From S2P Require Import Prelude Queue Contract Routing Postgres.

(** ** Rows of a unit *)

Lemma of_unit_set_row k w k' d : of_unit k' (set_row k w d) = of_unit k' d.
Proof. done. Qed.

Lemma of_unit_snoc ts t k d :
  of_unit k (set_tasks (ts ++ [t]) d) =
  filter (λ t, t_key t = k) ts ++ if decide (t_key t = k) then [t] else [].
Proof. unfold of_unit. simpl. by rewrite filter_app, filter_cons, filter_nil. Qed.

(** deleting rows of unit [k] *)
Lemma filter_unit (P : trow → Prop) `{∀ t, Decision (P t)} k k' (l : list trow) :
  filter (λ t, t_key t = k') (filter (λ t, ¬ (t_key t = k ∧ P t)) l) =
  if decide (k' = k) then filter (λ t, ¬ P t) (filter (λ t, t_key t = k) l)
  else filter (λ t, t_key t = k') l.
Proof.
  rewrite list_filter_filter. case_decide as Hk.
  - subst k'. rewrite list_filter_filter. apply list_filter_iff. intros t. tauto.
  - apply list_filter_iff. intros t. split; [by intros []|]. intros <-. by split; [|intros [? _]].
Qed.

Lemma of_unit_fmap f k d :
  (∀ t, t_key (f t) = t_key t) →
  of_unit k (set_tasks (f <$> tasks d) d) = f <$> of_unit k d.
Proof.
  intros Hf. unfold of_unit. simpl. induction (tasks d) as [|t ts IH]; [done|].
  rewrite fmap_cons, !filter_cons, Hf, IH. by case_decide.
Qed.

Lemma to_task_bump k q t : to_task (bump k q t) = to_task t.
Proof. unfold bump. by case_bool_decide. Qed.

Lemma sum_cost_total ts : sum_cost ts = total_cost (to_task <$> ts).
Proof. unfold sum_cost, total_cost. by rewrite <- list_fmap_compose. Qed.

Lemma sum_cost_split (P : trow → Prop) `{∀ t, Decision (P t)} (ts : list trow) :
  sum_cost ts = (sum_cost (filter P ts) + sum_cost (filter (λ t, ¬ P t) ts))%Z.
Proof.
  unfold sum_cost. rewrite <- list_Z_sum_app, <- fmap_app.
  by rewrite (filter_app_complement P ts).
Qed.

Definition rows_from (b : Z) (ts : list trow) : Prop := consecutive b (to_task <$> ts).

Lemma rows_from_cons b t ts : rows_from b (t :: ts) ↔ t_seq t = b ∧ rows_from (b + 1) ts.
Proof. unfold rows_from. rewrite fmap_cons. apply consecutive_cons. Qed.

Lemma rows_from_lookup b ts (i : nat) t :
  rows_from b ts → ts !! i = Some t → t_seq t = (b + i)%Z.
Proof.
  intros Hr Hi. change (t_seq t) with (Seq (to_task t)).
  apply (consecutive_lookup _ _ _ _ Hr). by rewrite list_lookup_fmap, Hi.
Qed.

Lemma rows_from_sorted b ts : rows_from b ts → StronglySorted seq_le ts.
Proof.
  revert b. induction ts as [|t ts IH]; intros b Hr; constructor.
  - apply rows_from_cons in Hr as [_ Hr]. by eapply IH.
  - apply rows_from_cons in Hr as [Ht Hr]. apply Forall_lookup. intros i t' Hi.
    unfold seq_le. rewrite (rows_from_lookup _ _ _ _ Hr Hi). lia.
Qed.

(** [ORDER BY seq] of rows that were inserted in order *)
Lemma sort_rows b ts : rows_from b ts → merge_sort seq_le ts = ts.
Proof.
  intros Hr. apply (StronglySorted_unique_strong seq_le).
  - intros t1 t2 H1 H2 H12 H21. rewrite (merge_sort_Permutation seq_le ts) in H1.
    apply list_elem_of_lookup in H1 as [i Hi], H2 as [j Hj].
    unfold seq_le in *. pose proof (rows_from_lookup _ _ _ _ Hr Hi).
    pose proof (rows_from_lookup _ _ _ _ Hr Hj). assert (i = j) as <- by lia. congruence.
  - apply StronglySorted_merge_sort; unfold seq_le; [intros x y z; lia|intros x y; lia].
  - by eapply rows_from_sorted.
  - apply merge_sort_Permutation.
Qed.

(** what is left behind an acknowledgement *)
Lemma left_rows_drop b ts q :
  rows_from b ts →
  to_task <$> filter (λ t, ¬ (t_seq t <= q)%Z) ts = drop_while (through q) (to_task <$> ts).
Proof.
  revert b. induction ts as [|t ts IH]; intros b Hr; [done|].
  apply rows_from_cons in Hr as [Ht Hr]. rewrite fmap_cons, filter_cons. simpl.
  unfold through at 1. simpl. destruct (Z.leb_spec (t_seq t) q).
  - rewrite decide_False by tauto. by eapply IH.
  - rewrite decide_True by lia. rewrite fmap_cons. f_equal. f_equal. apply filter_all.
    intros t' Ht'. apply list_elem_of_lookup in Ht' as [i Hi].
    rewrite (rows_from_lookup _ _ _ _ Hr Hi). lia.
Qed.

Lemma left_rows_from b ts q :
  rows_from b ts →
  ∃ i : nat, rows_from (b + i) (filter (λ t, ¬ (t_seq t <= q)%Z) ts) ∧
    (b + i + length (filter (λ t, ¬ (t_seq t <= q)%Z) ts) = b + length ts)%Z.
Proof.
  intros Hr. exists (length (take_while (through q) (to_task <$> ts))). unfold rows_from.
  rewrite (left_rows_drop b) by done. split; [by apply consecutive_drop_while|].
  assert (length (filter (λ t, ¬ (t_seq t <= q)%Z) ts) =
    length (drop_while (through q) (to_task <$> ts))) as ->.
  { by rewrite <- (left_rows_drop b), length_fmap. }
  pose proof (f_equal length (take_drop_while (through q) (to_task <$> ts))) as Hl.
  rewrite length_app, length_fmap in Hl. lia.
Qed.

(** the head's rows: those with its number, and the others *)
Lemma head_rows b t ts :
  rows_from b (t :: ts) →
  filter (λ x, t_seq x = t_seq t) (t :: ts) = [t] ∧
  filter (λ x, t_seq x ≠ t_seq t) (t :: ts) = ts.
Proof.
  intros [Ht Hr]%rows_from_cons. rewrite !filter_cons, decide_True, decide_False by tauto.
  split.
  - f_equal. apply filter_none. intros x Hx. apply list_elem_of_lookup in Hx as [i Hi].
    rewrite (rows_from_lookup _ _ _ _ Hr Hi). lia.
  - apply filter_all. intros x Hx. apply list_elem_of_lookup in Hx as [i Hi].
    rewrite (rows_from_lookup _ _ _ _ Hr Hi). lia.
Qed.

Lemma sql_min_head b t ts :
  rows_from b (t :: ts) → sql_min (t_seq <$> t :: ts) = Some (t_seq t).
Proof.
  intros [Ht Hr]%rows_from_cons. simpl. f_equal.
  assert (∀ m, (m <= b)%Z → foldl Z.min m (t_seq <$> ts) = m) as H; [|apply H; lia].
  clear Ht. revert b Hr. induction ts as [|t' ts IH]; intros b Hr m Hm; [done|].
  apply rows_from_cons in Hr as [Ht' Hr]. simpl. rewrite Ht'.
  rewrite Z.min_l by lia. apply (IH (b + 1)%Z); [|lia]. done.
Qed.

(** ** What a client sees of one primary *)

Section primary.
Context `{PgService}.

Definition lease_of (d : db) (k : WorkUnitKey) : option (option string * option string) :=
  (λ w, (claimed_by w, lease_token w)) <$> work_units d !! k.

#[export] Instance db_View : View db := {|
  pending d k := to_task <$> of_unit k d;
  holds d c := match leased_row c d with inr (Some _) => true | _ => false end;
|}.

(** issued tokens are uuids in canonical form *)
Definition canonical (h : gset LeaseToken) : Prop := ∀ tok, tok ∈ h → uuid_in tok = Some tok.

Lemma leased_row_issued h c d :
  canonical h → issued h c →
  leased_row c d = inr (match work_units d !! cu_Key c with
    | Some w => if leased w (cu_Worker c) (cu_Lease c) then Some w else None
    | None => None end).
Proof. intros Hh Hc. unfold leased_row. by rewrite (Hh _ Hc). Qed.

Lemma holds_lease_of h c d :
  canonical h → issued h c →
  holds d c = bool_decide (lease_of d (cu_Key c) = Some (Some (cu_Worker c), Some (cu_Lease c))).
Proof.
  intros Hh Hc. cbn [holds db_View]. rewrite (leased_row_issued h) by done. unfold lease_of.
  destruct (work_units d !! cu_Key c) as [w|]; [|done]. cbn [fmap option_fmap option_map].
  destruct (leased w (cu_Worker c) (cu_Lease c)) eqn:Hl; unfold leased in Hl; symmetry.
  - b2p. apply bool_decide_true. congruence.
  - apply bool_decide_false. intros [= H1 H2]. by rewrite !bool_decide_true in Hl by done.
Qed.

Lemma holds_row h c d :
  canonical h → issued h c → holds d c = true →
  ∃ w, work_units d !! cu_Key c = Some w ∧ leased_row c d = inr (Some w) ∧
    claimed_by w = Some (cu_Worker c) ∧ lease_token w = Some (cu_Lease c).
Proof.
  intros Hh Hc Hd. cbn [holds db_View] in Hd. rewrite (leased_row_issued h) in * by done.
  destruct (work_units d !! cu_Key c) as [w|]; [|done]. unfold leased in *.
  destruct (bool_decide (claimed_by w = _) && bool_decide (lease_token w = _)) eqn:Hl; [|done].
  exists w. b2p. done.
Qed.

Lemma not_holds_row h c d :
  canonical h → issued h c → holds d c = false → leased_row c d = inr None.
Proof.
  intros Hh Hc Hd. cbn [holds db_View] in Hd. rewrite (leased_row_issued h) in * by done.
  destruct (work_units d !! cu_Key c) as [w|]; [|done]. by destruct (leased _ _ _).
Qed.

Lemma same_view_rows h d d' :
  canonical h → (∀ k, pending d' k = pending d k) → (∀ k, lease_of d' k = lease_of d k) →
  same_view h d d'.
Proof.
  intros Hh Hp Hl. split; [done|]. intros c Hc. by rewrite !(holds_lease_of h), Hl.
Qed.

(** a change of one unit that frees it, or leaves its lease alone *)
Lemma frame_rows h K d d' :
  canonical h → (∀ k, k ≠ K → pending d' k = pending d k) →
  (∀ k, k ≠ K → lease_of d' k = lease_of d k) →
  (lease_of d' K = Some (None, None) ∨ lease_of d' K = lease_of d K) →
  frame h K d d'.
Proof.
  intros Hh Hp Hl HK. split_and!; [done| |].
  - intros c Hc Hk. by rewrite !(holds_lease_of h), Hl.
  - intros c Hc. rewrite !(holds_lease_of h) by done.
    destruct (decide (cu_Key c = K)) as [->|Hk]; [|by rewrite Hl].
    destruct HK as [->| ->]; [|done]. intros Hx. by b2p.
Qed.

Lemma lease_of_set k w d k' :
  lease_of (set_row k w d) k' =
  if decide (k' = k) then Some (claimed_by w, lease_token w) else lease_of d k'.
Proof.
  unfold lease_of. cbn [set_row work_units]. case_decide as Hk.
  - subst. by rewrite lookup_insert_eq.
  - by rewrite lookup_insert_ne.
Qed.

(** ** The invariant of one primary *)

(** costs are [int], so at most 2^31 calls cannot overflow a [bigint] sum *)
Definition pg_capacity : Z := 2 ^ 31.

Record row_ok (n : Z) (h : gset LeaseToken) (w : wrow) (ts : list trow) : Prop := {
  ro_rows : rows_from (next_seq w + 1 - length ts) ts;
  ro_base : (0 <= next_seq w + 1 - length ts)%Z;
  ro_next : (next_seq w < n)%Z;
  ro_cost : pending_cost w = sum_cost ts;
  ro_costs : Forall (λ t, int4 (t_cost t) = true) ts;
  ro_threshold : (0 < threshold w)%Z;
  ro_work : eligible w = true → ts ≠ [];
  ro_lease : match claimed_by w, lease_token w with
             | Some _, Some tok => tok ∈ h
             | None, None => True
             | _, _ => False
             end;
}.

Record db_ok (n : Z) (h : gset LeaseToken) (d : db) : Prop := {
  do_rows : ∀ k w, work_units d !! k = Some w → row_ok n h w (of_unit k d);
  do_none : ∀ k, work_units d !! k = None → of_unit k d = [];
  do_tenants : ∀ ws t m, tenant_config d !! ws = Some (t, m) → (0 < t)%Z;
}.

Lemma row_ok_mono n n' h h' w ts :
  row_ok n h w ts → (n <= n')%Z → h ⊆ h' → row_ok n' h' w ts.
Proof.
  intros [? ? ? ? ? ? ? Hl] Hn Hh. split; try done; [lia|].
  destruct (claimed_by w), (lease_token w); auto.
Qed.

Lemma db_ok_mono n n' h h' d : db_ok n h d → (n <= n')%Z → h ⊆ h' → db_ok n' h' d.
Proof. intros [Hr ? ?] Hn Hh. split; try done. intros k w Hw. eapply row_ok_mono; eauto. Qed.

Lemma empty_db_ok h tc :
  (∀ ws t m, tc !! ws = Some (t, m) → (0 < t)%Z) → db_ok 0 h (empty_db tc).
Proof. by split. Qed.

(** changing one unit *)
Lemma db_ok_update n n' h h' d d' K w :
  db_ok n h d → (n <= n')%Z → h ⊆ h' → tenant_config d' = tenant_config d →
  (∀ k, k ≠ K → work_units d' !! k = work_units d !! k ∧ of_unit k d' = of_unit k d) →
  work_units d' !! K = Some w → row_ok n' h' w (of_unit K d') →
  db_ok n' h' d'.
Proof.
  intros Hd Hn Hh Ht Hk Hw Hok. split.
  - intros k w' Hw'. destruct (decide (k = K)) as [->|Hne]; [by simplify_eq|].
    destruct (Hk k Hne) as [Hk1 ->]. rewrite Hk1 in Hw'.
    eapply row_ok_mono; [by apply (do_rows _ _ _ Hd)|done..].
  - intros k Hnone. destruct (decide (k = K)) as [->|Hne]; [congruence|].
    destruct (Hk k Hne) as [Hk1 ->]. rewrite Hk1 in Hnone. by apply (do_none _ _ _ Hd).
  - rewrite Ht. apply (do_tenants _ _ _ Hd).
Qed.

Lemma int4_bound x : int4 x = true → (- 2 ^ 31 <= x <= 2 ^ 31 - 1)%Z.
Proof. unfold int4. intros Hx. b2p. lia. Qed.

Lemma sum_cost_bound ts :
  Forall (λ t, int4 (t_cost t) = true) ts →
  (- (2 ^ 31 * length ts) <= sum_cost ts <= 2 ^ 31 * length ts)%Z.
Proof.
  unfold sum_cost. induction 1 as [|t ts Ht _ IH]; [done|].
  rewrite fmap_cons, length_cons. cbn [list_Z_sum]. apply int4_bound in Ht. lia.
Qed.

Lemma row_sum_int8 n h w ts :
  row_ok n h w ts → (n <= pg_capacity)%Z → int8 (sum_cost ts) = true.
Proof.
  intros Hr Hn. pose proof (sum_cost_bound _ (ro_costs _ _ _ _ Hr)).
  pose proof (ro_base _ _ _ _ Hr). pose proof (ro_next _ _ _ _ Hr).
  unfold pg_capacity, int8, int64_min, int64_max in *.
  assert (Z.of_nat (length ts) <= 2 ^ 31)%Z by lia.
  apply andb_true_iff. rewrite !Z.leb_le. lia.
Qed.

(** ** The statements *)

Context (n : Z) (h : gset LeaseToken) (d : db).
Context (Hok : db_ok n h d) (Hn : (0 <= n <= pg_capacity)%Z) (Hcan : canonical h).

Lemma row_lookup k w : work_units d !! k = Some w → row_ok n h w (of_unit k d).
Proof. apply (do_rows _ _ _ Hok). Qed.

Lemma pending_nil k : work_units d !! k = None → pending d k = [].
Proof. intros Hk. cbn [pending db_View]. by rewrite (do_none _ _ _ Hok). Qed.

(** which rows exist, and the tenants' settings, as far as routing is concerned *)
Definition same_shape (K : WorkUnitKey) (d' : db) : Prop :=
  ∀ k, is_Some (work_units d' !! k) → k = K ∨ is_Some (work_units d !! k).

Lemma same_shape_set K w d1 :
  (∀ k, work_units d1 !! k = work_units d !! k) → same_shape K (set_row K w d1).
Proof.
  intros H1 k. cbn [set_row work_units]. destruct (decide (k = K)) as [->|Hk]; [by left|].
  rewrite lookup_insert_ne, H1 by done. by right.
Qed.

Lemma upsert_ok k now t wait cost w ts p :
  ts = of_unit k d → (n < pg_capacity)%Z → (0 < t)%Z → int4 cost = true →
  upsert now t wait cost (work_units d !! k) = Some w →
  row_ok (n + 1) h w (ts ++ [mkTRow k (next_seq w) p cost 0 now]) ∧
  lease_of d k = match work_units d !! k with
                 | Some _ => Some (claimed_by w, lease_token w) | None => None end ∧
  (work_units d !! k = None → claimed_by w = None ∧ lease_token w = None).
Proof.
  intros -> Hlt Ht Hc Hup. unfold lease_of.
  assert (∀ l, sum_cost (l ++ [mkTRow k (next_seq w) p cost 0 now]) = (sum_cost l + cost)%Z) as Hsum.
  { intros l. unfold sum_cost. rewrite fmap_app, list_Z_sum_app. simpl. lia. }
  destruct (work_units d !! k) as [w0|] eqn:Hw; simpl in Hup.
  - destruct (int8 (pending_cost w0 + cost) && int8 (next_seq w0 + 1)); [|done].
    pose proof (row_lookup _ _ Hw) as Hr. injection Hup as <-. split_and!; [|done|done].
    split; simpl.
    + rewrite length_app. unfold rows_from. rewrite fmap_app. apply consecutive_app.
      pose proof (ro_rows _ _ _ _ Hr) as Hrows. unfold rows_from in Hrows.
      replace (next_seq w0 + 1 + 1 - (length (of_unit k d) + length [_])%nat)%Z
        with (next_seq w0 + 1 - length (of_unit k d))%Z by (simpl; lia).
      split; [done|]. rewrite length_fmap. apply consecutive_cons.
      split; [simpl; lia|apply consecutive_nil].
    + rewrite length_app. simpl. pose proof (ro_base _ _ _ _ Hr). lia.
    + pose proof (ro_next _ _ _ _ Hr). lia.
    + by rewrite Hsum, (ro_cost _ _ _ _ Hr).
    + apply Forall_app_2; [apply Hr|by repeat constructor].
    + apply Hr.
    + intros _ Hnil. by apply app_nil in Hnil as [_ ?].
    + apply Hr.
  - injection Hup as <-. rewrite (do_none _ _ _ Hok) by done. split_and!; [|done|done].
    split; simpl; try done; [lia|unfold sum_cost; simpl; lia|by repeat constructor].
Qed.

Lemma enqueue_stmt_spec now k t wait cost p :
  (n < pg_capacity)%Z → (0 < t)%Z →
  match enqueue_stmt now k t wait cost p d with
  | inl _ => True
  | inr (d', q) =>
      db_ok (n + 1) h d' ∧ frame h k d d' ∧ (∀ c, issued h c → holds d' c = holds d c) ∧
      pending d' k = pending d k ++ [mkTask q p cost] ∧ same_shape k d' 
  end.
Proof.
  intros Hlt Ht. unfold enqueue_stmt. destruct (negb _); [done|].
  destruct (upsert _ _ _ _ _) as [w|] eqn:Hup; [|done].
  destruct (int4 cost) eqn:Hc; [|done]. cbn [negb]. destruct (existsb _ _); [done|].
  set (row := mkTRow k (next_seq w) p cost 0 now). set (d' := set_tasks _ _).
  destruct (upsert_ok _ _ _ _ _ _ _ p eq_refl Hlt Ht Hc Hup) as (Hrow & Hl & Hnone).
  assert (∀ k', of_unit k' d' = of_unit k' d ++ if decide (k = k') then [row] else []) as Hof
    by (intros; apply of_unit_snoc).
  assert (work_units d' = <[k := w]> (work_units d)) as Hwu by done.
  assert (tenant_config d' = tenant_config d) as Htc by done. clearbody d'.
  assert (∀ k', k' ≠ k → lease_of d' k' = lease_of d k') as Hlease.
  { intros k' Hk. unfold lease_of. by rewrite Hwu, lookup_insert_ne. }
  assert (lease_of d' k = Some (claimed_by w, lease_token w)) as Hlk.
  { unfold lease_of. by rewrite Hwu, lookup_insert_eq. }
  assert (∀ k', k' ≠ k → pending d' k' = pending d k') as Hp.
  { intros k' Hk. cbn [pending db_View]. by rewrite Hof, decide_False, app_nil_r. }
  assert (lease_of d' k = Some (None, None) ∨ lease_of d' k = lease_of d k) as Hcase.
  { rewrite Hlk, Hl. destruct (work_units d !! k) as [w0|] eqn:Hw; [by right|left].
    by destruct (Hnone eq_refl) as [-> ->]. }
  split_and!.
  - eapply (db_ok_update n (n + 1) h h d d' k w); try done; [lia| |by rewrite Hwu, lookup_insert_eq|].
    + intros k' Hk. by rewrite Hwu, lookup_insert_ne, Hof, decide_False, app_nil_r.
    + by rewrite Hof, decide_True.
  - by apply frame_rows.
  - intros c Hiss. rewrite !(holds_lease_of h) by done.
    destruct (decide (cu_Key c = k)) as [->|Hk]; [|by rewrite Hlease].
    rewrite Hlk, Hl. destruct (work_units d !! k) as [w0|] eqn:Hw; [done|].
    destruct (Hnone eq_refl) as [-> ->]. by rewrite !bool_decide_false.
  - cbn [pending db_View]. by rewrite Hof, decide_True, fmap_app.
  - intros k'. rewrite Hwu. destruct (decide (k' = k)) as [->|Hk]; [by left|].
    rewrite lookup_insert_ne by done. by right.
Qed.

(** changing the row, and possibly the tasks, of one unit, whose lease stays or goes *)
Lemma row_change K w' d' :
  work_units d' = <[K := w']> (work_units d) → tenant_config d' = tenant_config d →
  (∀ k, k ≠ K → of_unit k d' = of_unit k d) → row_ok n h w' (of_unit K d') →
  (claimed_by w' = None ∧ lease_token w' = None ∨
   lease_of d K = Some (claimed_by w', lease_token w')) →
  db_ok n h d' ∧ frame h K d d' ∧ same_shape K d' ∧
  ∀ c, issued h c → cu_Key c = K →
    holds d' c = bool_decide (claimed_by w' = Some (cu_Worker c) ∧ lease_token w' = Some (cu_Lease c)).
Proof.
  intros Hwu Htc Hof Hrow Hl.
  assert (lease_of d' K = Some (claimed_by w', lease_token w')) as HlK.
  { unfold lease_of. by rewrite Hwu, lookup_insert_eq. }
  split_and!.
  - eapply (db_ok_update n n h h d d' K w'); try done; [|by rewrite Hwu, lookup_insert_eq].
    intros k Hk. by rewrite Hwu, lookup_insert_ne, Hof.
  - apply frame_rows; try done.
    + intros k Hk. cbn [pending db_View]. by rewrite Hof.
    + intros k Hk. unfold lease_of. by rewrite Hwu, lookup_insert_ne.
    + rewrite HlK. destruct Hl as [[-> ->]|Hl]; [by left|right; by rewrite Hl].
  - intros k. rewrite Hwu. destruct (decide (k = K)) as [->|Hk]; [by left|].
    rewrite lookup_insert_ne by done. by right.
  - intros c Hc Hk. rewrite (holds_lease_of h) by done. rewrite Hk, HlK.
    apply bool_decide_ext. split; [by intros [= -> ->]|by intros [-> ->]].
Qed.

(** the next deadline first, and no deadline last *)
Definition dl_le (a b : option time) : Prop :=
  match a, b with
  | Some x, Some y => (x <= y)%Z
  | _, None => True
  | None, Some _ => False
  end.

Lemma dl_le_trans a b c : dl_le a b → dl_le b c → dl_le a c.
Proof. destruct a, b, c; simpl; try done. lia. Qed.

Lemma before_dl a b :
  if before a b then dl_le (flush_deadline a.2) (flush_deadline b.2)
  else dl_le (flush_deadline b.2) (flush_deadline a.2).
Proof.
  unfold before. destruct (flush_deadline a.2) as [x|], (flush_deadline b.2) as [y|]; simpl;
    try done; [|by case_match].
  destruct (Z.ltb_spec x y), (Z.eqb_spec x y); simpl; try lia. destruct (key_lt _ _); simpl; lia.
Qed.

Lemma pick_Some l y :
  claimable y.2 = true →
  ∃ z, pick l (Some y) = Some z ∧ (z = y ∨ z ∈ l) ∧ claimable z.2 = true ∧
    dl_le (flush_deadline z.2) (flush_deadline y.2) ∧
    ∀ x, x ∈ l → claimable x.2 = true → dl_le (flush_deadline z.2) (flush_deadline x.2).
Proof.
  revert y. induction l as [|x l IH]; intros y Hy; cbn [pick].
  { exists y. split_and!; [done|by left|done| |by intros x ?%elem_of_nil].
    by destruct (flush_deadline y.2); simpl. }
  destruct (claimable x.2) eqn:Hx.
  - pose proof (before_dl x y) as Hb. destruct (before x y).
    + destruct (IH x Hx) as (z & -> & Hin & Hz & Hzx & Hall). exists z.
      split_and!; [done|right; destruct Hin as [->|]; by constructor|done|by eapply dl_le_trans|].
      intros x' [->|Hx']%elem_of_cons Hc; auto.
    + destruct (IH y Hy) as (z & -> & Hin & Hz & Hzy & Hall). exists z.
      split_and!; [done|destruct Hin; [by left|right; by constructor]|done|done|].
      intros x' [->|Hx']%elem_of_cons Hc; auto. by eapply dl_le_trans.
  - destruct (IH y Hy) as (z & -> & Hin & Hz & Hzy & Hall). exists z.
    split_and!; [done|destruct Hin; [by left|right; by constructor]|done|done|].
    intros x' [->|Hx']%elem_of_cons Hc; [congruence|auto].
Qed.

Lemma pick_spec l :
  match pick l None with
  | Some z => z ∈ l ∧ claimable z.2 = true ∧
      ∀ x, x ∈ l → claimable x.2 = true → dl_le (flush_deadline z.2) (flush_deadline x.2)
  | None => ∀ x, x ∈ l → claimable x.2 = false
  end.
Proof.
  induction l as [|x l IH]; cbn [pick]; [by intros x ?%elem_of_nil|].
  destruct (claimable x.2) eqn:Hx.
  - destruct (pick_Some l x Hx) as (z & -> & Hin & Hz & Hzx & Hall).
    split_and!; [destruct Hin as [->|]; by constructor|done|].
    intros x' [->|Hx']%elem_of_cons Hc; auto.
  - destruct (pick l None) as [z|].
    + destruct IH as (Hin & Hz & Hall). split_and!; [by constructor|done|].
      intros x' [->|Hx']%elem_of_cons Hc; [congruence|auto].
    + intros x' [->|Hx']%elem_of_cons; auto.
Qed.

Lemma claim_stmt_spec now u worker ms :
  uuid_in u = Some u → u ∉ h →
  match claim_stmt now u worker ms d with
  | inl _ => True
  | inr (d', None) => d' = d ∧ ∀ k w, work_units d !! k = Some w → claimable w = false
  | inr (d', Some (k, tok, exp)) =>
      tok = u ∧ exp = (now + interval_ms ms)%Z ∧
      (∃ w, work_units d !! k = Some w ∧ claimable w = true ∧
         ∀ k' w', work_units d !! k' = Some w' → claimable w' = true →
           dl_le (flush_deadline w) (flush_deadline w')) ∧
      db_ok n ({[u]} ∪ h) d' ∧ same_shape k d' ∧
      (∀ k', pending d' k' = pending d k') ∧ pending d k ≠ [] ∧
      holds d' (mkClaimed k worker u exp) = true ∧
      (∀ c, issued h c → cu_Key c = k → holds d c = false) ∧
      (∀ c, issued h c → holds d' c = holds d c)
  end.
Proof.
  intros Hu Hfresh. unfold claim_stmt. destruct (negb _); [done|].
  pose proof (pick_spec (map_to_list (work_units d))) as Hp.
  destruct (pick _ _) as [[k w]|].
  2:{ split; [done|]. intros k w Hw. apply (Hp (k, w)). by apply elem_of_map_to_list. }
  destruct Hp as (Hin & Hcl & Hbest). apply elem_of_map_to_list in Hin. simpl in Hcl, Hbest.
  pose proof (row_lookup _ _ Hin) as Hrow.
  assert (eligible w = true ∧ claimed_by w = None) as [Hel Hfree] by (unfold claimable in Hcl; by b2p).
  assert (lease_token w = None) as Htok.
  { pose proof (ro_lease _ _ _ _ Hrow) as Hl. rewrite Hfree in Hl. by destruct (lease_token w). }
  set (w' := set_lease _ _ _ _ w).
  assert (∀ c, issued h c → cu_Key c = k → holds d c = false) as Hnone.
  { intros c Hc Hk. rewrite (holds_lease_of h) by done. unfold lease_of. rewrite Hk, Hin. simpl.
    rewrite Hfree. by apply bool_decide_false. }
  assert (canonical ({[u]} ∪ h)) as Hcan'.
  { intros tok [->%elem_of_singleton|Ht]%elem_of_union; auto. }
  split_and!; try done.
  - exists w. split_and!; try done. intros k' w1 Hw1. apply (Hbest (k', w1)).
    by apply elem_of_map_to_list.
  - eapply (db_ok_update n n h _ d _ k w'); try done; [set_solver| | |].
    + intros k' Hk. split; [|done]. simpl. by rewrite lookup_insert_ne.
    + simpl. by rewrite lookup_insert_eq.
    + destruct Hrow. split; try done. simpl. set_solver.
  - by apply same_shape_set.
  - cbn [pending db_View]. intros Hnil. apply fmap_nil_inv in Hnil.
    by apply (ro_work _ _ _ _ Hrow).
  - rewrite (holds_lease_of ({[u]} ∪ h)) by (done || unfold issued; simpl; set_solver).
    rewrite lease_of_set. simpl. rewrite decide_True by done. by apply bool_decide_true.
  - intros c Hc. destruct (decide (cu_Key c = k)) as [Hk|Hk].
    + rewrite Hnone by done. rewrite (holds_lease_of h), lease_of_set, decide_True by done.
      apply bool_decide_false. simpl. intros [= _ Heq]. apply Hfresh. rewrite Heq. done.
    + by rewrite !(holds_lease_of h), lease_of_set, decide_False.
Qed.

Lemma check_stmt_spec c :
  issued h c → check_stmt c d = inr (d, holds d c).
Proof.
  intros Hc. unfold check_stmt. cbn [holds db_View].
  rewrite (leased_row_issued h) by done. by destruct (work_units d !! cu_Key c) as [w|];
    [destruct (leased _ _ _)|].
Qed.

Lemma unit_rows_from k : ∃ b, rows_from b (of_unit k d).
Proof.
  destruct (work_units d !! k) as [w|] eqn:Hw.
  - eexists. apply (row_lookup _ _ Hw).
  - exists 0%Z. by rewrite (do_none _ _ _ Hok).
Qed.

Lemma drain_stmt_spec k max :
  (0 <= max)%Z → drain_stmt k max d = inr (d, take (Z.to_nat max) (pending d k)).
Proof.
  intros Hm. unfold drain_stmt. rewrite (proj2 (Z.ltb_ge _ _)) by done.
  destruct (unit_rows_from k) as [b Hb]. rewrite (sort_rows b) by done.
  by rewrite fmap_take.
Qed.

Lemma aged_some now o : aged now o = true → is_Some o.
Proof. by destruct o. Qed.

(** what is left of a unit whose first rows are gone, with a recomputed gate *)
Lemma row_ok_rest w ts now by_ tok ms exp pc b :
  row_ok n h w (of_unit (b : WorkUnitKey) d) →
  (∃ i : nat, rows_from (next_seq w + 1 - length (of_unit b d) + i) ts ∧
     (next_seq w + 1 - length (of_unit b d) + i + length ts = next_seq w + 1)%Z) →
  pc = sum_cost ts → Forall (λ t, int4 (t_cost t) = true) ts →
  match by_, tok with Some _, Some t => t ∈ h | None, None => True | _, _ => False end →
  row_ok n h
    (mkRow pc (next_seq w) (threshold w) (max_wait_ms w)
       ((threshold w <=? pc)%Z || aged now (flush_at w (sql_min (t_enqueued_at <$> ts))))
       by_ tok ms exp (sql_min (t_enqueued_at <$> ts))
       (flush_at w (sql_min (t_enqueued_at <$> ts)))) ts.
Proof.
  intros Hrow (i & Hr & Hi) -> Hc Hl. pose proof (ro_base _ _ _ _ Hrow).
  split; simpl; [|lia|apply Hrow|done|done|apply Hrow| |by destruct by_, tok].
  - by replace (next_seq w + 1 - length ts)%Z
      with (next_seq w + 1 - length (of_unit b d) + i)%Z by lia.
  - intros Hel ->. pose proof (ro_threshold _ _ _ _ Hrow). unfold sum_cost in Hel. simpl in Hel.
    by rewrite (proj2 (Z.leb_gt _ _)) in Hel by lia.
Qed.

Lemma ack_stmt_spec now c q :
  issued h c → holds d c = true →
  ∃ d' keep, ack_stmt now c q d = inr (d', Some keep) ∧
    db_ok n h d' ∧ frame h (cu_Key c) d d' ∧ same_shape (cu_Key c) d' ∧
    pending d' (cu_Key c) = drop_while (through q) (pending d (cu_Key c)) ∧
    holds d' c = keep.
Proof.
  intros Hc Hh. destruct (holds_row h c d Hcan Hc Hh) as (w & Hw & _ & Hby & Htok).
  pose proof (row_lookup _ _ Hw) as Hrow. unfold ack_stmt. rewrite (Hcan _ Hc), Hw.
  set (k := cu_Key c) in *. cbv zeta.
  assert (pending_cost w - sum_cost (acked_rows k q d) = sum_cost (left_rows k q d))%Z as ->.
  { rewrite (ro_cost _ _ _ _ Hrow), (sum_cost_split (λ t, (t_seq t <= q)%Z)).
    unfold acked_rows, left_rows. lia. }
  set (ts := left_rows k q d).
  set (keep := (threshold w <=? sum_cost ts)%Z || aged now (flush_at w (sql_min (t_enqueued_at <$> ts)))).
  assert (∀ by_ tok ms exp,
    match by_, tok with Some _, Some t => t ∈ h | None, None => True | _, _ => False end →
    row_ok n h (mkRow (sum_cost ts) (next_seq w) (threshold w) (max_wait_ms w) keep by_ tok ms exp
      (sql_min (t_enqueued_at <$> ts)) (flush_at w (sql_min (t_enqueued_at <$> ts)))) ts) as Hok'.
  { intros by_ tok ms exp Hl. eapply row_ok_rest; try done.
    - destruct (left_rows_from _ _ q (ro_rows _ _ _ _ Hrow)) as (i & Hr & Hi).
      exists i. split; [done|]. unfold ts, left_rows. rewrite Hi. lia.
    - apply Forall_filter, (ro_costs _ _ _ _ Hrow). }
  rewrite (row_sum_int8 n h _ ts (Hok' None None None None I)) by lia.
  set (w' := mkRow _ _ _ _ _ _ _ _ _ _ _). set (d' := set_row _ _ _).
  assert (∀ k', of_unit k' d' = if decide (k' = k) then ts else of_unit k' d) as Hof.
  { intros k'. unfold of_unit, d', delete_through, ts, left_rows. simpl.
    rewrite filter_unit. by case_decide. }
  destruct (row_change k w' d') as (H1 & H2 & H3 & H4); try done.
  - intros k' Hk. by rewrite Hof, decide_False.
  - rewrite Hof, decide_True by done. apply Hok'. destruct keep; [|done]. apply Hc.
  - unfold lease_of. fold k. rewrite Hw. simpl. rewrite Hby, Htok. destruct keep; auto.
  - exists d', keep. split_and!; try done.
    + cbn [pending db_View]. rewrite Hof, decide_True by done.
      destruct (unit_rows_from k) as [b Hb]. by apply (left_rows_drop b).
    + rewrite H4 by done. simpl. destruct keep; [by apply bool_decide_true|apply bool_decide_false; by intros []].
Qed.

(** a change of the row alone *)
Lemma row_only w w' c :
  issued h c → work_units d !! cu_Key c = Some w →
  pending_cost w' = pending_cost w → next_seq w' = next_seq w →
  threshold w' = threshold w → eligible w' = eligible w →
  (claimed_by w' = None ∧ lease_token w' = None ∨
   claimed_by w' = claimed_by w ∧ lease_token w' = lease_token w) →
  let d' := set_row (cu_Key c) w' d in
  db_ok n h d' ∧ frame h (cu_Key c) d d' ∧ same_shape (cu_Key c) d' ∧
  (∀ k, pending d' k = pending d k) ∧
  (claimed_by w' = None → holds d' c = false) ∧
  (claimed_by w' = claimed_by w ∧ lease_token w' = lease_token w → same_view h d d').
Proof.
  intros Hc Hw Hpc Hns Ht He Hl d'. pose proof (row_lookup _ _ Hw) as Hrow.
  destruct (row_change (cu_Key c) w' d') as (H1 & H2 & H3 & H4); try done.
  - change (of_unit (cu_Key c) d') with (of_unit (cu_Key c) d).
    destruct Hrow as [? ? ? ? ? ? ? Hlease]. split; rewrite ?Hpc, ?Hns, ?Ht, ?He; try done.
    by destruct Hl as [[-> ->]|[-> ->]].
  - unfold lease_of. rewrite Hw. simpl. destruct Hl as [[-> ->]|[-> ->]]; auto.
  - split_and!; try done.
    + intros Hnone. rewrite H4, Hnone by done. apply bool_decide_false. by intros [].
    + intros [Hcb Htok]. apply same_view_rows; try done. intros k. unfold d'.
      rewrite lease_of_set. case_decide as Hk; [|done]. unfold lease_of.
      by rewrite Hk, Hw, Hcb, Htok.
Qed.

Lemma release_stmt_spec c :
  issued h c →
  ∃ d', release_stmt c d = inr (d', if holds d c then 1%Z else 0%Z) ∧
    db_ok n h d' ∧ same_shape (cu_Key c) d' ∧
    if holds d c then
      frame h (cu_Key c) d d' ∧ (∀ k, pending d' k = pending d k) ∧ holds d' c = false
    else d' = d.
Proof.
  intros Hc. unfold release_stmt, update_leased. destruct (holds d c) eqn:Hh.
  - destruct (holds_row h c d Hcan Hc Hh) as (w & Hw & -> & _).
    destruct (row_only w (free w) c) as (H1 & H2 & H3 & H4 & H5 & _); try done; [by left|].
    eexists. split_and!; [done|..]; auto.
  - rewrite (not_holds_row h) by done. exists d. split_and!; try done. by intros k; right.
Qed.

Lemma heartbeat_stmt_spec now c ms :
  issued h c →
  match heartbeat_stmt now c ms d with
  | inl _ => True
  | inr (d', r) => db_ok n h d' ∧ same_shape (cu_Key c) d' ∧ same_view h d d' ∧
      r = if holds d c then 1%Z else 0%Z
  end.
Proof.
  intros Hc. unfold heartbeat_stmt, update_leased. destruct (negb _); [done|].
  destruct (holds d c) eqn:Hh.
  - destruct (holds_row h c d Hcan Hc Hh) as (w & Hw & -> & _).
    destruct (row_only w (set_lease (claimed_by w) (lease_token w) (Some ms)
      (Some (now + interval_ms ms)%Z) w) c) as (H1 & H2 & H3 & H4 & _ & H6); try done; [by right|].
    split_and!; [done..|by apply H6|done].
  - rewrite (not_holds_row h) by done. split_and!; try done. by intros k; right.
Qed.

(** *** Fail *)

Lemma bump_fields k q t :
  t_key (bump k q t) = t_key t ∧ t_seq (bump k q t) = t_seq t ∧ t_cost (bump k q t) = t_cost t.
Proof. unfold bump. by case_bool_decide. Qed.

Lemma to_task_bumps k q (ts : list trow) : to_task <$> (bump k q <$> ts) = to_task <$> ts.
Proof. rewrite <- list_fmap_compose. apply list_fmap_ext. intros. apply to_task_bump. Qed.

Lemma attempt_stmt_spec k q :
  match attempt_stmt k q d with
  | inl _ => True
  | inr (d', None) => d' = d ∧ ∀ t, t ∈ of_unit k d → t_seq t ≠ q
  | inr (d', Some (a, cost)) =>
      db_ok n h d' ∧ work_units d' = work_units d ∧ same_view h d d' ∧
      dead_letters d' = dead_letters d ∧
      ∃ t, t ∈ of_unit k d ∧ t_seq t = q ∧ t_cost t = cost ∧ a = (t_attempts t + 1)%Z
  end.
Proof.
  unfold attempt_stmt. destruct (filter _ _) as [|t ts] eqn:Hf.
  { split; [done|]. intros t Ht Hq. assert (t ∈ filter (λ t, t_seq t = q) (of_unit k d)) as Hin
      by (by apply list_elem_of_filter). rewrite Hf in Hin. by apply elem_of_nil in Hin. }
  destruct (int4 _); [|done]. set (d' := set_tasks _ d).
  assert (∀ k', of_unit k' d' = bump k q <$> of_unit k' d) as Hof.
  { intros k'. apply of_unit_fmap. intros. apply bump_fields. }
  assert (∀ k', pending d' k' = pending d k') as Hp.
  { intros k'. cbn [pending db_View]. by rewrite Hof, to_task_bumps. }
  split_and!.
  - split.
    + intros k' w Hw. pose proof (row_lookup _ _ Hw) as [? ? ? Hc Hcs ? Hne ?].
      rewrite Hof. split; rewrite ?length_fmap; try done.
      * unfold rows_from in *. by rewrite to_task_bumps.
      * by rewrite Hc, !sum_cost_total, to_task_bumps.
      * apply Forall_fmap. eapply Forall_impl; [done|]. intros x Hx. simpl.
        by destruct (bump_fields k q x) as (_ & _ & ->).
      * intros He Hnil. by apply fmap_nil_inv in Hnil; apply Hne.
    + intros k' Hw. by rewrite Hof, (do_none _ _ _ Hok).
    + apply (do_tenants _ _ _ Hok).
  - done.
  - by apply same_view_rows.
  - done.
  - exists t. assert (t ∈ filter (λ t, t_seq t = q) (of_unit k d)) as Hin
      by (rewrite Hf; by constructor). apply list_elem_of_filter in Hin as [? ?]. by split_and!.
Qed.

Lemma head_stmt_spec k t ts :
  of_unit k d = t :: ts → head_stmt k d = inr (d, t_seq t).
Proof.
  intros Hk. unfold head_stmt. destruct (unit_rows_from k) as [b Hb]. rewrite Hk in *.
  by rewrite (sql_min_head b).
Qed.

Lemma bury_stmt_spec now c reason t ts w :
  issued h c → work_units d !! cu_Key c = Some w → of_unit (cu_Key c) d = t :: ts →
  ∃ d', bury_stmt now (cu_Key c) (t_seq t) reason (t_cost t) d = inr (d', tt) ∧
    db_ok n h d' ∧ frame h (cu_Key c) d d' ∧ same_shape (cu_Key c) d' ∧
    pending d' (cu_Key c) = to_task <$> ts ∧ holds d' c = false ∧
    dead_letters d' = dead_letters d ++ [mkDRow t now reason].
Proof.
  intros Hc Hw Hk. pose proof (row_lookup _ _ Hw) as Hrow. set (k := cu_Key c) in *.
  pose proof (ro_rows _ _ _ _ Hrow) as Hrows. rewrite Hk in Hrows.
  destruct (head_rows _ _ _ Hrows) as [Hmoved Hrest].
  unfold bury_stmt. rewrite Hk, Hmoved, Hrest, Hw. cbv zeta.
  assert (pending_cost w - t_cost t = sum_cost ts)%Z as ->.
  { rewrite (ro_cost _ _ _ _ Hrow), Hk. unfold sum_cost. rewrite fmap_cons.
    cbn [list_Z_sum]. lia. }
  assert (∀ ms, row_ok n h
    (mkRow (sum_cost ts) (next_seq w) (threshold w) (max_wait_ms w)
       ((threshold w <=? sum_cost ts)%Z || aged now (flush_at w (sql_min (t_enqueued_at <$> ts))))
       None None ms None (sql_min (t_enqueued_at <$> ts))
       (flush_at w (sql_min (t_enqueued_at <$> ts)))) ts) as Hok'.
  { intros ms. eapply row_ok_rest; try done.
    - exists 1. rewrite Hk. apply rows_from_cons in Hrows as [_ Hrows]. simpl length in *.
      split; [|lia]. by replace (next_seq w + 1 - S (length ts) + 1%nat)%Z
        with (next_seq w + 1 - S (length ts) + 1)%Z by lia.
    - pose proof (ro_costs _ _ _ _ Hrow) as Hcs. rewrite Hk in Hcs. by inversion Hcs. }
  rewrite (row_sum_int8 n h _ ts (Hok' None)) by lia.
  set (w' := mkRow _ _ _ _ _ _ _ _ _ _ _). set (d' := set_row _ _ _).
  assert (∀ k', of_unit k' d' = if decide (k' = k) then ts else of_unit k' d) as Hof.
  { intros k'. unfold of_unit, d'. simpl. rewrite filter_unit. case_decide; [|done].
    subst k'. fold (of_unit k d). by rewrite Hk. }
  destruct (row_change k w' d') as (H1 & H2 & H3 & H4); try done.
  - intros k' Hk'. by rewrite Hof, decide_False.
  - rewrite Hof, decide_True by done. apply Hok'.
  - by left.
  - exists d'. split_and!; try done.
    + cbn [pending db_View]. by rewrite Hof, decide_True.
    + rewrite H4 by done. apply bool_decide_false. by intros [].
Qed.

Lemma unlease_stmt_spec c w :
  issued h c → work_units d !! cu_Key c = Some w →
  ∃ d', unlease_stmt (cu_Key c) d = inr (d', tt) ∧
    db_ok n h d' ∧ frame h (cu_Key c) d d' ∧ same_shape (cu_Key c) d' ∧
    (∀ k, pending d' k = pending d k) ∧ holds d' c = false ∧ dead_letters d' = dead_letters d.
Proof.
  intros Hc Hw. unfold unlease_stmt. rewrite Hw.
  destruct (row_only w (free w) c) as (H1 & H2 & H3 & H4 & H5 & _); try done; [by left|].
  eexists. split_and!; [done|..]; auto.
Qed.

(** *** The reaper *)

Lemma update_where_spec (p : wrow → bool) f :
  (∀ w, p w = true →
     pending_cost (f w) = pending_cost w ∧ next_seq (f w) = next_seq w ∧
     threshold (f w) = threshold w ∧
     (eligible (f w) = true → eligible w = true ∨ (0 < pending_cost w)%Z) ∧
     (claimed_by (f w) = None ∧ lease_token (f w) = None ∨
      claimed_by (f w) = claimed_by w ∧ lease_token (f w) = lease_token w)) →
  ∃ d' r, update_where p f d = inr (d', r) ∧ db_ok n h d' ∧
    (∀ k, is_Some (work_units d' !! k) → is_Some (work_units d !! k)) ∧
    (∀ k, pending d' k = pending d k) ∧ no_revival h d d'.
Proof.
  intros Hf. eexists _, _. split; [done|]. set (d' := mkDb _ _ _ _).
  assert (∀ k, work_units d' !! k = (λ w, if p w then f w else w) <$> work_units d !! k) as Hk
    by (intros; apply lookup_fmap).
  split_and!.
  - split; [|intros k Hw; apply (do_none _ _ _ Hok); rewrite Hk in Hw; by apply fmap_None in Hw
      |apply (do_tenants _ _ _ Hok)].
    intros k w' Hw'. rewrite Hk in Hw'. apply fmap_Some_1 in Hw' as (w & Hw & ->).
    pose proof (row_lookup _ _ Hw) as Hrow. change (of_unit k d') with (of_unit k d).
    destruct (p w) eqn:Hp; [|done]. destruct (Hf w Hp) as (E1 & E2 & E3 & E4 & E5).
    destruct Hrow as [? ? ? Hc ? ? Hne Hl]. split; rewrite ?E1, ?E2, ?E3; try done.
    + intros He. destruct (E4 He) as [He'|Hpos]; [by apply Hne|]. intros Hnil.
      rewrite Hc, Hnil in Hpos. done.
    + by destruct E5 as [[-> ->]|[-> ->]].
  - intros k. rewrite Hk. by rewrite fmap_is_Some.
  - done.
  - intros c Hc. rewrite !(holds_lease_of h) by done. unfold lease_of. rewrite Hk.
    destruct (work_units d !! cu_Key c) as [w|]; [|done]. simpl. destruct (p w) eqn:Hp; [|done].
    destruct (Hf w Hp) as (_ & _ & _ & _ & [[-> ->]|[-> ->]]); [|done]. intros Hx. by b2p.
Qed.

Lemma reclaim_stmt_spec now :
  ∃ d' r, reclaim_stmt now d = inr (d', r) ∧ db_ok n h d' ∧
    (∀ k, is_Some (work_units d' !! k) → is_Some (work_units d !! k)) ∧
    (∀ k, pending d' k = pending d k) ∧ no_revival h d d'.
Proof. apply update_where_spec. intros w _. simpl. split_and!; auto. Qed.

Lemma flush_stmt_spec now :
  ∃ d' r, flush_stmt now d = inr (d', r) ∧ db_ok n h d' ∧
    (∀ k, is_Some (work_units d' !! k) → is_Some (work_units d !! k)) ∧
    (∀ k, pending d' k = pending d k) ∧ no_revival h d d'.
Proof.
  apply update_where_spec. intros w Hp. unfold flushable in Hp. b2p. simpl. split_and!; auto.
Qed.
End primary.

(** ** The shards together *)

Section sharded.
Context `{PgService}.

#[export] Instance pg_View : View Backend := {|
  pending b k := match shards b !! route b k with Some d => pending d k | None => [] end;
  holds b c := match shards b !! route b (cu_Key c) with Some d => holds d c | None => false end;
|}.

Record pg_ok (n : Z) (h : gset LeaseToken) (b : Backend) : Prop := {
  po_len : 0 < length (shards b);
  po_width : (length (shards b) < 2 ^ 32)%Z;
  po_db : ∀ j d, shards b !! j = Some d → db_ok n h d;
  po_route : ∀ j d k, shards b !! j = Some d → is_Some (work_units d !! k) → route b k = j;
  po_default : (0 < defT b)%Z;
  po_cache : ∀ ws t m, cache b !! ws = Some (t, m) → (0 < t)%Z;
  po_rr : (0 <= rr b <= n)%Z;
  po_canonical : canonical h;
  po_n : (0 <= n <= pg_capacity)%Z;
}.

Lemma pg_ok_mono n n' h h' b :
  pg_ok n h b → (n <= n' <= pg_capacity)%Z → h ⊆ h' → canonical h' → pg_ok n' h' b.
Proof.
  intros [? ? Hdb ? ? ? ? ? ?] Hn Hh Hc. split; try done; [|lia|lia].
  intros j d Hj. eapply db_ok_mono; [by eapply Hdb|lia|done].
Qed.

Lemma pg_shard n h b k : pg_ok n h b → ∃ d, shards b !! route b k = Some d.
Proof.
  intros Hb. apply lookup_lt_is_Some. unfold route.
  apply shard_index_lt; [apply (po_len _ _ _ Hb)|apply (po_width _ _ _ Hb)].
Qed.

Lemma route_set j d b k : route (set_shard j d b) k = route b k.
Proof. unfold route, set_shard. simpl. by rewrite length_insert. Qed.

Lemma set_shard_same j d b : shards b !! j = Some d → set_shard j d b = b.
Proof. intros Hj. unfold set_shard. rewrite list_insert_id by done. by destruct b. Qed.

Lemma pending_set j d d' b k :
  shards b !! j = Some d →
  pending (set_shard j d' b) k = if decide (route b k = j) then pending d' k else pending b k.
Proof.
  intros Hj. cbn [pending pg_View]. rewrite route_set. simpl. case_decide as Hr.
  - subst j. rewrite list_lookup_insert_eq; [done|]. by eapply lookup_lt_Some.
  - by rewrite list_lookup_insert_ne.
Qed.

Lemma holds_set j d d' b c :
  shards b !! j = Some d →
  holds (set_shard j d' b) c = if decide (route b (cu_Key c) = j) then holds d' c else holds b c.
Proof.
  intros Hj. cbn [holds pg_View]. rewrite route_set. simpl. case_decide as Hr.
  - subst j. rewrite list_lookup_insert_eq; [done|]. by eapply lookup_lt_Some.
  - by rewrite list_lookup_insert_ne.
Qed.

Lemma pending_shard j d b k : shards b !! j = Some d → route b k = j → pending b k = pending d k.
Proof. intros Hj <-. cbn [pending pg_View]. by rewrite Hj. Qed.

Lemma holds_shard j d b c :
  shards b !! j = Some d → route b (cu_Key c) = j → holds b c = holds d c.
Proof. intros Hj <-. cbn [holds pg_View]. by rewrite Hj. Qed.

(** what holds of the tables of one shard holds of the whole *)
Lemma pg_set n n' h h' b j d d' :
  pg_ok n h b → shards b !! j = Some d → (n <= n' <= pg_capacity)%Z → h ⊆ h' → canonical h' →
  db_ok n' h' d' → (∀ k, is_Some (work_units d' !! k) → route b k = j) →
  pg_ok n' h' (set_shard j d' b).
Proof.
  intros Hb Hj Hn Hh Hc Hd Hr. pose proof (pg_ok_mono _ _ _ _ _ Hb Hn Hh Hc) as Hb'.
  destruct Hb' as [? ? Hdb Hroute ? ? ? ? ?].
  split; try done; [by cbn [set_shard shards]; rewrite length_insert..| |].
  - intros i x [(-> & <- & _)|[Hne Hi]]%list_lookup_insert_Some; [done|by eapply Hdb].
  - intros i x k [(-> & <- & _)|[Hne Hi]]%list_lookup_insert_Some Hk; rewrite route_set;
      [by apply Hr|by eapply Hroute].
Qed.

Lemma same_shape_route n h b j d d' K :
  pg_ok n h b → shards b !! j = Some d → route b K = j → same_shape d K d' →
  ∀ k, is_Some (work_units d' !! k) → route b k = j.
Proof.
  intros Hb Hj HK Hs k Hk. destruct (Hs k Hk) as [->|Hk']; [done|].
  by eapply (po_route _ _ _ Hb).
Qed.

Lemma lift_frame h K b j d d' :
  shards b !! j = Some d → route b K = j → frame h K d d' → frame h K b (set_shard j d' b).
Proof.
  intros Hj HK (Hp & Hh & Hr). split_and!.
  - intros k Hk. rewrite (pending_set j d) by done. case_decide as Hx; [|done].
    rewrite Hp by done. by rewrite (pending_shard j d).
  - intros c Hc Hk. rewrite (holds_set j d) by done. case_decide as Hx; [|done].
    rewrite Hh by done. by rewrite (holds_shard j d).
  - intros c Hc. rewrite (holds_set j d) by done. case_decide as Hx; [|done].
    rewrite (holds_shard j d) by done. by apply Hr.
Qed.

Lemma lift_same_view h b j d d' :
  shards b !! j = Some d → same_view h d d' → same_view h b (set_shard j d' b).
Proof.
  intros Hj (Hp & Hh). split.
  - intros k. rewrite (pending_set j d) by done. case_decide as Hx; [|done].
    rewrite Hp. by rewrite (pending_shard j d).
  - intros c Hc. rewrite (holds_set j d) by done. case_decide as Hx; [|done].
    rewrite Hh by done. by rewrite (holds_shard j d).
Qed.

(** ** The laws *)

Lemma exec_quiet e {A} (f : time → stmt A) i d :
  quiet e →
  exec e f (i, d) = match f (env_now e i) d with
    | inl msg => ((Datatypes.S i, d), Err (ErrDriver msg))
    | inr (d', a) => ((Datatypes.S i, d'), Ok a)
    end.
Proof. intros Hq. unfold exec. by rewrite Hq. Qed.

Lemma routed_run {A} k (p : prog A) b d i d' r :
  shards b !! route b k = Some d → p (0, d) = ((i, d'), r) →
  routed k p b = (set_shard (route b k) d' b, r).
Proof. intros Hd Hp. unfold routed, on_shard. by rewrite Hd, Hp. Qed.

Section op.
Context (n : Z) (h : gset LeaseToken) (b : Backend) (e : Env).
Context (Hb : pg_ok n h b) (Hq : quiet e).

Lemma pg_keep c d d' :
  shards b !! route b (cu_Key c) = Some d → db_ok n h d' → same_shape d (cu_Key c) d' →
  pg_ok n h (set_shard (route b (cu_Key c)) d' b).
Proof.
  intros Hd Hok Hs. eapply pg_set; try done; [split; [lia|apply Hb]|apply Hb|].
  by eapply same_shape_route.
Qed.

Lemma checkLease_run c d i :
  shards b !! route b (cu_Key c) = Some d → issued h c →
  checkLease e c (i, d) =
    ((Datatypes.S i, d), if holds d c then Ok tt else Err ErrLeaseLost).
Proof.
  intros Hd Hc. unfold checkLease, mbind, prog_bind. rewrite exec_quiet by done.
  rewrite (check_stmt_spec h) by (done || apply Hb). by destruct (holds d c).
Qed.

Lemma pg_drain_law c max :
  issued h c → (0 < max)%Z →
  Drain e c max b =
    (b, if holds b c then Ok (take (Z.to_nat max) (pending b (cu_Key c))) else Err ErrLeaseLost).
Proof.
  intros Hc Hm. destruct (pg_shard n h b (cu_Key c) Hb) as [d Hd].
  pose proof (po_db _ _ _ Hb _ _ Hd) as Hok.
  rewrite (holds_shard _ d b c), (pending_shard _ d) by done.
  unfold Drain. destruct (holds d c) eqn:Hh.
  - erewrite routed_run; [|done|].
    2:{ unfold mbind, prog_bind. rewrite (checkLease_run c d), Hh by done.
        rewrite exec_quiet by done. by rewrite (drain_stmt_spec n h) by (done || lia). }
    by rewrite set_shard_same.
  - erewrite routed_run; [|done|].
    2:{ unfold mbind, prog_bind. by rewrite (checkLease_run c d), Hh by done. }
    by rewrite set_shard_same.
Qed.

Lemma routed_tx {A} k (body : time → prog A) d j d' r :
  shards b !! route b k = Some d →
  body (env_now e 0) (1, d) = ((j, d'), r) →
  routed k (transaction e body) b =
    match r with Ok a => (set_shard (route b k) d' b, Ok a) | r => (b, r) end.
Proof.
  intros Hd Hr. unfold routed, on_shard, transaction. rewrite Hd, Hq, Hr.
  destruct r; [by rewrite Hq|by rewrite set_shard_same..].
Qed.

Lemma pg_ack_law c q :
  issued h c →
  let r := Ack e c q b in
  pg_ok n h r.1 ∧
  if holds b c then
    frame h (cu_Key c) b r.1 ∧
    pending r.1 (cu_Key c) = drop_while (through q) (pending b (cu_Key c)) ∧
    r.2 = Ok (holds r.1 c)
  else same_view h b r.1 ∧ r.2 = Err ErrLeaseLost.
Proof.
  intros Hc. destruct (pg_shard n h b (cu_Key c) Hb) as [d Hd].
  pose proof (po_db _ _ _ Hb _ _ Hd) as Hok.
  rewrite (holds_shard _ d b c), (pending_shard _ d) by done.
  unfold Ack. destruct (holds d c) eqn:Hh.
  - destruct (ack_stmt_spec n h d Hok (po_n _ _ _ Hb) (po_canonical _ _ _ Hb)
      (env_now e 0) c q Hc Hh) as (d' & keep & Hst & H1 & H2 & H3 & H4 & H5).
    erewrite routed_tx; [|exact Hd|].
    2:{ unfold mbind, prog_bind, tx_exec. rewrite (checkLease_run c d), Hh by done.
        rewrite exec_quiet by done. rewrite Hst. done. }
    cbn [fst snd]. split_and!.
    + by eapply pg_keep.
    + by eapply lift_frame.
    + rewrite (pending_set _ d), decide_True by done. done.
    + by rewrite (holds_set _ d), decide_True, H5 by done.
  - erewrite routed_tx; [|exact Hd|].
    2:{ unfold mbind, prog_bind. rewrite (checkLease_run c d), Hh by done. done. }
    cbn [fst snd]. split_and!; auto with plq.
Qed.

Lemma pg_release_law c :
  issued h c →
  let r := Release e c b in
  pg_ok n h r.1 ∧
  if holds b c then
    frame h (cu_Key c) b r.1 ∧ pending r.1 (cu_Key c) = pending b (cu_Key c) ∧
    holds r.1 c = false ∧ r.2 = Ok tt
  else same_view h b r.1 ∧ r.2 = Err ErrLeaseLost.
Proof.
  intros Hc. destruct (pg_shard n h b (cu_Key c) Hb) as [d Hd].
  pose proof (po_db _ _ _ Hb _ _ Hd) as Hok.
  rewrite (holds_shard _ d b c), (pending_shard _ d) by done.
  destruct (release_stmt_spec n h d Hok (po_canonical _ _ _ Hb) c Hc)
    as (d' & Hst & H1 & H2 & H3).
  destruct (holds d c); unfold Release; (erewrite routed_run; [|exact Hd|
    unfold affected, mbind, prog_bind; rewrite exec_quiet by done; rewrite Hst; reflexivity]);
    cbn [fst snd].
  - destruct H3 as (Hf & Hp & Hh). split_and!.
    + by eapply pg_keep.
    + by eapply lift_frame.
    + rewrite (pending_set _ d), decide_True by done. done.
    + by rewrite (holds_set _ d), decide_True by done.
    + done.
  - subst d'. rewrite set_shard_same by done. by split_and!; auto with plq.
Qed.

Lemma pg_heartbeat_law c x :
  issued h c →
  let r := Heartbeat e c x b in
  pg_ok n h r.1 ∧ same_view h b r.1 ∧
  match r.2 with
  | Ok _ => holds b c = true
  | Err ErrLeaseLost => holds b c = false
  | Err _ => True
  | Panic => False
  end.
Proof.
  intros Hc. destruct (pg_shard n h b (cu_Key c) Hb) as [d Hd].
  pose proof (po_db _ _ _ Hb _ _ Hd) as Hok. rewrite (holds_shard _ d b c) by done.
  pose proof (heartbeat_stmt_spec n h d Hok (po_canonical _ _ _ Hb) (env_now e 0) c
    (Milliseconds x) Hc) as Hst.
  unfold Heartbeat.
  destruct (heartbeat_stmt _ _ _ _) as [msg|[d' r]] eqn:Hrun.
  - erewrite routed_run; [|exact Hd|unfold affected, mbind, prog_bind;
      rewrite exec_quiet by done; rewrite Hrun; reflexivity].
    cbn [fst snd]. rewrite set_shard_same by done. split_and!; auto with plq.
  - destruct Hst as (H1 & H2 & H3 & ->).
    destruct (holds d c); (erewrite routed_run; [|exact Hd|unfold affected, mbind, prog_bind;
      rewrite exec_quiet by done; rewrite Hrun; reflexivity]); cbn [fst snd];
      (split; [by eapply pg_keep|split; [by eapply lift_same_view|done]]).
Qed.

(** what a committed failure report did to the shard [d]: the head of the unit may have
    become its next dead letter *)
Definition failed (c : ClaimedUnit) (q : Z) (d d' : db) : Prop :=
  db_ok n h d' ∧ frame h (cu_Key c) d d' ∧ same_shape d (cu_Key c) d' ∧ holds d' c = false ∧
  ((pending d' (cu_Key c) = pending d (cu_Key c) ∧ dead_letters d' = dead_letters d) ∨
   ∃ t ts now reason, pending d (cu_Key c) = to_task t :: ts ∧ t_seq t = q ∧ t_key t = cu_Key c ∧
     pending d' (cu_Key c) = ts ∧ dead_letters d' = dead_letters d ++ [mkDRow t now reason]).

Definition fail_ends (c : ClaimedUnit) (q : Z) (d : db) (x : nat * db * res ()) : Prop :=
  match x.2 with
  | Ok _ => failed c q d x.1.2
  | Err (ErrDriver _) => True
  | _ => False
  end.

(** the report that only frees the unit *)
Lemma unlease_run c q d d1 i w :
  issued h c → work_units d !! cu_Key c = Some w → db_ok n h d1 → work_units d1 = work_units d →
  same_view h d d1 → dead_letters d1 = dead_letters d →
  fail_ends c q d (exec e (λ _ : time, unlease_stmt (cu_Key c)) (i, d1)).
Proof.
  intros Hc Hw Hok1 Hw1 Hs1 Hdl. rewrite exec_quiet by done.
  destruct (unlease_stmt_spec n h d1 Hok1 (po_canonical _ _ _ Hb) c w Hc)
    as (d' & Hst & H1 & H2 & H3 & H4 & H5 & H6); [by rewrite Hw1|].
  rewrite Hst. unfold fail_ends, failed. cbn [fst snd]. split_and!; try done.
  - eapply frame_trans; [by apply same_view_frame|done].
  - intros k' Hk'. destruct (H3 k' Hk') as [?|?]; [by left|right; by rewrite <- Hw1].
  - left. rewrite H4, H6. split; [apply Hs1|done].
Qed.

(** the head another statement reads is the row whose attempts were bumped *)
Lemma head_cost k q d d1 t0 t ts :
  db_ok n h d → same_view h d d1 → t0 ∈ of_unit k d → t_seq t0 = q →
  of_unit k d1 = t :: ts → q = t_seq t → t_cost t = t_cost t0.
Proof.
  intros Hok [Hp _] Ht0 Hq0 Hk1 Hqt. specialize (Hp k). cbn [pending db_View] in Hp.
  rewrite Hk1 in Hp. destruct (unit_rows_from n h d Hok k) as [b0 Hb0].
  apply list_elem_of_lookup in Ht0 as [i Hi].
  pose proof (rows_from_lookup _ _ _ _ Hb0 Hi) as Hsi.
  assert ((to_task <$> of_unit k d) !! 0 = Some (to_task t)) as Hhd by (by rewrite <- Hp).
  apply list_lookup_fmap_Some in Hhd as (th & Hth & Hhead).
  pose proof (rows_from_lookup _ _ _ _ Hb0 Hhead) as Hsh.
  assert (t_seq t = t_seq th) as Hts by (by apply (f_equal Seq) in Hth).
  assert (i = 0) as -> by lia. rewrite Hhead in Hi. injection Hi as ->.
  by apply (f_equal Cost) in Hth.
Qed.

Lemma fail_tx_run c q reason mt d :
  shards b !! route b (cu_Key c) = Some d → issued h c → holds d c = true →
  fail_ends c q d (fail_tx e c q reason mt (env_now e 0) (1, d)).
Proof.
  intros Hd Hc Hh. pose proof (po_db _ _ _ Hb _ _ Hd) as Hok.
  pose proof (po_canonical _ _ _ Hb) as Hcan. set (k := cu_Key c) in *.
  destruct (holds_row h c d Hcan Hc Hh) as (w & Hw & _). fold k in Hw.
  unfold fail_tx, mbind, prog_bind, tx_exec. fold k.
  rewrite (checkLease_run c d), Hh by done. rewrite exec_quiet by done.
  pose proof (attempt_stmt_spec n h d Hok Hcan k q) as Hatt.
  destruct (attempt_stmt k q d) as [msg|[d1 [[a cost]|]]].
  - done.
  - destruct Hatt as (Hok1 & Hw1 & Hs1 & Hdl & t0 & Ht0 & Hq0 & Hc0 & _).
    destruct (mt <=? a)%Z; [|by eapply unlease_run]. rewrite exec_quiet by done.
    destruct (of_unit k d1) as [|t ts] eqn:Hk1.
    { pose proof (proj1 Hs1 k) as Hp. cbn [pending db_View] in Hp. rewrite Hk1 in Hp.
      symmetry in Hp. apply fmap_nil_inv in Hp. rewrite Hp in Ht0. by apply elem_of_nil in Ht0. }
    rewrite (head_stmt_spec n h d1 Hok1 k t ts Hk1).
    destruct (Z.eqb_spec q (t_seq t)) as [Hqt|]; [|by eapply unlease_run].
    pose proof (head_cost k q d d1 t0 t ts Hok Hs1 Ht0 Hq0 Hk1 Hqt) as Hcost.
    rewrite exec_quiet by done. rewrite Hqt, <- Hc0, <- Hcost.
    destruct (bury_stmt_spec n h d1 Hok1 (po_n _ _ _ Hb) Hcan (env_now e 0) c reason t ts w Hc)
      as (d' & Hbury & H1 & H2 & H3 & H4 & H5 & H6); [by rewrite Hw1|done|].
    fold k in Hbury. rewrite Hbury. unfold fail_ends, failed. cbn [fst snd]. split_and!; try done.
    + eapply frame_trans; [by apply same_view_frame|done].
    + intros k' Hk'. destruct (H3 k' Hk') as [?|?]; [by left|right; by rewrite <- Hw1].
    + right. exists t, (to_task <$> ts), (env_now e 0), reason. split_and!; [|done| |done|].
      * fold k. rewrite <- (proj1 Hs1 k). cbn [pending db_View]. by rewrite Hk1.
      * assert (t ∈ of_unit k d1) as Hin by (rewrite Hk1; by constructor).
        by apply list_elem_of_filter in Hin as [? _].
      * by rewrite H6, Hdl.
  - destruct Hatt as [-> _].
    apply (unlease_run c q d d _ w Hc Hw Hok eq_refl (same_view_refl _ _) eq_refl).
Qed.

Lemma pg_fail_law c q reason :
  issued h c →
  let r := Fail e c q reason b in
  pg_ok n h r.1 ∧
  if holds b c then
    (frame h (cu_Key c) b r.1 ∧ holds r.1 c = false ∧ r.2 = Ok tt ∧
     (pending r.1 (cu_Key c) = pending b (cu_Key c) ∨
      ∃ t ts, pending b (cu_Key c) = t :: ts ∧ Seq t = q ∧ pending r.1 (cu_Key c) = ts)) ∨
    (same_view h b r.1 ∧ ∃ msg, r.2 = Err (ErrDriver msg))
  else same_view h b r.1 ∧ r.2 = Err ErrLeaseLost.
Proof.
  intros Hc. destruct (pg_shard n h b (cu_Key c) Hb) as [d Hd].
  rewrite (holds_shard _ d b c), (pending_shard _ d) by done.
  destruct (holds d c) eqn:Hh.
  - pose proof (fail_tx_run c q reason (maxTries b) d Hd Hc Hh) as Hr. unfold fail_ends in Hr.
    destruct (fail_tx _ _ _ _ _ _ _) as [[j d'] r] eqn:Hrun. cbn [fst snd] in Hr. unfold Fail. rewrite (routed_tx _ _ _ _ _ _ Hd Hrun).
    destruct r as [[]|[| | |msg]|]; try done; cbn [fst snd].
    + destruct Hr as (H1 & H2 & H3 & H4 & H5). split; [by eapply pg_keep|left]. split_and!.
      * by eapply lift_frame.
      * by rewrite (holds_set _ d), decide_True by done.
      * done.
      * rewrite (pending_set _ d), decide_True by done.
        destruct H5 as [[Hp _]|(t & ts & ? & ? & Hp & Heq & _ & Hp' & _)]; [by left|].
        right. by exists (to_task t), ts.
    + split; [done|right]. split; [auto with plq|by eexists].
  - unfold Fail. erewrite routed_tx; [|exact Hd|].
    2:{ unfold fail_tx, mbind, prog_bind. rewrite (checkLease_run c d), Hh by done. done. }
    cbn [fst snd]. split_and!; auto with plq.
Qed.
(** the tenant lookup changes nothing but the cache, and yields a positive threshold *)
Lemma tenant_get_spec ws :
  let '(b1, i, (t, wait)) := tenant_get e ws b in
  shards b1 = shards b ∧ maxTries b1 = maxTries b ∧ pg_ok n h b1 ∧ (0 < t)%Z.
Proof.
  unfold tenant_get. destruct (cache b !! ws) as [[t wait]|] eqn:Hc.
  { split_and!; try done. by eapply (po_cache _ _ _ Hb). }
  destruct (pg_shard n h b (mkKey ws "" "") Hb) as [d Hd]. unfold route in Hd. simpl in Hd.
  unfold on_shard. rewrite Hd, exec_quiet by done. cbn [tenant_stmt].
  rewrite set_shard_same by done.
  set (v := match tenant_config d !! ws with Some (t, waitMs) => _ | None => _ end).
  assert (0 < v.1)%Z as Hv.
  { unfold v. destruct (tenant_config d !! ws) as [[t m]|] eqn:Ht.
    - by eapply (do_tenants _ _ _ (po_db _ _ _ Hb _ _ Hd)).
    - apply (po_default _ _ _ Hb). }
  fold v. destruct v as [t wait]. split_and!; [done..| |done].
  destruct Hb as [? ? ? ? ? Hcache ? ? ?]. split; try done.
  intros ws' t' m'. simpl. intros [[<- [= <- <-]]|[_ Hl]]%lookup_insert_Some; [done|by eapply Hcache].
Qed.

Lemma pg_enqueue_law k p cost :
  (n < pg_capacity)%Z →
  let r := Enqueue e k p cost b in
  pg_ok (n + 1) h r.1 ∧ frame h k b r.1 ∧ (∀ c, issued h c → holds r.1 c = holds b c) ∧
  match r.2 with
  | Ok q => pending r.1 k = pending b k ++ [mkTask q p cost]
  | Err _ => pending r.1 k = pending b k
  | Panic => False
  end.
Proof.
  intros Hlt. unfold Enqueue. pose proof (tenant_get_spec (Workspace k)) as Ht.
  destruct (tenant_get e (Workspace k) b) as [[b1 i] [t wait]].
  destruct Ht as (Hsh & _ & Hb1 & Ht).
  destruct (pg_shard n h b1 k Hb1) as [d Hd]. pose proof (po_db _ _ _ Hb1 _ _ Hd) as Hok.
  assert (same_view h b b1) as Hs.
  { split; intros; cbn [pending holds pg_View]; unfold route; by rewrite Hsh. }
  assert (pg_ok (n + 1) h b1) as Hb1'.
  { eapply pg_ok_mono; [done|lia|done|apply Hb1]. }
  pose proof (enqueue_stmt_spec n h d Hok (po_n _ _ _ Hb1) (po_canonical _ _ _ Hb1) (env_now e i) k t
    (Milliseconds wait) cost p Hlt Ht) as Hst.
  unfold on_shard. rewrite Hd, exec_quiet by done.
  destruct (enqueue_stmt _ _ _ _ _ _ _) as [msg|[d' q]]; cbn [fst snd].
  - rewrite set_shard_same by done. split_and!; [done|auto with plq|apply Hs|apply Hs].
  - destruct Hst as (H1 & H2 & H3 & H4 & H5). split_and!.
    + eapply (pg_set n); try done; [lia|apply Hb1|]. by eapply same_shape_route.
    + eapply frame_trans; [by apply same_view_frame|]. by eapply lift_frame.
    + intros c Hc. rewrite (holds_set _ d) by done. case_decide as Hx; [|by apply Hs].
      rewrite H3 by done. rewrite <- (holds_shard _ d b1) by done. by apply Hs.
    + rewrite (pending_set _ d), decide_True by done. rewrite H4. f_equal.
      rewrite <- (pending_shard _ d b1 k) by done. apply Hs.
Qed.
End op.

(** the turns of a claim *)
Lemma claim_turns_spec n h e worker ms rr0 (todo i : nat) b :
  pg_ok n h b → quiet e → uuid_in (env_uuid e) = Some (env_uuid e) → env_uuid e ∉ h →
  (0 <= rr0)%Z → (rr0 + 1 + i + todo <= int64_max)%Z →
  match claim_turns e worker ms rr0 todo i b with
  | (b', Ok (Some c)) =>
      cu_Worker c = worker ∧ cu_Lease c = env_uuid e ∧
      pg_ok n ({[env_uuid e]} ∪ h) b' ∧ (∀ k, pending b' k = pending b k) ∧
      holds b' c = true ∧ pending b (cu_Key c) ≠ [] ∧
      (∀ c', issued h c' → cu_Key c' = cu_Key c → holds b c' = false) ∧
      (∀ c', issued h c' → holds b' c' = holds b c')
  | (b', Ok None) => b' = b ∧
      ∀ x j d k w, i <= x < i + todo → rotation rr0 (length (shards b)) x = Some j →
        shards b !! j = Some d → work_units d !! k = Some w → claimable w = false
  | (b', Err _) => b' = b
  | (_, Panic) => False
  end.
Proof.
  intros Hb Hq Hu Hfr H0. revert i. induction todo as [|todo IH]; intros i Hmax;
    cbn [claim_turns]; [split; [done|lia]|].
  destruct (rotation_nonneg rr0 (length (shards b)) i) as [Hrot Hlt];
    [done|unfold int64_max in *; lia|apply (po_len _ _ _ Hb)|].
  rewrite Hrot. set (j := Z.to_nat _) in *.
  destruct (lookup_lt_is_Some_2 _ _ Hlt) as [d Hd]. unfold on_shard. rewrite Hd, exec_quiet by done.
  pose proof (claim_stmt_spec n h d (po_db _ _ _ Hb _ _ Hd) (po_n _ _ _ Hb) (po_canonical _ _ _ Hb)
    (env_now e i) (env_uuid e) worker ms Hu Hfr) as Hst.
  destruct (claim_stmt _ _ _ _ _) as [msg|[d' [[[k tok] exp]|]]]; [by rewrite set_shard_same| |].
  - destruct Hst as (-> & -> & (w & Hw & Hcl & _) & H1 & H2 & H3 & H4 & H5 & H6 & H7).
    assert (route b k = j) as Hr by (eapply (po_route _ _ _ Hb); [done|by eexists]).
    assert (canonical ({[env_uuid e]} ∪ h)) as Hcan.
    { intros tok [->%elem_of_singleton|Ht]%elem_of_union; [done|by apply (po_canonical _ _ _ Hb)]. }
    cbn [cu_Worker cu_Lease cu_Key]. split_and!; try done.
    + eapply (pg_set n _ h); try done; [split; [lia|apply Hb]|set_solver|].
      by eapply same_shape_route.
    + intros k'. rewrite (pending_set _ d) by done. case_decide; [|done].
      rewrite H3. symmetry. by apply (pending_shard j).
    + by rewrite (holds_set _ d), decide_True by done.
    + by rewrite (pending_shard j d).
    + intros c' Hc' Hk'. rewrite (holds_shard j d b c') by (done || by rewrite Hk'). auto.
    + intros c' Hc'. rewrite (holds_set _ d) by done. case_decide; [|done].
      rewrite H7 by done. symmetry. by apply (holds_shard j).
  - destruct Hst as [-> Hnone]. rewrite set_shard_same by done.
    specialize (IH (Datatypes.S i)). destruct (claim_turns _ _ _ _ _ _ _) as [b' [[c|]|err|]];
      try (apply IH; lia).
    destruct IH as [-> IH]; [lia|]. split; [done|]. intros x j' d0 k w Hx Hj Hd0 Hw.
    destruct (decide (x = i)) as [->|Hne].
    + rewrite Hrot in Hj. injection Hj as <-. assert (d0 = d) as -> by congruence. by eapply Hnone.
    + apply (IH x j' d0 k w); [lia|done..].
Qed.

Lemma pg_claim_law n h e w x b :
  pg_ok n h b → (n < pg_capacity)%Z → quiet e →
  uuid_in (env_uuid e) = Some (env_uuid e) → env_uuid e ∉ h →
  let r := Claim e w x b in
  (∀ k, pending r.1 k = pending b k) ∧
  match r.2 with
  | Ok (Some c) =>
      cu_Worker c = w ∧ (cu_Lease c ∉ h) ∧ pg_ok (n + 1) ({[cu_Lease c]} ∪ h) r.1 ∧
      holds r.1 c = true ∧ pending b (cu_Key c) ≠ [] ∧
      (∀ c', issued h c' → cu_Key c' = cu_Key c → holds b c' = false) ∧
      (∀ c', issued h c' → holds r.1 c' = holds b c')
  | Ok None =>
      pg_ok (n + 1) h r.1 ∧ same_view h b r.1 ∧
      ∀ j d k w, shards b !! j = Some d → work_units d !! k = Some w → claimable w = false
  | Err _ => pg_ok (n + 1) h r.1 ∧ same_view h b r.1
  | Panic => False
  end.
Proof.
  intros Hb Hlt Hq Hu Hfr. unfold Claim. cbv zeta.
  set (b1 := mkBackend _ _ _ _ _ _).
  pose proof (po_rr _ _ _ Hb) as Hrr. pose proof (po_width _ _ _ Hb) as Hwidth.
  assert (rr_next (rr b) = rr b + 1)%Z as Hnext.
  { unfold rr_next. apply Z.mod_small. unfold pg_capacity in *. lia. }
  assert (∀ h', h ⊆ h' → canonical h' → pg_ok (n + 1) h' b1) as Hb1'.
  { intros h' Hh Hc. destruct (pg_ok_mono n (n + 1) h h' b Hb ltac:(lia) Hh Hc).
    split; try done. simpl. rewrite Hnext. lia. }
  assert (pg_ok (n + 1) h b1) as Hb1 by (apply Hb1'; [done|apply Hb]).
  assert (same_view h b b1) as Hs by by split.
  pose proof (claim_turns_spec (n + 1) h e w (Milliseconds x) (rr b) (length (shards b)) 0 b1 Hb1
    Hq Hu Hfr ltac:(lia) ltac:(unfold pg_capacity, int64_max in *; lia)) as Ht.
  destruct (claim_turns _ _ _ _ _ _ _) as [b' [[c|]|err|]]; cbn [fst snd]; [| | |done].
  - destruct Ht as (Hw & Hl & H1 & H2 & H3 & H4 & H5 & H6). rewrite Hl.
    split_and!; try done.
  - destruct Ht as [-> Hnone]. split_and!; try done. intros j d k w0 Hj Hw0.
    destruct (rotation_covers (rr b) (length (shards b)) j) as (i & Hi & Hrot);
      [lia|unfold pg_capacity, int64_max in *; lia|by eapply lookup_lt_Some|].
    eapply (Hnone i j d k w0); try done. lia.
  - subst b'. by split_and!.
Qed.

(** a sweep of the reaper over one shard *)
Lemma sweep n h e b (j i : nat) (f : time → stmt Z) :
  pg_ok n h b → quiet e → j < length (shards b) →
  (∀ d t, db_ok n h d → ∃ d' r, f t d = inr (d', r) ∧ db_ok n h d' ∧
     (∀ k, is_Some (work_units d' !! k) → is_Some (work_units d !! k)) ∧
     (∀ k, pending d' k = pending d k) ∧ no_revival h d d') →
  ∃ b1 r, on_shard j i (exec e f) b = (b1, Datatypes.S i, Ok r) ∧ pg_ok n h b1 ∧
    (∀ k, pending b1 k = pending b k) ∧ no_revival h b b1 ∧
    length (shards b1) = length (shards b).
Proof.
  intros Hb Hq Hj Hf. destruct (lookup_lt_is_Some_2 _ _ Hj) as [d Hd].
  destruct (Hf d (env_now e i) (po_db _ _ _ Hb _ _ Hd)) as (d' & r & Hst & H1 & H2 & H3 & H4).
  exists (set_shard j d' b), r. unfold on_shard. rewrite Hd, exec_quiet, Hst by done.
  split_and!; [done|..].
  - eapply (pg_set n n h h); try done; [split; [lia|apply Hb]|apply Hb|].
    intros k Hk. eapply (po_route _ _ _ Hb); [done|by apply H2].
  - intros k. rewrite (pending_set _ d) by done. case_decide; [|done].
    rewrite H3. symmetry. by apply (pending_shard j).
  - intros c Hc. rewrite (holds_set _ d) by done. case_decide; [|done].
    rewrite (holds_shard j d b c) by done. by apply H4.
  - cbn [set_shard shards]. by rewrite length_insert.
Qed.

(** the reaper's loop over the shards *)
Lemma reap_shards_spec n h e now (todo j i : nat) b r f :
  pg_ok n h b → quiet e → j + todo = length (shards b) →
  let b' := (reap_shards e now todo j i b r f).1 in
  pg_ok n h b' ∧ (∀ k, pending b' k = pending b k) ∧ no_revival h b b' ∧
  (reap_shards e now todo j i b r f).2.2 = None.
Proof.
  intros Hb Hq. revert j i b r f Hb. induction todo as [|todo IH]; intros j i b r f Hb Hlen;
    cbn [reap_shards]; [split_and!; try done; by intros c _|].
  destruct (sweep n h e b j i (λ _, reclaim_stmt now) Hb Hq) as (b1 & r1 & -> & H1 & H2 & H3 & H4);
    [lia|intros d _ Hd; apply reclaim_stmt_spec; [done|apply Hb]|].
  destruct (sweep n h e b1 j (Datatypes.S i) (λ _, flush_stmt now) H1 Hq)
    as (b2 & r2 & -> & H5 & H6 & H7 & H8);
    [lia|intros d _ Hd; apply flush_stmt_spec; [done|apply Hb]|].
  destruct (IH (Datatypes.S j) (Datatypes.S (Datatypes.S i)) b2 (i64 (r + r1)) (i64 (f + r2)) H5)
    as (H9 & H10 & H11 & H12); [lia|].
  split_and!; [done|intros k; by rewrite H10, H6|intros c Hc Hh; auto|done].
Qed.

(** ** The driver satisfies the strict contract *)

#[export] Instance Postgres_Strict : Strict Backend.
Proof.
  refine {| s_inv := pg_ok; s_env_ok := quiet; s_capacity := pg_capacity;
    s_token_fresh := λ h e, env_uuid e ∉ h ∧ uuid_in (env_uuid e) = Some (env_uuid e) |}.
  - intros n n' h s Hs Hn. eapply pg_ok_mono; [done..|apply Hs].
  - intros n h s k Hs. destruct (pg_shard n h s k Hs) as [d Hd].
    rewrite (pending_shard _ d) by done.
    destruct (unit_rows_from n h d (po_db _ _ _ Hs _ _ Hd) k) as [b Hb]. by exists b.
  - intros n h s c c' Hs Hc Hc' Hk H1 H2. destruct (pg_shard n h s (cu_Key c) Hs) as [d Hd].
    rewrite (holds_shard _ d s) in H1, H2 by (done || by rewrite Hk).
    pose proof (po_canonical _ _ _ Hs) as Hcan.
    rewrite (holds_lease_of h) in H1, H2 by done. rewrite Hk in H1. b2p. congruence.
  - intros n h e k p c s s' r Hs Hn He Hr.
    pose proof (pg_enqueue_law n h s e Hs He k p c Hn) as Hl.
    cbn [be_Enqueue Postgres_Backend] in Hr. by rewrite Hr in Hl.
  - intros n h e w x s s' r Hs Hn He [Hfr Hu] _ Hr.
    pose proof (pg_claim_law n h e w x s Hs Hn He Hu Hfr) as Hl.
    cbn [be_Claim Postgres_Backend] in Hr. rewrite Hr in Hl. destruct Hl as [Hp Hl].
    split; [done|]. destruct r as [[c|]|err|]; [done| |done..]. by destruct Hl as (? & ? & _).
  - intros n h e c max s s' r Hs He Hc Hm Hr. cbn [be_Drain Postgres_Backend] in Hr.
    rewrite (pg_drain_law n h s e Hs He) in Hr by done. injection Hr as <- <-. by split_and!.
  - intros n h e c q s s' r Hs He Hc Hr. pose proof (pg_ack_law n h s e Hs He c q Hc) as Hl.
    cbn [be_Ack Postgres_Backend] in Hr. by rewrite Hr in Hl.
  - intros n h e c s s' r Hs He Hc Hr. pose proof (pg_release_law n h s e Hs He c Hc) as Hl.
    cbn [be_Release Postgres_Backend] in Hr. by rewrite Hr in Hl.
  - intros n h e c x s s' r Hs He Hc Hr. pose proof (pg_heartbeat_law n h s e Hs He c x Hc) as Hl.
    cbn [be_Heartbeat Postgres_Backend] in Hr. by rewrite Hr in Hl.
  - intros n h e c q reason s s' r Hs He Hc Hr.
    pose proof (pg_fail_law n h s e Hs He c q reason Hc) as Hl.
    cbn [be_Fail Postgres_Backend] in Hr. by rewrite Hr in Hl.
  - intros n h e now s s' r Hs He Hr.
    pose proof (reap_shards_spec n h e now (length (shards s)) 0 0 s 0 0 Hs He eq_refl) as Hl.
    cbn [be_ReapExpired Postgres_Backend] in Hr. unfold ReapExpired in Hr.
    rewrite Hr in Hl. by destruct Hl as (? & ? & ? & _).
Defined.
End sharded.
