(* ===== verification/PostgresGate.v ===== *)
(** PostgresGate: what survives lost messages in the Postgres driver: an invariant of the
    tables kept by every method under any network faults and with any handles (the gate: a
    unit is eligible only because it reached its threshold or because one of its tasks
    has waited out the flush delay), and atomicity of the driver's transactions. *)
From S2P Require Import Prelude Queue Routing Postgres PostgresFacts.

Create HintDb pg discriminated.

Lemma sql_min_elem l x : sql_min l = Some x → x ∈ l.
Proof.
  assert (∀ l (m : Z), foldl Z.min m l = m ∨ foldl Z.min m l ∈ l) as Hfold.
  { intros l'. induction l' as [|y l' IH]; intros m; simpl; [by left|].
    destruct (IH (Z.min m y)) as [->|]; [|right; by constructor].
    destruct (Z.min_spec m y) as [[_ ->]|[_ ->]]; [by left|right; by constructor]. }
  destruct l as [|y l]; [done|]. intros [= <-]. destruct (Hfold l y) as [->|]; by constructor.
Qed.

(** ** Properties of tables, through programs *)

Section keeps.
Context (P : db → Prop).

(** a program leaves the tables with property [P] whatever its outcome *)
Definition keeps {A} (p : prog A) : Prop := ∀ i d, P d → P (p (i, d)).1.2.

(** a program leaves them with [P] if it succeeds: enough inside a transaction *)
Definition keeps_ok {A} (p : prog A) : Prop :=
  ∀ i d i' d' a, P d → p (i, d) = ((i', d'), Ok a) → P d'.

Definition stmt_keeps {A} (f : stmt A) : Prop := ∀ d d' a, P d → f d = inr (d', a) → P d'.

Lemma keeps_exec e {A} (f : time → stmt A) :
  (∀ i, stmt_keeps (f (env_now e i))) → keeps (exec e f).
Proof.
  intros Hf i d Hd. unfold exec. destruct (env_net e i) eqn:Hn; [|done|];
    (destruct (f (env_now e i) d) as [?|[d' a]] eqn:Hr; [done|by eapply (Hf i)]).
Qed.

Lemma keeps_ok_exec e {A} (f : time → stmt A) :
  (∀ i, stmt_keeps (f (env_now e i))) → keeps_ok (exec e f).
Proof.
  intros Hf i d i' d' a Hd Hr. pose proof (keeps_exec e f Hf i d Hd) as H.
  by rewrite Hr in H.
Qed.

Lemma keeps_bind {A B} (m : prog A) (f : A → prog B) :
  keeps m → (∀ a, keeps (f a)) → keeps (m ≫= f).
Proof.
  intros Hm Hf i d Hd. unfold mbind, prog_bind. pose proof (Hm i d Hd) as H.
  destruct (m (i, d)) as [[i1 d1] [a|err|]]; [by apply Hf|done..].
Qed.

Lemma keeps_ok_bind {A B} (m : prog A) (f : A → prog B) :
  keeps_ok m → (∀ a, keeps_ok (f a)) → keeps_ok (m ≫= f).
Proof.
  intros Hm Hf i d i' d' b Hd Hr. unfold mbind, prog_bind in Hr.
  destruct (m (i, d)) as [[i1 d1] [a|err|]] eqn:Hm1; [|done..].
  eapply Hf; [|done]. by eapply Hm.
Qed.

Lemma keeps_ret {A} (a : A) : keeps (mret a).
Proof. by intros i d Hd. Qed.

Lemma keeps_ok_ret {A} (a : A) : keeps_ok (mret a).
Proof. intros i d i' d' a' Hd Hr. unfold mret, prog_ret in Hr. by simplify_eq. Qed.

Lemma keeps_throw {A} err : keeps (@throw A err).
Proof. by intros i d Hd. Qed.

Lemma keeps_ok_throw {A} err : keeps_ok (@throw A err).
Proof. by intros i d i' d' a Hd Hr. Qed.

(** a rolled-back transaction leaves the tables it found *)
Lemma keeps_transaction e {A} (body : time → prog A) :
  (∀ i, keeps_ok (body (env_now e i))) → keeps (transaction e body).
Proof.
  intros Hb i d Hd. unfold transaction. destruct (env_net e i); [|done..].
  destruct (body _ _) as [[j d'] [a|err|]] eqn:Hr; [|done..].
  assert (P d') by (by eapply Hb). by destruct (env_net e j).
Qed.

Lemma keeps_on_shard {A} (p : prog A) j i b :
  keeps p → Forall P (shards b) → Forall P (shards (on_shard j i p b).1.1).
Proof.
  intros Hp Hb. unfold on_shard. destruct (shards b !! j) as [d|] eqn:Hj; [|done].
  pose proof (Hp i d (proj1 (Forall_lookup _ _) Hb _ _ Hj)) as Hd.
  destruct (p (i, d)) as [[i' d'] r]. by apply Forall_insert.
Qed.

Lemma keeps_routed {A} k (p : prog A) b :
  keeps p → Forall P (shards b) → Forall P (shards (routed k p b).1).
Proof.
  intros Hp Hb. unfold routed. pose proof (keeps_on_shard p (route b k) 0 b Hp Hb) as H.
  by destruct (on_shard _ _ _ _) as [[b' i] r].
Qed.
End keeps.

#[export] Hint Resolve keeps_exec keeps_ok_exec keeps_bind keeps_ok_bind keeps_ret keeps_ok_ret
  keeps_throw keeps_ok_throw keeps_transaction : pg.

(** ** The gate *)

Section gate.
Context `{PgService} (T : time).

(** the unit has reached its threshold, or one of its tasks has waited out the delay *)
Definition ripe (w : wrow) (ts : list trow) : Prop :=
  (threshold w <= sum_cost ts)%Z ∨
  ∃ t, t ∈ ts ∧ (t_enqueued_at t + interval_ms (max_wait_ms w) <= T)%Z.

Record gate_row (w : wrow) (ts : list trow) : Prop := {
  gr_seqs : NoDup (t_seq <$> ts);
  gr_cost : pending_cost w = sum_cost ts;
  gr_oldest : ts ≠ [] → ∃ t, t ∈ ts ∧ oldest_pending_at w = Some (t_enqueued_at t);
  gr_flush : flush_deadline w = flush_at w (oldest_pending_at w);
  gr_ripe : eligible w = true → ripe w ts;
}.

Record gate_db (d : db) : Prop := {
  gd_rows : ∀ k w, work_units d !! k = Some w → gate_row w (of_unit k d);
  gd_none : ∀ k, work_units d !! k = None → of_unit k d = [];
}.

Lemma gate_empty tc : gate_db (empty_db tc).
Proof. by split. Qed.

(** changing one unit *)
Lemma gate_update d d' K w :
  gate_db d →
  (∀ k, k ≠ K → work_units d' !! k = work_units d !! k ∧ of_unit k d' = of_unit k d) →
  work_units d' !! K = Some w → gate_row w (of_unit K d') → gate_db d'.
Proof.
  intros Hd Hk Hw Hg. split.
  - intros k w' Hw'. destruct (decide (k = K)) as [->|Hne]; [by simplify_eq|].
    destruct (Hk k Hne) as [H1 ->]. rewrite H1 in Hw'. by apply (gd_rows _ Hd).
  - intros k Hn. destruct (decide (k = K)) as [->|Hne]; [congruence|].
    destruct (Hk k Hne) as [H1 ->]. rewrite H1 in Hn. by apply (gd_none _ Hd).
Qed.

Lemma gate_set d k w w' :
  gate_db d → work_units d !! k = Some w → (gate_row w (of_unit k d) → gate_row w' (of_unit k d)) →
  gate_db (set_row k w' d).
Proof.
  intros Hd Hw Hg. eapply (gate_update d _ k w'); [done| | |].
  - intros k' Hk. simpl. by rewrite lookup_insert_ne.
  - simpl. by rewrite lookup_insert_eq.
  - apply Hg. by apply (gd_rows _ Hd).
Qed.

(** the lease columns are not the gate's *)
Lemma gate_lease by_ tok ms exp w ts : gate_row w ts → gate_row (set_lease by_ tok ms exp w) ts.
Proof. intros [? ? ? ? ?]. by split. Qed.

Lemma min_enq_elem ts x :
  sql_min (t_enqueued_at <$> ts) = Some x → ∃ t, t ∈ ts ∧ x = t_enqueued_at t.
Proof.
  intros Hx. apply sql_min_elem, list_elem_of_fmap in Hx as (t & -> & Hin). eauto.
Qed.

(** the columns computed from the rows that are left *)
Lemma gate_left now w w' ts ts' :
  (now <= T)%Z → gate_row w ts → NoDup (t_seq <$> ts') →
  pending_cost w' = sum_cost ts' → threshold w' = threshold w → max_wait_ms w' = max_wait_ms w →
  oldest_pending_at w' = sql_min (t_enqueued_at <$> ts') →
  flush_deadline w' = flush_at w (sql_min (t_enqueued_at <$> ts')) →
  eligible w' = (threshold w <=? sum_cost ts')%Z ||
    aged now (flush_at w (sql_min (t_enqueued_at <$> ts'))) →
  gate_row w' ts'.
Proof.
  intros Hnow Hg Hd Hc Ht Hm Ho Hf He.
  split; [done|done| | |].
  - intros Hne. rewrite Ho. destruct ts' as [|t ts']; [done|]. rewrite fmap_cons. cbn [sql_min].
    destruct (min_enq_elem (t :: ts') _ eq_refl) as (t' & Ht' & Heq). exists t'.
    split; [done|by f_equal].
  - rewrite Hf, Ho. unfold flush_at. by rewrite Hm.
  - rewrite He. intros [Hx|Hx]%orb_true_iff; unfold ripe; rewrite Ht, Hm.
    + left. b2p. lia.
    + right. destruct (sql_min _) as [x|] eqn:Hmin; [|done].
      cbn [flush_at fmap option_fmap option_map aged] in Hx.
      destruct (min_enq_elem _ _ Hmin) as (t & Hin & ->). exists t. b2p. split; [done|lia].
Qed.

Lemma NoDup_filter_seq (Q : trow → Prop) `{∀ t, Decision (Q t)} ts :
  NoDup (t_seq <$> ts) → NoDup (t_seq <$> filter Q ts).
Proof.
  induction ts as [|t ts IH]; [done|]. rewrite fmap_cons, NoDup_cons, filter_cons. intros [Hn Hd].
  case_decide; [|auto]. rewrite fmap_cons. apply NoDup_cons. split; [|auto].
  intros (t' & Heq & Ht')%list_elem_of_fmap. apply Hn, list_elem_of_fmap.
  apply list_elem_of_filter in Ht' as [_ ?]. eauto.
Qed.

(** *** The statements keep the gate *)

Lemma gate_enqueue_stmt now k t wait cost p :
  (0 <= cost)%Z → stmt_keeps gate_db (enqueue_stmt now k t wait cost p).
Proof.
  intros Hc d d' q Hd. unfold enqueue_stmt. destruct (negb _); [done|].
  destruct (upsert _ _ _ _ _) as [w|] eqn:Hup; [|done]. destruct (negb _); [done|].
  destruct (existsb _ _) eqn:Hdup; [done|]. intros [= <- <-].
  set (new := mkTRow k (next_seq w) p cost 0 now).
  assert (of_unit k (set_tasks (tasks d ++ [new]) (set_row k w d)) = of_unit k d ++ [new]) as Hk.
  { rewrite of_unit_snoc. simpl. by rewrite decide_True. }
  eapply (gate_update d _ k w); [done| |simpl; by rewrite lookup_insert_eq|].
  { intros k' Hne. split; [simpl; by rewrite lookup_insert_ne|].
    rewrite of_unit_snoc. simpl. by rewrite decide_False, app_nil_r. }
  rewrite Hk. set (ts := of_unit k d) in *.
  assert (sum_cost (ts ++ [new]) = (sum_cost ts + cost)%Z) as Hsum.
  { unfold sum_cost. rewrite fmap_app, list_Z_sum_app. simpl. lia. }
  assert (NoDup (t_seq <$> ts) → NoDup (t_seq <$> ts ++ [new])) as Hnd.
  { intros Hnd. rewrite fmap_app. apply NoDup_app. split_and!; [done| |apply NoDup_singleton].
    intros x (t' & -> & Ht')%list_elem_of_fmap Hx. apply list_elem_of_singleton in Hx.
    apply (not_true_iff_false _) in Hdup. apply Hdup, existsb_exists. exists t'.
    split; [by apply list_elem_of_In|]. by apply bool_decide_true. }
  destruct (work_units d !! k) as [w0|] eqn:Hw; cbn [upsert] in Hup.
  - destruct (int8 _ && int8 _); [|done]. pose proof (gd_rows _ Hd _ _ Hw) as [Hs Hp Ho Hf Hr].
    fold ts in Hs, Hp, Ho, Hr. injection Hup as <-. split; simpl.
    + by apply Hnd.
    + rewrite Hsum. lia.
    + intros _. destruct (Z.eqb_spec (pending_cost w0) 0) as [|Hne].
      * exists new. split; [apply elem_of_app; right; by constructor|done].
      * destruct Ho as (t' & Hin & ->); [|exists t'; split; [apply elem_of_app; by left|done]].
        intros Hnil. apply Hne. by rewrite Hp, Hnil.
    + by case_match.
    + unfold ripe. simpl. rewrite Hsum. intros [He|He]%orb_true_iff; b2p.
      * left. lia.
      * destruct (Hr He) as [|(t' & Hin & Hle)]; [left; lia|]. right. exists t'.
        split; [apply elem_of_app; by left|done].
  - injection Hup as <-. assert (ts = []) as -> by by apply (gd_none _ Hd). split; simpl.
    + apply NoDup_singleton.
    + unfold sum_cost. simpl. lia.
    + intros _. exists new. split; [by constructor|done].
    + done.
    + unfold ripe, sum_cost. simpl. intros He. b2p. left. lia.
Qed.

Lemma gate_claim_stmt now uuid worker ms : stmt_keeps gate_db (claim_stmt now uuid worker ms).
Proof.
  intros d d' o Hd. unfold claim_stmt. destruct (negb _); [done|].
  pose proof (pick_spec (map_to_list (work_units d))) as Hp.
  destruct (pick _ _) as [[k w]|]; [|by intros [= <- _]]. intros [= <- _].
  destruct Hp as (Hin & _). apply elem_of_map_to_list in Hin.
  eapply gate_set; [done..|]. apply gate_lease.
Qed.

Lemma gate_read {A} (f : db → string + A) :
  stmt_keeps gate_db (λ d, match f d with inl e => inl e | inr a => inr (d, a) end).
Proof. intros d d' a Hd. destruct (f d); [done|]. by intros [= <- _]. Qed.

Lemma gate_update_leased c f :
  (∀ w ts, gate_row w ts → gate_row (f w) ts) → stmt_keeps gate_db (update_leased c f).
Proof.
  intros Hf d d' n Hd. unfold update_leased, leased_row. destruct (uuid_in _); [|done].
  destruct (work_units d !! cu_Key c) as [w|] eqn:Hw; [|by intros [= <- _]].
  destruct (leased _ _ _); [|by intros [= <- _]]. intros [= <- _].
  eapply gate_set; [done..|]. apply Hf.
Qed.

Lemma gate_ack_stmt now c q : (now <= T)%Z → stmt_keeps gate_db (ack_stmt now c q).
Proof.
  intros Hnow d d' o Hd. unfold ack_stmt. destruct (uuid_in _) as [u|]; [|done].
  set (k := cu_Key c). assert (∀ k', of_unit k' (set_tasks (delete_through k q d) d) =
    if decide (k' = k) then left_rows k q d else of_unit k' d) as Hof.
  { intros k'. unfold of_unit, set_tasks, delete_through. simpl.
    apply (filter_unit (λ t, (t_seq t <= q)%Z)). }
  destruct (work_units d !! k) as [w|] eqn:Hw.
  - destruct (int8 _); [|done]. intros [= <- _].
    eapply (gate_update d _ k); [done| |simpl; by rewrite lookup_insert_eq|].
    { intros k' Hne. split; [simpl; by rewrite lookup_insert_ne|].
      rewrite of_unit_set_row, Hof. by rewrite decide_False. }
    rewrite of_unit_set_row, Hof, decide_True by done.
    pose proof (gd_rows _ Hd _ _ Hw) as Hg.
    assert (pending_cost w - sum_cost (acked_rows k q d) = sum_cost (left_rows k q d))%Z as Hpc.
    { rewrite (gr_cost _ _ Hg), (sum_cost_split (λ t, (t_seq t <= q)%Z)).
      unfold acked_rows, left_rows. lia. }
    rewrite Hpc. eapply (gate_left now w _ (of_unit k d)); try done.
    apply NoDup_filter_seq, Hg.
  - intros [= <- _]. split.
    + intros k' w' Hw'. simpl in Hw'. rewrite Hof. case_decide; [congruence|].
      by apply (gd_rows _ Hd).
    + intros k' Hn. simpl in Hn. rewrite Hof. pose proof (gd_none _ Hd _ Hn) as Hnil.
      case_decide; [|done]. subst k'. unfold left_rows. by rewrite Hnil.
Qed.

Lemma gate_update_where (p : wrow → bool) f :
  (∀ w ts, p w = true → gate_row w ts → gate_row (f w) ts) →
  stmt_keeps gate_db (update_where p f).
Proof.
  intros Hf d d' n Hd. intros [= <- _]. split.
  - intros k w'. simpl. rewrite lookup_fmap. intros (w & Hw & ->)%fmap_Some_1.
    pose proof (gd_rows _ Hd _ _ Hw) as Hg.
    unfold of_unit. simpl. fold (of_unit k d). destruct (p w) eqn:Hp; [by apply Hf|done].
  - intros k. simpl. rewrite lookup_fmap, fmap_None. apply (gd_none _ Hd).
Qed.

Lemma gate_flush_stmt now : (now <= T)%Z → stmt_keeps gate_db (flush_stmt now).
Proof.
  intros Hnow. apply gate_update_where. intros w ts Hfl [Hs Hc Ho Hf Hr]. unfold flushable in Hfl.
  split; try done. intros _. right. b2p.
  destruct Ho as (t & Hin & Hold); [intros ->; unfold sum_cost in Hc; simpl in Hc; lia|].
  exists t. split; [done|]. rewrite Hf, Hold in *. simpl in *. b2p. lia.
Qed.

Lemma gate_free w ts : gate_row w ts → gate_row (free w) ts.
Proof. apply gate_lease. Qed.

Lemma gate_unlease_stmt k : stmt_keeps gate_db (unlease_stmt k).
Proof.
  intros d d' a Hd. unfold unlease_stmt. destruct (work_units d !! k) as [w|] eqn:Hw.
  - intros [= <- _]. eapply gate_set; [done..|]. apply gate_free.
  - by intros [= <- _].
Qed.

(** a change of columns the gate does not read *)
Lemma gate_rows_fmap f ts w :
  (∀ t, t_seq (f t) = t_seq t ∧ t_cost (f t) = t_cost t ∧ t_enqueued_at (f t) = t_enqueued_at t) →
  gate_row w ts → gate_row w (f <$> ts).
Proof.
  intros Hf [Hs Hc Ho Hfl Hr].
  assert (t_seq <$> (f <$> ts) = t_seq <$> ts) as E1.
  { rewrite <- list_fmap_compose. apply list_fmap_ext. intros i t _. apply Hf. }
  assert (sum_cost (f <$> ts) = sum_cost ts) as E2.
  { unfold sum_cost. rewrite <- list_fmap_compose. f_equal. apply list_fmap_ext.
    intros i t _. apply Hf. }
  split; rewrite ?E1, ?E2; try done.
  - intros Hne. destruct Ho as (t & Hin & ->); [by destruct ts|]. exists (f t).
    split; [by apply list_elem_of_fmap_2|]. by rewrite (proj2 (proj2 (Hf t))).
  - intros He. unfold ripe. rewrite E2. destruct (Hr He) as [|(t & Hin & Hle)]; [by left|].
    right. exists (f t). rewrite (proj2 (proj2 (Hf t))). split; [by apply list_elem_of_fmap_2|done].
Qed.

Lemma gate_attempt_stmt k q d d' o :
  gate_db d → attempt_stmt k q d = inr (d', o) →
  gate_db d' ∧ ∀ a c, o = Some (a, c) → ∃ t, t ∈ of_unit k d' ∧ t_seq t = q ∧ t_cost t = c.
Proof.
  intros Hd. unfold attempt_stmt. destruct (filter _ (of_unit k d)) as [|t l] eqn:Hfil;
    [by intros [= <- <-]|].
  assert (t ∈ filter (λ t, t_seq t = q) (of_unit k d)) as [Hq Ht]%list_elem_of_filter
    by (rewrite Hfil; constructor).
  destruct (int4 _); [|done]. intros [= <- <-].
  assert (∀ x, t_key (bump k q x) = t_key x ∧ t_seq (bump k q x) = t_seq x ∧
    t_cost (bump k q x) = t_cost x ∧ t_enqueued_at (bump k q x) = t_enqueued_at x) as Hb.
  { intros x. unfold bump. by case_bool_decide. }
  assert (∀ k', of_unit k' (set_tasks (bump k q <$> tasks d) d) = bump k q <$> of_unit k' d) as Hof.
  { intros k'. apply of_unit_fmap. intros x. apply Hb. }
  split; [split|].
  - intros k' w Hw. rewrite Hof. apply gate_rows_fmap; [|by apply (gd_rows _ Hd)].
    intros x. split_and!; apply Hb.
  - intros k' Hn. by rewrite Hof, (gd_none _ Hd).
  - intros a c [= _ <-]. exists (bump k q t). rewrite Hof. split_and!.
    + by apply list_elem_of_fmap_2.
    + by rewrite (proj1 (proj2 (Hb t))).
    + apply Hb.
Qed.

Lemma sum_cost_seq ts t :
  NoDup (t_seq <$> ts) → t ∈ ts → sum_cost (filter (λ x, t_seq x = t_seq t) ts) = t_cost t.
Proof.
  induction ts as [|x ts IH]; [by intros _ ?%elem_of_nil|].
  rewrite fmap_cons, NoDup_cons, filter_cons. intros [Hn Hd] [<-|Ht]%elem_of_cons.
  - rewrite decide_True by done. rewrite filter_none; [unfold sum_cost; simpl; lia|].
    intros y Hy Heq. apply Hn. rewrite <- Heq. by apply list_elem_of_fmap_2.
  - rewrite decide_False; [by apply IH|]. intros Heq. apply Hn. rewrite Heq.
    by apply list_elem_of_fmap_2.
Qed.

Lemma gate_bury_stmt now k q reason cost d d' a :
  (now <= T)%Z → gate_db d → (∃ t, t ∈ of_unit k d ∧ t_seq t = q ∧ t_cost t = cost) →
  bury_stmt now k q reason cost d = inr (d', a) → gate_db d'.
Proof.
  intros Hnow Hd (t & Ht & Hq & Hcost). unfold bury_stmt.
  destruct (work_units d !! k) as [w|] eqn:Hw.
  2:{ rewrite (gd_none _ Hd) in Ht by done. by apply elem_of_nil in Ht. }
  pose proof (gd_rows _ Hd _ _ Hw) as Hg.
  set (rest := filter (λ t, t_seq t ≠ q) (of_unit k d)).
  assert (pending_cost w - cost = sum_cost rest)%Z as Hpc.
  { rewrite (gr_cost _ _ Hg), (sum_cost_split (λ x, t_seq x = q)). fold rest. subst q cost.
    rewrite sum_cost_seq; [lia|apply Hg|done]. }
  rewrite Hpc. destruct (int8 _); [|done]. intros [= <- _].
  eapply (gate_update d _ k); [done| |simpl; by rewrite lookup_insert_eq|].
  - intros k' Hne. split; [simpl; by rewrite lookup_insert_ne|].
    unfold of_unit. simpl. rewrite (filter_unit (λ t, t_seq t = q)). by rewrite decide_False.
  - assert (of_unit k (set_row k (mkRow (sum_cost rest) (next_seq w) (threshold w) (max_wait_ms w)
      ((threshold w <=? sum_cost rest)%Z ||
        aged now (flush_at w (sql_min (t_enqueued_at <$> rest)))) None None
      (lease_ms w) None (sql_min (t_enqueued_at <$> rest))
      (flush_at w (sql_min (t_enqueued_at <$> rest))))
      (mkDb (work_units d) (filter (λ t, ¬ (t_key t = k ∧ t_seq t = q)) (tasks d))
         (dead_letters d ++ ((λ t, mkDRow t now reason) <$> filter (λ t, t_seq t = q) (of_unit k d)))
         (tenant_config d))) = rest) as ->.
    { unfold of_unit. simpl. rewrite (filter_unit (λ t, t_seq t = q)). by rewrite decide_True. }
    eapply (gate_left now w _ (of_unit k d)); try done. apply NoDup_filter_seq, Hg.
Qed.

(** *** The methods keep the gate *)

(** every clock reading of a call is at most [T] *)
Definition clocked (e : Env) : Prop := ∀ i, (env_now e i <= T)%Z.

Lemma gate_check_stmt c : stmt_keeps gate_db (check_stmt c).
Proof. intros d d' a Hd. unfold check_stmt. destruct (leased_row c d); [done|]. by intros [= <- _]. Qed.

Lemma gate_checkLease e c : keeps gate_db (checkLease e c).
Proof.
  apply keeps_bind; [apply keeps_exec; intros ?; apply gate_check_stmt|].
  intros []; [apply keeps_ret|apply keeps_throw].
Qed.

Lemma keeps_keeps_ok {A} (p : prog A) : keeps gate_db p → keeps_ok gate_db p.
Proof. intros Hp i d i' d' a Hd Hr. pose proof (Hp i d Hd) as H1. by rewrite Hr in H1. Qed.

Lemma gate_affected m : keeps gate_db m → keeps gate_db (affected m).
Proof. intros Hm. apply keeps_bind; [done|]. intros n. case_match; auto with pg. Qed.

Lemma gate_Ack_prog e c q :
  clocked e →
  keeps gate_db (transaction e (λ now,
    checkLease e c;;
    keep ← tx_exec e (ack_stmt now c q);
    match keep with Some held => mret held | None => throw (ErrDriver "no rows") end)).
Proof.
  intros He. apply keeps_transaction. intros i.
  apply keeps_ok_bind; [apply keeps_keeps_ok, gate_checkLease|]. intros _.
  apply keeps_ok_bind; [apply keeps_ok_exec; intros ?; by apply gate_ack_stmt|].
  intros [held|]; auto with pg.
Qed.

Lemma keeps_ok_step {A B} (m : prog A) (f : A → prog B) i d i' d' b :
  (m ≫= f) (i, d) = ((i', d'), Ok b) →
  ∃ i1 d1 a, m (i, d) = ((i1, d1), Ok a) ∧ f a (i1, d1) = ((i', d'), Ok b).
Proof.
  unfold mbind, prog_bind. destruct (m (i, d)) as [[i1 d1] [a|err|]]; try done. eauto 10.
Qed.

Lemma exec_Ok e {A} (f : time → stmt A) i d i' d' a :
  exec e f (i, d) = ((i', d'), Ok a) → f (env_now e i) d = inr (d', a).
Proof.
  unfold exec. destruct (env_net e i); [|done|done].
  destruct (f _ _) as [|[d1 a1]]; [done|]. by intros [= _ <- <-].
Qed.

Lemma gate_fail_tx e c q reason mt now :
  (now <= T)%Z → keeps_ok gate_db (fail_tx e c q reason mt now).
Proof.
  intros Hnow i d i' d' [] Hd Hr. unfold fail_tx in Hr. set (k := cu_Key c) in *.
  assert (keeps_ok gate_db (tx_exec e (unlease_stmt k))) as Hun.
  { apply keeps_ok_exec. intros ?. apply gate_unlease_stmt. }
  apply keeps_ok_step in Hr as (i1 & d1 & [] & Hc & Hr).
  pose proof (keeps_keeps_ok _ (gate_checkLease e c) _ _ _ _ _ Hd Hc) as Hd1.
  apply keeps_ok_step in Hr as (i2 & d2 & o & Ha & Hr). apply exec_Ok in Ha.
  destruct (gate_attempt_stmt _ _ _ _ _ Hd1 Ha) as [Hd2 Hrow].
  destruct o as [[a cost]|]; [|by eapply Hun]. destruct (mt <=? a)%Z; [|by eapply Hun].
  apply keeps_ok_step in Hr as (i3 & d3 & hd & Hh & Hr). apply exec_Ok in Hh.
  assert (d3 = d2) as -> by (unfold head_stmt in Hh; destruct (sql_min _); by simplify_eq).
  destruct (q =? hd)%Z; [|by eapply Hun]. apply exec_Ok in Hr.
  eapply gate_bury_stmt; [done|done| |done]. by eapply Hrow.
Qed.

Definition gated (b : Backend) : Prop := Forall gate_db (shards b).

Lemma gate_claim_turns e w ms r (todo i : nat) b :
  gated b → gated (claim_turns e w ms r todo i b).1.
Proof.
  revert i b. induction todo as [|todo IH]; intros i b Hb; cbn [claim_turns]; [done|].
  destruct (rotation _ _ _) as [j|]; [|done].
  assert (keeps gate_db (exec e (λ now, claim_stmt now (env_uuid e) w ms))) as Hk.
  { apply keeps_exec. intros x. apply gate_claim_stmt. }
  pose proof (keeps_on_shard gate_db _ j i b Hk Hb) as Hb1.
  destruct (on_shard _ _ _ _) as [[b1 i1] [[[[k tok] exp]|]|err|]]; [done|by apply IH|done..].
Qed.

Lemma gate_reap_shards e now (todo j i : nat) b r f :
  (now <= T)%Z → gated b → gated (reap_shards e now todo j i b r f).1.
Proof.
  intros Hnow. revert j i b r f. induction todo as [|todo IH]; intros j i b r f Hb;
    cbn [reap_shards]; [done|].
  pose proof (keeps_on_shard gate_db (exec e (λ _, reclaim_stmt now)) j i b) as H1.
  destruct (on_shard j i (exec e (λ _, reclaim_stmt now)) b) as [[b1 i1] [n|err|]].
  2, 3: apply H1; [apply keeps_exec; intros ?; apply gate_update_where; auto using gate_free|done].
  pose proof (keeps_on_shard gate_db (exec e (λ _, flush_stmt now)) j i1 b1) as H2.
  assert (gated b1) as Hb1.
  { apply H1; [apply keeps_exec; intros ?; apply gate_update_where; auto using gate_free|done]. }
  assert (keeps gate_db (exec e (λ _, flush_stmt now))) as Hfl.
  { apply keeps_exec. intros ?. by apply gate_flush_stmt. }
  destruct (on_shard j i1 _ b1) as [[b2 i2] [n2|err|]]; [apply IH|..]; by apply H2.
Qed.

Lemma gate_tenant_get e ws b : gated b → gated (tenant_get e ws b).1.1.
Proof.
  intros Hb. unfold tenant_get. destruct (cache b !! ws); [done|].
  pose proof (keeps_on_shard gate_db (exec e (λ _, tenant_stmt ws))
    (shard_index (length (shards b)) ws) 0 b) as H1.
  destruct (on_shard _ _ _ _) as [[b1 i1] r]. apply H1; [|done].
  apply keeps_exec. by intros ? d d' a Hd [= <- _].
Qed.

Lemma gate_reset e (todo j : nat) b : gated b → gated (reset_shards e todo j b).1.
Proof.
  revert j b. induction todo as [|todo IH]; intros j b Hb; cbn [reset_shards]; [done|].
  pose proof (keeps_on_shard gate_db (exec e (λ _, truncate_stmt)) j j b) as H1.
  assert (keeps gate_db (exec e (λ _, truncate_stmt))) as Ht.
  { apply keeps_exec. intros ? d d' a Hd [= <- _]. apply gate_empty. }
  destruct (on_shard _ _ _ _) as [[b1 i1] [[]|err|]]; [apply IH|..]; by apply H1.
Qed.

(** A call of the driver: any method, any handle, any faults; its clocks read at most [T]
    and the costs it enqueues are not negative. *)
Inductive pg_call (b : Backend) : Backend → Prop :=
| pg_enqueue e k p c : clocked e → (0 <= c)%Z → pg_call b (Enqueue e k p c b).1
| pg_claim e w x : pg_call b (Claim e w x b).1
| pg_drain e c max : pg_call b (Drain e c max b).1
| pg_ack e c q : clocked e → pg_call b (Ack e c q b).1
| pg_release e c : pg_call b (Release e c b).1
| pg_heartbeat e c x : pg_call b (Heartbeat e c x b).1
| pg_fail e c q reason : clocked e → pg_call b (Fail e c q reason b).1
| pg_reap e now : (now <= T)%Z → pg_call b (ReapExpired e now b).1
| pg_reset e : pg_call b (Postgres_Resetter e b).1.

Lemma pg_gate_call b b' : pg_call b b' → gated b → gated b'.
Proof.
  intros Hc Hb. destruct Hc as [e k p cost He Hcost|e w x|e c max|e c q He|e c|e c x|e c q reason He
    |e now Hnow|e].
  - unfold Enqueue. pose proof (gate_tenant_get e (Workspace k) b Hb) as H1.
    destruct (tenant_get _ _ _) as [[b1 i] [t wait]].
    pose proof (keeps_on_shard gate_db
      (exec e (λ now, enqueue_stmt now k t (Milliseconds wait) cost p)) (route b1 k) i b1) as H2.
    destruct (on_shard _ _ _ _) as [[b2 i2] r]. apply H2; [|done].
    apply keeps_exec. intros ?. by apply gate_enqueue_stmt.
  - by apply gate_claim_turns.
  - apply keeps_routed; [|done]. apply keeps_bind; [apply gate_checkLease|]. intros _.
    apply keeps_exec. intros ? d d' ts Hd. unfold drain_stmt. case_match; [done|].
    by intros [= <- _].
  - apply keeps_routed; [by apply gate_Ack_prog|done].
  - apply keeps_routed; [|done]. apply gate_affected, keeps_exec. intros ?.
    apply gate_update_leased, gate_free.
  - apply keeps_routed; [|done]. apply gate_affected, keeps_exec. intros i d d' n Hd.
    unfold heartbeat_stmt. case_match; [done|]. apply gate_update_leased; [|done].
    intros w ts. apply gate_lease.
  - apply keeps_routed; [|done]. apply keeps_transaction. intros i. by apply gate_fail_tx.
  - by apply gate_reap_shards.
  - by apply gate_reset.
Qed.

Lemma pg_gate_run b b' : rtc pg_call b b' → gated b → gated b'.
Proof. induction 1 as [|b b1 b' H1 _ IH]; [done|]. intros Hb. by eapply IH, pg_gate_call. Qed.
End gate.

(** ** What a claim takes *)

Section claim.
Context `{PgService}.

(** The unit of a claim and its row on shard [j], and the state it leaves: only that row
    is changed, and it is leased to the worker. *)
Definition takes (worker : WorkerID) (uuid : string) (ms : Z) (b b' : Backend) (c : ClaimedUnit)
    (j : nat) (d : db) (w : wrow) : Prop :=
  shards b !! j = Some d ∧ work_units d !! cu_Key c = Some w ∧ claimable w = true ∧
  (∀ k v, work_units d !! k = Some v → claimable v = true →
     dl_le (flush_deadline w) (flush_deadline v)) ∧
  cu_Worker c = worker ∧ cu_Lease c = uuid ∧
  b' = set_shard j (set_row (cu_Key c)
         (set_lease (Some worker) (Some uuid) (Some ms) (Some (cu_LeaseTill c)) w) d) b.

Lemma claim_stmt_at now uuid worker ms d d' k tok exp :
  claim_stmt now uuid worker ms d = inr (d', Some (k, tok, exp)) →
  tok = uuid ∧ exp = (now + interval_ms ms)%Z ∧ ∃ w, work_units d !! k = Some w ∧
    claimable w = true ∧
    (∀ k' v, work_units d !! k' = Some v → claimable v = true →
       dl_le (flush_deadline w) (flush_deadline v)) ∧
    d' = set_row k (set_lease (Some worker) (Some uuid) (Some ms) (Some exp) w) d.
Proof.
  unfold claim_stmt. destruct (negb _); [done|].
  pose proof (pick_spec (map_to_list (work_units d))) as Hp.
  destruct (pick _ _) as [[k0 w]|]; [|done]. intros [= <- -> <- <-].
  destruct Hp as (Hin & Hcl & Hbest). apply elem_of_map_to_list in Hin. simpl in *.
  split_and!; [done..|]. exists w. split_and!; [done|done| |done].
  intros k' v Hv. apply (Hbest (k', v)). by apply elem_of_map_to_list.
Qed.

Lemma claim_stmt_None now uuid worker ms d d' :
  claim_stmt now uuid worker ms d = inr (d', None) → d' = d.
Proof.
  unfold claim_stmt. destruct (negb _); [done|]. destruct (pick _ _) as [[k w]|]; [done|].
  by intros [= <-].
Qed.

Lemma claim_turns_at e worker ms r (todo i : nat) b b' c :
  claim_turns e worker ms r todo i b = (b', Ok (Some c)) →
  ∃ j d w x, takes worker (env_uuid e) ms b b' c j d w ∧
    cu_LeaseTill c = (env_now e x + interval_ms ms)%Z.
Proof.
  revert i. induction todo as [|todo IH]; intros i; cbn [claim_turns]; [done|].
  destruct (rotation _ _ _) as [j|]; [|done]. unfold on_shard at 1.
  destruct (shards b !! j) as [d|] eqn:Hj; [|done].
  unfold exec at 1. destruct (env_net e i); [|done|done].
  destruct (claim_stmt _ _ _ _ _) as [msg|[d' [[[k tok] exp]|]]] eqn:Hst; [done| |].
  - intros [= <- <-]. apply claim_stmt_at in Hst as (-> & -> & w & Hw & Hcl & Hbest & ->).
    exists j, d, w, i. by split_and!.
  - apply claim_stmt_None in Hst as ->. rewrite set_shard_same by done. apply IH.
Qed.

Lemma claim_turns_err e worker ms r (todo i : nat) b b' err :
  quiet e → claim_turns e worker ms r todo i b = (b', Err err) → int4 ms = false.
Proof.
  intros Hq. revert i b. induction todo as [|todo IH]; intros i b; cbn [claim_turns]; [done|].
  destruct (rotation _ _ _) as [j|]; [|done]. unfold on_shard at 1.
  destruct (shards b !! j) as [d|]; [|done]. rewrite exec_quiet by done.
  unfold claim_stmt. destruct (int4 ms) eqn:Hms; [|done]. cbn [negb].
  destruct (pick _ _) as [[k w]|]; [done|]. apply IH.
Qed.
End claim.

(** ** Atomicity *)

Section atomic.
Context `{PgService}.

(** under faults a program runs as on a network that answers or stops with a driver's error *)
Definition transparent {A} (p : Env → prog A) : Prop := ∀ e st,
  p e st = p (answered e) st ∨ ∃ st' msg, p e st = (st', Err (ErrDriver msg)).

Lemma transparent_exec {A} (f : Env → time → stmt A) :
  (∀ e, f e = f (answered e)) → transparent (λ e, exec e (f e)).
Proof.
  intros Hf e [i d]. unfold exec. rewrite (Hf e). simpl. destruct (env_net e i); eauto.
Qed.

Lemma transparent_bind {A B} (m : Env → prog A) (f : Env → A → prog B) :
  transparent m → (∀ a, transparent (λ e, f e a)) → transparent (λ e, m e ≫= f e).
Proof.
  intros Hm Hf e st. unfold mbind, prog_bind.
  destruct (Hm e st) as [->|(st' & msg & ->)]; [|eauto].
  destruct (m (answered e) st) as [st1 [a|err|]]; [apply Hf|by left..].
Qed.

Lemma transparent_const {A} (p : prog A) : transparent (λ _, p).
Proof. intros e st. by left. Qed.

Lemma transparent_check c : transparent (λ e, checkLease e c).
Proof.
  apply transparent_bind; [by apply (transparent_exec (λ _ _, check_stmt c))|].
  intros ok. apply transparent_const.
Qed.

Lemma transparent_tx {A} (f : stmt A) : transparent (λ e, tx_exec e f).
Proof. by apply (transparent_exec (λ _ _, f)). Qed.

(** The outcome of a method [m] that may have met faults, seen against the same call
    answered: nothing happened, or all of it did, and only then may it say so. *)
Definition atomic {A} (m : Env → Backend → Backend * res A) : Prop := ∀ e b,
  ((m e b).1 = b ∧ ∀ a, (m e b).2 = Ok a → m e b = m (answered e) b) ∨
  ((m e b).1 = (m (answered e) b).1 ∧ ∃ a, (m (answered e) b).2 = Ok a ∧
     ((m e b).2 = Ok a ∨ ∃ msg, (m e b).2 = Err (ErrDriver msg))).

Lemma transaction_atomic {A} k (body : Env → time → prog A) :
  (∀ now, transparent (λ e, body e now)) →
  atomic (λ e, routed k (transaction e (body e))).
Proof.
  intros Hb e b. unfold routed, on_shard. destruct (shards b !! route b k) as [d|] eqn:Hd.
  2:{ left. by split. }
  unfold transaction. change (env_now (answered e)) with (env_now e).
  change (env_net (answered e)) with (λ _ : nat, NoFault). cbv beta iota.
  destruct (env_net e 0); [|left; cbn [fst snd]; by rewrite set_shard_same..].
  destruct (Hb (env_now e 0) e (1, d)) as [->|(st & msg & ->)].
  - destruct (body (answered e) _ _) as [[j d'] [a|err|]].
    + destruct (env_net e j); cbn [fst snd].
      * right. split; [done|]. eauto.
      * left. rewrite set_shard_same by done. by split.
      * right. split; [done|]. eauto.
    + left. cbn [fst snd]. rewrite set_shard_same by done. by split.
    + left. cbn [fst snd]. rewrite set_shard_same by done. by split.
  - destruct st as [j d']. left. cbn [fst snd]. rewrite set_shard_same by done. by split.
Qed.

Lemma statement_atomic k (f : Env → time → stmt Z) :
  (∀ e, f e = f (answered e)) →
  (∀ e d d' now, f e now d = inr (d', 0%Z) → d' = d) →
  atomic (λ e, routed k (affected (exec e (f e)))).
Proof.
  intros Hf H0 e b. unfold routed, on_shard. destruct (shards b !! route b k) as [d|] eqn:Hd.
  2:{ left. by split. }
  unfold affected, mbind, prog_bind, exec. rewrite <- (Hf e).
  change (env_now (answered e)) with (env_now e).
  change (env_net (answered e)) with (λ _ : nat, NoFault). cbv beta iota.
  destruct (env_net e 0).
  - destruct (f e (env_now e 0) d) as [msg|[d' n]] eqn:Hst.
    + left. cbn [fst snd]. by rewrite set_shard_same.
    + destruct (Z.eqb_spec n 0) as [->|Hn].
      * apply H0 in Hst as ->. left. cbn [fst snd throw]. by rewrite set_shard_same.
      * right. cbn [fst snd mret prog_ret]. split; [done|]. eauto.
  - left. cbn [fst snd]. by rewrite set_shard_same.
  - destruct (f e (env_now e 0) d) as [msg'|[d' n]] eqn:Hst.
    + left. cbn [fst snd]. by rewrite set_shard_same.
    + destruct (Z.eqb_spec n 0) as [->|Hn].
      * apply H0 in Hst as ->. left. cbn [fst snd throw]. by rewrite set_shard_same.
      * right. cbn [fst snd mret prog_ret]. split; [done|]. eauto.
Qed.

Lemma update_leased_0 c f d d' : update_leased c f d = inr (d', 0%Z) → d' = d.
Proof.
  unfold update_leased. destruct (leased_row c d) as [|[w|]]; [done| |]; by intros [= <-].
Qed.
End atomic.

(** a sweep that matches no row changes nothing *)
Lemma update_where_none p f d :
  (∀ k w, work_units d !! k = Some w → p w = false) → update_where p f d = inr (d, 0%Z).
Proof.
  intros Hp. unfold update_where.
  assert ((λ w, if p w then f w else w) <$> work_units d = work_units d) as ->.
  { apply map_eq. intros k. rewrite lookup_fmap. destruct (work_units d !! k) as [w|] eqn:Hw; [|done].
    simpl. by rewrite (Hp _ _ Hw). }
  rewrite map_empty_filter_2; [by destruct d|]. intros k w Hw H1. simpl in H1.
  by rewrite (Hp _ _ Hw) in H1.
Qed.
