(* ===== verification/PostgresProps.v ===== *)
(** PostgresProps: what the Postgres driver guarantees: the system's guarantees over any
    number of shards, atomicity of its transactions under lost messages, the exact effect
    of a claim, and the places where it departs from the in-memory driver. *)
From S2P Require Import Prelude Queue Contract Routing Postgres PostgresFacts System SystemFacts.
From S2P Require Import PostgresGate Conformance.
From S2P Require Memory.

(** ** A server and two primaries to apply the theorems to *)

(** A server whose uuids are the strings that start with [u]. *)
#[local] Instance demo_service : PgService := {|
  uuid_in s := match s with String "u" _ => Some s | _ => None end;
  text_lt := str_lt;
  epoch_ns d := d;
|}.

Definition pg_opts (t : Z) : Options := mkOptions ["dsn0"; "dsn1"] t (5 * Second) 2.

(** Two empty primaries at threshold [t]. *)
Definition pg_two (t : Z) : Backend :=
  mkBackend [empty_db ∅; empty_db ∅] 2 t (5 * Second) ∅ 0.

Definition pg_env (t : time) (u : string) : Env := mkEnv (λ _, t) (λ l, l) u (λ _, NoFault).
Definition pg_key : WorkUnitKey := mkKey "ws-1" "s" "p".

Lemma New_empty o tc b j d :
  New o (λ _, empty_db tc) = Some b → shards b !! j = Some d → d = empty_db tc.
Proof.
  intros Hnew. assert (shards b = (λ _, empty_db tc) <$> DSNs o) as ->.
  { unfold New in Hnew. destruct (DSNs o); [done|]. by injection Hnew as <-. }
  rewrite list_lookup_fmap. by intros (x & _ & ->)%fmap_Some_1.
Qed.

Lemma New_ok `{PgService} o tc b :
  New o (λ _, empty_db tc) = Some b → (0 < DefaultThreshold o)%Z →
  (length (DSNs o) < 2 ^ 32)%Z → (∀ ws t m, tc !! ws = Some (t, m) → (0 < t)%Z) →
  pg_ok 0 ∅ b ∧ ∀ k, pending b k = [].
Proof.
  intros Hnew Ht Hlen Htc.
  assert (shards b = (λ _, empty_db tc) <$> DSNs o ∧ defT b = DefaultThreshold o ∧
    cache b = ∅ ∧ rr b = 0%Z ∧ DSNs o ≠ []) as (Hs & Hd & Hc & Hr & Hne).
  { unfold New in Hnew. destruct (DSNs o); [done|]. by injection Hnew as <-. }
  pose proof (λ j d, New_empty o tc b j d Hnew) as Hempty.
  split; [split|]; rewrite ?Hs, ?Hd, ?Hc, ?Hr, ?length_fmap; try done.
  - destruct (DSNs o); [done|simpl; lia].
  - intros j d Hj. rewrite <- Hs in Hj. rewrite (Hempty j d) by done. by apply empty_db_ok.
  - intros j d k Hj Hk. rewrite <- Hs in Hj. rewrite (Hempty j d) in Hk by done. simpl in Hk.
    rewrite lookup_empty in Hk. by destruct Hk.
  - intros k. cbn [pending pg_View]. destruct (shards b !! _) as [d|] eqn:Hj; [|done].
    by rewrite (Hempty _ _ Hj).
Qed.

(** ** The system over Postgres *)

(** C7: The Postgres driver, over any number of primaries on a network that answers, meets
    the contract of the interface, so the system's guarantees hold of it: from empty tables
    and positive thresholds, whatever the interleaving, no task is lost or reordered, only
    processed tasks are deleted, and at most one worker holds a handle the driver accepts. *)
Theorem postgres_system_safe `{PgService} o tc b0 (s : sys Backend) :
  New o (λ _, empty_db tc) = Some b0 → (0 < DefaultThreshold o)%Z →
  (length (DSNs o) < 2 ^ 32)%Z → (∀ ws t m, tc !! ws = Some (t, m) → (0 < t)%Z) →
  reachable b0 s →
  (∀ k, enq_of (log s) k = acked_of (log s) k ++ pending (st s) k) ∧
  (∀ k p, p < length (acked_of (log s) k) → was_processed (log s) k p) ∧
  (∀ i j p q, pcs s !! i = Some p → pcs s !! j = Some q →
     cu_Key (handle p) = cu_Key (handle q) →
     holds (st s) (handle p) = true → holds (st s) (handle q) = true → i = j).
Proof.
  intros Hnew Ht Hlen Htc Hr. destruct (New_ok o tc b0 Hnew Ht Hlen Htc) as [Hok Hp].
  exact (system_safe b0 s Hok Hp Hr).
Qed.

Definition pg_acts : list action := [
  DoEnqueue (pg_env Second "u1") pg_key "a" 2;
  DoClaim 0 (pg_env Second "u2") "w0" Second;
  DoDrain 0 (pg_env Second "u3") 10;
  DoReap (pg_env (3 * Second) "u4") (3 * Second);
  DoClaim 1 (pg_env (3 * Second) "u5") "w1" Second;
  DoDrain 1 (pg_env (3 * Second) "u6") 10;
  DoProcess 1;
  DoAck 1 (pg_env (3 * Second) "u7")].

Definition pg_end : sys Backend := default (init (pg_two 1)) (exec (init (pg_two 1)) pg_acts).

(** the uuids an action draws are new and canonical *)
Definition fresh_uuid (s : sys Backend) (a : action) : bool :=
  match a with
  | DoClaim _ e _ _ =>
      bool_decide (env_uuid e ∉ toks s) && bool_decide (uuid_in (env_uuid e) = Some (env_uuid e))
  | _ => true
  end.

Fixpoint fresh_uuids (s : sys Backend) (acts : list action) : bool :=
  match acts with
  | [] => true
  | a :: acts =>
      fresh_uuid s a && match exec1 s a with Some s' => fresh_uuids s' acts | None => true end
  end.

Definition action_env (a : action) : Env :=
  match a with
  | DoEnqueue e _ _ _ | DoDrain _ e _ | DoAck _ e | DoRelease _ e | DoHeartbeat _ e _
  | DoReap e _ | DoClaim _ e _ _ => e
  | DoProcess _ | DoCrash _ => pg_env 0 ""
  end.

Lemma fresh_uuids_ok s acts :
  fresh_uuids s acts = true → Forall (λ a, quiet (action_env a)) acts → acts_ok s acts.
Proof.
  intros Hf Hq. revert s Hf. induction Hq as [|a acts Ha _ IH]; intros s Hf; [done|].
  cbn [fresh_uuids acts_ok] in *. apply andb_true_iff in Hf as [Hfa Hf]. split.
  - destruct a; try done. cbn [fresh_uuid] in Hfa. apply andb_true_iff in Hfa as [H1 H2].
    by apply bool_decide_eq_true in H1, H2.
  - destruct (exec1 s a); [by apply IH|done].
Qed.

Lemma pg_reachable : reachable (pg_two 1) pg_end.
Proof.
  apply (exec_reachable _ pg_acts (init (pg_two 1))).
  - apply fresh_uuids_ok; [vm_compute; reflexivity|by repeat constructor].
  - apply rtc_refl.
  - vm_compute. reflexivity.
Qed.

Lemma postgres_system_safe_witness :
  acked_of (log pg_end) pg_key = [mkTask 0 "a" 2] ∧
  enq_of (log pg_end) pg_key = acked_of (log pg_end) pg_key ++ pending (st pg_end) pg_key.
Proof.
  split; [vm_compute; reflexivity|].
  destruct (postgres_system_safe (pg_opts 1) ∅ (pg_two 1) pg_end) as [Hf _];
    [reflexivity|reflexivity|reflexivity|done|exact pg_reachable|exact (Hf pg_key)].
Defined.

(** ** The conformance suite *)

(** The factory of the Postgres driver over two emptied primaries. *)
Definition postgres_factory (c : Config) : Backend :=
  default (pg_two 0)
    (New (mkOptions ["dsn0"; "dsn1"] (Threshold c) (MaxWait c) (cf_MaxAttempts c))
       (λ _, empty_db ∅)).

(** A clock that advances from call to call and from statement to statement, and a fresh
    uuid per call. *)
Definition pg_ticking (i : nat) : Env :=
  mkEnv (λ j, 1000 * Second + i * Millisecond + j)%Z (λ l, l) ("u" +:+ pretty i)
    (λ _, NoFault).

(** The Postgres driver, over two primaries, passes every scenario of the conformance
    suite, like the in-memory driver. *)
Lemma postgres_conforms :
  (Conformance.Run postgres_factory pg_ticking (pg_two 0)).*2 = replicate 8 true.
Proof. vm_compute. reflexivity. Qed.

(** ** Lost messages *)

(** C14: The driver's transactions are atomic whatever messages are lost or answered too
    late: acknowledging, failing, releasing and extending a lease either change nothing, or
    change exactly what they change on a network that answers; they report success only in
    the second case, and then with the same answer. *)
Theorem transactions_are_atomic `{PgService} c q reason x :
  atomic (λ e, Ack e c q) ∧ atomic (λ e, Fail e c q reason) ∧
  atomic (λ e, Release e c) ∧ atomic (λ e, Heartbeat e c x).
Proof.
  split_and!.
  - apply transaction_atomic. intros now. apply transparent_bind; [apply transparent_check|].
    intros _. apply transparent_bind; [apply transparent_tx|]. intros o. apply transparent_const.
  - intros e b. apply (transaction_atomic _ (λ e, fail_tx e c q reason (maxTries b))). clear e.
    intros now. apply transparent_bind; [apply transparent_check|]. intros _.
    apply transparent_bind; [apply transparent_tx|].
    intros [[a cost]|]; [|apply transparent_tx]. destruct (maxTries b <=? a)%Z; [|apply transparent_tx].
    apply transparent_bind; [apply transparent_tx|].
    intros hd. destruct (q =? hd)%Z; apply transparent_tx.
  - apply statement_atomic; [done|]. intros e d d' now. apply update_leased_0.
  - apply statement_atomic; [done|]. intros e d d' now. unfold heartbeat_stmt.
    destruct (negb _); [done|apply update_leased_0].
Qed.

(** C17: The gate of the Postgres driver.  After any history of calls on empty tables, with
    any handles and any lost messages, a claim hands out only a unit whose pending cost has
    reached its threshold, or one of whose pending tasks has waited out the flush delay, and
    none of the claimable units of its primary has an earlier flush deadline. *)
Theorem postgres_claimed_unit_is_ripe `{PgService} o tc b0 T b e w x b' c :
  New o (λ _, empty_db tc) = Some b0 → rtc (pg_call T) b0 b →
  Claim e w x b = (b', Ok (Some c)) →
  ∃ j d r, shards b !! j = Some d ∧ work_units d !! cu_Key c = Some r ∧
    ((threshold r <= sum_cost (of_unit (cu_Key c) d))%Z ∨
     ∃ t, t ∈ of_unit (cu_Key c) d ∧
       (t_enqueued_at t + interval_ms (max_wait_ms r) <= T)%Z) ∧
    ∀ k v, work_units d !! k = Some v → claimable v = true →
      dl_le (flush_deadline r) (flush_deadline v).
Proof.
  intros Hnew Hrun Hc. assert (gated T b0) as H0.
  { apply Forall_lookup. intros j d Hj. rewrite (New_empty _ _ _ _ _ Hnew Hj).
    apply gate_empty. }
  pose proof (pg_gate_run T _ _ Hrun H0) as Hg. unfold Claim in Hc.
  apply claim_turns_at in Hc as (j & d & r & i & (Hj & Hr & Hcl & Hbest & _) & _).
  cbn [shards] in Hj. exists j, d, r. split_and!; [done|done| |done].
  pose proof (proj1 (Forall_lookup _ _) Hg _ _ Hj) as Hd.
  apply (gr_ripe T _ _ (gd_rows T _ Hd _ _ Hr)). unfold claimable in Hcl. by b2p.
Qed.

(** A task below the threshold, a lost claim, and a reap after the delay. *)
Definition ripe_b0 : Backend := pg_two 100.
Definition ripe_b1 : Backend := (Enqueue (pg_env Second "u1") pg_key "a" 2 ripe_b0).1.
Definition lost_env : Env := mkEnv (λ _, Second) (λ l, l) "u2" (λ _, Lost "timeout").
Definition ripe_b2 : Backend := (Claim lost_env "w" Second ripe_b1).1.
Definition ripe_b : Backend :=
  (ReapExpired (pg_env (6 * Second) "u3") (6 * Second) ripe_b2).1.

Lemma ripe_run : rtc (pg_call (6 * Second)) ripe_b0 ripe_b.
Proof.
  apply (rtc_l _ _ ripe_b1); [apply pg_enqueue; [intros i|]; done|].
  apply (rtc_l _ _ ripe_b2); [apply pg_claim|]. apply rtc_once. by apply pg_reap.
Qed.

Lemma postgres_claimed_unit_is_ripe_witness :
  ∃ b' c, Claim (pg_env (7 * Second) "u4") "w1" Second ripe_b = (b', Ok (Some c)) ∧
    cu_Key c = pg_key ∧
  ∃ j d r, shards ripe_b !! j = Some d ∧ work_units d !! cu_Key c = Some r ∧
    ((threshold r <= sum_cost (of_unit (cu_Key c) d))%Z ∨
     ∃ t, t ∈ of_unit (cu_Key c) d ∧
       (t_enqueued_at t + interval_ms (max_wait_ms r) <= 6 * Second)%Z) ∧
    ∀ k v, work_units d !! k = Some v → claimable v = true →
      dl_le (flush_deadline r) (flush_deadline v).
Proof.
  eexists _, _. split; [vm_compute; reflexivity|]. split; [reflexivity|].
  eapply (postgres_claimed_unit_is_ripe (pg_opts 100) ∅ ripe_b0 _ ripe_b
    (pg_env (7 * Second) "u4") "w1" Second);
    [reflexivity|apply ripe_run|vm_compute; reflexivity].
Defined.

(** ** Claim *)

(** C21: A claim on a server that answers fails only if the lease does not fit an [int4] of
    milliseconds; it reports no unit only if no row of any primary is claimable; and
    otherwise it takes, on one primary, a claimable row with the earliest flush deadline
    there, and changes that row's lease columns and nothing else but the cursor. *)
Theorem postgres_claim_spec `{PgService} n h b e w x :
  pg_ok n h b → (n < pg_capacity)%Z → quiet e →
  uuid_in (env_uuid e) = Some (env_uuid e) → env_uuid e ∉ h →
  match Claim e w x b with
  | (b', Ok (Some c)) => ∃ j d r i,
      takes w (env_uuid e) (Milliseconds x)
        (mkBackend (shards b) (maxTries b) (defT b) (defWait b) (cache b) (rr_next (rr b)))
        b' c j d r ∧
      cu_LeaseTill c = (env_now e i + interval_ms (Milliseconds x))%Z
  | (_, Ok None) => ∀ j d k r, shards b !! j = Some d → work_units d !! k = Some r →
      claimable r = false
  | (_, Err _) => int4 (Milliseconds x) = false
  | (_, Panic) => False
  end.
Proof.
  intros Hb Hn Hq Hu Hfr. destruct (pg_claim_law n h e w x b Hb Hn Hq Hu Hfr) as [_ Hl].
  destruct (Claim e w x b) as [b' [[c|]|err|]] eqn:Hc; cbn [fst snd] in Hl; [| | |done].
  - unfold Claim in Hc. by apply claim_turns_at in Hc.
  - by destruct Hl as (_ & _ & Hl).
  - unfold Claim in Hc. by apply claim_turns_err in Hc.
Qed.

Definition full_b : Backend := (Enqueue (pg_env Second "u1") pg_key "a" 2 (pg_two 1)).1.

Lemma full_ok : pg_ok 1 ∅ full_b.
Proof.
  pose proof (pg_enqueue_law 0 ∅ (pg_two 1) (pg_env Second "u1")
    (proj1 (New_ok (pg_opts 1) ∅ (pg_two 1) eq_refl eq_refl eq_refl ltac:(done)))
    (λ _, eq_refl) pg_key "a" 2 eq_refl) as H.
  exact (proj1 H).
Qed.

Lemma postgres_claim_spec_witness :
  (∃ c, (Claim (pg_env Second "u2") "w" Second full_b).2 = Ok (Some c)) ∧
  match Claim (pg_env Second "u2") "w" Second full_b with
  | (b', Ok (Some c)) => ∃ j d r i,
      takes "w" "u2" (Milliseconds Second)
        (mkBackend (shards full_b) (maxTries full_b) (defT full_b) (defWait full_b)
           (cache full_b) (rr_next (rr full_b))) b' c j d r ∧
      cu_LeaseTill c = (env_now (pg_env Second "u2") i + interval_ms (Milliseconds Second))%Z
  | (_, Ok None) => ∀ j d k r, shards full_b !! j = Some d → work_units d !! k = Some r →
      claimable r = false
  | (_, Err _) => int4 (Milliseconds Second) = false
  | (_, Panic) => False
  end.
Proof.
  split; [eexists; vm_compute; reflexivity|].
  apply (postgres_claim_spec 1 ∅ full_b (pg_env Second "u2") "w" Second);
    [exact full_ok|reflexivity|by intros i|reflexivity|apply not_elem_of_empty].
Defined.

(** ** Where the driver departs from the oracle *)

(** C39: A tenant's configuration is looked up once: if that lookup is lost, the defaults
    are cached, and every later lookup of the workspace answers them without asking the
    server again, whatever [tenant_config] holds. *)
Theorem lost_lookup_pins_the_defaults `{PgService} e e' ws b msg :
  cache b !! ws = None → env_net e 0 = Lost msg →
  shard_index (length (shards b)) ws < length (shards b) →
  let b1 := (tenant_get e ws b).1.1 in
  shards b1 = shards b ∧ tenant_get e' ws b1 = (b1, 0, (defT b, defWait b)).
Proof.
  intros Hc Hn Hlt. destruct (lookup_lt_is_Some_2 _ _ Hlt) as [d Hd].
  assert (tenant_get e ws b = (mkBackend (shards b) (maxTries b) (defT b) (defWait b)
    (<[ws := (defT b, defWait b)]> (cache b)) (rr b), 1, (defT b, defWait b))) as ->.
  { unfold tenant_get, on_shard, Postgres.exec. by rewrite Hc, Hd, Hn, set_shard_same. }
  cbn [fst shards]. split; [done|]. unfold tenant_get. cbn [cache]. by rewrite lookup_insert_eq.
Qed.

(** A tenant whose threshold is 5, on a driver whose default is 1. *)
Definition tenant_b : Backend :=
  mkBackend [empty_db {["ws-1" := (5, 100)%Z]}; empty_db {["ws-1" := (5, 100)%Z]}]
    2 1 Second ∅ 0.

Lemma lost_lookup_pins_the_defaults_witness :
  (tenant_get (pg_env 0 "u") "ws-1" tenant_b).2 = (5, 100 * Millisecond)%Z ∧
  (tenant_get (pg_env 0 "u") "ws-1" (tenant_get lost_env "ws-1" tenant_b).1.1).2 = (1, Second)%Z.
Proof.
  split; [vm_compute; reflexivity|].
  destruct (lost_lookup_pins_the_defaults lost_env (pg_env 0 "u") "ws-1" tenant_b "timeout")
    as [_ H]; [reflexivity|reflexivity|vm_compute; lia|].
  by rewrite H.
Defined.

Lemma reap_idle `{PgService} e now (todo j i : nat) b r f :
  quiet e → j + todo = length (shards b) →
  (∀ j d k w, shards b !! j = Some d → work_units d !! k = Some w →
     claimed_by w = None ∧ (pending_cost w <= 0)%Z) →
  in_i64 r → in_i64 f → reap_shards e now todo j i b r f = (b, (r, f, None)).
Proof.
  intros Hq Hlen Hidle Hr Hf. revert j i Hlen.
  induction todo as [|todo IH]; intros j i Hlen; cbn [reap_shards]; [done|].
  destruct (lookup_lt_is_Some_2 (shards b) j) as [d Hd]; [lia|].
  assert (∀ p g, (∀ k w, work_units d !! k = Some w → p w = false) → ∀ i,
    on_shard j i (Postgres.exec e (λ _, update_where p g)) b = (b, Datatypes.S i, Ok 0%Z)) as Hno.
  { intros p g Hp i'. unfold on_shard. rewrite Hd, exec_quiet, update_where_none by done.
    by rewrite set_shard_same. }
  unfold reclaim_stmt, flush_stmt. rewrite !Hno.
  - rewrite !Z.add_0_r, !i64_id by done. apply IH. lia.
  - intros k w Hw. destruct (Hidle j d k w Hd Hw) as [_ Hp]. unfold flushable.
    rewrite (proj2 (Z.ltb_ge 0 (pending_cost w))) by done. by rewrite andb_false_r.
  - intros k w Hw. destruct (Hidle j d k w Hd Hw) as [Hc _]. unfold lapsed.
    by rewrite bool_decide_true.
Qed.

(** The reaper of the Postgres driver never flushes a unit whose pending cost is 0,
    however long its tasks have waited: on tables whose rows are free and cost nothing a
    pass at any time changes nothing and counts nothing.  (The in-memory driver flushes
    such a unit; the witness shows both on the same calls.) *)
Lemma zero_cost_is_never_flushed `{PgService} e now b :
  quiet e →
  (∀ j d k w, shards b !! j = Some d → work_units d !! k = Some w →
     claimed_by w = None ∧ (pending_cost w <= 0)%Z) →
  ReapExpired e now b = (b, (0%Z, 0%Z, None)).
Proof. intros Hq Hidle. by apply reap_idle. Qed.

Definition zero_b : Backend := (Enqueue (pg_env Second "u1") pg_key "a" 0 (pg_two 1)).1.

Definition zero_mem : Memory.Backend :=
  (Memory.Enqueue (pg_env Second "u1") pg_key "a" 0
    (Memory.New (Memory.mkOptions 1 (5 * Second) 2))).1.

Lemma zero_cost_is_never_flushed_witness :
  pending zero_b pg_key = [mkTask 0 "a" 0] ∧
  (∀ now, ReapExpired (pg_env now "u") now zero_b = (zero_b, (0%Z, 0%Z, None))) ∧
  (Memory.ReapExpired (pg_env (7 * Second) "u") (7 * Second) zero_mem).2 = (0%Z, 1%Z, None).
Proof.
  split; [vm_compute; reflexivity|]. split; [|vm_compute; reflexivity].
  intros now. apply zero_cost_is_never_flushed; [by intros i|].
  assert (∀ j d, shards zero_b !! j = Some d →
    map_Forall (λ _ w, claimed_by w = None ∧ (pending_cost w <= 0)%Z) (work_units d)) as Hall.
  { apply (Forall_lookup (λ d,
      map_Forall (λ _ w, claimed_by w = None ∧ (pending_cost w <= 0)%Z) (work_units d))).
    apply (bool_decide_unpack _). vm_compute. exact I. }
  intros j d k w Hj Hw. exact (Hall j d Hj k w Hw).
Defined.
