(* ===== verification/PostgresReap.v ===== *)
(** PostgresReap: what a reaper pass of the Postgres driver does to every row of every
    primary (ReapExpired, internal/postgres/backend.go), and that no unit with work is left
    unclaimed for ever: the reaper and a claim hand it out, or one of its primary that has
    waited as long. *)
From S2P Require Import Prelude Queue Contract Routing.
From S2P Require Import Postgres PostgresFacts PostgresGate PostgresProps.

(** ** One row, one primary *)

Definition reap_row (now : time) (w : wrow) : wrow :=
  let w := if lapsed now w then free w else w in
  if flushable now w then set_eligible w else w.

Definition set_rows (m : gmap WorkUnitKey wrow) (d : db) : db :=
  mkDb m (tasks d) (dead_letters d) (tenant_config d).

Definition reclaim_db (now : time) (d : db) : db :=
  set_rows ((λ w, if lapsed now w then free w else w) <$> work_units d) d.

Definition reap_db (now : time) (d : db) : db := set_rows (reap_row now <$> work_units d) d.

(** rows whose lease a pass takes back, and rows it then flushes *)
Definition reclaimed (now : time) (d : db) : Z := count_rows (lapsed now) d.
Definition flushed (now : time) (d : db) : Z := count_rows (flushable now) (reclaim_db now d).

Lemma reclaim_run now d : reclaim_stmt now d = inr (reclaim_db now d, reclaimed now d).
Proof. done. Qed.

Lemma flush_run now d : flush_stmt now (reclaim_db now d) = inr (reap_db now d, flushed now d).
Proof.
  unfold flush_stmt, update_where, flushed, count_rows. f_equal. f_equal.
  unfold reap_db, reclaim_db, set_rows. cbn [work_units tasks dead_letters tenant_config].
  f_equal. rewrite <- map_fmap_compose. done.
Qed.

(** The lease of a row is over before [now]; its flush deadline has come. *)
Definition lease_over (now : time) (w : wrow) : Prop :=
  claimed_by w ≠ None ∧ ∃ t, lease_expires w = Some t ∧ (t < now)%Z.

Definition flush_due (now : time) (w : wrow) : Prop :=
  ∃ t, flush_deadline w = Some t ∧ (t <= now)%Z.

(** What a pass may have done to a row. *)
Record row_reaped (now : time) (w w' : wrow) : Prop := {
  rr_work : pending_cost w' = pending_cost w ∧ next_seq w' = next_seq w ∧
    threshold w' = threshold w ∧ max_wait_ms w' = max_wait_ms w ∧
    oldest_pending_at w' = oldest_pending_at w ∧ flush_deadline w' = flush_deadline w;
  rr_over : lease_over now w →
    claimed_by w' = None ∧ lease_token w' = None ∧ lease_expires w' = None;
  rr_kept : ¬ lease_over now w →
    claimed_by w' = claimed_by w ∧ lease_token w' = lease_token w ∧
    lease_expires w' = lease_expires w;
  rr_eligible : eligible w' = true ↔
    eligible w = true ∨ claimed_by w' = None ∧ flush_due now w ∧ (0 < pending_cost w)%Z;
}.

Lemma lapsed_true now w : lapsed now w = true ↔ lease_over now w.
Proof.
  unfold lapsed, lease_over. rewrite andb_true_iff, negb_true_iff, bool_decide_eq_false.
  destruct (lease_expires w) as [t|]; [rewrite Z.ltb_lt|]; naive_solver.
Qed.

Lemma aged_true now w : aged now (flush_deadline w) = true ↔ flush_due now w.
Proof.
  unfold aged, flush_due. destruct (flush_deadline w) as [t|]; [rewrite Z.leb_le|]; naive_solver.
Qed.

Lemma reap_row_spec now w : row_reaped now w (reap_row now w).
Proof.
  unfold reap_row. set (w1 := if lapsed now w then free w else w).
  assert (pending_cost w1 = pending_cost w ∧ next_seq w1 = next_seq w ∧
    threshold w1 = threshold w ∧ max_wait_ms w1 = max_wait_ms w ∧
    oldest_pending_at w1 = oldest_pending_at w ∧ flush_deadline w1 = flush_deadline w ∧
    eligible w1 = eligible w) as (E1 & E2 & E3 & E4 & E5 & E6 & E7)
    by (subst w1; destruct (lapsed now w); by split_and!).
  assert (flushable now w1 = true ↔ eligible w = false ∧ claimed_by w1 = None ∧
    flush_due now w ∧ (0 < pending_cost w)%Z) as Hfl.
  { unfold flushable. rewrite !andb_true_iff, negb_true_iff, bool_decide_eq_true, E1, E6, E7.
    rewrite aged_true, Z.ltb_lt. tauto. }
  assert (∀ w', w' = w1 ∨ w' = set_eligible w1 →
    (lease_over now w → claimed_by w' = None ∧ lease_token w' = None ∧ lease_expires w' = None) ∧
    (¬ lease_over now w → claimed_by w' = claimed_by w ∧ lease_token w' = lease_token w ∧
      lease_expires w' = lease_expires w)) as Hlease.
  { intros w' Hw'. assert (claimed_by w' = claimed_by w1 ∧ lease_token w' = lease_token w1 ∧
      lease_expires w' = lease_expires w1) as (-> & -> & ->) by (by destruct Hw' as [-> | ->]).
    subst w1. rewrite <- lapsed_true. destruct (lapsed now w); split; done. }
  destruct (flushable now w1) eqn:Hf.
  - destruct (proj1 Hfl eq_refl) as (H1 & H2 & H3 & H4).
    destruct (Hlease (set_eligible w1)) as [H5 H6]; [by right|]. split; [by split_and!|done|done|].
    split; [intros _; right; by split_and!|done].
  - destruct (Hlease w1) as [H5 H6]; [by left|]. split; [by split_and!|done|done|]. rewrite E7.
    split; [by left|]. intros [|(H1 & H2 & H3)]; [done|].
    destruct (eligible w); [done|]. by rewrite (proj2 Hfl).
Qed.

(** ** The pass over the shards *)

Section reap.
Context `{PgService}.

Definition set_shards (ds : list db) (b : Backend) : Backend :=
  mkBackend ds (maxTries b) (defT b) (defWait b) (cache b) (rr b).

Lemma on_shard_quiet e (j i : nat) (f : time → stmt Z) b d d' x :
  quiet e → shards b !! j = Some d → f (env_now e i) d = inr (d', x) →
  on_shard j i (exec e f) b = (set_shard j d' b, Datatypes.S i, Ok x).
Proof. intros Hq Hd Hf. unfold on_shard. by rewrite Hd, exec_quiet, Hf. Qed.

Lemma reap_shards_run e now (todo j i : nat) b r f :
  quiet e → j + todo = length (shards b) → in_i64 r → in_i64 f →
  reap_shards e now todo j i b r f =
    (set_shards (take j (shards b) ++ (reap_db now <$> drop j (shards b))) b,
     (i64 (r + list_Z_sum (reclaimed now <$> drop j (shards b))),
      i64 (f + list_Z_sum (flushed now <$> drop j (shards b))), None)).
Proof.
  intros Hq. revert j i b r f. induction todo as [|todo IH]; intros j i b r f Hlen Hr Hf;
    cbn [reap_shards].
  { rewrite drop_ge, take_ge, app_nil_r by lia. cbn. rewrite !Z.add_0_r, !i64_id by done.
    by destruct b. }
  destruct (lookup_lt_is_Some_2 (shards b) j) as [d Hd]; [lia|].
  rewrite (on_shard_quiet e j i _ b d _ _ Hq Hd (reclaim_run now d)).
  set (b1 := set_shard j (reclaim_db now d) b).
  assert (shards b1 !! j = Some (reclaim_db now d)) as Hd1 by (apply list_lookup_insert_eq; lia).
  rewrite (on_shard_quiet e j _ _ b1 _ _ _ Hq Hd1 (flush_run now d)).
  set (b2 := set_shard j (reap_db now d) b1).
  assert (shards b2 = <[j := reap_db now d]> (shards b)) as Hs
    by (cbn [b2 b1 set_shard shards]; by rewrite list_insert_insert_eq).
  rewrite IH; [|rewrite Hs, length_insert; lia|apply i64_range|apply i64_range].
  rewrite Hs, drop_insert_lt, (drop_S _ d j Hd) by lia.
  rewrite (take_S_r _ j (reap_db now d)) by (apply list_lookup_insert_eq; lia).
  rewrite take_insert_ge by lia. rewrite <- (assoc_L (++)). cbn [fmap list_fmap list_Z_sum app].
  rewrite !i64_add_l, <- !Z.add_assoc. done.
Qed.

(** C22: The Postgres reaper, exactly.  On a server that answers, one pass over all primaries
    frees exactly the rows whose lease expired before [now], then makes exactly the free
    rows eligible that are not, whose flush deadline has come and whose pending cost is
    positive; it changes nothing else on any primary, reports no error, and counts both. *)
Theorem postgres_reap_spec e now b :
  quiet e →
  ∃ ds, ReapExpired e now b =
    (set_shards ds b,
     (i64 (list_Z_sum (reclaimed now <$> shards b)),
      i64 (list_Z_sum (flushed now <$> shards b)), None)) ∧
    Forall2 (λ d d', tasks d' = tasks d ∧ dead_letters d' = dead_letters d ∧
      tenant_config d' = tenant_config d ∧
      ∀ k, option_Forall2 (row_reaped now) (work_units d !! k) (work_units d' !! k)) (shards b) ds.
Proof.
  intros Hq. exists (reap_db now <$> shards b). unfold ReapExpired.
  rewrite reap_shards_run by done. split; [done|]. apply Forall2_fmap_r, Forall_Forall2_diag.
  apply Forall_true. intros d. split_and!; [done..|]. intros k. cbn [reap_db set_rows work_units].
  rewrite lookup_fmap. destruct (work_units d !! k); constructor. apply reap_row_spec.
Qed.

(** ** Liveness *)

(** a row with work that nobody is entitled to any more, and that may be claimed *)
Definition overdue (now : time) (r : wrow) : Prop :=
  (claimed_by r = None ∨ lease_over now r) ∧
  (eligible r = true ∨ flush_due now r ∧ (0 < pending_cost r)%Z).

Lemma reap_row_deadline now r : flush_deadline (reap_row now r) = flush_deadline r.
Proof. unfold reap_row. by repeat case_match. Qed.

Lemma overdue_claimable now r : overdue now r → claimable (reap_row now r) = true.
Proof.
  intros [Hfree Hripe]. destruct (reap_row_spec now r) as [_ Hover Hkept Hel].
  assert (claimed_by (reap_row now r) = None) as Hc.
  { destruct (decide (lapsed now r = true)) as [Hl|Hl]; rewrite lapsed_true in Hl.
    - by destruct (Hover Hl).
    - destruct (Hkept Hl) as (-> & _). by destruct Hfree. }
  unfold claimable. rewrite Hc, bool_decide_true, andb_true_r by done. apply Hel.
  destruct Hripe as [|[? ?]]; auto.
Qed.

(** C25: No unit is stranded on Postgres.  Once the claim on a unit has lapsed and it is
    eligible, or its flush deadline has come and its tasks cost something, a reaper pass
    followed by a claim on servers that answer hands out a unit, on whichever primary it is;
    if it is one of the same primary, it is that unit or one that has waited as long. *)
Theorem postgres_no_unit_is_stranded n h b e e' w x now j d k r :
  pg_ok n h b → (n < pg_capacity)%Z → quiet e → quiet e' →
  uuid_in (env_uuid e') = Some (env_uuid e') → env_uuid e' ∉ h →
  int4 (Milliseconds x) = true →
  shards b !! j = Some d → work_units d !! k = Some r → overdue now r →
  ∃ b' c j' d' v, Claim e' w x (ReapExpired e now b).1 = (b', Ok (Some c)) ∧
    shards b !! j' = Some d' ∧ work_units d' !! cu_Key c = Some v ∧
    (j' = j → dl_le (flush_deadline v) (flush_deadline r)).
Proof.
  intros Hb Hn Hq Hq' Hu Hfr Hms Hd Hr Hover.
  assert (pg_ok n h (ReapExpired e now b).1) as Hb1
    by exact (proj1 (reap_shards_spec n h e now _ 0 0 b 0 0 Hb Hq eq_refl)).
  assert (shards (ReapExpired e now b).1 = reap_db now <$> shards b) as Hs
    by (unfold ReapExpired; by rewrite reap_shards_run).
  set (b1 := (ReapExpired e now b).1) in *.
  assert (shards b1 !! j = Some (reap_db now d)) as Hd1 by (by rewrite Hs, list_lookup_fmap, Hd).
  assert (work_units (reap_db now d) !! k = Some (reap_row now r)) as Hr1
    by (cbn [reap_db set_rows work_units]; by rewrite lookup_fmap, Hr).
  pose proof (overdue_claimable _ _ Hover) as Hcl.
  destruct (pg_claim_law n h e' w x b1 Hb1 Hn Hq' Hu Hfr) as [_ Hl].
  destruct (Claim e' w x b1) as [b' [[c|]|err|]] eqn:Hc; cbn [fst snd] in Hl; [| | |done].
  - unfold Claim in Hc. apply claim_turns_at in Hc as (j' & d1 & v1 & i & (Hj & Hv & _ & Hbest & _) & _).
    cbn [shards] in Hj. rewrite Hs, list_lookup_fmap in Hj.
    apply fmap_Some_1 in Hj as (d' & Hd' & ->). cbn [reap_db set_rows work_units] in Hv.
    rewrite lookup_fmap in Hv. apply fmap_Some_1 in Hv as (v & Hv & ->).
    exists b', c, j', d', v. split; [done|]. split; [done|]. split; [done|]. intros ->.
    assert (d' = d) as -> by congruence.
    specialize (Hbest _ _ Hr1 Hcl). by rewrite !reap_row_deadline in Hbest.
  - destruct Hl as (_ & _ & Hl). by rewrite (Hl _ _ _ _ Hd1 Hr1) in Hcl.
  - unfold Claim in Hc. apply claim_turns_err in Hc; [|done]. by rewrite Hc in Hms.
Qed.
End reap.

(** ** A unit below the threshold, whose worker stalled *)

#[local] Existing Instance demo_service.

(** its delay of five seconds ran out at six, and its lease of one second at eight *)
Definition young_b : Backend := (Enqueue (pg_env Second "u1") pg_key "a" 2 (pg_two 100)).1.
Definition due_b : Backend :=
  (ReapExpired (pg_env (7 * Second) "u2") (7 * Second) young_b).1.

Definition stalled : Backend * res (option ClaimedUnit) :=
  Claim (pg_env (7 * Second) "u3") "w0" Second due_b.

Lemma young_ok : pg_ok 1 ∅ young_b.
Proof.
  pose proof (pg_enqueue_law 0 ∅ (pg_two 100) (pg_env Second "u1")
    (proj1 (New_ok (pg_opts 100) ∅ (pg_two 100) eq_refl eq_refl eq_refl ltac:(done)))
    (λ _, eq_refl) pg_key "a" 2 eq_refl) as H.
  exact (proj1 H).
Qed.

Lemma due_ok : pg_ok 1 ∅ due_b.
Proof.
  unfold due_b, ReapExpired.
  apply (reap_shards_spec 1 ∅ _ _ (length (shards young_b)) 0 0 young_b 0 0 young_ok);
    [by intros i|done].
Qed.

Lemma stalled_ok : pg_ok 2 {["u3"]} stalled.1.
Proof.
  destruct (pg_claim_law 1 ∅ (pg_env (7 * Second) "u3") "w0" Second due_b due_ok eq_refl
    (λ _, eq_refl) eq_refl (not_elem_of_empty _)) as [_ H3].
  fold stalled in H3. cbv zeta in H3.
  assert (∃ c, stalled.2 = Ok (Some c) ∧ cu_Lease c = "u3") as (c & Hc & Hl)
    by (eexists; split; vm_compute; reflexivity).
  rewrite Hc in H3. destruct H3 as (_ & _ & H4 & _). rewrite Hl in H4.
  by rewrite (right_id_L ∅ (∪)) in H4.
Qed.

Lemma postgres_reap_spec_witness :
  let b := stalled.1 in
  list_Z_sum (reclaimed (9 * Second) <$> shards b) = 1%Z ∧
  ∃ ds, ReapExpired (pg_env (9 * Second) "u4") (9 * Second) b =
    (set_shards ds b,
     (i64 (list_Z_sum (reclaimed (9 * Second) <$> shards b)),
      i64 (list_Z_sum (flushed (9 * Second) <$> shards b)), None)).
Proof.
  intros b. split; [vm_compute; reflexivity|].
  destruct (postgres_reap_spec (pg_env (9 * Second) "u4") (9 * Second) b (λ _, eq_refl))
    as (ds & Hds & _). by exists ds.
Defined.

Lemma postgres_no_unit_is_stranded_witness :
  ∃ j d r, shards stalled.1 !! j = Some d ∧ work_units d !! pg_key = Some r ∧
    claimed_by r = Some "w0" ∧
  ∃ b' c j' d' v, Claim (pg_env (9 * Second) "u4") "w1" Second
      (ReapExpired (pg_env (9 * Second) "u5") (9 * Second) stalled.1).1 = (b', Ok (Some c)) ∧
    shards stalled.1 !! j' = Some d' ∧ work_units d' !! cu_Key c = Some v ∧
    (j' = j → dl_le (flush_deadline v) (flush_deadline r)).
Proof.
  set (j := route stalled.1 pg_key).
  destruct (shards stalled.1 !! j) as [d|] eqn:Hd; [|by vm_compute in Hd].
  assert ((λ d, claimed_by <$> work_units d !! pg_key) <$> shards stalled.1 !! j =
    Some (Some (Some "w0"))) as Hcl by (vm_compute; reflexivity).
  assert ((λ d, lapsed (9 * Second) <$> work_units d !! pg_key) <$> shards stalled.1 !! j =
    Some (Some true)) as Hlap by (vm_compute; reflexivity).
  assert ((λ d, eligible <$> work_units d !! pg_key) <$> shards stalled.1 !! j =
    Some (Some true)) as Hel by (vm_compute; reflexivity).
  rewrite Hd in Hcl, Hlap, Hel. cbn in Hcl, Hlap, Hel.
  destruct (work_units d !! pg_key) as [r|] eqn:Hr; [|done]. cbn in Hcl, Hlap, Hel.
  exists j, d, r. split; [exact Hd|]. split; [exact Hr|]. split; [congruence|].
  apply (postgres_no_unit_is_stranded 2 {["u3"]} stalled.1 (pg_env (9 * Second) "u5")
    (pg_env (9 * Second) "u4") "w1" Second (9 * Second) j d pg_key r stalled_ok);
    [reflexivity|by intros i|by intros i|reflexivity| |reflexivity|exact Hd|exact Hr|].
  - intros Hin. by apply elem_of_singleton in Hin.
  - split; [right; apply lapsed_true|left]; congruence.
Defined.
