(* ===== verification/PostgresLease.v ===== *)
(** PostgresLease: a lease of the Postgres driver lasts (internal/postgres/backend.go):
    whatever calls come, with any handles and on any network, until its holder ends it or a
    reaper's clock passes its expiry nobody else is given the unit. *)
From S2P Require Import Prelude Queue Contract Lease Routing Postgres PostgresFacts PostgresGate.
From S2P Require PostgresProps.

Section lease.
Context `{PgService} (N : nat).      (* the number of primaries *)

Definition home (k : WorkUnitKey) : nat := shard_index N (Workspace k).

(** The lease watched, when [on] holds: of unit [K], to worker [W] under the uuid [U], to
    [t] at least.  When it does not, only where rows live is watched. *)
Context (on : Prop) (K : WorkUnitKey) (W U : string) (t : time).

Definition to_holder (w : wrow) : Prop :=
  claimed_by w = Some W ∧ lease_token w = Some U ∧ ∃ x, lease_expires w = Some x ∧ (t <= x)%Z.

(** the tables of primary [j]: the rows that belong there, and the leased one as it is *)
Record good (j : nat) (d : db) : Prop := {
  go_home : ∀ k, is_Some (work_units d !! k) → home k = j;
  go_lease : on → home K = j → ∃ w, work_units d !! K = Some w ∧ to_holder w;
}.

Lemma good_units j d d' : good j d → work_units d' = work_units d → good j d'.
Proof. intros [? ?] Hw. split; by rewrite Hw. Qed.

Lemma good_row j d d' k w' :
  good j d → work_units d' = <[k := w']> (work_units d) → home k = j →
  (on → k = K → to_holder w') → good j d'.
Proof.
  intros [Hh Hl] Hw Hk Hto. split; rewrite Hw.
  - intros k' [x [[<- _]|[_ Hx]]%lookup_insert_Some]; [done|]. apply Hh. by exists x.
  - intros Hon Hj. destruct (decide (k = K)) as [->|Hne].
    + exists w'. rewrite lookup_insert_eq. auto.
    + rewrite lookup_insert_ne by done. by apply Hl.
Qed.

(** a change of a row that is there *)
Lemma good_set j d d' k w w' :
  good j d → work_units d !! k = Some w → work_units d' = <[k := w']> (work_units d) →
  (on → k = K → to_holder w → to_holder w') → good j d'.
Proof.
  intros Hg Hw Hw' Hto. assert (home k = j) as Hk by (apply (go_home _ _ Hg); by exists w).
  eapply good_row; [done..|]. intros Hon ->. apply Hto; [done|done|].
  destruct (go_lease _ _ Hg Hon Hk) as (w0 & Hw0 & ?). by simplify_eq.
Qed.

(** the handles the driver takes for the holder's *)
Definition mine (c : ClaimedUnit) : Prop :=
  cu_Key c = K ∧ cu_Worker c = W ∧ uuid_in (cu_Lease c) = Some U.

(** a handle on the leased unit that is accepted is the holder's *)
Lemma leased_row_mine j d c w :
  good j d → on → cu_Key c = K → leased_row c d = inr (Some w) → mine c.
Proof.
  intros Hg Hon HK Hr. unfold leased_row in Hr. destruct (uuid_in (cu_Lease c)) as [u|] eqn:Hu; [|done].
  rewrite HK in Hr. destruct (work_units d !! K) as [v|] eqn:Hv; [|done].
  destruct (leased v _ u) eqn:Hl; [|done]. injection Hr as ->.
  assert (home K = j) as Hj by (apply (go_home _ _ Hg); by exists w).
  destruct (go_lease _ _ Hg Hon Hj) as (w0 & Hw0 & Hc & Ht & _). assert (w0 = w) as -> by congruence.
  unfold leased in Hl. b2p. rewrite Hc in *. rewrite Ht in *. split_and!; congruence.
Qed.

(** ** The statements *)

Lemma good_update_leased j c f :
  (∀ w, on → mine c → to_holder w → to_holder (f w)) → stmt_keeps (good j) (update_leased c f).
Proof.
  intros Hf d d' n Hg Hr. unfold update_leased in Hr.
  destruct (leased_row c d) as [|[w|]] eqn:Hl; [done| |by injection Hr as <- _].
  injection Hr as <- _. pose proof Hl as Hl'. unfold leased_row in Hl.
  destruct (uuid_in _); [|done]. destruct (work_units d !! cu_Key c) as [v|] eqn:Hv; [|done].
  destruct (leased v _ _); [|done]. injection Hl as ->.
  eapply good_set; [done|exact Hv|done|]. intros Hon HK. apply Hf; [done|].
  by eapply leased_row_mine.
Qed.

Lemma good_update_where j p f :
  (∀ w, on → p w = true → to_holder w → to_holder (f w)) → stmt_keeps (good j) (update_where p f).
Proof.
  intros Hf d d' n [Hh Hl] Hr. injection Hr as <- _. split; cbn [work_units].
  - intros k. rewrite lookup_fmap, fmap_is_Some. apply Hh.
  - intros Hon Hj. destruct (Hl Hon Hj) as (w & Hw & Hto).
    exists (if p w then f w else w). rewrite lookup_fmap, Hw. split; [done|].
    destruct (p w) eqn:Hp; auto.
Qed.

Lemma good_enqueue_stmt j now k th wait cost p :
  home k = j → stmt_keeps (good j) (enqueue_stmt now k th wait cost p).
Proof.
  intros Hj d d' q Hg Hr. unfold enqueue_stmt in Hr. destruct (negb _); [done|].
  destruct (upsert _ _ _ _ _) as [w|] eqn:Hup; [|done]. destruct (negb _); [done|].
  destruct (existsb _ _); [done|]. injection Hr as <- _.
  eapply (good_row j d _ k w); [done|done|done|]. intros Hon ->.
  destruct (go_lease _ _ Hg Hon Hj) as (w0 & Hw0 & Hto). rewrite Hw0 in Hup. cbn [upsert] in Hup.
  destruct (_ && _); [|done]. by injection Hup as <-.
Qed.

Lemma good_claim_stmt j now uuid w ms : stmt_keeps (good j) (claim_stmt now uuid w ms).
Proof.
  intros d d' o Hg Hr. destruct o as [[[k tok] exp]|].
  - apply claim_stmt_at in Hr as (_ & _ & v & Hv & Hcl & _ & ->).
    eapply good_set; [done|exact Hv|done|]. intros _ _ (Hc & _). unfold claimable in Hcl. b2p. congruence.
  - by apply claim_stmt_None in Hr as ->.
Qed.

Lemma good_same j {A} (f : stmt A) :
  (∀ d d' a, f d = inr (d', a) → work_units d' = work_units d) → stmt_keeps (good j) f.
Proof. intros Hf d d' a Hg Hr. eapply good_units; [done|]. by eapply Hf. Qed.

Lemma good_check j e c : keeps (good j) (checkLease e c).
Proof.
  apply keeps_bind; [|intros []; auto with pg]. apply keeps_exec. intros i.
  apply good_same. intros d d' a Hr. unfold check_stmt in Hr. destruct (leased_row c d); [done|].
  by injection Hr as <- _.
Qed.

(** the check passes on the leased unit only for its holder *)
Lemma check_mine j e c i d i' d' :
  good j d → checkLease e c (i, d) = ((i', d'), Ok tt) → on → cu_Key c = K → mine c.
Proof.
  intros Hg Hr Hon HK. unfold checkLease in Hr. apply keeps_ok_step in Hr as (i1 & d1 & [] & He & Hr).
  - apply exec_Ok in He. unfold check_stmt in He. destruct (leased_row c d) as [|[w|]] eqn:Hl; try done.
    by eapply leased_row_mine.
  - done.
Qed.

(** a row of a unit that is not the leased one, or is nobody's to watch *)
Lemma good_other j d d' k w w' :
  good j d → (on → k ≠ K) → work_units d !! k = Some w →
  work_units d' = <[k := w']> (work_units d) → good j d'.
Proof. intros Hg Hne Hw Hw'. eapply good_set; [done|exact Hw|done|]. intros Hon ->. by destruct (Hne Hon). Qed.

Lemma good_ack_stmt j now c q : (on → cu_Key c ≠ K) → stmt_keeps (good j) (ack_stmt now c q).
Proof.
  intros Hne d d' o Hg Hr. unfold ack_stmt in Hr. destruct (uuid_in _); [|done].
  destruct (work_units d !! cu_Key c) as [w|] eqn:Hw; [|injection Hr as <- _; by eapply good_units].
  destruct (int8 _); [|done]. injection Hr as <- _. eapply good_other; [done|done|exact Hw|done].
Qed.

Lemma good_unlease j k : (on → k ≠ K) → stmt_keeps (good j) (unlease_stmt k).
Proof.
  intros Hne d d' a Hg Hr. unfold unlease_stmt in Hr.
  destruct (work_units d !! k) as [w|] eqn:Hw; injection Hr as <- _; [|done].
  eapply good_other; [done|done|exact Hw|done].
Qed.

Lemma good_bury j now k q reason cost :
  (on → k ≠ K) → stmt_keeps (good j) (bury_stmt now k q reason cost).
Proof.
  intros Hne d d' a Hg Hr. unfold bury_stmt in Hr.
  destruct (work_units d !! k) as [w|] eqn:Hw; [|injection Hr as <- _; by eapply good_units].
  destruct (int8 _); [|done]. injection Hr as <- _. eapply good_other; [done|done|exact Hw|done].
Qed.

Lemma good_fail_tx j e c q reason mt now :
  (on → ¬ mine c) → keeps_ok (good j) (fail_tx e c q reason mt now).
Proof.
  intros Hno i d i' d' a Hg Hr. unfold fail_tx in Hr.
  apply keeps_ok_step in Hr as (i1 & d1 & [] & Hc & Hr).
  assert (on → cu_Key c ≠ K) as Hne by (intros Hon HK; by eapply Hno, check_mine).
  assert (good j d1) as Hg1 by (pose proof (good_check j e c i d Hg) as Hx; by rewrite Hc in Hx).
  apply keeps_ok_step in Hr as (i2 & d2 & o & Ha & Hr). apply exec_Ok in Ha.
  assert (good j d2) as Hg2.
  { eapply good_units; [done|]. unfold attempt_stmt in Ha. destruct (filter _ _); [by injection Ha as <- _|].
    destruct (int4 _); [|done]. by injection Ha as <- _. }
  assert (keeps_ok (good j) (tx_exec e (unlease_stmt (cu_Key c)))) as Hun
    by (apply keeps_ok_exec; intros _; by apply good_unlease).
  destruct o as [[at_ cost]|]; [|by eapply Hun]. destruct (mt <=? at_)%Z; [|by eapply Hun].
  apply keeps_ok_step in Hr as (i3 & d3 & hd & Hh & Hr). apply exec_Ok in Hh.
  assert (d3 = d2) as -> by (unfold head_stmt in Hh; destruct (sql_min _); by simplify_eq).
  destruct (q =? hd)%Z; [|by eapply Hun]. apply exec_Ok in Hr.
  by eapply (good_bury j _ _ _ _ _ Hne).
Qed.

(** ** The methods *)

Record all_good (b : Backend) : Prop := {
  ag_length : length (shards b) = N;
  ag_shard : ∀ j d, shards b !! j = Some d → good j d;
}.

Lemma all_good_at {A} (p : prog A) j i b :
  (∀ d, good j d → good j (p (i, d)).1.2) → all_good b → all_good (on_shard j i p b).1.1.
Proof.
  intros Hp [Hl Hg]. unfold on_shard. destruct (shards b !! j) as [d|] eqn:Hj; [|done].
  pose proof (Hp d (Hg _ _ Hj)) as Hd. destruct (p (i, d)) as [[i' d'] r]. cbn [fst snd] in *.
  split; cbn [set_shard shards]; [by rewrite length_insert|].
  intros j' x [(<- & <- & _)|[_ Hx]]%list_lookup_insert_Some; [done|by apply Hg].
Qed.

Lemma all_good_routed {A} k (p : prog A) b :
  (∀ d, good (home k) d → good (home k) (p (0, d)).1.2) → all_good b → all_good (routed k p b).1.
Proof.
  intros Hp Hb. unfold routed. pose proof (all_good_at p (route b k) 0 b) as Hx.
  assert (route b k = home k) as Hr by (unfold route, home; by rewrite (ag_length _ Hb)).
  rewrite Hr in *. specialize (Hx Hp Hb). by destruct (on_shard _ _ _ _) as [[b' i] r].
Qed.

Lemma all_good_same b b' : all_good b → shards b' = shards b → all_good b'.
Proof. intros [? ?] Hs. split; by rewrite Hs. Qed.

Lemma all_good_turns e w ms r (todo i : nat) b :
  all_good b → all_good (claim_turns e w ms r todo i b).1.
Proof.
  revert i b. induction todo as [|todo IH]; intros i b Hb; cbn [claim_turns]; [done|].
  destruct (rotation _ _ _) as [j|]; [|done].
  assert (all_good (on_shard j i (exec e (λ now, claim_stmt now (env_uuid e) w ms)) b).1.1) as H1.
  { apply all_good_at; [|done]. intros d. apply keeps_exec. intros x. apply good_claim_stmt. }
  destruct (on_shard _ _ _ _) as [[b1 i1] [[[[k tok] exp]|]|err|]]; [done|by apply IH|done..].
Qed.

Lemma all_good_reap e now (todo j i : nat) b r f :
  (on → (now <= t)%Z) → all_good b → all_good (reap_shards e now todo j i b r f).1.
Proof.
  intros Hnow. revert j i b r f. induction todo as [|todo IH]; intros j i b r f Hb; cbn [reap_shards]; [done|].
  assert (all_good (on_shard j i (exec e (λ _, reclaim_stmt now)) b).1.1) as H1.
  { apply all_good_at; [|done]. intros d. apply keeps_exec. intros _. apply good_update_where.
    intros v Hon Hv (Hc & Ht & x & Hx & Hle). unfold lapsed in Hv. rewrite Hx in Hv. b2p.
    specialize (Hnow Hon). lia. }
  destruct (on_shard j i (exec e (λ _, reclaim_stmt now)) b) as [[b1 i1] [n|err|]]; try exact H1.
  assert (all_good (on_shard j i1 (exec e (λ _, flush_stmt now)) b1).1.1) as H2.
  { apply all_good_at; [|exact H1]. intros d. apply keeps_exec. intros _. apply good_update_where.
    by intros v _ _ Hto. }
  destruct (on_shard j i1 _ b1) as [[b2 i2] [n2|err|]]; [by apply IH|exact H2..].
Qed.

Definition spares_of : Env * qcall → Prop :=
  spares mine (λ e d, env_now e 0 + interval_ms (Milliseconds d))%Z t.

Lemma all_good_call ex b : (on → spares_of ex) → all_good b → all_good (do_call ex.1 ex.2 b).
Proof.
  destruct ex as [e x]. intros Hs Hb. unfold spares_of, spares in Hs. cbn [fst snd] in *.
  destruct x as [k p cost|w d|c max|c q|c|c d|c q reason|now];
    cbn [do_call be_Enqueue be_Claim be_Drain be_Ack be_Release be_Heartbeat be_Fail be_ReapExpired
      Postgres_Backend].
  - unfold Enqueue.
    assert (all_good (tenant_get e (Workspace k) b).1.1) as H1.
    { unfold tenant_get. destruct (cache b !! _); [done|].
      pose proof (all_good_at (exec e (λ _, tenant_stmt (Workspace k)))
        (shard_index (length (shards b)) (Workspace k)) 0 b) as Hx.
      destruct (on_shard _ _ _ _) as [[b1 i1] r]. eapply all_good_same; [apply Hx; [|done]|done].
      intros d. apply keeps_exec. intros _. apply good_same. by intros d0 d' a [= <- _]. }
    destruct (tenant_get _ _ _) as [[b1 i] [th wait]]. cbn [fst] in H1.
    pose proof (all_good_at (exec e (λ now, enqueue_stmt now k th (Milliseconds wait) cost p))
      (route b1 k) i b1) as H2.
    destruct (on_shard _ _ _ _) as [[b2 i2] r]. apply H2; [|done]. intros d. apply keeps_exec.
    intros y. apply good_enqueue_stmt. unfold home, route. by rewrite (ag_length _ H1).
  - unfold Claim. apply all_good_turns. by eapply all_good_same.
  - apply all_good_routed; [|done]. intros d. apply keeps_bind; [apply good_check|]. intros _.
    apply keeps_exec. intros _. apply good_same. intros d0 d' a. unfold drain_stmt.
    case_match; [done|]. by intros [= <- _].
  - apply all_good_routed; [|done]. intros d. apply keeps_transaction. intros i.
    intros i0 d0 i1 d1 a Hg Hr. apply keeps_ok_step in Hr as (i2 & d2 & [] & Hc & Hr).
    assert (on → cu_Key c ≠ K) as Hne by (intros Hon HK; by eapply (Hs Hon), check_mine).
    pose proof (good_check (home (cu_Key c)) e c i0 d0 Hg) as Hg2. rewrite Hc in Hg2. cbn [fst snd] in Hg2.
    apply keeps_ok_step in Hr as (i3 & d3 & o & Ha & Hr). apply exec_Ok in Ha.
    apply (good_ack_stmt (home (cu_Key c)) _ _ _ Hne) in Ha; [|done].
    destruct o; [|done]. unfold mret, prog_ret in Hr. by simplify_eq.
  - apply all_good_routed; [|done]. intros d. apply keeps_bind.
    + apply keeps_exec. intros _. apply good_update_leased. intros v Hon Hm. by destruct (Hs Hon).
    + intros n. case_match; auto with pg.
  - apply all_good_routed; [|done]. intros d0 Hg. unfold affected, mbind, prog_bind, exec.
    assert (stmt_keeps (good (home (cu_Key c))) (heartbeat_stmt (env_now e 0) c (Milliseconds d))) as Hst.
    { intros d1 d2 n Hg1. unfold heartbeat_stmt. case_match; [done|].
      apply good_update_leased; [|done]. intros v Hon Hm (H1 & H2 & _). split_and!; [done|done|].
      eexists. split; [done|]. by apply Hs. }
    destruct (env_net e 0); [|done|];
      (destruct (heartbeat_stmt _ _ _ _) as [|[d2 n]] eqn:Hr; [done|]; apply Hst in Hr; [|done]);
      cbn [fst snd]; [by case_match|done].
  - apply all_good_routed; [|done]. intros d. apply keeps_transaction. intros i.
    by apply good_fail_tx.
  - by apply all_good_reap.
Qed.

Lemma all_good_calls xs b :
  Forall (λ ex, on → spares_of ex) xs → all_good b → all_good (do_calls xs b).
Proof. intros Hxs. by apply (do_calls_keep (λ ex, on → spares_of ex)); [intros; by apply all_good_call|]. Qed.
End lease.

Section facts.
Context `{PgService}.

(** a claim, on any network, takes a row at home *)
Lemma claim_at e w d b b' c :
  Claim e w d b = (b', Ok (Some c)) →
  ∃ j dd r x, shards b !! j = Some dd ∧ work_units dd !! cu_Key c = Some r ∧ claimable r = true ∧
    cu_Worker c = w ∧ cu_Lease c = env_uuid e ∧
    shards b' = <[j := set_row (cu_Key c) (set_lease (Some w) (Some (env_uuid e)) x
                  (Some (cu_LeaseTill c)) r) dd]> (shards b).
Proof.
  intros Hc. unfold Claim in Hc. apply claim_turns_at in Hc as (j & dd & r & i & Ht & _).
  destruct Ht as (Hj & Hr & Hcl & _ & Hw & Hl & Hb'). exists j, dd, r, (Some (Milliseconds d)).
  split_and!; try done. by rewrite Hb'.
Qed.

(** a claim is not given the leased unit *)
Lemma claim_spares N K W U t e w d b c :
  all_good N True K W U t b → (Claim e w d b).2 = Ok (Some c) → cu_Key c ≠ K.
Proof.
  intros Hb Hc HK. destruct (Claim e w d b) as [b' r] eqn:Hr. cbn in Hc. subst r.
  apply claim_at in Hr as (j & dd & v & x & Hj & Hv & Hcl & _). rewrite HK in Hv.
  pose proof (ag_shard _ _ _ _ _ _ _ Hb _ _ Hj) as Hg.
  assert (home N K = j) as Hhome by (eapply (go_home _ _ _ _ _ _ _ _ Hg); by eexists).
  destruct (go_lease _ _ _ _ _ _ _ _ Hg I Hhome) as (v0 & Hv0 & Hcb & _).
  unfold claimable in Hcl. b2p. congruence.
Qed.

(** a claim leases the row it returns *)
Lemma pg_claim_leases N U t0 e w d b b' c :
  all_good N False (cu_Key c) w U t0 b → Claim e w d b = (b', Ok (Some c)) →
  all_good N True (cu_Key c) w (env_uuid e) (cu_LeaseTill c) b'.
Proof.
  intros [Hlen Hg] Hc. apply claim_at in Hc as (j & dd & v & x & Hj & Hv & _ & _ & _ & Hs).
  split; rewrite Hs; [by rewrite length_insert|].
  assert (home N (cu_Key c) = j) as Hhome by (apply (go_home _ _ _ _ _ _ _ _ (Hg _ _ Hj)); by eexists).
  intros j' d' [(<- & <- & _)|[Hne Hd']]%list_lookup_insert_Some.
  - split; cbn [work_units set_row].
    + intros k [y [[<- _]|[_ Hy]]%lookup_insert_Some]; [done|].
      apply (go_home _ _ _ _ _ _ _ _ (Hg _ _ Hj)). by eexists.
    + intros _ _. eexists. rewrite lookup_insert_eq. split; [done|]. split_and!; [done|done|].
      eexists. split; [done|lia].
  - split; [apply (go_home _ _ _ _ _ _ _ _ (Hg _ _ Hd'))|]. intros _ Hj'. congruence.
Qed.

Lemma New_good N K W U t o tc b :
  New o (λ _, empty_db tc) = Some b → N = length (DSNs o) → all_good N False K W U t b.
Proof.
  intros Hnew ->. pose proof (PostgresProps.New_empty o tc b) as He. split.
  - unfold New in Hnew. destruct (DSNs o); [done|]. injection Hnew as <-. cbn. by rewrite length_fmap.
  - intros j d Hj. rewrite (He j d Hnew Hj). split; [|by intros []].
    intros k [x Hx]. cbn in Hx. by rewrite lookup_empty in Hx.
Qed.

(** the holder's handle is accepted *)
Lemma good_holds N t c u b :
  N ≠ 0 → (N < 2 ^ 32)%Z → uuid_in (cu_Lease c) = Some u →
  all_good N True (cu_Key c) (cu_Worker c) u t b → holds b c = true.
Proof.
  intros H0 HN Hu Hb. cbn [holds pg_View].
  assert (route b (cu_Key c) = home N (cu_Key c)) as Hr
    by (unfold route, home; by rewrite (ag_length _ _ _ _ _ _ _ Hb)).
  destruct (lookup_lt_is_Some_2 (shards b) (route b (cu_Key c))) as [d Hd].
  { unfold route. rewrite (ag_length _ _ _ _ _ _ _ Hb). apply shard_index_lt; [lia|done]. }
  rewrite Hd. rewrite Hr in Hd.
  destruct (go_lease _ _ _ _ _ _ _ _ (ag_shard _ _ _ _ _ _ _ Hb _ _ Hd) I eq_refl) as (w & Hw & Hc & Ht & _).
  cbn [holds db_View]. unfold leased_row, leased. by rewrite Hu, Hw, Hc, Ht, !bool_decide_true.
Qed.

(** C35: A lease of the Postgres driver lasts (Claim, and every other method).  After any
    calls on any network, a worker claims a unit.  Then, until [cu_LeaseTill], whatever calls
    come, by anybody, with any handles and whatever messages are lost, as long as the holder
    itself does not end the lease or shorten it and no reaper's clock is past it: the
    holder's handle is still the accepted one, and no claim is given the unit. *)
Theorem postgres_lease_lasts o tc b0 (before after : list (Env * qcall)) e w d b c :
  New o (λ _, empty_db tc) = Some b0 → (length (DSNs o) < 2 ^ 32)%Z →
  uuid_in (env_uuid e) = Some (env_uuid e) →
  Claim e w d (do_calls before b0) = (b, Ok (Some c)) →
  Forall (spares_of (cu_Key c) w (env_uuid e) (cu_LeaseTill c)) after →
  holds (do_calls after b) c = true ∧
  ∀ e' w' d' c', (Claim e' w' d' (do_calls after b)).2 = Ok (Some c') → cu_Key c' ≠ cu_Key c.
Proof.
  intros Hnew Hlen Hu Hc Hs. set (N := length (DSNs o)).
  pose proof (claim_at _ _ _ _ _ _ Hc) as (j & dd & v & x & _ & _ & _ & Hw & Hl & _).
  assert (all_good N False (cu_Key c) w "" 0 (do_calls before b0)) as H1.
  { apply all_good_calls; [by apply Forall_true|]. by eapply New_good. }
  assert (all_good N True (cu_Key c) w (env_uuid e) (cu_LeaseTill c) (do_calls after b)) as H2.
  { apply all_good_calls; [by eapply Forall_impl|]. by eapply pg_claim_leases. }
  split.
  - eapply good_holds; [|exact Hlen|by rewrite Hl|by rewrite Hw].
    subst N. intros Hz. apply nil_length_inv in Hz. unfold New in Hnew. by rewrite Hz in Hnew.
  - intros e' w' d' c'. by eapply claim_spares.
Qed.
End facts.

(** ** A lease on two primaries, through lost replies *)

#[local] Existing Instance PostgresProps.demo_service.

Definition ll_lost (t : time) (u : string) : Env := mkEnv (λ _, t) (λ l, l) u (λ _, Unacked "reset").
Definition ll_before : list (Env * qcall) :=
  [(PostgresProps.pg_env Second "u0", QEnqueue PostgresProps.pg_key "a" 1)].
Definition ll_claim : Backend * res (option ClaimedUnit) :=
  Claim (PostgresProps.pg_env Second "u1") "w0" (3 * Second) (do_calls ll_before (PostgresProps.pg_two 1)).
Definition ll_handle : ClaimedUnit := mkClaimed PostgresProps.pg_key "w0" "u1" (4 * Second).

(** A producer whose reply is lost, a claim whose reply is lost, an acknowledgement with a
    forged handle, the holder's heartbeat, and the reaper at the very end of the lease. *)
Definition ll_after : list (Env * qcall) :=
  [(ll_lost (2 * Second) "u2", QEnqueue PostgresProps.pg_key "b" 1);
   (ll_lost (2 * Second) "u3", QClaim "w1" Second);
   (PostgresProps.pg_env (2 * Second) "u4", QAck (mkClaimed PostgresProps.pg_key "w1" "u1" 0) 5);
   (PostgresProps.pg_env (3 * Second) "u5", QHeartbeat ll_handle (3 * Second));
   (PostgresProps.pg_env (4 * Second) "u6", QReap (4 * Second))].

Lemma postgres_lease_lasts_witness :
  ll_claim.2 = Ok (Some ll_handle) ∧ holds (do_calls ll_after ll_claim.1) ll_handle = true ∧
  (Claim (PostgresProps.pg_env (4 * Second) "u7") "w1" Second (do_calls ll_after ll_claim.1)).2 = Ok None.
Proof.
  split; [vm_compute; reflexivity|]. split; [|vm_compute; reflexivity].
  refine (proj1 (postgres_lease_lasts (PostgresProps.pg_opts 1) ∅ (PostgresProps.pg_two 1) ll_before
    ll_after (PostgresProps.pg_env Second "u1") "w0" (3 * Second) ll_claim.1 ll_handle _ _ _ _ _)).
  - reflexivity.
  - reflexivity.
  - reflexivity.
  - vm_compute. reflexivity.
  - unfold ll_after. repeat apply Forall_cons_2; [done|done| | | |apply Forall_nil_2].
    + cbn. by intros (_ & ? & _).
    + cbn. intros _. vm_compute. congruence.
    + cbn. done.
Defined.
