(* ===== verification/PostgresCut.v ===== *)
(** PostgresCut: calls of the Postgres driver that are cut short (internal/postgres/backend.go
    on a context that is done): any of a call's round trips may be lost, or executed and its
    answer lost. *)
From S2P Require Import Prelude Queue Contract Cut Routing Postgres PostgresFacts PostgresGate.

Section cut.
Context `{PgService}.

Lemma transaction_cut e {A} k (body : Env → time → prog A) b d :
  (∀ now, transparent (λ e, body e now)) → shards b !! route b k = Some d →
  cut_at b (routed k (transaction e (body e)) b)
    (routed k (transaction (answered e) (body (answered e))) b).
Proof.
  intros Hb Hd. unfold routed, on_shard. rewrite Hd. unfold transaction.
  change (env_now (answered e)) with (env_now e).
  change (env_net (answered e)) with (λ _ : nat, NoFault). cbv beta iota.
  destruct (env_net e 0); [|right; eexists; cbn [fst snd]; rewrite set_shard_same by done; by eauto..].
  destruct (Hb (env_now e 0) e (1, d)) as [->|(st & msg & ->)].
  - destruct (body (answered e) _ _) as [[j d'] [a|err|]]; [|by left..].
    destruct (env_net e j); cbn [fst snd]; [by left|right; eexists..].
    + rewrite (set_shard_same _ d) by done. by eauto.
    + by eauto.
  - destruct st as [j d']. right. eexists. cbn [fst snd]. rewrite (set_shard_same _ d) by done. by eauto.
Qed.

Lemma statement_cut e k (f : Env → time → stmt Z) b d :
  f e = f (answered e) → shards b !! route b k = Some d →
  cut_at b (routed k (affected (exec e (f e))) b)
    (routed k (affected (exec (answered e) (f (answered e)))) b).
Proof.
  intros Hf Hd. unfold routed, on_shard. rewrite Hd.
  unfold affected, mbind, prog_bind, exec. rewrite <- Hf.
  change (env_now (answered e)) with (env_now e).
  change (env_net (answered e)) with (λ _ : nat, NoFault). cbv beta iota.
  destruct (env_net e 0); [by left| |]; right; eexists; cbn [fst snd].
  - rewrite (set_shard_same _ d) by done. by eauto.
  - split; [done|]. destruct (f e (env_now e 0) d) as [msg'|[d' n]]; [right; by rewrite set_shard_same|].
    left. by case_goal.
Qed.

Lemma pg_claim_turns_cut e worker ms r (todo i : nat) b :
  cut_at b (claim_turns e worker ms r todo i b) (claim_turns (answered e) worker ms r todo i b).
Proof.
  revert i. induction todo as [|todo IH]; intros i; cbn [claim_turns]; [by left|].
  destruct (rotation _ _ _) as [j|]; [|by left]. unfold on_shard.
  destruct (shards b !! j) as [d|] eqn:Hd; [|by left]. unfold exec.
  change (env_now (answered e)) with (env_now e). change (env_uuid (answered e)) with (env_uuid e).
  change (env_net (answered e)) with (λ _ : nat, NoFault). cbv beta iota.
  destruct (claim_stmt _ _ _ _ _) as [msg|[d' [[[k tok] exp]|]]] eqn:Hst.
  - destruct (env_net e i); [by left| |]; right; eexists; rewrite set_shard_same by done; by eauto.
  - destruct (env_net e i); [by left| |]; right; eexists; cbn [fst snd]; [|by eauto].
    rewrite (set_shard_same _ d) by done. by eauto.
  - apply claim_stmt_None in Hst as ->. assert (set_shard j d b = b) as Hsame by by apply set_shard_same.
    destruct (env_net e i); rewrite !Hsame; [apply IH|right; eexists; by eauto..].
Qed.

Lemma pg_Drain_cut e c max b d :
  shards b !! route b (cu_Key c) = Some d → cut_at b (Drain e c max b) (Drain (answered e) c max b).
Proof.
  intros Hd. unfold Drain, routed, on_shard. rewrite Hd.
  unfold checkLease, mbind, prog_bind, exec. change (env_net (answered e)) with (λ _ : nat, NoFault).
  cbv beta iota. unfold check_stmt, drain_stmt.
  assert (set_shard (route b (cu_Key c)) d b = b) as Hsame by by apply set_shard_same.
  destruct (leased_row c d) as [msg|o], (env_net e 0); cbn [fst snd mret prog_ret throw];
    try (right; eexists; cbn [fst snd]; rewrite Hsame; by eauto).
  case_goal; [|by left]. cbn [mret prog_ret].
  destruct (env_net e 1); [by left| |]; right; eexists; cbn [fst snd]; (split; [done|right]).
  - done.
  - by case_goal.
Qed.

Lemma turned_hidden n h b :
  pg_ok n h b → (n < pg_capacity)%Z →
  hidden (n + 1) h b (mkBackend (shards b) (maxTries b) (defT b) (defWait b) (cache b) (rr_next (rr b))).
Proof.
  intros Hb Hn. split; [|by split]. pose proof (po_rr _ _ _ Hb) as Hrr.
  destruct (pg_ok_mono n (n + 1) h h b Hb ltac:(lia) ltac:(done) (po_canonical _ _ _ Hb)).
  split; try done. cbn. unfold rr_next. rewrite Z.mod_small; unfold pg_capacity in *; lia.
Qed.

(** the database issues the tokens: a claim's is the uuid of its call *)
Lemma Claim_token e w x b b' c : Claim e w x b = (b', Ok (Some c)) → cu_Lease c = env_uuid e.
Proof. intros Hc. apply claim_turns_at in Hc as (j & d & wr & y & (_ & _ & _ & _ & _ & ? & _) & _). done. Qed.

#[export] Instance Postgres_Cuttable : Cuttable Backend.
Proof.
  refine {| cut_ok := λ _, True |}; try done.
  - right. intros e w x b b' c. apply Claim_token.
  - intros n h e w x b Hb Hn _ _ _. cbn [be_Claim Postgres_Backend]. unfold Claim.
    destruct (pg_claim_turns_cut e w (Milliseconds x) (rr b) (length (shards b)) 0
      (mkBackend (shards b) (maxTries b) (defT b) (defWait b) (cache b) (rr_next (rr b))))
      as [?|(err & Herr & [?|Hx])]; [by left|right; by eauto|right; exists err; split; [done|right]].
    pose proof (turned_hidden n h b Hb Hn) as Ht. rewrite <- Hx in Ht. exact Ht.
  - intros n h e c max b Hb _ Hc _ Hm. left. destruct (pg_shard n h b (cu_Key c) Hb) as [d Hd].
    by eapply cut_at_of, pg_Drain_cut.
  - intros n h e c q b Hb _ Hc _. destruct (pg_shard n h b (cu_Key c) Hb) as [d Hd].
    apply cut_at_of; [done|]. eapply (transaction_cut e (cu_Key c) (λ e now, _)); [|done].
    intros now. apply transparent_bind; [apply transparent_check|]. intros _.
    apply transparent_bind; [apply transparent_tx|]. intros o. apply transparent_const.
  - intros n h e c b Hb _ Hc _. destruct (pg_shard n h b (cu_Key c) Hb) as [d Hd].
    apply cut_at_of; [done|]. by eapply (statement_cut e (cu_Key c) (λ _ _, release_stmt c)).
  - intros n h e c x b Hb _ Hc _. destruct (pg_shard n h b (cu_Key c) Hb) as [d Hd].
    apply cut_at_of; [done|].
    by eapply (statement_cut e (cu_Key c) (λ _ now, heartbeat_stmt now c (Milliseconds x))).
Defined.
End cut.
