(* ===== verification/OrderingPostgres.v ===== *)
(** OrderingPostgres: the Postgres driver over one primary, working on a single unit, and
    the crash proof of tests/proofs on it, at every size and on every clock. *)
From S2P Require Import Prelude Queue Conformance Ordering Routing.
From S2P Require Import Postgres PostgresFacts PostgresGate PostgresProps PostgresReap.

Section lane.
Context `{PgService}.

(** ** The driver with one unit *)

(** the unit's rows: every task costs one, so the gate is open *)
Record lane (ts : list Task) (q : Z) (o : option lease_on) (w : wrow) (rows : list trow) :
    Prop := {
  ln_tasks : to_task <$> rows = ts;
  ln_keys : Forall (λ t, t_key t = tkey) rows;
  ln_rows : rows_from (q - length rows) rows;
  ln_work : rows ≠ [];
  ln_few : (length rows <= q <= many)%Z;
  ln_unit : Forall (λ t, t_cost t = 1%Z) rows;
  ln_cost : pending_cost w = length rows;
  ln_next : next_seq w = (q - 1)%Z;
  ln_gate : threshold w = 1%Z;
  ln_open : eligible w = true;
  ln_lease : match o with
    | None => claimed_by w = None
    | Some l => cu_Key (lo_handle l) = tkey ∧ claimed_by w = Some (cu_Worker (lo_handle l)) ∧
        lease_token w = Some (cu_Lease (lo_handle l)) ∧
        uuid_in (cu_Lease (lo_handle l)) = Some (cu_Lease (lo_handle l)) ∧
        lease_ms w = Some (Milliseconds (lo_dur l)) ∧ whole (lo_dur l) ∧
        lease_expires w = Some (lo_till l)
    end;
}.

Definition postgres_solo (b : Backend) (ts : list Task) (q : Z) (o : option lease_on) : Prop :=
  ∃ d, shards b = [d] ∧ tenant_config d = ∅ ∧ defT b = 1%Z ∧ defWait b = Hour ∧
    (∀ v, cache b !! "ws" = Some v → v = (1%Z, Hour)) ∧
    ((ts = [] ∧ q = 0%Z ∧ o = None ∧ work_units d = ∅ ∧ tasks d = []) ∨
     ∃ w, work_units d = {[tkey := w]} ∧ lane ts q o w (tasks d)).

(** a server that answers and draws a uuid in its canonical form *)
Definition answers (e : Env) : Prop := quiet e ∧ uuid_in (env_uuid e) = Some (env_uuid e).

Lemma whole_interval d : whole d → interval_ms (Milliseconds d) = d ∧ int4 (Milliseconds d) = true.
Proof.
  intros [Hd [x ->]]. unfold Milliseconds, interval_ms, Millisecond, Hour in *.
  rewrite Z.quot_mul by lia. split; [done|]. unfold int4.
  apply andb_true_iff. rewrite !Z.leb_le. lia.
Qed.

Lemma route_one b d k : shards b = [d] → route b k = 0.
Proof. intros Hd. unfold route. by rewrite Hd. Qed.

Lemma rotation_one rr : rotation rr 1 0 = Some 0.
Proof. unfold rotation. change (Z.of_nat 1) with 1%Z. by rewrite Z.rem_1_r. Qed.

Lemma of_unit_all rows d : tasks d = rows → Forall (λ t, t_key t = tkey) rows → of_unit tkey d = rows.
Proof.
  intros <- Hk. unfold of_unit. apply filter_all. intros t Ht.
  by apply (proj1 (Forall_forall _ _) Hk).
Qed.

Lemma row_costs rows : Forall (λ t, t_cost t = 1%Z) rows → sum_cost rows = length rows.
Proof.
  unfold sum_cost. induction 1 as [|t rows Ht _ IH]; [done|].
  rewrite fmap_cons, length_cons. cbn [list_Z_sum]. rewrite IH, Ht. lia.
Qed.

Lemma lane_int8 x : (-1 <= x <= many + 1)%Z → int8 x = true.
Proof.
  intros Hx. unfold int8, int64_min, int64_max, many in *. apply andb_true_iff.
  rewrite !Z.leb_le. lia.
Qed.

(** *** Enqueue *)

Lemma row_enqueue now p ts q w rows :
  (0 <= q < many)%Z → lane ts q None w rows →
  ∃ w', upsert now 1 3600000 1 (Some w) = Some w' ∧ next_seq w' = q ∧
    existsb (λ t, bool_decide (t_seq t = q)) rows = false ∧
    lane (ts ++ [mkTask q p 1]) (q + 1) None w' (rows ++ [mkTRow tkey q p 1 0 now]).
Proof.
  intros Hq [Ht Hk Hr Hw Hf Hu Hc Hn Hg Ho Hl]. unfold upsert.
  rewrite Hc, Hn, !lane_int8 by lia. cbn [andb]. eexists. split; [done|].
  cbn [next_seq]. split; [lia|]. split.
  - apply not_true_is_false. intros (t & Hin & Heq)%existsb_exists.
    apply bool_decide_eq_true in Heq. apply list_elem_of_In, list_elem_of_lookup in Hin as [i Hi].
    rewrite (rows_from_lookup _ _ _ _ Hr Hi) in Heq. pose proof (lookup_lt_Some _ _ _ Hi). lia.
  - split; cbn; rewrite ?length_app; cbn [length]; try done; try lia.
    + by rewrite fmap_app, Ht.
    + apply Forall_app. by repeat constructor.
    + unfold rows_from in *. rewrite fmap_app, consecutive_app, length_fmap.
      replace (q + 1 - (length rows + 1)%nat)%Z with (q - length rows)%Z by lia.
      split; [done|]. cbn. apply consecutive_cons. split; [cbn; lia|done].
    + by destruct rows.
    + apply Forall_app. by repeat constructor.
Qed.

Lemma row_first now p w :
  upsert now 1 3600000 1 None = Some w →
  next_seq w = 0%Z ∧ lane [mkTask 0 p 1] 1 None w [mkTRow tkey 0 p 1 0 now].
Proof.
  intros [= <-]. split; [done|]. split; try done; cbn.
  - by repeat constructor.
  - by repeat constructor.
Qed.

(** the query for the tenant's settings yields the defaults *)
Lemma tenant_one e b d :
  quiet e → shards b = [d] → tenant_config d = ∅ → defT b = 1%Z → defWait b = Hour →
  (∀ v, cache b !! "ws" = Some v → v = (1%Z, Hour)) →
  ∃ b' i, tenant_get e "ws" b = (b', i, (1%Z, Hour)) ∧ shards b' = [d] ∧
    defT b' = 1%Z ∧ defWait b' = Hour ∧ (∀ v, cache b' !! "ws" = Some v → v = (1%Z, Hour)).
Proof.
  intros Hq Hs Htc Hd Hw Hc. unfold tenant_get.
  destruct (cache b !! "ws") as [v|] eqn:Hv.
  { rewrite (Hc v) by done. exists b, 0. split_and!; try done. by rewrite Hv. }
  unfold on_shard. rewrite Hs. change ([d] !! shard_index (length [d]) "ws") with (Some d). cbn beta iota.
  rewrite exec_quiet by done.
  unfold tenant_stmt. rewrite Htc, lookup_empty. cbn [set_shard shards defT defWait].
  rewrite Hd, Hw. eexists _, 1. split; [done|]. cbn [shards defT defWait cache].
  rewrite Hs. split_and!; try done. intros v. rewrite lookup_insert_eq. by intros [= <-].
Qed.

Lemma postgres_solo_enqueue e p b ts q :
  answers e → (0 ≤ q < many)%Z → postgres_solo b ts q None →
  ∃ b', Enqueue e tkey p 1 b = (b', Ok q) ∧ postgres_solo b' (ts ++ [mkTask q p 1]) (q + 1) None.
Proof.
  intros [Hqu _] Hq (d & Hs & Htc & HT & HW & Hc & Hu).
  destruct (tenant_one e b d Hqu Hs Htc HT HW Hc) as (b1 & i & Hg & Hs1 & HT1 & HW1 & Hc1).
  unfold Enqueue. change (Workspace tkey) with "ws". rewrite Hg. cbn beta iota.
  unfold on_shard. rewrite (route_one b1 d) by done. rewrite Hs1. change ([d] !! 0) with (Some d). cbn beta iota.
  rewrite exec_quiet by done. change (Milliseconds Hour) with 3600000%Z.
  unfold enqueue_stmt. cbn [int4 andb negb].
  assert (∀ w rows', next_seq w = q →
    lane (ts ++ [mkTask q p 1]) (q + 1) None w rows' →
    postgres_solo (set_shard 0 (set_tasks rows' (set_row tkey w d)) b1)
      (ts ++ [mkTask q p 1]) (q + 1) None) as Hgo.
  { intros w rows' Hn Hl. eexists. cbn [set_shard shards defT defWait cache].
    rewrite Hs1. split; [done|]. split_and!; try done. right. exists w. split; [|done].
    cbn [set_tasks set_row work_units].
    destruct Hu as [(_ & _ & _ & -> & _)|(w0 & -> & _)];
      [by rewrite insert_empty|by rewrite insert_singleton_eq]. }
  change (int4 1) with true. change (int4 3600000) with true. cbn [andb negb].
  destruct Hu as [(-> & -> & _ & Hwu & Htk)|(w0 & Hwu & Hl)].
  - rewrite Hwu, lookup_empty.
    destruct (upsert (env_now e i) 1 3600000 1 None) as [w|] eqn:Hup; [|done].
    destruct (row_first (env_now e i) p w Hup) as [Hn Hl].
    rewrite (of_unit_all [] d) by done. cbn [existsb]. rewrite Hn, Htk.
    eexists. split; [done|]. by apply Hgo.
  - rewrite Hwu, lookup_singleton_eq.
    destruct (row_enqueue (env_now e i) p ts q w0 (tasks d) Hq Hl) as (w & -> & Hn & Hex & Hl').
    rewrite (of_unit_all (tasks d) d eq_refl) by apply Hl. rewrite Hn, Hex.
    eexists. split; [done|]. by apply Hgo.
Qed.

(** *** Claim, Drain *)

Lemma lane_claimed ts q w rows worker tok d now :
  whole d → uuid_in tok = Some tok → lane ts q None w rows →
  lane ts q (Some (mkLeaseOn (mkClaimed tkey worker tok (now + d)) d (now + d) 0))
    (set_lease (Some worker) (Some tok) (Some (Milliseconds d))
       (Some (now + interval_ms (Milliseconds d)))%Z w) rows.
Proof.
  intros Hd Htok [? ? ? ? ? ? ? ? ? ? _]. split; try done.
  cbn. rewrite (proj1 (whole_interval d Hd)). by split_and!.
Qed.

(** a new version of the unit's row and rows *)
Lemma postgres_solo_put b d w rows ts q o :
  shards b = [d] → tenant_config d = ∅ → defT b = 1%Z → defWait b = Hour →
  (∀ v, cache b !! "ws" = Some v → v = (1%Z, Hour)) →
  (∃ w0, work_units d = {[tkey := w0]}) → lane ts q o w rows →
  postgres_solo (set_shard 0 (set_row tkey w (set_tasks rows d)) b) ts q o.
Proof.
  intros Hs Htc HT HW Hc [w0 Hu] Hl. eexists. cbn [set_shard shards defT defWait cache].
  rewrite Hs. split; [done|]. split_and!; try done. right. exists w. split; [|done].
  cbn [set_tasks set_row work_units]. by rewrite Hu, insert_singleton_eq.
Qed.

Lemma set_tasks_same d : set_tasks (tasks d) d = d.
Proof. by destruct d. Qed.

Lemma postgres_solo_claim e worker d b ts q :
  answers e → whole d → ts ≠ [] → postgres_solo b ts q None →
  ∃ b' c i, Claim e worker d b = (b', Ok (Some c)) ∧
    postgres_solo b' ts q (Some (mkLeaseOn c d (env_now e i + d) 0)).
Proof.
  intros [Hqu Huu] Hd Hts (db & Hs & Htc & HT & HW & Hc & [(-> & _)|(w & Hu & Hl)]); [done|].
  unfold Claim. cbv zeta. rewrite Hs. cbn [length claim_turns shards].
  change (length [db]) with 1. rewrite rotation_one.
  unfold on_shard. cbn [shards]. change ([db] !! 0) with (Some db). cbn beta iota.
  rewrite exec_quiet by done. unfold claim_stmt. rewrite (proj2 (whole_interval d Hd)). cbn [negb].
  rewrite Hu, map_to_list_singleton. cbn [pick snd]. unfold claimable.
  rewrite (ln_open _ _ _ _ _ Hl), (bool_decide_true _ (ln_lease _ _ _ _ _ Hl)). cbn [andb].
  rewrite (proj1 (whole_interval d Hd)). eexists _, _, 0. split; [done|].
  pose proof (lane_claimed ts q w (tasks db) worker (env_uuid e) d (env_now e 0) Hd Huu Hl) as Hl'.
  rewrite (proj1 (whole_interval d Hd)) in Hl'.
  rewrite <- (set_tasks_same db) at 1. apply postgres_solo_put; try done. by eexists.
Qed.

Lemma lane_check b d ts q l w :
  work_units d = {[tkey := w]} → lane ts q (Some l) w (tasks d) →
  cu_Key (lo_handle l) = tkey ∧ uuid_in (cu_Lease (lo_handle l)) = Some (cu_Lease (lo_handle l)) ∧
  leased_row (lo_handle l) d = inr (Some w) ∧ route b (cu_Key (lo_handle l)) = route b tkey.
Proof.
  intros Hu Hl. destruct (ln_lease _ _ _ _ _ Hl) as (Hk & Hby & Htok & Huu & _).
  split_and!; [done|done| |by rewrite Hk]. unfold leased_row. rewrite Huu, Hk, Hu, lookup_singleton_eq.
  unfold leased. by rewrite Hby, Htok, !bool_decide_true by done.
Qed.

Lemma check_one e l d w i :
  quiet e → leased_row (lo_handle l) d = inr (Some w) →
  checkLease e (lo_handle l) (i, d) = ((S i, d), Ok tt).
Proof.
  intros Hqu Hr. unfold checkLease, mbind, prog_bind. rewrite exec_quiet by done.
  unfold check_stmt. rewrite Hr. by rewrite bool_decide_true by eauto.
Qed.

Lemma postgres_solo_drain e max b ts q l :
  answers e → (0 < max)%Z → postgres_solo b ts q (Some l) →
  ∃ b', Drain e (lo_handle l) max b = (b', Ok (take (Z.to_nat max) ts)) ∧
    postgres_solo b' ts q (Some (saw (Nat.min (Z.to_nat max) (length ts)) l)).
Proof.
  intros [Hqu _] Hm (d & Hs & Htc & HT & HW & Hc & [(_ & _ & [=] & _)|(w & Hu & Hl)]).
  exists b. split.
  2:{ exists d. split_and!; try done. right. exists w. split; [done|]. by destruct Hl. }
  destruct (lane_check b d ts q l w Hu Hl) as (Hk & _ & Hr & Hrt).
  assert (shards b !! route b (cu_Key (lo_handle l)) = Some d) as Hd
    by (by rewrite (route_one b d _ Hs), Hs).
  unfold Drain. erewrite (routed_run _ _ b d); [|exact Hd|].
  2:{ unfold mbind, prog_bind. rewrite (check_one e l d w 0 Hqu Hr), exec_quiet by done.
      unfold drain_stmt. rewrite (proj2 (Z.ltb_ge _ _)) by lia.
      rewrite Hk, (of_unit_all (tasks d) d eq_refl) by apply Hl.
      by rewrite (sort_rows _ _ (ln_rows _ _ _ _ _ Hl)). }
  rewrite set_shard_same by done. by rewrite <- (ln_tasks _ _ _ _ _ Hl), fmap_take.
Qed.

(** *** Ack *)

(** the rows an acknowledgement leaves *)
Definition left (i : Z) (rows : list trow) : list trow := filter (λ t, ¬ (t_seq t <= i)%Z) rows.

Lemma lane_left i ts q o w rows :
  lane ts q o w rows →
  to_task <$> left i rows = drop_while (through i) ts ∧
  rows_from (q - length (left i rows)) (left i rows) ∧ length (left i rows) ≤ length rows ∧
  Forall (λ t, t_key t = tkey) (left i rows) ∧ Forall (λ t, t_cost t = 1%Z) (left i rows) ∧
  (pending_cost w - sum_cost (filter (λ t, (t_seq t <= i)%Z) rows))%Z = length (left i rows).
Proof.
  intros [Ht Hk Hr Hw Hf Hu Hc Hn Hg Ho Hl]. unfold left.
  destruct (left_rows_from _ _ i Hr) as (m & Hm & Hlen).
  assert (Forall (λ t, t_cost t = 1%Z) (filter (λ t, ¬ (t_seq t <= i)%Z) rows)) as Hone
    by by apply Forall_filter.
  split_and!; [by rewrite <- Ht; eapply left_rows_drop| | |by apply Forall_filter|done|].
  - by replace (q - length (filter (λ t, ¬ (t_seq t <= i)%Z) rows))%Z
      with (q - length rows + m)%Z by lia.
  - apply length_filter.
  - rewrite Hc, <- (row_costs rows Hu), (sum_cost_split (λ t, (t_seq t <= i)%Z)).
    rewrite (row_costs _ Hone). lia.
Qed.

Lemma delete_through_all i d :
  Forall (λ t, t_key t = tkey) (tasks d) → delete_through tkey i d = left i (tasks d).
Proof.
  intros Hk. unfold delete_through, left. induction Hk as [|t l Ht _ IH]; [done|].
  rewrite !filter_cons, IH. destruct (decide (t_seq t <= i)%Z) as [Hi|Hi].
  - rewrite !decide_False by tauto. done.
  - rewrite !decide_True by tauto. done.
Qed.

(** the statement on the unit *)
Lemma lane_ack now i ts q l w d :
  work_units d = {[tkey := w]} → lane ts q (Some l) w (tasks d) →
  ∃ w', ack_stmt now (lo_handle l) i d =
      inr (set_row tkey w' (set_tasks (left i (tasks d)) d), Some (bool_decide (left i (tasks d) ≠ []))) ∧
    (left i (tasks d) ≠ [] →
     lane (drop_while (through i) ts) q
       (Some (mkLeaseOn (lo_handle l) (lo_dur l) (now + lo_dur l) 0)) w' (left i (tasks d))).
Proof.
  intros Hu Hl. destruct (lane_left i ts q _ w (tasks d) Hl) as (Hd & Hr & Hle & Hk & Hone & Hcost).
  destruct (ln_lease _ _ _ _ _ Hl) as (Hkey & Hby & Htok & Huu & Hms & Hwh & _).
  unfold ack_stmt. rewrite Huu, Hkey, Hu, lookup_singleton_eq. cbv zeta.
  unfold acked_rows, left_rows. rewrite !(of_unit_all (tasks d) d eq_refl) by apply Hl.
  fold (left i (tasks d)). rewrite Hcost, delete_through_all by apply Hl.
  rewrite lane_int8 by (pose proof (ln_few _ _ _ _ _ Hl); lia).
  rewrite (ln_gate _ _ _ _ _ Hl), Hms.
  destruct (left i (tasks d)) as [|t rows'] eqn:Hrows.
  { eexists. split; [|done]. cbn [length]. done. }
  rewrite (proj2 (Z.leb_le 1 _)) by (cbn [length]; lia). cbn [orb].
  rewrite bool_decide_true by done. eexists. split; [done|]. intros _. rewrite <- Hd.
  destruct Hl. split; try done; cbn [next_seq claimed_by lease_token lease_ms lease_expires].
  - lia.
  - cbn [fmap option_fmap option_map]. rewrite (proj1 (whole_interval _ Hwh)). by split_and!.
Qed.

Lemma postgres_solo_ack e i b ts q c d x n :
  answers e → postgres_solo b ts q (Some (mkLeaseOn c d x n)) →
  ∃ b', match drop_while (through i) ts with
        | [] => Ack e c i b = (b', Ok false)
        | rest => Ack e c i b = (b', Ok true) ∧
            ∃ j, postgres_solo b' rest q (Some (mkLeaseOn c d (env_now e j + d) 0))
        end.
Proof.
  intros [Hqu _] (db & Hs & Htc & HT & HW & Hc & [(_ & _ & [=] & _)|(w & Hu & Hl)]).
  destruct (lane_check b db ts q _ w Hu Hl) as (Hk & _ & Hr & _). cbn [lo_handle] in Hk, Hr.
  assert (shards b !! route b (cu_Key c) = Some db) as Hd by (by rewrite (route_one b db _ Hs), Hs).
  destruct (lane_ack (env_now e 0) i ts q _ w db Hu Hl) as (w' & Hst & Hl'). cbn [lo_handle lo_dur] in *.
  destruct (lane_left i ts q _ w (tasks db) Hl) as (Hdrop & _).
  exists (set_shard 0 (set_row tkey w' (set_tasks (left i (tasks db)) db)) b).
  assert (Ack e c i b = (set_shard 0 (set_row tkey w' (set_tasks (left i (tasks db)) db)) b,
    Ok (bool_decide (left i (tasks db) ≠ [])))) as ->.
  { unfold Ack. erewrite (routed_tx b e Hqu _ _ db); [|exact Hd|].
    2:{ unfold mbind, prog_bind, tx_exec.
        rewrite (check_one e (mkLeaseOn c d x n) db w _ Hqu Hr), exec_quiet, Hst by done. done. }
    by rewrite (route_one b db _ Hs). }
  rewrite <- Hdrop in *. destruct (left i (tasks db)) as [|t rows'] eqn:Hrows; [done|].
  cbn [fmap list_fmap]. rewrite bool_decide_true by done. split; [done|]. exists 0.
  apply postgres_solo_put; [done..|by eexists|by apply Hl'].
Qed.

(** *** ReapExpired *)

Lemma postgres_solo_reap e t b ts q l :
  answers e → (lo_till l < t)%Z → postgres_solo b ts q (Some l) →
  ∃ b', ReapExpired e t b = (b', (1, 0, None)%Z) ∧ postgres_solo b' ts q None.
Proof.
  intros [Hqu _] Ht (d & Hs & Htc & HT & HW & Hc & [(_ & _ & [=] & _)|(w & Hu & Hl)]).
  destruct (ln_lease _ _ _ _ _ Hl) as (_ & Hby & _ & _ & _ & _ & Hx).
  assert (lapsed t w = true) as Hlap.
  { unfold lapsed. by rewrite Hby, Hx, (proj2 (Z.ltb_lt _ _) Ht). }
  assert (flushable t (free w) = false) as Hfl.
  { unfold flushable. change (eligible (free w)) with (eligible w).
    by rewrite (ln_open _ _ _ _ _ Hl). }
  unfold ReapExpired. rewrite reap_shards_run by (rewrite ?Hs; done).
  rewrite Hs. cbn [take drop app fmap list_fmap list_Z_sum length].
  assert (reclaimed t d = 1%Z) as ->.
  { unfold reclaimed, count_rows. by rewrite Hu, map_filter_singleton_True, map_size_singleton by done. }
  assert (flushed t d = 0%Z) as ->.
  { unfold flushed, count_rows, reclaim_db. cbn [set_rows work_units].
    rewrite Hu, map_fmap_singleton, Hlap, map_filter_singleton_False by (cbn [snd]; congruence). done. }
  eexists. split; [done|]. eexists. cbn [set_shards shards defT defWait cache].
  split; [done|]. split_and!; try done. right. exists (free w). split.
  - cbn [reap_db set_rows work_units]. rewrite Hu, map_fmap_singleton. unfold reap_row.
    by rewrite Hlap, Hfl.
  - destruct Hl. by split.
Qed.

#[export] Instance Postgres_Solo : Solo Backend.
Proof.
  refine {| solo := postgres_solo; good := answers |}.
  - intros. by apply postgres_solo_enqueue.
  - intros. by apply postgres_solo_claim.
  - intros. by apply postgres_solo_drain.
  - intros e i s ts q c d x n He _ Hs. by eapply postgres_solo_ack.
  - intros e t s ts q l He _ Ht Hs. by eapply postgres_solo_reap.
Defined.
End lane.

(** The factory of tests/proofs/proofs_test.go: one emptied primary; [b0] is not used, the
    list of DSNs not being empty. *)
Definition one_primary `{PgService} (b0 : Backend) (c : Config) : Backend :=
  default b0 (New (mkOptions ["dsn"] (Threshold c) (MaxWait c) (cf_MaxAttempts c))
                (λ _, empty_db ∅)).

(** C11: The crash proof on Postgres, at every size (tests/proofs/ordering_test.go).  On one
    primary that answers, draws uuids in their canonical form and shares the test's clock,
    which does not go back from one call to the next, the test passes for any number [n] of
    tasks and any crash point [k < n]: what worker A and then worker B processed is exactly
    the [n] tasks enqueued, each once, in order. *)
Theorem postgres_survives_a_crash `{PgService} (w : nat → Env) (n k : nat) (b0 : Backend) :
  (∀ i, answers (w i)) → forward w → k < n → (n ≤ many)%Z →
  ∃ st, orderingUnderCrash (one_primary b0) w n k (0, b0) = Pass (tt, st).
Proof.
  intros Hw Hf Hk Hn. apply orderingUnderCrash_pass; [done..|].
  eexists. split; [done|]. split_and!; try done. by left.
Qed.

#[local] Existing Instance demo_service.

(** A server whose clock advances by a millisecond at each call. *)
Definition pg_stepping (i : nat) : Env :=
  pg_env (1000 * Second + i * Millisecond) ("u" +:+ pretty i).

Lemma postgres_survives_a_crash_witness :
  forward pg_stepping ∧
  ∃ st, TestOrderingUnderCrash (one_primary (pg_two 0)) pg_stepping (0, pg_two 0) = Pass (tt, st).
Proof.
  assert (forward pg_stepping) as Hf
    by (intros i a; cbn [pg_stepping pg_env env_now]; unfold Millisecond; lia).
  split; [exact Hf|].
  refine (postgres_survives_a_crash pg_stepping 10 3 (pg_two 0) _ Hf _ _); [|lia|done].
  intros i. split; [intros j; reflexivity|reflexivity].
Defined.
