(* ===== verification/Valkey.v ===== *)
(** Valkey: the Valkey driver (internal/valkey/backend.go and the Lua of scripts.go).  A
    primary is a record of the keys the driver uses; each script is a function on it that
    runs without interruption and keeps what it did before an error; a method is a
    sequence of round trips, each of which may fail as the environment says.  Numbers in a
    script are Lua's doubles ([num]); keys are named by the unit's [member] string. *)
From S2P Require Import Prelude Queue Routing.

(** ** Numbers and times *)

(** The nearest double to an integer, ties to even: exact below 2^53. *)
Definition num (z : Z) : Z :=
  let a := Z.abs z in
  if (a <? 2 ^ 53)%Z then z
  else
    let e := (Z.log2 a - 52)%Z in
    let q := (a / 2 ^ e)%Z in
    let r := (a mod 2 ^ e)%Z in
    let q := if (r <? 2 ^ (e - 1))%Z then q
             else if (2 ^ (e - 1) <? r)%Z then (q + 1)%Z
             else if Z.even q then q else (q + 1)%Z in
    (Z.sgn z * (q * 2 ^ e))%Z.

(** [t.UnixMilli()]: the model's clock starts at Go's zero time *)
Definition epoch_ms : Z := 62135596800000.
Definition UnixMilli (t : time) : Z := (t / Millisecond - epoch_ms)%Z.

(** ** Keys of one primary *)

(** A stream entry; ids grow. *)
Record entry := mkEntry {
  e_id : nat;
  e_seq : Z;
  e_ts : Z;
  e_p : bytes;
  e_c : Z;
}.

(** The stream [s:m] and its consumer group [g]. *)
Record stream := mkStream {
  s_entries : list entry;
  s_last : nat;           (* last id given *)
  s_delivered : nat;      (* the group's last-delivered id *)
  s_pel : list nat;       (* ids delivered and not acknowledged, in order *)
}.

(** The hash [wu:m]: a field that is not set is [None]. *)
Record hash := mkHash {
  pending_cost : option Z;
  next_seq : option Z;
  oldest_ms : option Z;
  flush_ms : option Z;
  threshold : option Z;
  max_wait_ms : option Z;
  claimed_by : option string;
  lease_token : option string;
  lease_ms : option Z;
  lease_exp : option Z;
  attempts : option Z;
}.

Definition no_hash : hash :=
  mkHash None None None None None None None None None None None.

Record dead := mkDead {
  dl_member : string;
  dl_seq : Z;
  dl_p : bytes;
  dl_c : Z;
  dl_reason : string;
}.

Record shard := mkShard {
  hashes : gmap string hash;
  streams : gmap string stream;
  eligible : gmap string Z;          (* the sorted sets: member and score *)
  pending_flush : gmap string Z;
  leases : gmap string Z;
  dlq : list dead;
  pending_tasks : Z;
}.

Definition empty_shard : shard := mkShard ∅ ∅ ∅ ∅ ∅ [] 0.

Definition set_hash (m : string) (h : hash) (d : shard) : shard :=
  mkShard (<[m := h]> (hashes d)) (streams d) (eligible d) (pending_flush d) (leases d) (dlq d)
    (pending_tasks d).
Definition set_stream (m : string) (s : stream) (d : shard) : shard :=
  mkShard (hashes d) (<[m := s]> (streams d)) (eligible d) (pending_flush d) (leases d) (dlq d)
    (pending_tasks d).
Definition set_eligible (z : gmap string Z) (d : shard) : shard :=
  mkShard (hashes d) (streams d) z (pending_flush d) (leases d) (dlq d) (pending_tasks d).
Definition set_pending_flush (z : gmap string Z) (d : shard) : shard :=
  mkShard (hashes d) (streams d) (eligible d) z (leases d) (dlq d) (pending_tasks d).
Definition set_leases (z : gmap string Z) (d : shard) : shard :=
  mkShard (hashes d) (streams d) (eligible d) (pending_flush d) z (dlq d) (pending_tasks d).
Definition set_pending_tasks (n : Z) (d : shard) : shard :=
  mkShard (hashes d) (streams d) (eligible d) (pending_flush d) (leases d) (dlq d) n.
Definition add_dlq (x : dead) (d : shard) : shard :=
  mkShard (hashes d) (streams d) (eligible d) (pending_flush d) (leases d) (dlq d ++ [x])
    (pending_tasks d).

(** reading a key that does not exist *)
Definition hash_of (m : string) (d : shard) : hash := default no_hash (hashes d !! m).

(** the fields of a claim *)
Definition set_claim (by_ tok : option string) (ms exp : option Z) (h : hash) : hash :=
  mkHash (pending_cost h) (next_seq h) (oldest_ms h) (flush_ms h) (threshold h) (max_wait_ms h)
    by_ tok ms exp (attempts h).
(** [HDEL wu claimed_by lease_token lease_exp] *)
Definition unclaim (h : hash) : hash := set_claim None None (lease_ms h) None h.
(** [HSET wu oldest_ms .. flush_ms ..] *)
Definition set_clock (o f : Z) (h : hash) : hash :=
  mkHash (pending_cost h) (next_seq h) (Some o) (Some f) (threshold h) (max_wait_ms h)
    (claimed_by h) (lease_token h) (lease_ms h) (lease_exp h) (attempts h).
Definition set_cost (c : Z) (h : hash) : hash :=
  mkHash (Some c) (next_seq h) (oldest_ms h) (flush_ms h) (threshold h) (max_wait_ms h)
    (claimed_by h) (lease_token h) (lease_ms h) (lease_exp h) (attempts h).
Definition set_next (n : Z) (h : hash) : hash :=
  mkHash (pending_cost h) (Some n) (oldest_ms h) (flush_ms h) (threshold h) (max_wait_ms h)
    (claimed_by h) (lease_token h) (lease_ms h) (lease_exp h) (attempts h).
Definition set_attempts (a : Z) (h : hash) : hash :=
  mkHash (pending_cost h) (next_seq h) (oldest_ms h) (flush_ms h) (threshold h) (max_wait_ms h)
    (claimed_by h) (lease_token h) (lease_ms h) (lease_exp h) (Some a).
Definition set_policy (t w : Z) (h : hash) : hash :=
  mkHash (pending_cost h) (next_seq h) (oldest_ms h) (flush_ms h) (Some t) (Some w)
    (claimed_by h) (lease_token h) (lease_ms h) (lease_exp h) (attempts h).
Definition set_exp (x : Z) (h : hash) : hash :=
  set_claim (claimed_by h) (lease_token h) (lease_ms h) (Some x) h.

(** ** Scripts *)

(** A script changes the primary and returns a value or raises an error; what it did
    before the error stays done. *)
Definition script (A : Type) : Type := shard → shard * (string + A).

#[export] Instance script_ret : MRet script := λ A a d, (d, inr a).
#[export] Instance script_bind : MBind script := λ A B f m d,
  match m d with (d', inr a) => f a d' | (d', inl e) => (d', inl e) end.

Definition raise {A} (msg : string) : script A := λ d, (d, inl msg).
Definition modify (f : shard → shard) : script () := λ d, (f d, inr tt).
Definition read {A} (f : shard → A) : script A := λ d, (d, inr (f d)).

(** a value a Lua operation needs: [nil] raises *)
Definition need {A} (o : option A) : script A :=
  match o with Some a => mret a | None => raise "attempt to use a nil value" end.

Definition on_hash (m : string) (f : hash → hash) : script () :=
  modify (λ d, set_hash m (f (hash_of m d)) d).

(** integer increments fail when they leave the int64 range *)
Definition incr (old : option Z) (by_ : Z) : option Z :=
  let x := (default 0%Z old + by_)%Z in
  if ((int64_min <=? by_) && (by_ <=? int64_max) && (int64_min <=? x) && (x <=? int64_max))%Z
  then Some x else None.

Definition HINCRBY (m : string) (get : hash → option Z) (set : Z → hash → hash) (by_ : Z) :
    script Z :=
  h ← read (hash_of m);
  match incr (get h) by_ with
  | Some x => on_hash m (set x);; mret x
  | None => raise "ERR increment or decrement would overflow"
  end.

Definition ZADD_eligible (m : string) (s : Z) : script () :=
  modify (λ d, set_eligible (<[m := s]> (eligible d)) d).
Definition ZREM_eligible (m : string) : script () :=
  modify (λ d, set_eligible (delete m (eligible d)) d).
Definition ZADD_pending (m : string) (s : Z) : script () :=
  modify (λ d, set_pending_flush (<[m := s]> (pending_flush d)) d).
Definition ZREM_pending (m : string) : script () :=
  modify (λ d, set_pending_flush (delete m (pending_flush d)) d).
Definition ZADD_leases (m : string) (s : Z) : script () :=
  modify (λ d, set_leases (<[m := s]> (leases d)) d).
Definition ZREM_leases (m : string) : script () :=
  modify (λ d, set_leases (delete m (leases d)) d).

(** order of a sorted set: by score, then by member *)
Definition zlt (a b : string * Z) : bool :=
  ((a.2 <? b.2) || ((a.2 =? b.2) && str_lt a.1 b.1))%Z.

Fixpoint zmin (l : list (string * Z)) (best : option (string * Z)) : option (string * Z) :=
  match l with
  | [] => best
  | x :: l =>
      zmin l (match best with
              | None => Some x
              | Some y => if zlt x y then Some x else best
              end)
  end.

Definition zle (a b : string * Z) : Prop := zlt b a = false.
#[export] Instance zle_dec : RelDecision zle.
Proof. intros a b. unfold zle. apply _. Defined.

(** [ZRANGEBYSCORE z 0 hi]: the members in order *)
Definition ZRANGEBYSCORE (z : gmap string Z) (hi : Z) : list string :=
  fst <$> merge_sort zle (filter (λ x, (0 <= x.2 <= hi)%Z) (map_to_list z)).

(** a stream and its group; no stream is an empty one *)
Definition no_stream : stream := mkStream [] 0 0 [].
Definition stream_of (m : string) (d : shard) : stream := default no_stream (streams d !! m).
Definition on_stream (m : string) (f : stream → stream) : script () :=
  modify (λ d, match streams d !! m with Some s => set_stream m (f s) d | None => d end).

(** [XRANGE s - + COUNT 1] *)
Definition head_entry (m : string) (d : shard) : option entry := head (s_entries (stream_of m d)).

(** [DEL wu], [DEL s] *)
Definition DEL_unit (m : string) : script () :=
  modify (λ d, mkShard (delete m (hashes d)) (delete m (streams d)) (eligible d)
                 (pending_flush d) (leases d) (dlq d) (pending_tasks d)).

Definition XADD (seq ts : Z) (p : bytes) (c : Z) (s : stream) : stream :=
  mkStream (s_entries s ++ [mkEntry (Datatypes.S (s_last s)) seq ts p c]) (Datatypes.S (s_last s))
    (s_delivered s) (s_pel s).

Definition XACK (id : nat) (s : stream) : stream :=
  mkStream (s_entries s) (s_last s) (s_delivered s) (filter (λ i, i ≠ id) (s_pel s)).

Definition XDEL (id : nat) (s : stream) : stream :=
  mkStream (filter (λ e, e_id e ≠ id) (s_entries s)) (s_last s) (s_delivered s) (s_pel s).

(** [XPENDING s g (start + page]: the first pending ids after [start] *)
Definition XPENDING (m : string) (start page : nat) : script (list nat) :=
  d ← read id;
  match streams d !! m with
  | None => raise "NOGROUP"
  | Some s => mret (take page (filter (λ i, start < i) (s_pel s)))
  end.

(** *** luaEnqueue *)

Definition luaEnqueue (m : string) (payload : bytes) (cost T wait now : Z) : script Z :=
  (* XGROUP CREATE s g $ MKSTREAM: a new stream is empty, so [$] is its start *)
  modify (λ d, match streams d !! m with Some _ => d | None => set_stream m no_stream d end);;
  total ← HINCRBY m pending_cost set_cost cost;
  n ← HINCRBY m next_seq set_next 1;
  let seq := num (num n - 1) in
  on_stream m (XADD seq now payload cost);;
  modify (λ d, set_pending_tasks (pending_tasks d + 1) d);;
  (if (num total =? num cost)%Z
   then on_hash m (λ h, set_policy T wait (set_clock now (num (num now + num wait)) h))
   else mret tt);;
  h ← read (hash_of m);
  (if bool_decide (claimed_by h = None) then
     fd ← need (flush_ms h);
     if (num T <=? num total)%Z
     then ZADD_eligible m (num fd);; ZREM_pending m
     else ZADD_pending m (num fd)
   else mret tt);;
  mret seq.

(** *** luaClaim *)

Definition luaClaim (worker tok : string) (leaseMs now : Z) : script (option string) :=
  z ← read eligible;
  match zmin (map_to_list z) None with
  | None => mret None
  | Some (m, _) =>
      ZREM_eligible m;;
      let exp := num (num now + num leaseMs) in
      on_hash m (set_claim (Some worker) (Some tok) (Some leaseMs) (Some exp));;
      ZADD_leases m exp;;
      mret (Some m)
  end.

(** the first line of the other scripts *)
Definition check_token (m tok : string) : script () :=
  h ← read (hash_of m);
  if bool_decide (lease_token h = Some tok) then mret tt else raise "LEASELOST".

(** *** luaAck *)

(** the entries of a page of the PEL: [true] when one is past [through] *)
Fixpoint ack_page (m : string) (through : Z) (ids : list nat) (cost n : Z) :
    script (bool * Z * Z) :=
  match ids with
  | [] => mret (false, cost, n)
  | id :: ids =>
      s ← read (stream_of m);
      match list_find (λ e, e_id e = id) (s_entries s) with
      | Some (_, e) =>
          if (num through <? num (e_seq e))%Z then mret (true, cost, n)
          else
            on_stream m (XACK id);;
            on_stream m (XDEL id);;
            ack_page m through ids (num (cost + num (e_c e))) (n + 1)
      | None => on_stream m (XACK id);; ack_page m through ids cost n
      end
  end.

(** the loop over the pages of 256 ids after [start]; each page but the last holds ids
    that are then gone from the PEL or passed, so fuel beyond its length is enough *)
Fixpoint ack_pages (fuel : nat) (m : string) (through : Z) (start : nat) (cost n : Z) :
    script (Z * Z) :=
  match fuel with
  | O => raise "out of fuel"
  | Datatypes.S fuel =>
      pend ← XPENDING m start 256;
      match last pend with
      | None => mret (cost, n)
      | Some id =>
          r ← ack_page m through pend cost n;
          let '(done_, cost, n) := r in
          if (done_ : bool) || (length pend <? 256)%nat then mret (cost, n)
          else ack_pages fuel m through id cost n
      end
  end.

Definition luaAck (m tok : string) (through now : Z) : script bool :=
  check_token m tok;;
  pel ← read (λ d, s_pel (stream_of m d));
  r ← ack_pages (Datatypes.S (length pel)) m through 0 0 0;
  let '(acked_cost, acked_n) := r in
  total ← HINCRBY m pending_cost set_cost (- acked_cost);
  (if (0 <? acked_n)%Z then modify (λ d, set_pending_tasks (pending_tasks d - acked_n) d)
   else mret tt);;
  on_hash m (set_attempts 0);;
  head ← read (head_entry m);
  match head with
  | None =>
      ZREM_leases m;; ZREM_eligible m;; ZREM_pending m;; DEL_unit m;; mret false
  | Some e =>
      h ← read (hash_of m);
      T ← need (threshold h);
      mw ← need (max_wait_ms h);
      let flush := num (num (e_ts e) + num mw) in
      on_hash m (set_clock (num (e_ts e)) flush);;
      if (num T <=? num total)%Z || (flush <=? num now)%Z then
        lms ← need (lease_ms h);
        let exp := num (num now + num lms) in
        on_hash m (set_exp exp);;
        ZADD_leases m exp;;
        mret true
      else
        on_hash m unclaim;;
        ZREM_leases m;;
        ZADD_pending m flush;;
        mret false
  end.

(** a free unit goes back to one of the two indexes *)
Definition reindex (m : string) (total T flush now : Z) : script () :=
  if (T <=? total)%Z || (flush <=? now)%Z then ZADD_eligible m flush else ZADD_pending m flush.

(** an empty unit is removed *)
Definition tombstone (m : string) : script () :=
  ZREM_eligible m;; ZREM_pending m;; DEL_unit m.

(** *** luaRelease *)

Definition luaRelease (m tok : string) (now : Z) : script () :=
  check_token m tok;;
  on_hash m unclaim;;
  ZREM_leases m;;
  head ← read (head_entry m);
  match head with
  | None => tombstone m
  | Some _ =>
      h ← read (hash_of m);
      total ← need (pending_cost h);
      T ← need (threshold h);
      flush ← need (flush_ms h);
      reindex m (num total) (num T) (num flush) (num now)
  end.

(** *** luaHeartbeat *)

Definition luaHeartbeat (m tok : string) (extend now : Z) : script () :=
  check_token m tok;;
  let exp := num (num now + num extend) in
  on_hash m (set_exp exp);;
  ZADD_leases m exp.

(** *** luaFail *)

(** the head, once it has failed often enough, goes to the dead-letter list *)
Definition bury (m : string) (seq : Z) (reason : string) (maxTries a : Z) : script () :=
  head ← read (head_entry m);
  match head with
  | Some e =>
      if (num maxTries <=? num a)%Z && (num (e_seq e) =? num seq)%Z then
        modify (add_dlq (mkDead m (num seq) (e_p e) (num (e_c e)) reason));;
        on_stream m (XACK (e_id e));;
        on_stream m (XDEL (e_id e));;
        HINCRBY m pending_cost set_cost (- num (e_c e));;
        modify (λ d, set_pending_tasks (pending_tasks d - 1) d);;
        on_hash m (set_attempts 0)
      else mret tt
  | None => mret tt
  end.

(** the claim ends, and the clock starts at the head there is now *)
Definition let_go (m : string) (now : Z) : script () :=
  on_hash m unclaim;;
  ZREM_leases m;;
  head2 ← read (head_entry m);
  match head2 with
  | None => tombstone m
  | Some e =>
      h ← read (hash_of m);
      mw ← need (max_wait_ms h);
      let flush := num (num (e_ts e) + num mw) in
      on_hash m (set_clock (num (e_ts e)) flush);;
      total ← need (pending_cost h);
      T ← need (threshold h);
      reindex m (num total) (num T) flush (num now)
  end.

Definition luaFail (m tok : string) (seq : Z) (reason : string) (now maxTries : Z) : script () :=
  check_token m tok;;
  a ← HINCRBY m attempts set_attempts 1;
  bury m seq reason maxTries a;;
  let_go m now.

(** *** luaReap *)

Fixpoint reap_expired (ms : list string) (now n : Z) : script Z :=
  match ms with
  | [] => mret n
  | m :: ms =>
      on_hash m unclaim;;
      ZREM_leases m;;
      h ← read (hash_of m);
      reindex m (num (default 0%Z (pending_cost h))) (num (default 0%Z (threshold h)))
        (num (default 0%Z (flush_ms h))) now;;
      reap_expired ms now (n + 1)
  end.

Fixpoint reap_due (ms : list string) (n : Z) : script Z :=
  match ms with
  | [] => mret n
  | m :: ms =>
      z ← read pending_flush;
      sc ← need (z !! m);
      ZREM_pending m;;
      ZADD_eligible m sc;;
      reap_due ms (n + 1)
  end.

Definition luaReap (now : Z) : script (Z * Z) :=
  expired ← read (λ d, ZRANGEBYSCORE (leases d) (num now));
  r ← reap_expired expired (num now) 0;
  due ← read (λ d, ZRANGEBYSCORE (pending_flush d) (num now));
  f ← reap_due due 0;
  mret (r, f).

(** *** Plain commands of Drain *)

(** [XAUTOCLAIM s g w 0 0 COUNT max]: the first pending entries; ids whose entry is gone
    leave the PEL *)
Definition XAUTOCLAIM (m : string) (max : Z) : script (list entry) :=
  d ← read id;
  if (max <? 1)%Z then raise "ERR COUNT must be > 0"
  else
    match streams d !! m with
    | None => raise "NOGROUP"
    | Some s =>
        let ids := take (Z.to_nat max) (s_pel s) in
        let found := omap (λ id, snd <$> list_find (λ e, e_id e = id) (s_entries s)) ids in
        on_stream m (λ s, mkStream (s_entries s) (s_last s) (s_delivered s)
          (filter (λ id, id ∉ ids ∨ id ∈ e_id <$> found) (s_pel s)));;
        mret found
    end.

(** [XREADGROUP GROUP g w COUNT n STREAMS s >]: entries never delivered *)
Definition XREADGROUP (m : string) (n : Z) : script (list entry) :=
  d ← read id;
  match streams d !! m with
  | None => raise "NOGROUP"
  | Some s =>
      let es := take (Z.to_nat n) (filter (λ e, s_delivered s < e_id e) (s_entries s)) in
      on_stream m (λ s, mkStream (s_entries s) (s_last s)
        (default (s_delivered s) (last (e_id <$> es))) (s_pel s ++ (e_id <$> es)));;
      mret es
  end.

(** ** Round trips *)

(** One script or command, sent to a primary as the [i]-th round trip of the call. *)
Definition send (e : Env) {A} (i : nat) (p : script A) (d : shard) : shard * res A :=
  match env_net e i with
  | Lost msg => (d, Err (ErrDriver msg))
  | NoFault =>
      match p d with
      | (d', inr a) => (d', Ok a)
      | (d', inl msg) => (d', Err (ErrDriver msg))
      end
  | Unacked msg => ((p d).1, Err (ErrDriver msg))
  end.

(** [strings.Contains(msg, "LEASELOST")] *)
Fixpoint prefix_of_str (p s : string) : bool :=
  match p, s with
  | EmptyString, _ => true
  | String a p, String b s => bool_decide (a = b) && prefix_of_str p s
  | _, _ => false
  end.

Fixpoint contains (p s : string) : bool :=
  prefix_of_str p s || match s with String _ s => contains p s | EmptyString => false end.

(** [leaseLost] *)
Definition leaseLost {A} (r : res A) : res A :=
  match r with
  | Err (ErrDriver msg) => if contains "LEASELOST" msg then Err ErrLeaseLost else r
  | _ => r
  end.

(** ** The driver *)

Record Options := mkOptions {
  Addrs : list string;
  DefaultThreshold : Z;
  DefaultMaxWait : duration;
  MaxAttempts : Z;
}.

Record Backend := mkBackend {
  shards : list shard;
  defT : Z;
  defWait : duration;
  maxTries : Z;
  rr : Z;
  tokens : Z;
}.

(** [New]: one primary per address, found holding [ds]; [None]: ErrNoAddr *)
Definition New (o : Options) (ds : string → shard) : option Backend :=
  match Addrs o with
  | [] => None
  | _ =>
      Some (mkBackend (ds <$> Addrs o) (DefaultThreshold o) (DefaultMaxWait o)
        (if (MaxAttempts o <=? 0)%Z then 3%Z else MaxAttempts o) 0 0)
  end.

Definition member (k : WorkUnitKey) : string :=
  Workspace k +:+ "|" +:+ Session k +:+ "|" +:+ Peer k.

(** [strings.SplitN(m, "|", 3)], padded *)
Fixpoint cut_bar (s : string) : string * option string :=
  match s with
  | EmptyString => (EmptyString, None)
  | String "|" s => (EmptyString, Some s)
  | String c s => let '(a, b) := cut_bar s in (String c a, b)
  end.

Definition splitMember (m : string) : WorkUnitKey :=
  let '(ws, r) := cut_bar m in
  match r with
  | None => mkKey ws "" ""
  | Some r =>
      let '(sess, p) := cut_bar r in mkKey ws sess (default "" p)
  end.

Definition set_shard (j : nat) (d : shard) (b : Backend) : Backend :=
  mkBackend (<[j := d]> (shards b)) (defT b) (defWait b) (maxTries b) (rr b) (tokens b).

Definition route (b : Backend) (k : WorkUnitKey) : nat :=
  shard_index (length (shards b)) (Workspace k).

(** a function of one primary's keys, on shard [j]; an index out of range panics *)
Definition on_shard {A} (j : nat) (f : shard → shard * res A) (b : Backend) : Backend * res A :=
  match shards b !! j with
  | None => (b, Panic)
  | Some d => let '(d', r) := f d in (set_shard j d' b, r)
  end.

(** [nowMs], the [i]-th reading of the clock *)
Definition nowMs (e : Env) (i : nat) : Z := UnixMilli (env_now e i).

Definition Enqueue (e : Env) (k : WorkUnitKey) (payload : bytes) (cost : Z) (b : Backend) :
    Backend * res Z :=
  on_shard (route b k)
    (send e 0 (luaEnqueue (member k) payload cost (defT b) (Milliseconds (defWait b)) (nowMs e 0)))
    b.

Definition claim_token (n : Z) (w : WorkerID) : LeaseToken := pretty n +:+ "-" +:+ w.

Fixpoint claim_turns (e : Env) (worker : WorkerID) (tok : LeaseToken) (lease : duration)
    (rr : Z) (todo i : nat) (b : Backend) : Backend * res (option ClaimedUnit) :=
  match todo with
  | O => (b, Ok None)
  | Datatypes.S todo =>
      match rotation rr (length (shards b)) i with
      | None => (b, Panic)
      | Some j =>
          let '(b, r) :=
            on_shard j
              (send e i (luaClaim worker tok (Milliseconds lease) (nowMs e (Datatypes.S i)))) b in
          match r with
          | Ok None => claim_turns e worker tok lease rr todo (Datatypes.S i) b
          | Ok (Some m) =>
              if bool_decide (m = "")
              then claim_turns e worker tok lease rr todo (Datatypes.S i) b
              else (b, Ok (Some (mkClaimed (splitMember m) worker tok (env_now e 0 + lease))))
          | Err err => (b, Err err)
          | Panic => (b, Panic)
          end
      end
  end.

Definition Claim (e : Env) (worker : WorkerID) (lease : duration) (b : Backend) :
    Backend * res (option ClaimedUnit) :=
  let n := i64 (tokens b + 1) in
  let r := rr b in
  let b := mkBackend (shards b) (defT b) (defWait b) (maxTries b) (rr_next r) n in
  claim_turns e worker (claim_token n worker) lease r (length (shards b)) 0 b.

Definition entryToTask (x : entry) : Task := mkTask (e_seq x) (e_p x) (e_c x).

(** a reply whose error is dropped *)
Definition dropped (r : res (list entry)) : list entry := match r with Ok l => l | _ => [] end.

Definition seq_le (a b : Task) : Prop := (Seq a <= Seq b)%Z.
#[export] Instance seq_le_dec : RelDecision seq_le.
Proof. intros a b. unfold seq_le. apply _. Defined.

(** [Drain] on the unit's primary: the lease check, the orphaned entries, then new ones if
    the batch has room; only the check reports an error *)
Definition drain_shard (e : Env) (m : string) (tok : LeaseToken) (max : Z) (d : shard) :
    shard * res (list Task) :=
  let '(d, r) := send e 0 (read (λ d, lease_token (hash_of m d))) d in
  match r with
  | Ok (Some t) =>
      if bool_decide (t = tok) then
        let '(d, r1) := send e 1 (XAUTOCLAIM m max) d in
        let tasks := dropped r1 in
        let '(d, more) :=
          if (length tasks <? max)%Z then
            let '(d, r2) := send e 2 (XREADGROUP m (max - length tasks)) d in (d, dropped r2)
          else (d, []) in
        (d, Ok (merge_sort seq_le (entryToTask <$> tasks ++ more)))
      else (d, Err ErrLeaseLost)
  | _ => (d, Err ErrLeaseLost)
  end.

Definition Drain (e : Env) (c : ClaimedUnit) (max : Z) (b : Backend) : Backend * res (list Task) :=
  on_shard (route b (cu_Key c)) (drain_shard e (member (cu_Key c)) (cu_Lease c) max) b.

(** a script whose errors are passed through [leaseLost] *)
Definition scripted {A} (e : Env) (c : ClaimedUnit) (p : script A) (b : Backend) :
    Backend * res A :=
  let '(b, r) := on_shard (route b (cu_Key c)) (send e 0 p) b in (b, leaseLost r).

Definition Ack (e : Env) (c : ClaimedUnit) (throughSeq : Z) (b : Backend) : Backend * res bool :=
  scripted e c (luaAck (member (cu_Key c)) (cu_Lease c) throughSeq (nowMs e 0)) b.

Definition Release (e : Env) (c : ClaimedUnit) (b : Backend) : Backend * res () :=
  scripted e c (luaRelease (member (cu_Key c)) (cu_Lease c) (nowMs e 0)) b.

Definition Heartbeat (e : Env) (c : ClaimedUnit) (extend : duration) (b : Backend) :
    Backend * res () :=
  scripted e c
    (luaHeartbeat (member (cu_Key c)) (cu_Lease c) (Milliseconds extend) (nowMs e 0)) b.

Definition Fail (e : Env) (c : ClaimedUnit) (seq : Z) (reason : string) (b : Backend) :
    Backend * res () :=
  scripted e c
    (luaFail (member (cu_Key c)) (cu_Lease c) seq reason (nowMs e 0) (maxTries b)) b.

Fixpoint reap_shards (e : Env) (now : time) (todo j : nat) (b : Backend) (r f : Z) :
    Backend * (Z * Z * option Queue.error) :=
  match todo with
  | O => (b, (r, f, None))
  | Datatypes.S todo =>
      let '(b, x) := on_shard j (send e j (luaReap (UnixMilli now))) b in
      match x with
      | Ok (n, m) => reap_shards e now todo (Datatypes.S j) b (i64 (r + n)) (i64 (f + m))
      | Err err => (b, (r, f, Some err))
      | Panic => (b, (r, f, None))
      end
  end.

Definition ReapExpired (e : Env) (now : time) (b : Backend) :
    Backend * (Z * Z * option Queue.error) :=
  reap_shards e now (length (shards b)) 0 b 0 0.

Definition Close (b : Backend) : Backend * res () := (b, Ok tt).

#[export] Instance Valkey_Backend : Queue.Backend Backend := {|
  be_Enqueue := Enqueue;
  be_Claim := Claim;
  be_Drain := Drain;
  be_Ack := Ack;
  be_Release := Release;
  be_Heartbeat := Heartbeat;
  be_Fail := Fail;
  be_ReapExpired := ReapExpired;
  be_Close := Close;
|}.

(** The six replies of one pipelined round trip; a failed one reads as zeros. *)
Definition stats_shard (e : Env) (b : Backend) (i : nat) (st : Stats) (d : shard) : Stats :=
  match env_net e i with
  | NoFault =>
      let elig := Z.of_nat (size (eligible d)) in
      let pf := Z.of_nat (size (pending_flush d)) in
      let ls := Z.of_nat (size (leases d)) in
      let oldest :=
        match filter (λ x, x.2 = 0%Z) (map_to_list (pending_flush d)) with
        | _ :: _ =>
            let age := i64 (i64 (UnixMilli (env_now e 0) - (0 - Milliseconds (defWait b))) * Millisecond) in
            if (OldestBelowT st <? age)%Z then age else OldestBelowT st
        | [] => OldestBelowT st
        end in
      mkStats (i64 (TotalUnits st + i64 (elig + pf + ls))) (i64 (EligibleUnits st + elig))
        (i64 (PendingTasks st + pending_tasks d)) (i64 (DeadLetters st + length (dlq d))) oldest
  | _ => st
  end.

Fixpoint stats_shards (e : Env) (b : Backend) (i : nat) (ds : list shard) (st : Stats) : Stats :=
  match ds with
  | [] => st
  | d :: ds => stats_shards e b (Datatypes.S i) ds (stats_shard e b i st d)
  end.

#[export] Instance Valkey_Stater : Stater Backend := λ e b,
  Ok (stats_shards e b 0 (shards b) (mkStats 0 0 0 0 0)).

Fixpoint reset_shards (e : Env) (todo j : nat) (b : Backend) : Backend * res () :=
  match todo with
  | O => (b, Ok tt)
  | Datatypes.S todo =>
      let '(b, r) := on_shard j (send e j (modify (λ _, empty_shard))) b in
      match r with
      | Ok _ => reset_shards e todo (Datatypes.S j) b
      | Err err => (b, Err err)
      | Panic => (b, Panic)
      end
  end.

#[export] Instance Valkey_Resetter : Resetter Backend := λ e b,
  reset_shards e (length (shards b)) 0 b.
