(* ===== verification/ValkeyFacts.v ===== *)
(** ValkeyFacts: the invariant of one Valkey primary (what its hashes, streams and sorted
    sets say of one unit agree, and every unit is in an index), what each script does to
    it, and the scripts' arithmetic on doubles where it is exact. *)
From S2P Require Import Prelude Queue Contract Routing Valkey.

(** ** Doubles *)

(** The range in which the scripts' numbers are kept, and beyond which they round. *)
Definition exact : Z := (2 ^ 53)%Z.

Lemma num_exact z : (Z.abs z < exact)%Z → num z = z.
Proof. unfold num, exact. intros Hz. by rewrite (proj2 (Z.ltb_lt _ _) Hz). Qed.

(** a number outside the range is not rounded into it *)
Lemma num_far z : (exact <= Z.abs z)%Z →
  ((exact <= num z)%Z ∧ (0 < z)%Z) ∨ ((num z <= - exact)%Z ∧ (z < 0)%Z).
Proof.
  unfold num, exact. intros Hz. rewrite (proj2 (Z.ltb_ge _ _) Hz).
  set (a := Z.abs z) in *. set (e := (Z.log2 a - 52)%Z).
  assert (53 <= Z.log2 a)%Z as Hlog by (apply Z.log2_le_pow2; lia).
  pose proof (Z.log2_spec a ltac:(lia)) as [Hlo _].
  assert (2 ^ Z.log2 a = 2 ^ 52 * 2 ^ e)%Z as Hsplit.
  { rewrite <- Z.pow_add_r by lia. f_equal. lia. }
  assert (2 ^ 1 <= 2 ^ e)%Z as He by (apply Z.pow_le_mono_r; lia).
  assert (2 ^ 52 <= a / 2 ^ e)%Z as Hq by (apply Z.div_le_lower_bound; lia).
  set (q := (a / 2 ^ e)%Z) in *.
  assert (∀ q', (q <= q')%Z → (2 ^ 53 <= q' * 2 ^ e)%Z) as Hbig by (intros; nia).
  set (q' := if (_ <? _)%Z then q else _).
  assert (q <= q')%Z as Hqq by (subst q'; repeat case_goal; lia).
  specialize (Hbig q' Hqq). subst a. destruct (Z.sgn_spec z) as [[? ->]|[[? ->]|[? ->]]]; lia.
Qed.

(** comparing with an exact number, rounded numbers answer like the numbers *)
Lemma num_ltb q s : (0 <= s < exact)%Z → (num q <? num s)%Z = (q <? s)%Z.
Proof.
  intros Hs. rewrite (num_exact s) by lia.
  destruct (Z.lt_ge_cases (Z.abs q) exact) as [Hq|Hq]; [by rewrite num_exact|].
  destruct (num_far q Hq) as [[? ?]|[? ?]];
    destruct (Z.ltb_spec (num q) s), (Z.ltb_spec q s); lia.
Qed.

Lemma num_eqb q s : (0 <= s < exact)%Z → (num s =? num q)%Z = (s =? q)%Z.
Proof.
  intros Hs. rewrite (num_exact s) by lia.
  destruct (Z.lt_ge_cases (Z.abs q) exact) as [Hq|Hq]; [by rewrite num_exact|].
  destruct (num_far q Hq) as [[? ?]|[? ?]];
    destruct (Z.eqb_spec s (num q)), (Z.eqb_spec s q); lia.
Qed.

Lemma incr_exact old x :
  (Z.abs (default 0%Z old + x) <= 2 ^ 52)%Z → (Z.abs x <= 2 ^ 52)%Z →
  incr old x = Some (default 0%Z old + x)%Z.
Proof.
  intros H1 H2. unfold incr, int64_min, int64_max. cbv zeta.
  rewrite !(proj2 (Z.leb_le _ _)) by lia. done.
Qed.

(** ** Running scripts *)

Section run.
Context {A B C : Type} (d : shard).

Lemma bind_inr (m : script A) (f : A → script B) d' a :
  m d = (d', inr a) → (m ≫= f) d = f a d'.
Proof. unfold mbind, script_bind. by intros ->. Qed.

Lemma bind_inl (m : script A) (f : A → script B) d' msg :
  m d = (d', inl msg) → (m ≫= f) d = (d', inl msg).
Proof. unfold mbind, script_bind. by intros ->. Qed.

Lemma bind_assoc (m : script A) (f : A → script B) (g : B → script C) :
  ((m ≫= f) ≫= g) d = (m ≫= λ a, f a ≫= g) d.
Proof. unfold mbind, script_bind. by destruct (m d) as [d' [msg|a]]. Qed.

Lemma run_modify f (k : () → script A) : (modify f ≫= k) d = k tt (f d).
Proof. done. Qed.

Lemma run_read (f : shard → A) (k : A → script B) : (read f ≫= k) d = k (f d) d.
Proof. done. Qed.

Lemma run_ret (a : A) (k : A → script B) : (mret a ≫= k) d = k a d.
Proof. done. Qed.

Lemma run_need (o : option A) a (k : A → script B) : o = Some a → (need o ≫= k) d = k a d.
Proof. by intros ->. Qed.

Lemma run_hincrby m get set x v (k : Z → script A) :
  incr (get (hash_of m d)) x = Some v →
  (HINCRBY m get set x ≫= k) d = k v (set_hash m (set v (hash_of m d)) d).
Proof.
  intros Hv. unfold HINCRBY, mbind, script_bind, read. by rewrite Hv.
Qed.
Lemma run_hincrby_none m get set x (k : Z → script A) :
  incr (get (hash_of m d)) x = None →
  (HINCRBY m get set x ≫= k) d = (d, inl "ERR increment or decrement would overflow").
Proof. intros Hv. unfold HINCRBY, mbind, script_bind, read. by rewrite Hv. Qed.
End run.

Lemma run_on_stream {A} m f s d (k : () → script A) :
  streams d !! m = Some s → (on_stream m f ≫= k) d = k tt (set_stream m (f s) d).
Proof. intros Hs. unfold on_stream. by rewrite run_modify, Hs. Qed.

(** ** Scripts that write no dead letter *)

Definition silent {A} (p : script A) : Prop := ∀ d, dlq (p d).1 = dlq d.

Lemma silent_bind {A B} (m : script A) (f : A → script B) :
  silent m → (∀ a, silent (f a)) → silent (m ≫= f).
Proof.
  intros Hm Hf d. unfold mbind, script_bind. pose proof (Hm d) as H.
  destruct (m d) as [d' [msg|a]]; [done|]. by rewrite (Hf a d').
Qed.

Lemma silent_modify f : (∀ d, dlq (f d) = dlq d) → silent (modify f).
Proof. intros Hf d. apply Hf. Qed.

Lemma silent_ret {A} (a : A) : silent (mret a).
Proof. done. Qed.

Lemma silent_raise {A} msg : silent (@raise A msg).
Proof. done. Qed.

Lemma silent_read {A} (f : shard → A) : silent (read f).
Proof. done. Qed.

Lemma silent_need {A} (o : option A) : silent (need o).
Proof. by destruct o. Qed.

Lemma silent_on_stream m f : silent (on_stream m f).
Proof. intros d. cbn. by destruct (streams d !! m). Qed.

Lemma silent_hincrby m get set x : silent (HINCRBY m get set x).
Proof.
  apply silent_bind; [done|]. intros h. destruct (incr _ _); [|done].
  by apply silent_bind.
Qed.

Lemma silent_xpending m a b : silent (XPENDING m a b).
Proof. apply silent_bind; [done|]. intros d. by destruct (streams d !! m). Qed.

(** the steps of a script, one after the other *)
Ltac silent :=
  repeat first
    [ apply silent_ret | apply silent_raise | apply silent_read | apply silent_need
    | apply silent_on_stream | apply silent_hincrby | apply silent_xpending
    | assumption | apply silent_modify; intros ?; repeat case_match; done
    | apply silent_bind; [|intros ?] | progress case_match ].

Lemma silent_let_go m now : silent (let_go m now).
Proof. unfold let_go, on_hash, tombstone, reindex. silent. Qed.

Lemma set_stream_twice m s1 s2 d : set_stream m s2 (set_stream m s1 d) = set_stream m s2 d.
Proof. unfold set_stream. cbn. by rewrite insert_insert_eq. Qed.

Lemma set_stream_same m s d : streams d !! m = Some s → set_stream m s d = d.
Proof. intros Hs. unfold set_stream. rewrite insert_id by done. by destruct d. Qed.

(** ** What a primary holds of one unit *)

Record cell := mkCell {
  c_hash : option hash;
  c_stream : option stream;
  c_el : option Z;
  c_pf : option Z;
  c_ls : option Z;
}.

Definition no_cell : cell := mkCell None None None None None.

Definition cell_of (m : string) (d : shard) : cell :=
  mkCell (hashes d !! m) (streams d !! m) (eligible d !! m) (pending_flush d !! m)
    (leases d !! m).

(** only the keys of [m] differ *)
Definition only (m : string) (d d' : shard) : Prop :=
  ∀ m', m' ≠ m → cell_of m' d' = cell_of m' d.

Definition tasks_of (s : stream) : list Task := entryToTask <$> s_entries s.

(** the unit's FIFO, its lease token, and how many of its tasks were delivered *)
Definition tasks (m : string) (d : shard) : list Task := tasks_of (stream_of m d).
Definition lease (m : string) (d : shard) : option string := lease_token (hash_of m d).
Definition handed (m : string) (d : shard) : nat := length (s_pel (stream_of m d)).

(** *** Streams *)

(** The stream is the delivered entries [es1], which are those of the pending list, and
    the others, [es2]. *)
Record parts (s : stream) (es1 es2 : list entry) : Prop := {
  p_entries : s_entries s = es1 ++ es2;
  p_pel : s_pel s = e_id <$> es1;
  p_sorted : StronglySorted lt (e_id <$> es1 ++ es2);
  p_pos : Forall (λ e, 0 < e_id e ≤ s_last s) (es1 ++ es2);
  p_front : Forall (λ e, e_id e ≤ s_delivered s) es1;
  p_back : Forall (λ e, s_delivered s < e_id e) es2;
  p_last : s_delivered s ≤ s_last s;
}.

(** the costs the scripts add exactly, with at most 2^31 tasks *)
Definition cost_bound : Z := (2 ^ 21)%Z.
Definition small_cost (c : Z) : Prop := (Z.abs c <= cost_bound)%Z.
Definition vk_capacity : Z := (2 ^ 31)%Z.

(** *** Hashes *)

Record unit_ok (n : Z) (s : stream) (h : hash) : Prop := {
  uo_parts : ∃ es1 es2, parts s es1 es2;
  uo_work : s_entries s ≠ [];
  uo_costs : Forall (λ e, small_cost (e_c e)) (s_entries s);
  uo_seqs : ∃ b, (0 <= b)%Z ∧ consecutive b (tasks_of s) ∧
    next_seq h = Some (b + length (s_entries s))%Z ∧ (b + length (s_entries s) <= n)%Z;
  uo_cost : pending_cost h = Some (total_cost (tasks_of s));
  uo_policy : is_Some (threshold h) ∧ is_Some (max_wait_ms h);
  uo_clock : is_Some (oldest_ms h) ∧ is_Some (flush_ms h);
  uo_claim : match lease_token h with
             | None => claimed_by h = None ∧ lease_exp h = None
             | Some _ => is_Some (claimed_by h) ∧ is_Some (lease_exp h) ∧ is_Some (lease_ms h)
             end;
}.

(** Where the unit is indexed: its lease in [leases], or else it is in [eligible] or
    waits in [pending_flush]. *)
Definition indexed (h : hash) (el pf ls : option Z) : Prop :=
  ls = lease_exp h ∧ (lease_token h = None → is_Some el ∨ is_Some pf).

Definition cell_ok (n : Z) (c : cell) : Prop :=
  c = no_cell ∨
  ∃ s h el pf ls, c = mkCell (Some h) (Some s) el pf ls ∧ unit_ok n s h ∧ indexed h el pf ls.

(** *** Primaries *)

Definition stream_total (d : shard) : Z :=
  map_fold (λ _ s acc, (length (s_entries s) + acc)%Z) 0%Z (streams d).

(** keys whose member string identifies them *)
Definition plain_key (k : WorkUnitKey) : bool :=
  negb (has_char "|" (Workspace k)) && negb (has_char "|" (Session k)).

(** primary [j] of [N] holds the units of the workspaces routed to it *)
Record shard_ok (N j : nat) (n : Z) (d : shard) : Prop := {
  sh_cells : ∀ m, cell_ok n (cell_of m d);
  sh_count : pending_tasks d = stream_total d;
  sh_home : ∀ m, is_Some (streams d !! m) →
    ∃ k, plain_key k = true ∧ m = member k ∧ shard_index N (Workspace k) = j;
}.

Definition count_at (m : string) (d : shard) : Z := length (s_entries (stream_of m d)).

Lemma stream_total_split m d :
  stream_total d =
  (count_at m d + map_fold (λ _ s acc, (length (s_entries s) + acc)%Z) 0%Z (delete m (streams d)))%Z.
Proof.
  unfold stream_total, count_at, stream_of. destruct (streams d !! m) as [s|] eqn:Hs; cbn [default].
  - rewrite (map_fold_delete_L _ _ m s) by (done || intros; lia). done.
  - rewrite delete_id by done. done.
Qed.

Lemma only_stream m d d' m' : only m d d' → m' ≠ m → streams d' !! m' = streams d !! m'.
Proof. intros Ho Hm. exact (f_equal c_stream (Ho m' Hm)). Qed.

Lemma only_hash m d d' m' : only m d d' → m' ≠ m → hashes d' !! m' = hashes d !! m'.
Proof. intros Ho Hm. exact (f_equal c_hash (Ho m' Hm)). Qed.

Lemma only_streams m d d' : only m d d' → delete m (streams d') = delete m (streams d).
Proof.
  intros Ho. apply map_eq. intros m'. destruct (decide (m' = m)) as [->|Hne].
  - by rewrite !lookup_delete_eq.
  - rewrite !lookup_delete_ne by done. by apply (only_stream m).
Qed.

(** a script that touches one unit keeps the primary well-formed *)
Lemma shard_ok_update N j n m d d' :
  shard_ok N j n d → only m d d' → cell_ok n (cell_of m d') →
  (pending_tasks d' - pending_tasks d = count_at m d' - count_at m d)%Z →
  (is_Some (streams d' !! m) →
   ∃ k, plain_key k = true ∧ m = member k ∧ shard_index N (Workspace k) = j) →
  shard_ok N j n d'.
Proof.
  intros [Hc Hn Hh] Ho Hm Hp Hhome. split.
  - intros m'. destruct (decide (m' = m)) as [->|Hne]; [done|]. rewrite (Ho m' Hne). apply Hc.
  - pose proof (stream_total_split m d). pose proof (stream_total_split m d').
    rewrite (only_streams _ _ _ Ho) in *. lia.
  - intros m' Hm'. destruct (decide (m' = m)) as [->|Hne]; [by apply Hhome|].
    apply Hh. by rewrite <- (only_stream m d d') by done.
Qed.

Lemma only_refl m d : only m d d.
Proof. by intros m' _. Qed.

Lemma only_tasks m d d' m' : only m d d' → m' ≠ m → tasks m' d' = tasks m' d.
Proof. intros Ho Hm. unfold tasks, stream_of. by rewrite (only_stream m d d'). Qed.

Lemma only_lease m d d' m' : only m d d' → m' ≠ m → lease m' d' = lease m' d.
Proof. intros Ho Hm. unfold lease, hash_of. by rewrite (only_hash m d d'). Qed.

Lemma only_handed m d d' m' : only m d d' → m' ≠ m → handed m' d' = handed m' d.
Proof. intros Ho Hm. unfold handed, stream_of. by rewrite (only_stream m d d'). Qed.

(** ** Streams *)

Lemma ids_ne e es :
  StronglySorted lt (e_id <$> e :: es) → Forall (λ e', e_id e' ≠ e_id e) es.
Proof.
  rewrite fmap_cons. intros [_ Hf]%StronglySorted_inv. rewrite Forall_fmap in Hf.
  eapply Forall_impl; [exact Hf|]. cbn. lia.
Qed.

Lemma XADD_parts seq ts p c s es1 es2 :
  parts s es1 es2 →
  parts (XADD seq ts p c s) es1 (es2 ++ [mkEntry (Datatypes.S (s_last s)) seq ts p c]).
Proof.
  intros [He Hp Hs Hpos Hf Hb Hl]. set (e := mkEntry _ _ _ _ _).
  split; cbn [XADD s_entries s_pel s_last s_delivered]; try done.
  - by rewrite He, <- (assoc_L (++)).
  - rewrite (assoc_L (++)), fmap_app. apply StronglySorted_app_2; [|done|repeat constructor].
    intros x y Hx ->%list_elem_of_singleton. apply list_elem_of_fmap in Hx as (e' & -> & Hx).
    rewrite Forall_forall in Hpos. specialize (Hpos e' Hx). cbn. lia.
  - rewrite (assoc_L (++)). apply Forall_app. split.
    + eapply Forall_impl; [exact Hpos|]. cbn. lia.
    + apply Forall_singleton. cbn. lia.
  - apply Forall_app. split; [done|]. apply Forall_singleton. cbn. lia.
  - lia.
Qed.

(** removing the first entry *)
Definition pop (s : stream) (e : entry) : stream := XDEL (e_id e) (XACK (e_id e) s).

Lemma pop_filter e es :
  StronglySorted lt (e_id <$> e :: es) →
  filter (λ e', e_id e' ≠ e_id e) (e :: es) = es ∧
  filter (λ i, i ≠ e_id e) (e_id <$> e :: es) = e_id <$> es.
Proof.
  intros Hs. pose proof (ids_ne _ _ Hs) as Hf. rewrite fmap_cons, !filter_cons.
  rewrite !decide_False by tauto. split; apply filter_all.
  - by apply Forall_forall.
  - apply Forall_forall. by rewrite Forall_fmap.
Qed.

Lemma pop_parts s e es1 es2 :
  parts s (e :: es1) es2 → parts (pop s e) es1 es2.
Proof.
  intros [He Hp Hs Hpos Hf Hb Hl]. destruct (pop_filter e (es1 ++ es2) Hs) as [Hf1 Hf2].
  cbn [app] in *.
  apply Forall_cons in Hpos as [_ Hpos]. apply Forall_cons in Hf as [_ Hf].
  split; cbn [pop XDEL XACK s_entries s_pel s_last s_delivered]; try done.
  - by rewrite He.
  - rewrite Hp. apply (pop_filter e es1). rewrite !fmap_cons in *.
    apply StronglySorted_inv in Hs as [Hs Hlt]. rewrite fmap_app in Hs, Hlt.
    apply Forall_app in Hlt as [Hlt _].
    constructor; [by apply StronglySorted_app_1_l in Hs|done].
  - rewrite fmap_cons in Hs. by apply StronglySorted_inv in Hs as [? _].
Qed.

Lemma pop_parts_new s e es2 :
  parts s [] (e :: es2) → parts (pop s e) [] es2.
Proof.
  intros [He Hp Hs Hpos Hf Hb Hl]. destruct (pop_filter e es2 Hs) as [Hf1 Hf2]. cbn [app] in *.
  apply Forall_cons in Hpos as [_ Hpos]. apply Forall_cons in Hb as [_ Hb].
  split; cbn [pop XDEL XACK s_entries s_pel s_last s_delivered app]; try done.
  - by rewrite He.
  - by rewrite Hp.
  - rewrite fmap_cons in Hs. by apply StronglySorted_inv in Hs as [? _].
Qed.

(** finding an entry by its id *)
Lemma find_id (es : list entry) i e :
  StronglySorted lt (e_id <$> es) → es !! i = Some e →
  list_find (λ e', e_id e' = e_id e) es = Some (i, e).
Proof.
  revert i. induction es as [|e' es IH]; intros i Hs Hi; [done|].
  destruct i as [|i]; cbn [lookup list_lookup] in Hi.
  - injection Hi as ->. cbn. by rewrite decide_True.
  - pose proof (ids_ne _ _ Hs) as Hne. rewrite Forall_lookup in Hne.
    rewrite fmap_cons in Hs. apply StronglySorted_inv in Hs as [Hs _].
    cbn. rewrite decide_False by (intros Heq; by apply (Hne _ _ Hi)).
    by rewrite (IH _ Hs Hi).
Qed.

(** the orphaned entries are the delivered ones, and claiming them changes nothing *)
Lemma XAUTOCLAIM_run m max s es1 es2 d :
  streams d !! m = Some s → parts s es1 es2 → (0 < max)%Z →
  XAUTOCLAIM m max d = (d, inr (take (Z.to_nat max) es1)).
Proof.
  intros Hd Hp Hmax. unfold XAUTOCLAIM. rewrite run_read. cbv beta delta [id].
  rewrite (proj2 (Z.ltb_ge _ _)) by lia. rewrite Hd. cbv zeta.
  rewrite (run_on_stream _ _ s) by done. rewrite (p_pel _ _ _ Hp), (p_entries _ _ _ Hp).
  assert (∀ es, es ⊆ es1 ++ es2 →
    omap (λ id, snd <$> list_find (λ e, e_id e = id) (es1 ++ es2)) (e_id <$> es) = es) as Hfound.
  { induction es as [|e es IH]; intros Hsub; [done|]. rewrite fmap_cons. cbn [omap list_omap].
    assert (e ∈ es1 ++ es2) as [i Hi]%list_elem_of_lookup by (apply Hsub; by constructor).
    rewrite (find_id _ _ _ (p_sorted _ _ _ Hp) Hi). cbn. f_equal. apply IH.
    intros x Hx. apply Hsub. by right. }
  rewrite <- fmap_take, Hfound.
  2:{ intros e He. apply elem_of_app. left. apply elem_of_take in He as (i & Hi & _).
      by eapply list_elem_of_lookup_2. }
  unfold mret, script_ret. f_equal. transitivity (set_stream m s d); [|by apply set_stream_same].
  f_equal. transitivity (mkStream (s_entries s) (s_last s) (s_delivered s) (s_pel s));
    [|by destruct s].
  f_equal; [by rewrite (p_entries _ _ _ Hp)|]. rewrite (p_pel _ _ _ Hp). apply filter_all. intros i _.
  destruct (decide (i ∈ e_id <$> take (Z.to_nat max) es1)); auto.
Qed.

(** new entries are delivered in order *)
Lemma XREADGROUP_run m n s es1 es2 d :
  streams d !! m = Some s → parts s es1 es2 →
  ∃ s', XREADGROUP m n d = (set_stream m s' d, inr (take (Z.to_nat n) es2)) ∧
    s_entries s' = s_entries s ∧
    parts s' (es1 ++ take (Z.to_nat n) es2) (drop (Z.to_nat n) es2).
Proof.
  intros Hd Hp. pose proof Hp as [He Hpel Hs Hpos Hf Hb Hl].
  assert (filter (λ e, s_delivered s < e_id e) (es1 ++ es2) = es2) as Hnew.
  { rewrite filter_app, filter_none, filter_all; [done|by apply Forall_forall|].
    intros e Hin. rewrite Forall_forall in Hf. specialize (Hf e Hin). lia. }
  set (es := take (Z.to_nat n) es2).
  exists (mkStream (s_entries s) (s_last s) (default (s_delivered s) (last (e_id <$> es)))
    (s_pel s ++ (e_id <$> es))).
  split; [|split; [done|]].
  { unfold XREADGROUP. rewrite run_read. cbv beta delta [id]. rewrite Hd. cbv zeta.
    rewrite (run_on_stream _ _ s) by done. rewrite He, Hnew. done. }
  assert (es1 ++ es2 = (es1 ++ es) ++ drop (Z.to_nat n) es2) as Hsplit.
  { rewrite <- (assoc_L (++)). f_equal. symmetry. apply take_drop. }
  split; cbn [s_entries s_pel s_last s_delivered]; rewrite <- ?Hsplit; try done.
  - by rewrite Hpel, fmap_app.
  - (* ids up to the last one read *)
    destruct (last (e_id <$> es)) as [i|] eqn:Hlast; cbn [default].
    2:{ apply last_None, fmap_nil_inv in Hlast as ->. by rewrite app_nil_r. }
    apply last_Some in Hlast as [ids Hids].
    assert (StronglySorted lt ((e_id <$> es1) ++ ids ++ [i])) as Hso.
    { rewrite <- Hids, <- fmap_app. rewrite Hsplit, fmap_app in Hs.
      by apply StronglySorted_app_1_l in Hs. }
    apply Forall_app. split.
    + apply Forall_forall. intros e Hin. apply Nat.lt_le_incl.
      eapply (StronglySorted_app_1_elem_of lt (e_id <$> es1) (ids ++ [i])); [done|by apply list_elem_of_fmap_2|].
      apply elem_of_app. right. by constructor.
    + apply Forall_forall. intros e Hin. apply (list_elem_of_fmap_2 e_id) in Hin.
      rewrite Hids, elem_of_app, list_elem_of_singleton in Hin. destruct Hin as [Hin| ->]; [|done].
      rewrite (assoc_L (++)) in Hso. apply Nat.lt_le_incl. eapply StronglySorted_app_1_elem_of; [exact Hso| |].
      * apply elem_of_app. by right.
      * by constructor.
  - destruct (last (e_id <$> es)) as [i|] eqn:Hlast; cbn [default].
    2:{ apply last_None, fmap_nil_inv in Hlast. rewrite <- (take_drop (Z.to_nat n) es2) in Hb.
        by apply Forall_app in Hb as [_ ?]. }
    apply Forall_forall. intros e Hin. rewrite Hsplit, fmap_app in Hs.
    eapply StronglySorted_app_1_elem_of; [exact Hs| |by apply list_elem_of_fmap_2].
    rewrite fmap_app. apply elem_of_app. right. apply last_Some in Hlast as [ids ->].
    apply elem_of_app. right. by constructor.
  - destruct (last (e_id <$> es)) as [i|] eqn:Hlast; cbn [default]; [|done].
    apply last_Some in Hlast as [ids Hids].
    assert (i ∈ e_id <$> es) as (e & -> & Hin)%list_elem_of_fmap.
    { rewrite Hids. apply elem_of_app. right. by constructor. }
    rewrite Forall_forall in Hpos. apply Hpos. rewrite Hsplit, !elem_of_app. auto.
Qed.

(** ** The paged acknowledgement *)

Lemma ack_page_app m th a b cost n d :
  ack_page m th (a ++ b) cost n d =
  match ack_page m th a cost n d with
  | (d', inr (false, cost', n')) => ack_page m th b cost' n' d'
  | r => r
  end.
Proof.
  revert cost n d. induction a as [|id a IH]; intros cost n d; [done|].
  cbn [app ack_page]. unfold mbind, script_bind, read, modify, on_stream.
  destruct (list_find _ _) as [[i e]|]; [|apply IH].
  destruct (num th <? num (e_seq e))%Z; [done|apply IH].
Qed.

Lemma pel_XACK m id d :
  s_pel (stream_of m (on_stream m (XACK id) d).1) = filter (λ i, i ≠ id) (s_pel (stream_of m d)).
Proof.
  unfold on_stream, modify, stream_of. cbn [fst]. destruct (streams d !! m) as [s|] eqn:Hs.
  - cbn [set_stream streams]. by rewrite lookup_insert_eq.
  - by rewrite Hs.
Qed.

Lemma pel_XDEL m id d :
  s_pel (stream_of m (on_stream m (XDEL id) d).1) = s_pel (stream_of m d).
Proof.
  unfold on_stream, modify, stream_of. cbn [fst]. destruct (streams d !! m) as [s|] eqn:Hs.
  - cbn [set_stream streams]. by rewrite lookup_insert_eq.
  - by rewrite Hs.
Qed.

(** a page that meets nothing past [through] leaves the PEL without its ids; no page
    raises *)
Lemma ack_page_pel m th ids cost n d :
  ∃ d' stop cost' n', ack_page m th ids cost n d = (d', inr (stop, cost', n')) ∧
    (is_Some (streams d !! m) → is_Some (streams d' !! m)) ∧
    (stop = false →
     s_pel (stream_of m d') = filter (λ i, i ∉ ids) (s_pel (stream_of m d))).
Proof.
  revert cost n d. induction ids as [|id ids IH]; intros cost n d.
  { eexists _, _, _, _. split; [done|]. split; [done|]. intros _. symmetry. apply filter_all.
    intros i _. apply not_elem_of_nil. }
  assert (∀ l : list nat, filter (λ i, i ∉ ids) (filter (λ i, i ≠ id) l) =
    filter (λ i, i ∉ id :: ids) l) as Hfil.
  { intros l. rewrite list_filter_filter. apply list_filter_iff. intros i.
    rewrite not_elem_of_cons. tauto. }
  cbn [ack_page]. unfold mbind, script_bind, read.
  destruct (list_find _ _) as [[i e]|].
  - destruct (num th <? num (e_seq e))%Z; [eexists _, _, _, _; by split_and!|].
    pose proof (pel_XACK m id d) as H1. unfold on_stream, modify in *. cbn [fst] in *.
    set (d1 := match streams d !! m with Some s => _ | None => d end) in *.
    pose proof (pel_XDEL m id d1) as H2. unfold on_stream, modify in *. cbn [fst] in *.
    destruct (IH (num (cost + num (e_c e))) (n + 1)%Z
      (match streams d1 !! m with Some s => set_stream m (XDEL id s) d1 | None => d1 end))
      as (d' & stop & c' & n' & -> & Hsm & Hp).
    eexists _, _, _, _. split; [done|].
    split; [|intros Hs; by rewrite (Hp Hs), H2, H1, Hfil].
    intros [s Hs]. apply Hsm. subst d1. rewrite Hs. cbn [set_stream streams].
    rewrite lookup_insert_eq. cbn [set_stream streams]. rewrite lookup_insert_eq. by eexists.
  - pose proof (pel_XACK m id d) as H1. unfold on_stream, modify in *. cbn [fst] in *.
    destruct (IH cost n (match streams d !! m with Some s => set_stream m (XACK id s) d | None => d end))
      as (d' & stop & c' & n' & -> & Hsm & Hp).
    eexists _, _, _, _. split; [done|]. split; [|intros Hs; by rewrite (Hp Hs), H1, Hfil].
    intros [s Hs]. apply Hsm. rewrite Hs. cbn [set_stream streams].
    rewrite lookup_insert_eq. by eexists.
Qed.

(** in an ascending list, the elements above one of them are those after it *)
Lemma filter_above (a b : list nat) x :
  StronglySorted lt (a ++ x :: b) → filter (λ i, x < i) (a ++ x :: b) = b.
Proof.
  intros Hs. induction a as [|y a IH]; cbn [app] in *.
  - apply StronglySorted_inv in Hs as [_ Hf]. rewrite filter_cons, decide_False by lia.
    apply filter_all. by apply Forall_forall.
  - apply StronglySorted_inv in Hs as [Hs Hf]. rewrite filter_cons, decide_False; [by apply IH|].
    rewrite Forall_forall in Hf. specialize (Hf x). rewrite elem_of_app, elem_of_cons in Hf.
    specialize (Hf (or_intror (or_introl eq_refl))). lia.
Qed.

Lemma sorted_filter (Q : nat → Prop) `{∀ i, Decision (Q i)} l :
  StronglySorted lt l → StronglySorted lt (filter Q l).
Proof.
  induction 1 as [|x l Hs IH Hf]; [constructor|]. rewrite filter_cons. case_decide; [|done].
  constructor; [done|]. rewrite Forall_forall in *. intros y [_ ?]%list_elem_of_filter. auto.
Qed.

Lemma sorted_disjoint (a b : list nat) : StronglySorted lt (a ++ b) → ∀ i, i ∈ b → i ∉ a.
Proof.
  induction a as [|x a IH]; intros Hs i Hb; [apply not_elem_of_nil|]. cbn [app] in Hs.
  apply StronglySorted_inv in Hs as [Hs Hf]. apply not_elem_of_cons. split; [|by eapply IH].
  intros ->. rewrite Forall_forall in Hf. specialize (Hf x).
  rewrite elem_of_app in Hf. specialize (Hf (or_intror Hb)). lia.
Qed.

(** the pages are one scan of the pending list *)
Lemma ack_pages_scan m th start cost n fuel d :
  is_Some (streams d !! m) →
  StronglySorted lt (s_pel (stream_of m d)) → length (s_pel (stream_of m d)) < fuel →
  ack_pages fuel m th start cost n d =
  match ack_page m th (filter (λ i, start < i) (s_pel (stream_of m d))) cost n d with
  | (d', inr (_, cost', n')) => (d', inr (cost', n'))
  | (d', inl msg) => (d', inl msg)
  end.
Proof.
  intros Hstr Hs Hf. set (pel := s_pel (stream_of m d)) in *.
  assert (length (filter (λ i, start < i) pel) < fuel) as Hfuel.
  { eapply Nat.le_lt_trans; [apply length_filter|done]. }
  clear Hf. subst pel. revert start cost n d Hstr Hs Hfuel.
  induction fuel as [|fuel IH]; intros start cost n d Hstr Hs Hfuel; [lia|].
  cbn [ack_pages]. unfold mbind, script_bind, XPENDING, read, mbind, script_bind. cbv beta iota.
  assert (streams d !! m = Some (stream_of m d)) as Hlk.
  { unfold stream_of. by destruct Hstr as [s ->]. }
  cbv beta delta [id]. rewrite Hlk. cbv beta iota delta [mret script_ret].
  set (all := filter (λ i, start < i) (s_pel (stream_of m d))) in *.
  pose proof (sorted_filter (λ i, start < i) _ Hs) as Hall. fold all in Hall.
  destruct (last (take 256 all)) as [id|] eqn:Hlast.
  2:{ apply last_None in Hlast. destruct all as [|x all]; [done|]. done. }
  apply last_Some in Hlast as [front Hfront].
  assert (all = (front ++ [id]) ++ drop 256 all) as Hsplit.
  { by rewrite <- Hfront, take_drop. }
  destruct (ack_page_pel m th (take 256 all) cost n d) as (d' & stop & c' & n' & Hpage & Hstr' & Hpel).
  rewrite Hpage. rewrite <- (take_drop 256 all) at 2. rewrite ack_page_app, Hpage.
  destruct stop; cbn [orb]; [done|]. specialize (Hpel eq_refl).
  destruct (Nat.ltb_spec (length (take 256 all)) 256) as [Hlt|Hge].
  - rewrite length_take in Hlt. rewrite drop_ge by lia. done.
  - assert (start < id) as Hid.
    { assert (id ∈ all) as [? _]%list_elem_of_filter; [|done]. rewrite Hsplit, !elem_of_app.
      left. right. by constructor. }
    assert (filter (λ i, id < i) (s_pel (stream_of m d')) = drop 256 all) as Hnext.
    { rewrite Hpel. transitivity (filter (λ i, i ∉ take 256 all) (filter (λ i, id < i) all)).
      - generalize (take 256 all). intros pend. unfold all. rewrite !list_filter_filter.
        apply list_filter_iff. intros i. split; intros; destruct_and?; split_and?; done || lia.
      - rewrite Hsplit at 1. rewrite <- (assoc_L (++)). cbn [app]. rewrite filter_above.
        + apply filter_all. intros i Hi. apply (sorted_disjoint (take 256 all) (drop 256 all)); [|done].
          by rewrite take_drop.
        + rewrite Hsplit, <- (assoc_L (++)) in Hall. done. }
    rewrite (IH id c' n' d').
    + by rewrite Hnext.
    + by apply Hstr'.
    + rewrite Hpel. by apply sorted_filter.
    + rewrite Hnext, length_drop. rewrite length_take in Hge. lia.
Qed.

(** What the scan does to the stream of a unit: it stops at the first delivered entry past
    [th]; those before it are gone. *)
Definition reached (th : Z) (e : entry) : bool := (e_seq e <=? th)%Z.

Definition entries_cost (es : list entry) : Z := list_Z_sum (e_c <$> es).

Lemma ack_page_run m th es1 es2 s d cost n :
  streams d !! m = Some s → parts s es1 es2 →
  Forall (λ e, small_cost (e_c e) ∧ (0 <= e_seq e < exact)%Z) es1 →
  (Z.abs cost + length es1 * cost_bound <= 2 ^ 52)%Z →
  ∃ s' stop, ack_page m th (e_id <$> es1) cost n d =
      (set_stream m s' d,
       inr (stop, (cost + entries_cost (take_while (reached th) es1))%Z,
            (n + length (take_while (reached th) es1))%Z)) ∧
    parts s' (drop_while (reached th) es1) es2.
Proof.
  intros Hd Hp Hes. revert s d cost n Hd Hp.
  induction Hes as [|e es1 [Hc Hq] _ IH]; intros s d cost n Hd Hp Hb.
  { exists s, false. cbn [take_while drop_while]. unfold entries_cost. cbn. rewrite !Z.add_0_r.
    rewrite set_stream_same by done. done. }
  rewrite fmap_cons. cbn [ack_page take_while drop_while]. rewrite run_read. unfold stream_of.
  rewrite Hd. cbv beta. cbn [default from_option id]. rewrite (p_entries _ _ _ Hp).
  rewrite (find_id _ 0 e (p_sorted _ _ _ Hp)) by done.
  rewrite num_ltb by done. unfold reached at 1 3 5. rewrite Z.leb_antisym.
  destruct (th <? e_seq e)%Z eqn:Hth; cbn [negb].
  { exists s, true. unfold entries_cost. cbn. rewrite !Z.add_0_r.
    rewrite set_stream_same by done. done. }
  rewrite (run_on_stream _ _ s) by done.
  rewrite (run_on_stream _ _ (XACK (e_id e) s)) by (cbn; by rewrite lookup_insert_eq).
  rewrite set_stream_twice. fold (pop s e).
  rewrite length_cons in Hb. unfold small_cost, cost_bound in *.
  rewrite (num_exact (e_c e)), num_exact by (unfold exact; lia).
  destruct (IH (pop s e) (set_stream m (pop s e) d) (cost + e_c e)%Z (n + 1)%Z)
    as (s' & stop & -> & Hp').
  - cbn. by rewrite lookup_insert_eq.
  - by apply pop_parts.
  - lia.
  - exists s', stop. split; [|done]. rewrite set_stream_twice, length_cons.
    unfold entries_cost. rewrite fmap_cons. cbn [list_Z_sum].
    do 3 f_equal; [f_equal|]; lia.
Qed.

(** ** Units *)

(** reading through the changes a script makes *)
Create Rewrite HintDb vk.

Lemma hash_of_set m h d : hash_of m (set_hash m h d) = h.
Proof. unfold hash_of. cbn. by rewrite lookup_insert_eq. Qed.
Lemma hash_of_stream m m' s d : hash_of m (set_stream m' s d) = hash_of m d.
Proof. done. Qed.
Lemma hash_of_eligible m z d : hash_of m (set_eligible z d) = hash_of m d.
Proof. done. Qed.
Lemma hash_of_pending m z d : hash_of m (set_pending_flush z d) = hash_of m d.
Proof. done. Qed.
Lemma hash_of_leases m z d : hash_of m (set_leases z d) = hash_of m d.
Proof. done. Qed.
Lemma hash_of_tasks m z d : hash_of m (set_pending_tasks z d) = hash_of m d.
Proof. done. Qed.
Lemma hash_of_dlq m x d : hash_of m (add_dlq x d) = hash_of m d.
Proof. done. Qed.

Lemma head_of_hash m m' h d : head_entry m (set_hash m' h d) = head_entry m d.
Proof. done. Qed.
Lemma head_of_stream m s d : head_entry m (set_stream m s d) = head (s_entries s).
Proof. unfold head_entry, stream_of. cbn. by rewrite lookup_insert_eq. Qed.
Lemma head_of_leases m z d : head_entry m (set_leases z d) = head_entry m d.
Proof. done. Qed.
Lemma head_of_tasks m z d : head_entry m (set_pending_tasks z d) = head_entry m d.
Proof. done. Qed.

#[export] Hint Rewrite hash_of_set hash_of_stream hash_of_eligible hash_of_pending hash_of_leases
  hash_of_tasks hash_of_dlq head_of_hash head_of_stream head_of_leases head_of_tasks : vk.

(** one command at a time *)
Ltac vk_step :=
  first [rewrite bind_assoc | rewrite run_modify | rewrite run_read | rewrite run_ret];
  cbv beta.
Ltac vk_run :=
  unfold on_hash, ZADD_eligible, ZREM_eligible, ZADD_pending, ZREM_pending, ZADD_leases,
    ZREM_leases;
  repeat (vk_step; autorewrite with vk).

Record unit_at (n : Z) (m : string) (d : shard) (s : stream) (h : hash) : Prop := {
  ua_hash : hashes d !! m = Some h;
  ua_stream : streams d !! m = Some s;
  ua_ok : unit_ok n s h;
  ua_indexed : indexed h (eligible d !! m) (pending_flush d !! m) (leases d !! m);
}.

Lemma cell_cases n m d :
  cell_ok n (cell_of m d) →
  cell_of m d = no_cell ∨ ∃ s h, unit_at n m d s h.
Proof.
  intros [Hc|(s & h & el & pf & ls & Hc & Hu & Hi)]; [by left|right]. exists s, h.
  injection Hc as H1 H2 H3 H4 H5. by split; rewrite ?H3, ?H4, ?H5.
Qed.

Lemma unit_at_hash n m d s h : unit_at n m d s h → hash_of m d = h.
Proof. intros Hu. unfold hash_of. by rewrite (ua_hash _ _ _ _ _ Hu). Qed.

Lemma unit_at_stream n m d s h : unit_at n m d s h → stream_of m d = s.
Proof. intros Hu. unfold stream_of. by rewrite (ua_stream _ _ _ _ _ Hu). Qed.

Lemma unit_of_lease N j n m d tok :
  shard_ok N j n d → lease m d = Some tok →
  ∃ s h, unit_at n m d s h ∧ lease_token h = Some tok.
Proof.
  intros Hd Hl. destruct (cell_cases n m d (sh_cells _ _ _ _ Hd m)) as [Hc|(s & h & Hu)].
  - injection Hc as H1 _ _ _ _. unfold lease, hash_of in Hl. by rewrite H1 in Hl.
  - exists s, h. split; [done|]. unfold lease in Hl. by rewrite (unit_at_hash _ _ _ _ _ Hu) in Hl.
Qed.

Lemma shard_ok_put N j n m d d' s h :
  shard_ok N j n d → only m d d' → unit_at n m d' s h →
  (pending_tasks d' - pending_tasks d = length (s_entries s) - count_at m d)%Z →
  (is_Some (streams d !! m) ∨
   ∃ k, plain_key k = true ∧ m = member k ∧ shard_index N (Workspace k) = j) →
  shard_ok N j n d'.
Proof.
  intros Hd Ho Hu Hp Hh. apply (shard_ok_update N j n m d d'); try done.
  - right. exists s, h, (eligible d' !! m), (pending_flush d' !! m), (leases d' !! m).
    unfold cell_of. rewrite (ua_hash _ _ _ _ _ Hu), (ua_stream _ _ _ _ _ Hu).
    split; [done|]. split; apply Hu.
  - rewrite Hp. unfold count_at at 2. by rewrite (unit_at_stream _ _ _ _ _ Hu).
  - intros _. destruct Hh as [Hh|Hh]; [by apply (sh_home _ _ _ _ Hd)|done].
Qed.

Lemma shard_ok_drop N j n m d d' :
  shard_ok N j n d → only m d d' → cell_of m d' = no_cell →
  (pending_tasks d' - pending_tasks d = - count_at m d)%Z → shard_ok N j n d'.
Proof.
  intros Hd Ho Hc Hp. assert (streams d' !! m = None) as Hs by apply (f_equal c_stream Hc).
  apply (shard_ok_update N j n m d d'); try done.
  - by left.
  - rewrite Hp. unfold count_at at 2. unfold stream_of. rewrite Hs. cbn. lia.
  - rewrite Hs. by intros [].
Qed.

(** the other units' keys, whatever was done to this one's *)
Ltac only_tac :=
  let m' := fresh "m'" in let Hne := fresh "Hne" in
  intros m' Hne; unfold cell_of; cbn;
  rewrite ?lookup_insert_ne, ?lookup_delete_ne, ?lookup_insert_ne, ?lookup_delete_ne by done;
  reflexivity.

Ltac look := cbn; rewrite ?lookup_insert_eq, ?lookup_delete_eq; try reflexivity; try eassumption.

Section unit.
Context (n : Z) (s : stream) (h : hash) (Hu : unit_ok n s h).

Lemma unit_claimed w tok ms exp :
  unit_ok n s (set_claim (Some w) (Some tok) (Some ms) (Some exp) h).
Proof. destruct Hu. split; cbn; eauto. Qed.

Lemma unit_unclaimed : unit_ok n s (unclaim h).
Proof. destruct Hu. split; cbn; eauto. Qed.

Lemma unit_extended x : is_Some (lease_token h) → unit_ok n s (set_exp x h).
Proof.
  intros [t Ht]. destruct Hu as [? ? ? ? ? ? ? Hc]. split; cbn; eauto.
  rewrite Ht in *. destruct Hc as (? & _ & ?). eauto.
Qed.

Lemma unit_clocked o f : unit_ok n s (set_clock o f h).
Proof. destruct Hu. split; cbn; eauto. Qed.

Lemma unit_attempted a : unit_ok n s (set_attempts a h).
Proof. destruct Hu. split; cbn; eauto. Qed.

Lemma unit_length : (length (s_entries s) <= n)%Z.
Proof. destruct (uo_seqs _ _ _ Hu) as (b & Hb & _ & _ & Hn). lia. Qed.

Lemma unit_seq_exact : (n <= vk_capacity)%Z →
  Forall (λ e, small_cost (e_c e) ∧ (0 <= e_seq e < exact)%Z) (s_entries s).
Proof.
  intros Hn. destruct (uo_seqs _ _ _ Hu) as (b & Hb & Hc & _ & Hl).
  apply Forall_lookup. intros i e Hi. split.
  - pose proof (uo_costs _ _ _ Hu) as Hcs. rewrite Forall_lookup in Hcs. by eapply Hcs.
  - assert (tasks_of s !! i = Some (entryToTask e)) as Ht
      by (unfold tasks_of; by rewrite list_lookup_fmap, Hi).
    pose proof (consecutive_lookup _ _ _ _ Hc Ht) as Hq. cbn in Hq.
    apply lookup_lt_Some in Hi. unfold vk_capacity, exact in *. lia.
Qed.
End unit.

Lemma costs_bound es :
  Forall (λ e, small_cost (e_c e)) es → (Z.abs (entries_cost es) <= length es * cost_bound)%Z.
Proof.
  unfold entries_cost, small_cost, cost_bound. induction 1 as [|e es He _ IH]; [cbn; lia|].
  rewrite fmap_cons, length_cons. cbn [list_Z_sum]. lia.
Qed.

Lemma total_cost_entries es : total_cost (entryToTask <$> es) = entries_cost es.
Proof. unfold total_cost, entries_cost. by rewrite <- list_fmap_compose. Qed.

(** ** Scripts of a holder *)

(** The unit keeps its tasks; what became of its lease is [l]. *)
Record kept (N j : nat) (n : Z) (m : string) (d d' : shard) (l : option string) : Prop := {
  k_ok : shard_ok N j n d';
  k_only : only m d d';
  k_tasks : tasks m d' = tasks m d;
  k_handed : handed m d' = handed m d;
  k_lease : lease m d' = l;
}.

Lemma check_held m tok d {A} (k : () → script A) :
  lease m d = Some tok → (check_token m tok ≫= k) d = k tt d.
Proof.
  intros Hl. unfold check_token, mbind, script_bind, read, lease in *.
  by rewrite bool_decide_true.
Qed.

Lemma check_lost m tok d {A} (k : () → script A) :
  lease m d ≠ Some tok → (check_token m tok ≫= k) d = (d, inl "LEASELOST").
Proof.
  intros Hl. unfold check_token, mbind, script_bind, read, lease in *.
  by rewrite bool_decide_false.
Qed.

Lemma kept_put N j n m d d' s h h' l :
  shard_ok N j n d → unit_at n m d s h → only m d d' →
  hashes d' !! m = Some h' → streams d' !! m = streams d !! m → unit_ok n s h' →
  indexed h' (eligible d' !! m) (pending_flush d' !! m) (leases d' !! m) →
  pending_tasks d' = pending_tasks d → lease_token h' = l → kept N j n m d d' l.
Proof.
  intros Hd Hu Ho Hh Hs Hok Hi Hp Hl. pose proof (ua_stream _ _ _ _ _ Hu) as Hsd.
  assert (stream_of m d' = stream_of m d) as Hst by (unfold stream_of; by rewrite Hs).
  split; try done.
  - apply (shard_ok_put N j n m d d' s h'); try done.
    + split; [done|by rewrite Hs|done|done].
    + unfold count_at. rewrite (unit_at_stream _ _ _ _ _ Hu). lia.
    + left. by rewrite Hsd.
  - unfold tasks. by rewrite Hst.
  - unfold handed. by rewrite Hst.
  - unfold lease, hash_of. by rewrite Hh.
Qed.

Section held.
Context (N j : nat) (n : Z) (d : shard) (m tok : string).
Context (Hd : shard_ok N j n d) (Hn : (n <= vk_capacity)%Z).

Lemma luaHeartbeat_held extend now :
  lease m d = Some tok →
  ∃ d', luaHeartbeat m tok extend now d = (d', inr tt) ∧ kept N j n m d d' (Some tok).
Proof.
  intros Hl. destruct (unit_of_lease N j n m d tok Hd Hl) as (s & h & Hu & Ht).
  unfold luaHeartbeat. rewrite check_held by done. vk_run. rewrite (unit_at_hash _ _ _ _ _ Hu).
  eexists. split; [reflexivity|]. destruct (ua_indexed _ _ _ _ _ Hu) as [Hls Hfree].
  eapply (kept_put _ _ _ _ _ _ s h (set_exp (num (num now + num extend)) h)); try done.
  - only_tac.
  - look.
  - by apply unit_extended; [apply Hu|rewrite Ht].
  - split; [look|]. cbn. by rewrite Ht.
Qed.

(** a unit that is free again has a place in an index *)
Lemma reindex_run total T flush now d0 :
  ∃ d', reindex m total T flush now d0 = (d', inr tt) ∧ only m d0 d' ∧
    hashes d' = hashes d0 ∧ streams d' = streams d0 ∧ leases d' = leases d0 ∧
    pending_tasks d' = pending_tasks d0 ∧ dlq d' = dlq d0 ∧
    (is_Some (eligible d' !! m) ∨ is_Some (pending_flush d' !! m)).
Proof.
  unfold reindex, ZADD_eligible, ZADD_pending, modify. case_goal; eexists; (split; [reflexivity|]);
    (split; [only_tac|]); split_and!; try reflexivity; [left|right]; look; by eexists.
Qed.

Lemma only_trans d1 d2 d3 : only m d1 d2 → only m d2 d3 → only m d1 d3.
Proof. intros H1 H2 m' Hne. by rewrite H2, H1. Qed.

Lemma luaRelease_held now :
  lease m d = Some tok →
  ∃ d', luaRelease m tok now d = (d', inr tt) ∧ kept N j n m d d' None.
Proof.
  intros Hl. destruct (unit_of_lease N j n m d tok Hd Hl) as (s & h & Hu & Ht).
  unfold luaRelease. rewrite check_held by done. vk_run. rewrite (unit_at_hash _ _ _ _ _ Hu).
  unfold head_entry. rewrite (unit_at_stream _ _ _ _ _ Hu).
  pose proof (ua_ok _ _ _ _ _ Hu) as Hok.
  destruct (s_entries s) as [|e es] eqn:Hes; [by destruct (uo_work _ _ _ Hok)|]. cbn [head].
  destruct (uo_policy _ _ _ Hok) as [[T HT] [W HW]]. destruct (uo_clock _ _ _ Hok) as [_ [f Hf]].
  vk_run. rewrite (run_need _ _ _ _ (uo_cost _ _ _ Hok)), (run_need _ _ T), (run_need _ _ f) by done.
  match goal with |- context [reindex m ?a ?b ?c ?x ?d0] =>
    destruct (reindex_run a b c x d0) as (d' & -> & Ho & Hh & Hs & Hls & Hp & _ & Hplace) end.
  exists d'. split; [done|].
  eapply (kept_put _ _ _ _ _ _ s h (unclaim h)); try done.
  - eapply only_trans; [|exact Ho]. only_tac.
  - rewrite Hh. look.
  - by rewrite Hs.
  - by apply unit_unclaimed.
  - split; [rewrite Hls; look|]. by intros _.
Qed.

Lemma unit_cut s h s' gone es1 es2 :
  unit_ok n s h → s_entries s = gone ++ s_entries s' → parts s' es1 es2 → s_entries s' ≠ [] →
  unit_ok n s' (set_cost (total_cost (tasks_of s')) h).
Proof.
  intros Hu He Hp Hne. pose proof Hu as [_ _ Hc (b & Hb & Hcons & Hnext & Hle) _ ? ? ?].
  split; cbn; eauto.
  - rewrite He in Hc. by apply Forall_app in Hc as [_ ?].
  - unfold tasks_of in *. rewrite He, fmap_app in Hcons. apply consecutive_app in Hcons as [_ Hcons].
    rewrite length_fmap in Hcons. rewrite He, length_app in Hnext, Hle.
    exists (b + length gone)%Z. split_and!; [lia|done| |lia]. rewrite Hnext. f_equal. lia.
Qed.

Lemma unit_cost_bound s h es :
  unit_ok n s h → es ⊆ s_entries s → length es ≤ length (s_entries s) →
  (Z.abs (entries_cost es) <= 2 ^ 52)%Z.
Proof.
  intros Hu Hsub Hlen. pose proof (unit_length n s h Hu).
  assert (Forall (λ e, small_cost (e_c e)) es) as Hc.
  { pose proof (uo_costs _ _ _ Hu) as Hf. rewrite Forall_forall in *. auto. }
  pose proof (costs_bound es Hc). unfold vk_capacity, cost_bound in *. lia.
Qed.

Lemma ack_pages_run th s h es1 es2 :
  unit_at n m d s h → parts s es1 es2 →
  let gone := take_while (reached th) es1 in
  ∃ s', ack_pages (Datatypes.S (length (s_pel s))) m th 0 0 0 d =
      (set_stream m s' d, inr (entries_cost gone, Z.of_nat (length gone))) ∧
    parts s' (drop_while (reached th) es1) es2.
Proof.
  intros Hu Hp gone. pose proof (ua_stream _ _ _ _ _ Hu) as Hs.
  pose proof (unit_seq_exact n s h (ua_ok _ _ _ _ _ Hu) Hn) as Hex.
  rewrite (p_entries _ _ _ Hp) in Hex. apply Forall_app in Hex as [Hex _].
  assert (s_pel (stream_of m d) = e_id <$> es1) as Hpel
    by (rewrite (unit_at_stream _ _ _ _ _ Hu); apply (p_pel _ _ _ Hp)).
  pose proof (p_sorted _ _ _ Hp) as Hso. rewrite fmap_app in Hso.
  rewrite ack_pages_scan; rewrite ?Hpel.
  - rewrite filter_all.
    + destruct (ack_page_run m th es1 es2 s d 0 0 Hs Hp Hex) as (s' & stop & -> & Hp').
      { pose proof (unit_length n s h (ua_ok _ _ _ _ _ Hu)) as Hle.
        rewrite (p_entries _ _ _ Hp), length_app in Hle. unfold vk_capacity, cost_bound in *. lia. }
      exists s'. rewrite !Z.add_0_l. done.
    + intros i (e & -> & He)%list_elem_of_fmap. pose proof (p_pos _ _ _ Hp) as Hpos.
      rewrite Forall_forall in Hpos. apply Hpos, elem_of_app. by left.
  - by rewrite Hs.
  - by apply StronglySorted_app_1_l in Hso.
  - rewrite (p_pel _ _ _ Hp). lia.
Qed.

Lemma count_down k d0 {A} (f : () → script A) :
  (0 <= k)%Z →
  ((if (0 <? k)%Z then modify (λ d, set_pending_tasks (pending_tasks d - k) d) else mret tt) ≫= f) d0
  = f tt (set_pending_tasks (pending_tasks d0 - k) d0).
Proof.
  intros Hk. destruct (Z.ltb_spec 0 k); [done|]. replace k with 0%Z by lia.
  rewrite run_ret, Z.sub_0_r. by destruct d0.
Qed.

Lemma take_while_tasks th es :
  take_while (through th) (entryToTask <$> es) = entryToTask <$> take_while (reached th) es.
Proof.
  induction es as [|e es IH]; [done|]. rewrite fmap_cons. cbn [take_while].
  unfold through at 1, reached at 1. cbn [entryToTask Seq]. case_goal; [|done].
  by rewrite fmap_cons, IH.
Qed.

(** a unit whose first entries are gone, or all of them with its keys *)
Lemma cut_put s h s' h1 gone d' l (A : list Task) :
  unit_at n m d s h → s_entries s = gone ++ s_entries s' → tasks m d = A ++ tasks_of s' →
  only m d d' → unit_at n m d' s' h1 → pending_tasks d' = (pending_tasks d - length gone)%Z →
  lease_token h1 = l →
  only m d d' ∧ shard_ok N j n d' ∧ tasks m d = A ++ tasks m d' ∧ lease m d' = l.
Proof.
  intros Hu He Ht Ho Hu' Hp Hl. split_and!; [done|..].
  - eapply (shard_ok_put N j n m d _ s' h1); [done..| |left; by rewrite (ua_stream _ _ _ _ _ Hu)].
    unfold count_at. rewrite (unit_at_stream _ _ _ _ _ Hu), He, length_app. lia.
  - rewrite Ht at 1. unfold tasks. by rewrite (unit_at_stream _ _ _ _ _ Hu').
  - unfold lease. by rewrite (unit_at_hash _ _ _ _ _ Hu').
Qed.

Lemma cut_drop s h d' :
  unit_at n m d s h → only m d d' → cell_of m d' = no_cell →
  pending_tasks d' = (pending_tasks d - length (s_entries s))%Z →
  only m d d' ∧ shard_ok N j n d' ∧ tasks m d' = [] ∧ lease m d' = None.
Proof.
  intros Hu Ho Hc Hp. split_and!; [done|..].
  - apply (shard_ok_drop N j n m d); try done. unfold count_at.
    rewrite (unit_at_stream _ _ _ _ _ Hu). lia.
  - unfold tasks, stream_of. injection Hc as _ Hs _ _ _. by rewrite Hs.
  - unfold lease, hash_of. injection Hc as Hh _ _ _ _. by rewrite Hh.
Qed.

Lemma acked_prefix th s h s' es1 es2 :
  unit_at n m d s h → parts s es1 es2 →
  s_entries s = take_while (reached th) es1 ++ s_entries s' →
  tasks m d = take_while (through th) (take (handed m d) (tasks m d)) ++ tasks_of s'.
Proof.
  intros Hu Hp He. unfold tasks, handed. rewrite (unit_at_stream _ _ _ _ _ Hu).
  rewrite (p_pel _ _ _ Hp), length_fmap. unfold tasks_of. rewrite (p_entries _ _ _ Hp) at 2.
  rewrite fmap_app, take_app_le, firstn_all2 by (rewrite length_fmap; done).
  by rewrite take_while_tasks, <- fmap_app, <- He.
Qed.

Lemma cut_bounds s h s' gone :
  unit_ok n s h → s_entries s = gone ++ s_entries s' →
  total_cost (tasks_of s) = (entries_cost gone + total_cost (tasks_of s'))%Z ∧
  (Z.abs (entries_cost gone) <= 2 ^ 52)%Z ∧ (Z.abs (total_cost (tasks_of s')) <= 2 ^ 52)%Z.
Proof.
  intros Hu He. unfold tasks_of. rewrite !total_cost_entries. split_and!.
  - unfold entries_cost. by rewrite He, fmap_app, list_Z_sum_app.
  - apply (unit_cost_bound s h); [done| |]; rewrite He; [|rewrite length_app; lia].
    intros e Hin. apply elem_of_app. by left.
  - apply (unit_cost_bound s h); [done| |]; rewrite He; [|rewrite length_app; lia].
    intros e Hin. apply elem_of_app. by right.
Qed.

Lemma incr_cost s h s' gone :
  unit_ok n s h → s_entries s = gone ++ s_entries s' →
  incr (pending_cost h) (- entries_cost gone) = Some (total_cost (tasks_of s')).
Proof.
  intros Hu He. destruct (cut_bounds s h s' gone Hu He) as (Hc & H1 & H2).
  rewrite (uo_cost _ _ _ Hu), incr_exact; cbn [default from_option id]; [f_equal|..]; lia.
Qed.

Lemma luaAck_held th now :
  lease m d = Some tok →
  ∃ d' r, luaAck m tok th now d = (d', inr r) ∧ only m d d' ∧ shard_ok N j n d' ∧
    tasks m d = take_while (through th) (take (handed m d) (tasks m d)) ++ tasks m d' ∧
    lease m d' = if r then Some tok else None.
Proof.
  intros Hl. destruct (unit_of_lease N j n m d tok Hd Hl) as (s & h & Hu & Ht).
  pose proof (ua_ok _ _ _ _ _ Hu) as Hok. destruct (uo_parts _ _ _ Hok) as (es1 & es2 & Hp).
  destruct (ack_pages_run th s h es1 es2 Hu Hp) as (s' & Hrun & Hp').
  set (gone := take_while (reached th) es1) in *.
  pose proof (unit_at_stream _ _ _ _ _ Hu) as Hst. pose proof (unit_at_hash _ _ _ _ _ Hu) as Hh.
  assert (s_entries s = gone ++ s_entries s') as Hes.
  { rewrite (p_entries _ _ _ Hp), (p_entries _ _ _ Hp'), (assoc_L (++)). subst gone.
    by rewrite take_drop_while. }
  pose proof (acked_prefix th s h s' es1 es2 Hu Hp Hes) as Htasks.
  unfold luaAck. rewrite check_held by done. rewrite run_read, Hst. cbv beta.
  rewrite (bind_inr _ _ _ _ _ Hrun). cbv beta iota.
  rewrite (run_hincrby _ _ _ _ _ (total_cost (tasks_of s')))
    by (autorewrite with vk; rewrite Hh; by apply (incr_cost s h)).
  rewrite count_down by lia. vk_run. rewrite Hh.
  destruct (decide (s_entries s' = [])) as [Hnil|Hne].
  { rewrite Hnil. eexists _, false. split; [reflexivity|]. rewrite Hnil, app_nil_r in Hes.
    unfold tasks_of in Htasks. rewrite Hnil in Htasks. rewrite Htasks at 1.
    match goal with |- only m d ?d' ∧ _ => destruct (cut_drop s h d') as (H1 & H2 & -> & H4) end;
      [done|only_tac|unfold cell_of; look|cbn; by rewrite Hes|done]. }
  pose proof (unit_attempted _ _ _ (unit_cut s h s' gone _ _ Hok Hes Hp' Hne) 0) as Hcut.
  destruct (head (s_entries s')) as [e|] eqn:Hhd; [|by destruct (s_entries s')].
  destruct (uo_policy _ _ _ Hok) as [[T HT] [W HW]]. destruct (ua_indexed _ _ _ _ _ Hu) as [Hls _].
  vk_run. cbn [threshold max_wait_ms set_attempts set_cost].
  rewrite (run_need _ _ _ _ HT), (run_need _ _ _ _ HW). vk_run.
  pose proof (uo_claim _ _ _ Hok) as Hcl. rewrite Ht in Hcl. destruct Hcl as (_ & _ & [lm Hlm]).
  case_goal; vk_run; cbn [lease_ms set_clock set_attempts set_cost];
    rewrite ?(run_need _ _ _ _ Hlm); vk_run.
  - eexists _, true. split; [reflexivity|].
    eapply cut_put; [exact Hu|exact Hes|exact Htasks|only_tac| | |].
    + split; [look|look| |split; [look|]].
      * apply unit_extended; [by apply unit_clocked|]. cbn. by rewrite Ht.
      * cbn. by rewrite Ht.
    + done.
    + exact Ht.
  - eexists _, false. split; [reflexivity|].
    eapply cut_put; [exact Hu|exact Hes|exact Htasks|only_tac| | |].
    + split; [look|look|by apply unit_unclaimed, unit_clocked|split; [look|]].
      intros _. right. look. by eexists.
    + done.
    + done.
Qed.

Lemma let_go_run now d1 s h :
  hashes d1 !! m = Some h → streams d1 !! m = Some s → s_entries s ≠ [] → unit_ok n s h →
  ∃ d', let_go m now d1 = (d', inr tt) ∧ only m d1 d' ∧ pending_tasks d' = pending_tasks d1 ∧
    ∃ h', unit_at n m d' s h' ∧ lease_token h' = None.
Proof.
  intros Hh Hs Hne Hok. unfold let_go. vk_run.
  assert (hash_of m d1 = h) as -> by (unfold hash_of; by rewrite Hh).
  assert (head_entry m d1 = head (s_entries s)) as -> by (unfold head_entry, stream_of; by rewrite Hs).
  destruct (head (s_entries s)) as [e|] eqn:Hhd; [|by destruct (s_entries s)].
  destruct (uo_policy _ _ _ Hok) as [[T HT] [W HW]].
  vk_run. cbn [max_wait_ms unclaim set_claim]. rewrite (run_need _ _ W) by done. vk_run.
  rewrite (run_need _ _ _ _ (uo_cost _ _ _ Hok)), (run_need _ _ T) by done.
  match goal with |- context [reindex m ?a ?b ?c ?x ?d0] =>
    destruct (reindex_run a b c x d0) as (d' & -> & Ho & Hh' & Hs' & Hls & Hp & _ & Hplace) end.
  exists d'. split; [done|]. split; [eapply only_trans; [|exact Ho]; only_tac|].
  split; [by rewrite Hp|]. eexists. split; [split|].
  - rewrite Hh'. look.
  - rewrite Hs'. exact Hs.
  - by apply unit_clocked, unit_unclaimed.
  - split; [rewrite Hls; look|done].
  - done.
Qed.

Lemma let_go_empty now d1 s h :
  hashes d1 !! m = Some h → streams d1 !! m = Some s → s_entries s = [] →
  ∃ d', let_go m now d1 = (d', inr tt) ∧ only m d1 d' ∧ pending_tasks d' = pending_tasks d1 ∧
    cell_of m d' = no_cell.
Proof.
  intros Hh Hs He. unfold let_go, tombstone. vk_run.
  assert (head_entry m d1 = None) as -> by (unfold head_entry, stream_of; by rewrite Hs; cbn; rewrite He).
  vk_run. eexists. split; [reflexivity|]. split; [only_tac|]. split; [done|].
  unfold cell_of. look.
Qed.

Lemma pop_unit s h e es :
  unit_ok n s h → s_entries s = e :: es →
  s_entries (pop s e) = es ∧ ∃ es1 es2, parts (pop s e) es1 es2.
Proof.
  intros Hok He. destruct (uo_parts _ _ _ Hok) as ([|e1 es1] & es2 & Hp);
    pose proof (p_entries _ _ _ Hp) as Hes; rewrite He in Hes; cbn [app] in Hes.
  - subst es2. pose proof (pop_parts_new _ _ _ Hp) as Hp'. split; [|by eexists _, _].
    apply (p_entries _ _ _ Hp').
  - injection Hes as <- ->. pose proof (pop_parts _ _ _ _ Hp) as Hp'. split; [|by eexists _, _].
    apply (p_entries _ _ _ Hp').
Qed.

(** [bury] either leaves everything as it is or takes the head away *)
Lemma bury_run seq reason maxTries a d1 s h :
  unit_at n m d1 s h → 
  (bury m seq reason maxTries a d1 = (d1, inr tt)) ∨
  ∃ e es d2, s_entries s = e :: es ∧ e_seq e = seq ∧ bury m seq reason maxTries a d1 = (d2, inr tt) ∧
    only m d1 d2 ∧ pending_tasks d2 = (pending_tasks d1 - 1)%Z ∧
    hashes d2 !! m = Some (set_attempts 0 (set_cost (total_cost (tasks_of (pop s e))) h)) ∧
    streams d2 !! m = Some (pop s e) ∧
    dlq d2 = dlq d1 ++ [mkDead m (e_seq e) (e_p e) (e_c e) reason].
Proof.
  intros Hu. pose proof (ua_ok _ _ _ _ _ Hu) as Hok. pose proof (ua_stream _ _ _ _ _ Hu) as Hs.
  assert (head_entry m d1 = head (s_entries s)) as Hhd
    by (unfold head_entry; by rewrite (unit_at_stream _ _ _ _ _ Hu)).
  unfold bury. setoid_rewrite run_read. rewrite Hhd.
  destruct (s_entries s) as [|e es] eqn:Hes; [by left|]. cbn [head].
  destruct (_ && _) eqn:Hcond; [right|by left]. apply andb_true_iff in Hcond as [_ Hseq].
  pose proof (unit_seq_exact n s h Hok Hn) as Hex. rewrite Hes in Hex.
  apply Forall_cons in Hex as [[Hc Hq] _]. rewrite num_eqb in Hseq by done. apply Z.eqb_eq in Hseq.
  destruct (pop_unit s h e es Hok Hes) as [Hpop _].
  exists e, es. rewrite run_modify.
  rewrite (run_on_stream _ _ s) by done.
  rewrite (run_on_stream _ _ (XACK (e_id e) s)) by look. rewrite set_stream_twice. fold (pop s e).
  rewrite (run_hincrby _ _ _ _ _ (total_cost (tasks_of (pop s e)))).
  2:{ autorewrite with vk. rewrite (unit_at_hash _ _ _ _ _ Hu).
      rewrite num_exact by (unfold small_cost, cost_bound, exact in *; lia).
      replace (e_c e) with (entries_cost [e]) by (unfold entries_cost; cbn; lia).
      apply (incr_cost s h); [done|]. by rewrite Hes, Hpop. }
  unfold on_hash. rewrite run_modify. autorewrite with vk. rewrite (unit_at_hash _ _ _ _ _ Hu).
  eexists. split; [done|]. split; [done|]. split; [reflexivity|]. split; [only_tac|].
  split_and!; [done| |look|].
  - cbn [hashes set_hash set_pending_tasks]. rewrite lookup_insert_eq. by autorewrite with vk.
  - cbn. rewrite !num_exact by (subst seq; unfold small_cost, cost_bound, exact in *; lia). by subst seq.
Qed.

Lemma luaFail_held seq reason now maxTries :
  lease m d = Some tok →
  luaFail m tok seq reason now maxTries d = (d, inl "ERR increment or decrement would overflow") ∨
  ∃ d', luaFail m tok seq reason now maxTries d = (d', inr tt) ∧ only m d d' ∧ shard_ok N j n d' ∧
    ((tasks m d' = tasks m d ∧ dlq d' = dlq d) ∨
     ∃ t ts, tasks m d = t :: ts ∧ Seq t = seq ∧ tasks m d' = ts ∧
       dlq d' = dlq d ++ [mkDead m (Seq t) (Payload t) (Cost t) reason]) ∧
    lease m d' = None.
Proof.
  intros Hl. destruct (unit_of_lease N j n m d tok Hd Hl) as (s & h & Hu & Ht).
  pose proof (ua_ok _ _ _ _ _ Hu) as Hok. pose proof (ua_stream _ _ _ _ _ Hu) as Hs.
  unfold luaFail. rewrite check_held by done.
  pose proof (unit_at_hash _ _ _ _ _ Hu) as Hh.
  destruct (incr (attempts h) 1) as [a|] eqn:Ha; [right|left; apply run_hincrby_none; by rewrite Hh].
  rewrite (run_hincrby _ _ _ _ _ a) by (by rewrite Hh). rewrite Hh. set (d1 := set_hash m (set_attempts a h) d).
  assert (unit_at n m d1 s (set_attempts a h)) as Hu1.
  { split; [look|done|by apply unit_attempted|]. apply Hu. }
  assert (only m d d1) as Ho1 by only_tac.
  destruct (bury_run seq reason maxTries a d1 s _ Hu1) as [Hb|(e & es & d2 & Hes & Hq & Hb & Ho2 & Hp2 & Hh2 & Hs2 & Hdl)];
    rewrite (bind_inr _ _ _ _ _ Hb).
  - destruct (let_go_run now d1 s _ (ua_hash _ _ _ _ _ Hu1) Hs (uo_work _ _ _ Hok) (ua_ok _ _ _ _ _ Hu1))
      as (d' & Hrun & Ho & Hp & h' & Hu' & Hl'). exists d'. split; [exact Hrun|].
    pose proof (silent_let_go m now d1) as Hdl. rewrite Hrun in Hdl.
    destruct (cut_put s h s h' [] d' None [] Hu eq_refl) as (H1 & H2 & H3 & H4); try done.
    + unfold tasks. by rewrite (unit_at_stream _ _ _ _ _ Hu).
    + by eapply only_trans.
    + rewrite Hp. cbn. lia.
    + split_and!; try done. by left.
  - destruct (pop_unit s h e es Hok Hes) as (Hpop & es1 & es2 & Hparts).
    assert (tasks m d = entryToTask e :: tasks_of (pop s e)) as Htk.
    { unfold tasks. rewrite (unit_at_stream _ _ _ _ _ Hu). unfold tasks_of. by rewrite Hes, Hpop. }
    assert (only m d d2) as Ho by (by eapply only_trans).
    assert (pending_tasks d2 = pending_tasks d - 1)%Z as Hp by (rewrite Hp2; done).
    destruct (decide (es = [])) as [->|Hne].
    + destruct (let_go_empty now d2 _ _ Hh2 Hs2 Hpop) as (d' & Hrun & Ho' & Hp' & Hc).
      exists d'. split; [exact Hrun|]. pose proof (silent_let_go m now d2) as Hdl'.
      rewrite Hrun in Hdl'. cbn [fst] in Hdl'.
      destruct (cut_drop s h d' Hu) as (H1 & H2 & H3 & H4); try done.
      { by eapply only_trans. } { rewrite Hp', Hp, Hes. done. }
      split_and!; try done. right. eexists _, _. rewrite H3, Htk, Hdl', Hdl. unfold tasks_of.
      by rewrite Hpop.
    + assert (s_entries (pop s e) ≠ []) as Hne' by by rewrite Hpop.
      pose proof (unit_cut s h (pop s e) [e] es1 es2 Hok ltac:(by rewrite Hes, Hpop) Hparts Hne') as Hcut.
      destruct (let_go_run now d2 _ _ Hh2 Hs2 Hne' (unit_attempted _ _ _ Hcut 0))
        as (d' & Hrun & Ho' & Hp' & h' & Hu' & Hl'). exists d'. split; [exact Hrun|].
      pose proof (silent_let_go m now d2) as Hdl'. rewrite Hrun in Hdl'. cbn [fst] in Hdl'.
      destruct (cut_put s h (pop s e) h' [e] d' None [entryToTask e] Hu) as (H1 & H2 & H3 & H4);
        try done; [by rewrite Hes, Hpop|by eapply only_trans|by rewrite Hp', Hp|].
      split_and!; try done. right. eexists _, _. split; [exact H3|]. rewrite Hdl', Hdl. done.
Qed.

(** ** Drain *)

(** tasks in sequence are their own sorting *)
Lemma sort_consecutive b ts : consecutive b ts → merge_sort seq_le ts = ts.
Proof.
  intros Hc. apply (StronglySorted_unique_strong seq_le).
  - intros x1 x2 H1 H2 H12 H21. apply (elem_of_Permutation_proper _ _ _ (merge_sort_Permutation _ _)) in H1.
    apply list_elem_of_lookup in H1 as [i1 Hi1]. apply list_elem_of_lookup in H2 as [i2 Hi2].
    pose proof (consecutive_lookup _ _ _ _ Hc Hi1). pose proof (consecutive_lookup _ _ _ _ Hc Hi2).
    unfold seq_le in *. assert (i1 = i2) as -> by lia. congruence.
  - apply StronglySorted_merge_sort; [intros x y z; unfold seq_le; lia|].
    intros x y. unfold seq_le. lia.
  - clear -Hc. revert b Hc. induction ts as [|t ts IH]; intros b Hc; [constructor|].
    apply consecutive_cons in Hc as [Ht Hc]. constructor; [by eapply IH|].
    apply Forall_lookup. intros i t' Hi. pose proof (consecutive_lookup _ _ _ _ Hc Hi).
    unfold seq_le. lia.
  - apply merge_sort_Permutation.
Qed.

(** what a drain may change: tasks are handed out *)
Record drained (d' : shard) : Prop := {
  dr_ok : shard_ok N j n d';
  dr_only : only m d d';
  dr_tasks : tasks m d' = tasks m d;
  dr_handed : handed m d ≤ handed m d';
  dr_lease : lease m d' = lease m d;
}.

Lemma drained_refl : drained d.
Proof. by split. Qed.

Lemma XAUTOCLAIM_same max : (XAUTOCLAIM m max d).1 = d.
Proof.
  destruct (Z.lt_ge_cases 0 max) as [Hm|Hm].
  - destruct (cell_cases n m d (sh_cells _ _ _ _ Hd m)) as [Hc|(s & h & Hu)].
    + unfold XAUTOCLAIM. rewrite run_read. cbv beta delta [id]. injection Hc as _ Hs _ _ _.
      rewrite Hs. by destruct (max <? 1)%Z.
    + destruct (uo_parts _ _ _ (ua_ok _ _ _ _ _ Hu)) as (es1 & es2 & Hp).
      by rewrite (XAUTOCLAIM_run m max s es1 es2 d (ua_stream _ _ _ _ _ Hu) Hp Hm).
  - unfold XAUTOCLAIM. rewrite run_read. cbv beta delta [id].
    by rewrite (proj2 (Z.ltb_lt _ _)) by lia.
Qed.

Lemma XREADGROUP_unit k s h es1 es2 :
  unit_at n m d s h → parts s es1 es2 →
  ∃ d', XREADGROUP m k d = (d', inr (take (Z.to_nat k) es2)) ∧ drained d' ∧
    handed m d' = length es1 + length (take (Z.to_nat k) es2).
Proof.
  intros Hu Hp. pose proof (ua_stream _ _ _ _ _ Hu) as Hs.
  destruct (XREADGROUP_run m k s es1 es2 d Hs Hp) as (s' & -> & He & Hp').
  exists (set_stream m s' d). split; [done|].
  assert (handed m (set_stream m s' d) = length es1 + length (take (Z.to_nat k) es2)) as Hhd.
  { unfold handed, stream_of. look. cbn. rewrite (p_pel _ _ _ Hp'). by rewrite length_fmap, length_app. }
  assert (tasks_of s' = tasks_of s) as Ht by (unfold tasks_of; by rewrite He).
  split; [|done]. split; [|only_tac| | |done].
  - eapply (shard_ok_put N j n m d _ s' h); [done|only_tac| | |left; by rewrite Hs].
    + split; [by apply (ua_hash _ _ _ _ _ Hu)|look| |apply Hu].
      destruct (ua_ok _ _ _ _ _ Hu). split; rewrite ?Ht, ?He; eauto.
    + cbn. unfold count_at. rewrite (unit_at_stream _ _ _ _ _ Hu), He. lia.
  - unfold tasks, stream_of. look. by rewrite Hs.
  - rewrite Hhd. unfold handed. rewrite (unit_at_stream _ _ _ _ _ Hu), (p_pel _ _ _ Hp), length_fmap.
    lia.
Qed.

Lemma XREADGROUP_drained k : drained (XREADGROUP m k d).1.
Proof.
  destruct (cell_cases n m d (sh_cells _ _ _ _ Hd m)) as [Hc|(s & h & Hu)].
  - unfold XREADGROUP. rewrite run_read. cbv beta delta [id]. injection Hc as _ Hs _ _ _.
    rewrite Hs. apply drained_refl.
  - destruct (uo_parts _ _ _ (ua_ok _ _ _ _ _ Hu)) as (es1 & es2 & Hp).
    by destruct (XREADGROUP_unit k s h es1 es2 Hu Hp) as (d' & -> & Hdr & _).
Qed.
End held.

(** a round trip runs the script, or nothing *)
Lemma send_state e i {A} (p : script A) d :
  (send e i p d).1 = d ∨ (send e i p d).1 = (p d).1.
Proof. unfold send. destruct (env_net e i); [right|by left|by right]. by destruct (p d) as [d' [?|?]]. Qed.

(** whatever the network does, a drain only hands tasks out *)
Lemma drain_shard_drained N j n e m tok max d :
  shard_ok N j n d → drained N j n d m (drain_shard e m tok max d).1.
Proof.
  intros Hd. unfold drain_shard.
  destruct (send e 0 _ d) as [d0 r0] eqn:H0.
  assert (d0 = d) as -> by (destruct (send_state e 0 (read (λ d, lease_token (hash_of m d))) d) as [Hx|Hx];
    by rewrite H0 in Hx).
  destruct r0 as [[t|]|err|]; try (by apply drained_refl).
  case_bool_decide; [|by apply drained_refl].
  destruct (send e 1 _ d) as [d1 r1] eqn:H1.
  assert (d1 = d) as ->.
  { destruct (send_state e 1 (XAUTOCLAIM m max) d) as [Hx|Hx]; rewrite H1 in Hx; [done|].
    cbn [fst] in Hx. by rewrite Hx, (XAUTOCLAIM_same N j n d m Hd). }
  case_goal; [|by apply drained_refl].
  destruct (send e 2 _ d) as [d2 r2] eqn:H2. cbn [fst].
  destruct (send_state e 2 (XREADGROUP m (max - length (dropped r1))) d) as [Hx|Hx];
    rewrite H2 in Hx; cbn [fst] in Hx; rewrite Hx; [by apply drained_refl|].
  by apply XREADGROUP_drained.
Qed.

(** on a network that answers, the first tasks of the unit come in order *)
Lemma drain_shard_held N j n e m tok max d :
  shard_ok N j n d → lease m d = Some tok → (∀ i, env_net e i = NoFault) → (0 < max)%Z →
  ∃ d', drain_shard e m tok max d = (d', Ok (take (Z.to_nat max) (tasks m d))) ∧
    Nat.min (Z.to_nat max) (length (tasks m d)) ≤ handed m d'.
Proof.
  intros Hd Hl Hq Hmax. destruct (unit_of_lease N j n m d tok Hd Hl) as (s & h & Hu & Ht).
  pose proof (ua_ok _ _ _ _ _ Hu) as Hok. destruct (uo_parts _ _ _ Hok) as (es1 & es2 & Hp).
  destruct (uo_seqs _ _ _ Hok) as (b & _ & Hc & _).
  assert (tasks m d = tasks_of s) as Htk by (unfold tasks; by rewrite (unit_at_stream _ _ _ _ _ Hu)).
  unfold drain_shard, send at 1. rewrite Hq. unfold read at 1. fold (lease m d). rewrite Hl.
  rewrite bool_decide_true by done. unfold send at 1. rewrite Hq.
  rewrite (XAUTOCLAIM_run m max s es1 es2 d (ua_stream _ _ _ _ _ Hu) Hp Hmax). cbn [dropped].
  rewrite Htk. unfold tasks_of in *. rewrite (p_entries _ _ _ Hp) in *.
  assert (∀ l, l = take (Z.to_nat max) (es1 ++ es2) →
    merge_sort seq_le (entryToTask <$> l) = take (Z.to_nat max) (entryToTask <$> es1 ++ es2)) as Hsort.
  { intros l ->. rewrite fmap_take. rewrite <- (take_drop (Z.to_nat max)) in Hc.
    apply consecutive_app in Hc as [Hc _]. by apply (sort_consecutive b). }
  rewrite length_fmap. destruct (Z.ltb_spec (length (take (Z.to_nat max) es1)) max) as [Hlt|Hge].
  - unfold send. rewrite Hq. rewrite length_take in Hlt.
    destruct (XREADGROUP_unit N j n d m Hd (max - length (take (Z.to_nat max) es1)) s h es1 es2 Hu Hp)
      as (d' & -> & _ & Hhd). cbn [dropped fst snd].
    assert (take (Z.to_nat max) es1 = es1) as Hall by (apply take_ge; lia). rewrite Hall in *.
    replace (Z.to_nat (max - length es1)) with (Z.to_nat max - length es1) in * by lia.
    rewrite Hsort by (rewrite take_app_ge by lia; done). exists d'. split; [done|].
    rewrite Hhd, length_take, length_app. lia.
  - rewrite app_nil_r, Hsort. 2:{ rewrite length_take in Hge. rewrite take_app_le by lia. done. }
    exists d. split; [done|]. unfold handed. rewrite (unit_at_stream _ _ _ _ _ Hu), (p_pel _ _ _ Hp).
    rewrite length_fmap. rewrite length_take in Hge. lia.
Qed.

(** ** Enqueue *)

Lemma shard_ok_mono N j n n' d : shard_ok N j n d → (n <= n')%Z → shard_ok N j n' d.
Proof.
  intros [Hc Hp Hh] Hn. split; [|done..]. intros m.
  destruct (Hc m) as [Hm|(s & h & el & pf & ls & Hm & Hu & Hi)]; [by left|right].
  exists s, h, el, pf, ls. split; [done|]. split; [|done].
  destruct Hu as [? ? ? (b & ? & ? & ? & ?) ? ? ? ?]. split; eauto.
  exists b. split_and!; [done..|lia].
Qed.

(** A unit, or none yet, about to receive a task. *)
Record receives (n : Z) (s : stream) (h : hash) : Prop := {
  rc_parts : ∃ es1 es2, parts s es1 es2;
  rc_costs : Forall (λ e, small_cost (e_c e)) (s_entries s);
  rc_seqs : ∃ b, (0 <= b)%Z ∧ consecutive b (tasks_of s) ∧
    default 0%Z (next_seq h) = (b + length (s_entries s))%Z ∧ (b + length (s_entries s) <= n)%Z;
  rc_cost : default 0%Z (pending_cost h) = total_cost (tasks_of s);
  rc_set : total_cost (tasks_of s) ≠ 0%Z →
    (is_Some (threshold h) ∧ is_Some (max_wait_ms h)) ∧ (is_Some (oldest_ms h) ∧ is_Some (flush_ms h));
  rc_claim : match lease_token h with
             | None => claimed_by h = None ∧ lease_exp h = None
             | Some _ => is_Some (claimed_by h) ∧ is_Some (lease_exp h) ∧ is_Some (lease_ms h)
             end;
}.

Lemma receives_none n : (0 <= n)%Z → receives n no_stream no_hash.
Proof.
  intros Hn. split; cbn; try done.
  - exists [], []. by split; cbn; try constructor.
  - exists 0%Z. by split_and!.
Qed.

Lemma receives_unit n s h : unit_ok n s h → receives n s h.
Proof.
  intros [? ? ? (b & ? & ? & Hn & ?) Hc ? ? ?]. split; eauto.
  - exists b. rewrite Hn. by split_and!.
  - by rewrite Hc.
Qed.

(** the hash after the two increments and the stamps of a first task *)
Definition stamped (T wait now cost total nx : Z) (h : hash) : hash :=
  let h := set_next nx (set_cost total h) in
  if (num total =? num cost)%Z
  then set_policy T wait (set_clock now (num (num now + num wait)) h) else h.

Lemma stamped_fields T wait now cost total nx h :
  let h' := stamped T wait now cost total nx h in
  pending_cost h' = Some total ∧ next_seq h' = Some nx ∧ claimed_by h' = claimed_by h ∧
  lease_token h' = lease_token h ∧ lease_ms h' = lease_ms h ∧ lease_exp h' = lease_exp h.
Proof. cbv zeta. unfold stamped. by case_goal. Qed.

Lemma received n s h T wait now p cost :
  receives n s h → small_cost cost → (n < vk_capacity)%Z →
  let total := (default 0%Z (pending_cost h) + cost)%Z in
  let q := default 0%Z (next_seq h) in
  unit_ok (n + 1) (XADD q now p cost s) (stamped T wait now cost total (q + 1) h) ∧
  (0 <= q < vk_capacity)%Z ∧ (Z.abs total <= 2 ^ 52)%Z ∧ tasks_of (XADD q now p cost s) = tasks_of s ++ [mkTask q p cost].
Proof.
  intros [(es1 & es2 & Hp) Hcs (b & Hb & Hc & Hnx & Hle) Hpc Hset Hcl] Hsm Hn total q.
  assert (tasks_of (XADD q now p cost s) = tasks_of s ++ [mkTask q p cost]) as Ht.
  { unfold tasks_of. cbn [XADD s_entries]. by rewrite fmap_app. }
  assert (Z.abs (total_cost (tasks_of s)) <= length (s_entries s) * cost_bound)%Z as Hbound.
  { unfold tasks_of. rewrite total_cost_entries. by apply costs_bound. }
  assert (Z.abs total <= 2 ^ 52)%Z as Htot.
  { unfold total. rewrite Hpc. unfold small_cost, cost_bound, vk_capacity in *. lia. }
  split_and!; [|lia|lia|done|done].
  destruct (stamped_fields T wait now cost total (q + 1) h) as (H1 & H2 & H3 & H4 & H5 & H6).
  split.
  - eexists _, _. by apply XADD_parts.
  - cbn [XADD s_entries]. by destruct (s_entries s).
  - cbn [XADD s_entries]. apply Forall_app. split; [done|]. by apply Forall_singleton.
  - exists b. rewrite H2, Ht. cbn [XADD s_entries]. rewrite length_app. cbn [length].
    split_and!; [done| |f_equal; lia|lia]. apply consecutive_app. split; [done|].
    apply consecutive_cons. split; [|apply consecutive_nil]. cbn [Seq]. unfold tasks_of.
    rewrite length_fmap. lia.
  - rewrite H1, Ht, total_cost_app. unfold total. rewrite Hpc. cbn. do 2 f_equal. lia.
  - unfold stamped. case_goal; [cbn; split; by eexists|]. apply Hset. intros Hz.
    unfold total in *. rewrite Hpc, Hz in *. b2p. by destruct (Z.eqb_neq (num cost) (num cost)).
  - unfold stamped. case_goal; [cbn; split; by eexists|]. apply Hset. intros Hz.
    unfold total in *. rewrite Hpc, Hz in *. b2p. by destruct (Z.eqb_neq (num cost) (num cost)).
  - rewrite H3, H4, H5, H6. done.
Qed.

(** the stream is made if there is none *)
Lemma enqueue_opens N j n m d :
  shard_ok N j n d → (0 <= n)%Z →
  let d1 := match streams d !! m with Some _ => d | None => set_stream m no_stream d end in
  ∃ s h, streams d1 !! m = Some s ∧ hash_of m d1 = h ∧ receives n s h ∧ only m d d1 ∧
    pending_tasks d1 = pending_tasks d ∧ tasks m d = tasks_of s ∧ handed m d = length (s_pel s) ∧
    lease m d = lease_token h ∧ count_at m d = length (s_entries s) ∧
    leases d1 !! m = lease_exp h.
Proof.
  intros Hd Hn d1. destruct (cell_cases n m d (sh_cells _ _ _ _ Hd m)) as [Hc|(s & h & Hu)].
  - injection Hc as H1 H2 _ _ H5. exists no_stream, no_hash. subst d1.
    unfold tasks, handed, lease, count_at, hash_of, stream_of. rewrite H2, H1.
    split_and!; try done; [look|by look; rewrite H1|by apply receives_none|only_tac].
  - exists s, h. subst d1. pose proof (ua_stream _ _ _ _ _ Hu) as Hs. rewrite Hs.
    unfold tasks, handed, lease, count_at. rewrite (unit_at_stream _ _ _ _ _ Hu), (unit_at_hash _ _ _ _ _ Hu).
    split_and!; try done; [by apply receives_unit, (ua_ok _ _ _ _ _ Hu)|apply Hu].
Qed.

(** the unit as the enqueue leaves it, apart from the indexes *)
Definition enqueued (m : string) (s : stream) (h : hash) (d : shard) : shard :=
  set_hash m h (set_pending_tasks (pending_tasks d + 1) (set_stream m s d)).

Lemma enqueued_run {A} m p cost T wait now d s h n (k : Z → Z → script A) :
  streams d !! m = Some s → hash_of m d = h → receives n s h → small_cost cost →
  (n < vk_capacity)%Z →
  let total := (default 0%Z (pending_cost h) + cost)%Z in
  let q := default 0%Z (next_seq h) in
  ∃ d', (total ← HINCRBY m pending_cost set_cost cost;
   n ← HINCRBY m next_seq set_next 1;
   let seq := num (num n - 1) in
   on_stream m (XADD seq now p cost);;
   modify (λ d, set_pending_tasks (pending_tasks d + 1) d);;
   (if (num total =? num cost)%Z
    then on_hash m (λ h, set_policy T wait (set_clock now (num (num now + num wait)) h))
    else mret tt);;
   k seq total) d = k q total d' ∧ only m d d' ∧
   hashes d' !! m = Some (stamped T wait now cost total (q + 1) h) ∧
   streams d' !! m = Some (XADD q now p cost s) ∧ pending_tasks d' = (pending_tasks d + 1)%Z ∧
   leases d' !! m = leases d !! m.
Proof.
  intros Hs Hh Hrc Hsm Hn total q.
  destruct (received n s h T wait now p cost Hrc Hsm Hn) as (_ & Hq & Htot & _).
  fold q total in Hq, Htot.
  rewrite (run_hincrby _ _ _ _ _ total).
  2:{ rewrite Hh. apply incr_exact; [done|]. unfold small_cost, cost_bound in *. lia. }
  rewrite (run_hincrby _ _ _ _ _ (q + 1)%Z).
  2:{ autorewrite with vk. rewrite Hh. apply incr_exact; [|lia]. cbn [next_seq set_cost]. fold q.
      unfold vk_capacity in *. lia. }
  cbv zeta. autorewrite with vk. rewrite Hh.
  rewrite (num_exact (q + 1)), Z.add_simpl_r, num_exact by (unfold vk_capacity, exact in *; lia).
  rewrite (run_on_stream _ _ s) by look. rewrite run_modify.
  unfold stamped. fold total q. case_goal; vk_run.
  all: eexists; split; [reflexivity|]; split; [only_tac|]; split_and!; look.
Qed.

Lemma luaEnqueue_run N j n m d k p cost T wait now :
  shard_ok N j n d → (0 <= n < vk_capacity)%Z → small_cost cost →
  plain_key k = true → m = member k → shard_index N (Workspace k) = j →
  ∃ d' q, luaEnqueue m p cost T wait now d = (d', inr q) ∧ shard_ok N j (n + 1) d' ∧ only m d d' ∧
    tasks m d' = tasks m d ++ [mkTask q p cost] ∧ handed m d' = handed m d ∧
    lease m d' = lease m d.
Proof.
  intros Hd [H0 Hn] Hsm Hk Hm Hj. unfold luaEnqueue. rewrite run_modify.
  destruct (enqueue_opens N j n m d Hd H0)
    as (s & h & Hs & Hh & Hrc & Ho1 & Hp1 & Htk & Hhd & Hl & Hcnt & Hls).
  set (d1 := match streams d !! m with Some _ => d | None => _ end) in *.
  set (q := default 0%Z (next_seq h)). set (total := (default 0%Z (pending_cost h) + cost)%Z).
  destruct (received n s h T wait now p cost Hrc Hsm Hn) as (Hok & _ & _ & Htasks).
  fold q total in Hok, Htasks.
  destruct (enqueued_run m p cost T wait now d1 s h n (λ seq total,
    h ← read (hash_of m);
    (if bool_decide (claimed_by h = None) then
       fd ← need (flush_ms h);
       if (num T <=? num total)%Z
       then ZADD_eligible m (num fd);; ZREM_pending m
       else ZADD_pending m (num fd)
     else mret tt);;
    mret seq) Hs Hh Hrc Hsm Hn) as (d2 & Hrun & Ho2 & Hh2 & Hs2 & Hp2 & Hl2).
  cbv zeta in Hrun. rewrite Hrun. clear Hrun. fold q total in Hh2, Hs2 |- *.
  assert (hash_of m d2 = stamped T wait now cost total (q + 1) h) as Hof
    by (unfold hash_of; by rewrite Hh2).
  rewrite run_read, Hof. clear Hof.
  set (h2 := stamped _ _ _ _ _ _ h) in *.
  destruct (stamped_fields T wait now cost total (q + 1) h) as (_ & _ & Hcb & Hlt & _ & Hle).
  fold h2 in Hcb, Hlt, Hle.
  assert (∀ d', only m d2 d' → hashes d' !! m = Some h2 → streams d' !! m = streams d2 !! m →
    pending_tasks d' = pending_tasks d2 → leases d' !! m = leases d2 !! m →
    (lease_token h2 = None → is_Some (eligible d' !! m) ∨ is_Some (pending_flush d' !! m)) →
    shard_ok N j (n + 1) d' ∧ only m d d' ∧ tasks m d' = tasks m d ++ [mkTask q p cost] ∧
    handed m d' = handed m d ∧ lease m d' = lease m d) as Hend.
  { intros d' Ho Hhd' Hsd Hpd Hld Hidx.
    assert (only m d d') as Ho' by (by eapply only_trans, only_trans).
    assert (stream_of m d' = XADD q now p cost s) as Hst by (unfold stream_of; by rewrite Hsd, Hs2).
    split_and!; [|done|..].
    - eapply (shard_ok_put N j (n + 1) m d d' _ h2); [eapply shard_ok_mono; [done|lia]|done| | |].
      + split; [done|by rewrite Hsd|done|]. split; [|done]. by rewrite Hld, Hl2, Hls, Hle.
      + rewrite Hpd, Hp2, Hp1, Hcnt. cbn [XADD s_entries]. rewrite length_app. cbn. lia.
      + right. eauto.
    - unfold tasks at 1. by rewrite Hst, Htasks, Htk.
    - unfold handed at 1. by rewrite Hst, Hhd.
    - rewrite Hl. unfold lease, hash_of. by rewrite Hhd'. }
  destruct (uo_clock _ _ _ Hok) as [_ [fd Hfd]]. fold h2 in Hfd.
  case_bool_decide as Hfree; rewrite ?bind_assoc.
  - rewrite (run_need _ _ _ _ Hfd). case_goal; vk_run; eexists _, q; (split; [reflexivity|]);
      apply Hend; try done; try only_tac; intros _; [left|right]; look; by eexists.
  - rewrite run_ret. eexists _, q. split; [reflexivity|]. apply Hend; try done.
    intros Hnone. exfalso. apply Hfree. pose proof (uo_claim _ _ _ Hok) as Hc. fold h2 in Hc.
    rewrite Hnone in Hc. by destruct Hc.
Qed.

(** ** Claim *)

Lemma zmin_some l best x : zmin l best = Some x → x ∈ l ∨ best = Some x.
Proof.
  revert best. induction l as [|y l IH]; intros best; cbn [zmin]; [auto|].
  intros [Hx|Hx]%IH; [left; by right|].
  destruct best as [z|]; [case_in Hx|]; simplify_eq; auto; left; by constructor.
Qed.

Lemma zmin_none l best : zmin l best = None → l = [] ∧ best = None.
Proof.
  revert best. induction l as [|y l IH]; intros best; cbn [zmin]; [auto|].
  intros [_ Hx]%IH. destruct best; [case_in Hx|]; done.
Qed.

Lemma unit_of_index N j n m d :
  shard_ok N j n d →
  is_Some (eligible d !! m) ∨ is_Some (pending_flush d !! m) ∨ is_Some (leases d !! m) →
  ∃ s h, unit_at n m d s h.
Proof.
  intros Hd Hm. destruct (cell_cases n m d (sh_cells _ _ _ _ Hd m)) as [Hc|Hu]; [|done].
  injection Hc as _ _ H3 H4 H5. rewrite H3, H4, H5 in Hm. by destruct Hm as [[]|[[]|[]]].
Qed.

Lemma luaClaim_run N j n d worker tok leaseMs now :
  shard_ok N j n d →
  (eligible d = ∅ ∧ luaClaim worker tok leaseMs now d = (d, inr None)) ∨
  ∃ m d', luaClaim worker tok leaseMs now d = (d', inr (Some m)) ∧
    is_Some (eligible d !! m) ∧ tasks m d ≠ [] ∧ kept N j n m d d' (Some tok).
Proof.
  intros Hd. unfold luaClaim. setoid_rewrite run_read.
  destruct (zmin (map_to_list (eligible d)) None) as [[m sc]|] eqn:Hz.
  - right. apply zmin_some in Hz as [Hin|]; [|done]. apply elem_of_map_to_list in Hin.
    destruct (unit_of_index N j n m d Hd) as (s & h & Hu); [left; by rewrite Hin|].
    exists m. vk_run. rewrite (unit_at_hash _ _ _ _ _ Hu).
    eexists. split; [reflexivity|]. split; [by rewrite Hin|]. split.
    { unfold tasks, tasks_of. rewrite (unit_at_stream _ _ _ _ _ Hu). intros Hnil%fmap_nil_inv.
      by apply (uo_work _ _ _ (ua_ok _ _ _ _ _ Hu)). }
    eapply (kept_put _ _ _ _ _ _ s h (set_claim (Some worker) (Some tok) (Some leaseMs)
      (Some (num (num now + num leaseMs))) h)); try done.
    + only_tac.
    + look.
    + apply unit_claimed, Hu.
    + split; [look|done].
  - left. apply zmin_none in Hz as [Hz _]. apply map_to_list_empty_iff in Hz. by rewrite Hz.
Qed.

(** ** Reap *)

(** The reaper moves units between the indexes and takes leases away; the streams stay. *)
Record reaped (N j : nat) (n : Z) (d d' : shard) : Prop := {
  rp_ok : shard_ok N j n d';
  rp_streams : streams d' = streams d;
  rp_lease : ∀ m, lease m d' = lease m d ∨ lease m d' = None;
}.

Lemma reaped_refl N j n d : shard_ok N j n d → reaped N j n d d.
Proof. split; auto. Qed.

Lemma reaped_trans N j n d1 d2 d3 : reaped N j n d1 d2 → reaped N j n d2 d3 → reaped N j n d1 d3.
Proof.
  intros [H1 S1 L1] [H2 S2 L2]. split; [done|by rewrite S2|]. intros m.
  destruct (L2 m) as [-> | ->]; auto.
Qed.

Lemma kept_reaped N j n m d d' l :
  kept N j n m d d' l → streams d' = streams d → l = None ∨ l = lease m d → reaped N j n d d'.
Proof.
  intros [H1 H2 _ _ H4] Hs Hl. split; [done|done|]. intros m'.
  destruct (decide (m' = m)) as [->|Hne]; [rewrite H4; tauto|]. left. by apply (only_lease m).
Qed.

Lemma reap_expired_run N j n now ms d k :
  shard_ok N j n d → NoDup ms → (∀ m, m ∈ ms → is_Some (leases d !! m)) →
  ∃ d' r, reap_expired ms now k d = (d', inr r) ∧ reaped N j n d d'.
Proof.
  intros Hd Hnd. revert d k Hd. induction Hnd as [|m ms Hm _ IH]; intros d k Hd Hls.
  { eexists d, k. split; [done|]. by apply reaped_refl. }
  destruct (unit_of_index N j n m d Hd) as (s & h & Hu).
  { right. right. apply Hls. by constructor. }
  pose proof (ua_ok _ _ _ _ _ Hu) as Hok.
  cbn [reap_expired]. vk_run. rewrite (unit_at_hash _ _ _ _ _ Hu).
  match goal with |- context [reindex m ?a ?b ?c ?x ≫= ?f] =>
    match goal with |- context [(_ ≫= f) ?d0] =>
      destruct (reindex_run m a b c x d0) as (d1 & Hr & Ho & Hh & Hs & Hl & Hp & _ & Hplace) end end.
  rewrite (bind_inr _ _ _ _ _ Hr).
  assert (only m d d1) as Ho1 by (eapply only_trans; [|exact Ho]; only_tac).
  assert (kept N j n m d d1 None) as Hk.
  { eapply (kept_put _ _ _ _ _ _ s h (unclaim h)); try done.
    - rewrite Hh. look.
    - by rewrite Hs.
    - by apply unit_unclaimed.
    - split; [rewrite Hl; look|]. by intros _. }
  assert (reaped N j n d d1) as Hrp by (eapply kept_reaped; [exact Hk|by rewrite Hs|by left]).
  destruct (IH d1 (k + 1)%Z) as (d' & r & Hrun & Hrp').
  - apply Hk.
  - intros m' Hm'. assert (m' ≠ m) as Hne by (by intros ->).
    assert (leases d1 !! m' = leases d !! m') as -> by apply (f_equal c_ls (Ho1 m' Hne)).
    apply Hls. by constructor.
  - exists d', r. split; [done|]. by eapply reaped_trans.
Qed.

Lemma reap_due_run N j n ms d k :
  shard_ok N j n d → NoDup ms → (∀ m, m ∈ ms → is_Some (pending_flush d !! m)) →
  ∃ d' r, reap_due ms k d = (d', inr r) ∧ reaped N j n d d'.
Proof.
  intros Hd Hnd. revert d k Hd. induction Hnd as [|m ms Hm _ IH]; intros d k Hd Hpf.
  { eexists d, k. split; [done|]. by apply reaped_refl. }
  destruct (Hpf m ltac:(by constructor)) as [sc Hsc].
  destruct (unit_of_index N j n m d Hd) as (s & h & Hu); [right; left; by rewrite Hsc|].
  cbn [reap_due]. rewrite run_read, (run_need _ _ _ _ Hsc). vk_run.
  set (d1 := set_eligible _ _). assert (only m d d1) as Ho1 by only_tac.
  assert (kept N j n m d d1 (lease_token h)) as Hk.
  { eapply (kept_put _ _ _ _ _ _ s h h); try done.
    - apply Hu.
    - apply Hu.
    - split; [apply Hu|]. intros _. left. subst d1. look. by eexists. }
  assert (reaped N j n d d1) as Hrp.
  { eapply kept_reaped; [exact Hk|done|]. right. unfold lease.
    by rewrite (unit_at_hash _ _ _ _ _ Hu). }
  destruct (IH d1 (k + 1)%Z) as (d' & r & Hrun & Hrp').
  - apply Hk.
  - intros m' Hm'. assert (m' ≠ m) as Hne by (by intros ->).
    assert (pending_flush d1 !! m' = pending_flush d !! m') as ->
      by apply (f_equal c_pf (Ho1 m' Hne)).
    apply Hpf. by constructor.
  - exists d', r. split; [done|]. by eapply reaped_trans.
Qed.

Lemma ZRANGE_members (z : gmap string Z) hi :
  NoDup (ZRANGEBYSCORE z hi) ∧ ∀ m, m ∈ ZRANGEBYSCORE z hi → is_Some (z !! m).
Proof.
  unfold ZRANGEBYSCORE. split.
  - rewrite merge_sort_Permutation. assert (∀ l : list (string * Z), NoDup l.*1 → NoDup (filter (λ x, (0 <= x.2 <= hi)%Z) l).*1) as Hf.
    { induction l as [|x l IH]; [done|]. rewrite fmap_cons, NoDup_cons, filter_cons.
      intros [Hx Hl]. case_decide; [|auto]. rewrite fmap_cons, NoDup_cons. split; [|auto].
      intros (y & Hy & [_ Hin]%list_elem_of_filter)%list_elem_of_fmap. apply Hx. rewrite Hy.
      by apply list_elem_of_fmap_2. }
    apply Hf, NoDup_fst_map_to_list.
  - intros m ([m' sc] & -> & Hin)%list_elem_of_fmap. rewrite merge_sort_Permutation in Hin.
    apply list_elem_of_filter in Hin as [_ Hin]. apply elem_of_map_to_list in Hin. cbn. by rewrite Hin.
Qed.

Lemma luaReap_run N j n now d :
  shard_ok N j n d →
  ∃ d' r, luaReap now d = (d', inr r) ∧ reaped N j n d d'.
Proof.
  intros Hd. unfold luaReap. rewrite run_read.
  destruct (ZRANGE_members (leases d) (num now)) as [H1 H2].
  destruct (reap_expired_run N j n (num now) _ d 0 Hd H1 H2) as (d1 & r1 & Hr1 & Hp1).
  rewrite (bind_inr _ _ _ _ _ Hr1), run_read.
  destruct (ZRANGE_members (pending_flush d1) (num now)) as [H3 H4].
  destruct (reap_due_run N j n _ d1 0 (rp_ok _ _ _ _ _ Hp1) H3 H4) as (d2 & r2 & Hr2 & Hp2).
  rewrite (bind_inr _ _ _ _ _ Hr2). eexists _, _. split; [reflexivity|]. by eapply reaped_trans.
Qed.

(** ** Keys *)

Lemma cut_bar_app a b :
  has_char "|" a = false → cut_bar (a +:+ String "|" b) = (a, Some b).
Proof.
  induction a as [|c a IH]; [done|]. intros Ha. cbn [has_char] in Ha.
  change (String c a +:+ String "|" b) with (String c (a +:+ String "|" b)).
  apply orb_false_iff in Ha as [Hc Ha]. cbn [cut_bar]. rewrite IH by done.
  by destruct c as [[] [] [] [] [] [] [] []].
Qed.

Lemma cut_bar_none a : has_char "|" a = false → cut_bar a = (a, None).
Proof.
  induction a as [|c a IH]; [done|]. intros Ha. cbn [has_char] in Ha.
  apply orb_false_iff in Ha as [Hc Ha]. cbn [cut_bar]. rewrite IH by done.
  by destruct c as [[] [] [] [] [] [] [] []].
Qed.

Lemma plain_key_true k :
  has_char "|" (Workspace k) = false → has_char "|" (Session k) = false → plain_key k = true.
Proof. unfold plain_key. by intros -> ->. Qed.

Lemma splitMember_plain k : plain_key k = true → splitMember (member k) = k.
Proof.
  unfold plain_key. rewrite andb_true_iff, !negb_true_iff. intros [Hw Hs].
  destruct k as [ws s p]. unfold splitMember, member. cbn [Workspace Session Peer] in *.
  change (ws +:+ "|" +:+ s +:+ "|" +:+ p) with (ws +:+ String "|" (s +:+ String "|" p)).
  by rewrite !cut_bar_app.
Qed.

Lemma member_inj k k' :
  plain_key k = true → plain_key k' = true → member k' = member k → k' = k.
Proof.
  intros Hk Hk' Hm. by rewrite <- (splitMember_plain k), <- (splitMember_plain k'), Hm.
Qed.

Lemma member_nonempty k : member k ≠ "".
Proof. unfold member. by destruct (Workspace k). Qed.

(** ** Handles *)

(** The unit's hash names the handle's token. *)
Definition accepts_shard (d : shard) (c : ClaimedUnit) : bool :=
  bool_decide (lease_token (hash_of (member (cu_Key c)) d) = Some (cu_Lease c)).

Definition accepts (b : Backend) (c : ClaimedUnit) : bool :=
  match shards b !! route b (cu_Key c) with Some d => accepts_shard d c | None => false end.
