(* ===== verification/ValkeyContract.v ===== *)
(** ValkeyContract: the scripts lifted to the sharded driver.  Whatever is lost on the
    network and whatever handles are used, the keys of every primary stay well-formed; on a
    network that answers, for keys without bars in workspace and session and costs the
    scripts add exactly, the driver meets the [Contract] (but not the [Strict] one). *)
From S2P Require Import Prelude Queue Contract Routing Valkey ValkeyFacts.

(** ** The abstract view *)

Definition unit_tasks (b : Backend) (k : WorkUnitKey) : list Task :=
  match shards b !! route b k with Some d => tasks (member k) d | None => [] end.

Definition unit_handed (b : Backend) (k : WorkUnitKey) : nat :=
  match shards b !! route b k with Some d => handed (member k) d | None => 0 end.

#[export] Instance vk_View : View Backend := {|
  pending b k := if plain_key k then unit_tasks b k else [];
  holds b c := plain_key (cu_Key c) && accepts b c;
|}.

Lemma accepts_lease b c d :
  shards b !! route b (cu_Key c) = Some d →
  accepts b c = bool_decide (lease (member (cu_Key c)) d = Some (cu_Lease c)).
Proof. unfold accepts. by intros ->. Qed.

(** *** One primary changes *)

Section one_shard.
Context (b : Backend) (j : nat) (d d' : shard) (Hj : shards b !! j = Some d).

Lemma vk_shards_same : shards (set_shard j d' b) !! j = Some d'.
Proof. cbn. apply list_lookup_insert_eq. by eapply lookup_lt_Some. Qed.

Lemma vk_route_set k : route (set_shard j d' b) k = route b k.
Proof. unfold route. cbn. by rewrite length_insert. Qed.

(** the unit of [K], and the others *)
Section touched.
Context (K : WorkUnitKey) (HK : plain_key K = true) (Hr : route b K = j).
Context (Ho : only (member K) d d').

Lemma other_member k : plain_key k = true → k ≠ K → member k ≠ member K.
Proof. intros Hk Hne Hm. apply Hne. by apply member_inj. Qed.

Lemma touched_pending k : k ≠ K → pending (set_shard j d' b) k = pending b k.
Proof.
  intros Hne. cbn [pending vk_View]. destruct (plain_key k) eqn:Hk; [|done].
  unfold unit_tasks. rewrite vk_route_set. destruct (decide (route b k = j)) as [Heq|Hne'].
  - rewrite Heq, vk_shards_same, Hj. apply (only_tasks (member K)); [done|by apply other_member].
  - cbn. by rewrite list_lookup_insert_ne by done.
Qed.

Lemma touched_holds c : cu_Key c ≠ K → holds (set_shard j d' b) c = holds b c.
Proof.
  intros Hne. cbn [holds vk_View]. destruct (plain_key (cu_Key c)) eqn:Hk; [|done]. cbn [andb].
  unfold accepts. rewrite vk_route_set. destruct (decide (route b (cu_Key c) = j)) as [Heq|Hne'].
  - rewrite Heq, vk_shards_same, Hj. unfold accepts_shard.
    fold (lease (member (cu_Key c)) d') (lease (member (cu_Key c)) d).
    by rewrite (only_lease (member K) d d' _ Ho) by by apply other_member.
  - cbn. by rewrite list_lookup_insert_ne by done.
Qed.

Lemma touched_handed k : plain_key k = true → k ≠ K →
  unit_handed (set_shard j d' b) k = unit_handed b k.
Proof.
  intros Hk Hne. unfold unit_handed. rewrite vk_route_set.
  destruct (decide (route b k = j)) as [Heq|Hne'].
  - rewrite Heq, vk_shards_same, Hj. apply (only_handed (member K)); [done|by apply other_member].
  - cbn. by rewrite list_lookup_insert_ne by done.
Qed.

Lemma own_pending : pending (set_shard j d' b) K = tasks (member K) d'.
Proof.
  cbn [pending vk_View]. unfold unit_tasks. by rewrite HK, vk_route_set, Hr, vk_shards_same.
Qed.

Lemma own_handed : unit_handed (set_shard j d' b) K = handed (member K) d'.
Proof. unfold unit_handed. by rewrite vk_route_set, Hr, vk_shards_same. Qed.

Lemma own_holds c : cu_Key c = K →
  holds (set_shard j d' b) c = bool_decide (lease (member K) d' = Some (cu_Lease c)).
Proof.
  intros Hc. cbn [holds vk_View]. rewrite Hc, HK. cbn [andb]. rewrite (accepts_lease _ _ d').
  - by rewrite Hc.
  - by rewrite Hc, vk_route_set, Hr, vk_shards_same.
Qed.
End touched.

Lemma at_pending K : plain_key K = true → route b K = j → pending b K = tasks (member K) d.
Proof. intros HK Hr. cbn [pending vk_View]. unfold unit_tasks. by rewrite HK, Hr, Hj. Qed.

Lemma at_handed K : route b K = j → unit_handed b K = handed (member K) d.
Proof. intros Hr. unfold unit_handed. by rewrite Hr, Hj. Qed.

Lemma at_holds c : plain_key (cu_Key c) = true → route b (cu_Key c) = j →
  holds b c = bool_decide (lease (member (cu_Key c)) d = Some (cu_Lease c)).
Proof.
  intros HK Hr. cbn [holds vk_View]. rewrite HK. cbn [andb]. apply accepts_lease. by rewrite Hr.
Qed.

(** a unit whose lease is as before, or gone, or new *)
Lemma touched_frame h K :
  plain_key K = true → route b K = j → only (member K) d d' →
  (lease (member K) d' = lease (member K) d ∨ lease (member K) d' = None ∨
   ∃ t, lease (member K) d' = Some t ∧ t ∉ h) →
  frame h K b (set_shard j d' b).
Proof.
  intros HK Hr Ho Hl. split_and!.
  - intros k Hne. by apply (touched_pending K).
  - intros c _ Hne. by apply (touched_holds K).
  - intros c Hc Hh. destruct (decide (cu_Key c = K)) as [Heq|Hne].
    + rewrite (own_holds K) in Hh by done. rewrite at_holds by by rewrite Heq.
      apply bool_decide_eq_true in Hh. rewrite Heq.
      destruct Hl as [<-|[Hl|(t & Hl & Ht)]]; [by apply bool_decide_true|congruence|].
      rewrite Hl in Hh. injection Hh as ->. by destruct Ht.
    + by rewrite (touched_holds K) in Hh.
Qed.

(** a unit that keeps its tasks and its lease *)
Lemma touched_same h K :
  plain_key K = true → route b K = j → only (member K) d d' →
  tasks (member K) d' = tasks (member K) d → lease (member K) d' = lease (member K) d →
  same_view h b (set_shard j d' b).
Proof.
  intros HK Hr Ho Ht Hl. split.
  - intros k. destruct (decide (k = K)) as [->|Hne]; [|by apply (touched_pending K)].
    by rewrite own_pending, at_pending, Ht.
  - intros c _. destruct (decide (cu_Key c = K)) as [Heq|Hne]; [|by apply (touched_holds K)].
    rewrite (own_holds K), at_holds by by rewrite ?Heq. by rewrite Hl, Heq.
Qed.

(** only one unit's count of delivered tasks changes, and grows *)
Lemma handed_le m :
  only m d d' → handed m d ≤ handed m d' →
  ∀ k, unit_handed b k ≤ unit_handed (set_shard j d' b) k.
Proof.
  intros Ho Hm k. unfold unit_handed. rewrite vk_route_set.
  destruct (decide (route b k = j)) as [->|Hne].
  - rewrite vk_shards_same, Hj. destruct (decide (member k = m)) as [->|Hne]; [done|].
    by rewrite (only_handed m d d').
  - cbn. by rewrite list_lookup_insert_ne by done.
Qed.
End one_shard.

(** ** The invariant of the driver *)

(** [issued_ok b h]: the tokens issued are those of the claims counted so far *)
Definition issued_ok (b : Backend) (h : gset LeaseToken) : Prop :=
  ∀ t, t ∈ h → ∃ i w, t = claim_token i w ∧ (1 <= i <= tokens b)%Z.

Record vk_ok (n : Z) (h : gset LeaseToken) (b : Backend) : Prop := {
  vo_len : 0 < length (shards b) ∧ (length (shards b) < 2 ^ 32)%Z;
  vo_n : (0 <= n <= vk_capacity)%Z;
  vo_shard : ∀ j d, shards b !! j = Some d → shard_ok (length (shards b)) j n d;
  vo_tokens : (0 <= tokens b <= n)%Z;
  vo_issued : issued_ok b h;
  vo_rr : (0 <= rr b <= n)%Z;
}.

Lemma vk_ok_mono n n' h b : vk_ok n h b → (n <= n' <= vk_capacity)%Z → vk_ok n' h b.
Proof.
  intros [? ? Hs ? ? ?] Hn. split; try done; try lia.
  intros j d Hj. eapply shard_ok_mono; [by apply Hs|lia].
Qed.

Lemma vk_put n h b j d d' :
  vk_ok n h b → shards b !! j = Some d → shard_ok (length (shards b)) j n d' →
  vk_ok n h (set_shard j d' b).
Proof.
  intros [? ? Hs ? ? ?] Hj Hd'. split; cbn; rewrite ?length_insert; try done.
  intros j' d0 Hj'. destruct (decide (j' = j)) as [->|Hne].
  - rewrite list_lookup_insert_eq in Hj' by by eapply lookup_lt_Some. by injection Hj' as <-.
  - rewrite list_lookup_insert_ne in Hj' by done. by apply Hs.
Qed.

Lemma vk_shard n h b k : vk_ok n h b → ∃ d, shards b !! route b k = Some d.
Proof.
  intros Hb. apply lookup_lt_is_Some_2, shard_index_lt; apply (vo_len _ _ _ Hb).
Qed.

Lemma send_quiet e i {A} (p : script A) d d' a :
  quiet e → p d = (d', inr a) → send e i p d = (d', Ok a).
Proof. intros Hq Hp. unfold send. by rewrite (Hq i), Hp. Qed.

Lemma send_quiet_err e i {A} (p : script A) d d' msg :
  quiet e → p d = (d', inl msg) → send e i p d = (d', Err (ErrDriver msg)).
Proof. intros Hq Hp. unfold send. by rewrite (Hq i), Hp. Qed.

Lemma on_shard_run {A} j (f : shard → shard * res A) b d d' r :
  shards b !! j = Some d → f d = (d', r) → on_shard j f b = (set_shard j d' b, r).
Proof. intros Hj Hf. unfold on_shard. by rewrite Hj, Hf. Qed.

Lemma pending_tasks_consecutive n h b k : vk_ok n h b → ∃ x, consecutive x (pending b k).
Proof.
  intros Hb. destruct (vk_shard n h b k Hb) as [d Hd]. cbn [pending vk_View]. unfold unit_tasks.
  rewrite Hd. destruct (plain_key k); [|by exists 0%Z].
  destruct (cell_cases n (member k) d (sh_cells _ _ _ _ (vo_shard _ _ _ Hb _ _ Hd) _)) as [Hc|(s & h' & Hu)].
  - exists 0%Z. unfold tasks, stream_of. injection Hc as _ Hs _ _ _. by rewrite Hs.
  - destruct (uo_seqs _ _ _ (ua_ok _ _ _ _ _ Hu)) as (x & _ & Hx & _). exists x.
    unfold tasks. by rewrite (unit_at_stream _ _ _ _ _ Hu).
Qed.

(** ** The laws *)

Section laws.
Context (n : Z) (h : gset LeaseToken) (b : Backend) (e : Env).
Context (Hb : vk_ok n h b) (He : quiet e).

Lemma vk_enqueue k p cost :
  (n < vk_capacity)%Z → plain_key k = true → small_cost cost →
  ∃ b' q, Enqueue e k p cost b = (b', Ok q) ∧ vk_ok (n + 1) h b' ∧ frame h k b b' ∧
    (∀ c, holds b' c = holds b c) ∧ (∀ k, unit_handed b k ≤ unit_handed b' k) ∧
    pending b' k = pending b k ++ [mkTask q p cost].
Proof.
  intros Hn Hk Hc. destruct (vk_shard n h b k Hb) as [d Hd]. set (j := route b k) in *.
  destruct (luaEnqueue_run _ j n (member k) d k p cost (defT b) (Milliseconds (defWait b)) (nowMs e 0)
    (vo_shard _ _ _ Hb _ _ Hd) ltac:(pose proof (vo_n _ _ _ Hb); lia) Hc Hk eq_refl eq_refl)
    as (d' & q & Hrun & Hok & Ho & Ht & Hhd & Hl).
  exists (set_shard j d' b), q. split.
  { unfold Enqueue. eapply on_shard_run; [exact Hd|]. by apply send_quiet. }
  split_and!.
  - eapply vk_put; [eapply vk_ok_mono; [done|lia]|exact Hd|exact Hok].
  - apply (touched_frame b j d d' Hd h k Hk eq_refl Ho). by left.
  - intros c. destruct (decide (cu_Key c = k)) as [Heq|Hne].
    + rewrite (own_holds b j d d' Hd k Hk eq_refl c Heq), (at_holds b j d Hd) by by rewrite Heq.
      by rewrite Hl, Heq.
    + by apply (touched_holds b j d d' Hd k Hk Ho).
  - apply (handed_le b j d d' Hd (member k)); [done|by rewrite Hhd].
  - by rewrite (own_pending b j d d' Hd), (at_pending b j d Hd), Ht.
Qed.

Section handle.
Context (c : ClaimedUnit) (Hk : plain_key (cu_Key c) = true).

Lemma own_shard : ∃ d, shards b !! route b (cu_Key c) = Some d ∧
  shard_ok (length (shards b)) (route b (cu_Key c)) n d ∧
  holds b c = bool_decide (lease (member (cu_Key c)) d = Some (cu_Lease c)).
Proof.
  destruct (vk_shard n h b (cu_Key c) Hb) as [d Hd]. exists d. split; [done|].
  split; [by apply (vo_shard _ _ _ Hb)|by apply (at_holds b _ d Hd)].
Qed.

Lemma scripted_run {A} (p : script A) d d' a :
  shards b !! route b (cu_Key c) = Some d → p d = (d', inr a) →
  scripted e c p b = (set_shard (route b (cu_Key c)) d' b, Ok a).
Proof.
  intros Hd Hp. unfold scripted.
  rewrite (on_shard_run _ _ _ d d' (Ok a)); [done|done|by apply send_quiet].
Qed.

Lemma scripted_err {A} (p : script A) d msg :
  shards b !! route b (cu_Key c) = Some d → p d = (d, inl msg) →
  scripted e c p b = (b, leaseLost (Err (ErrDriver msg))).
Proof.
  intros Hd Hp. unfold scripted.
  rewrite (on_shard_run _ _ _ d d (Err (ErrDriver msg))); [|done|by apply send_quiet_err].
  unfold set_shard. rewrite list_insert_id by done. by destruct b.
Qed.

(** a script of a holder, run with a handle that is not accepted *)
Lemma scripted_lost {A} (k : () → script A) :
  holds b c = false →
  scripted e c (check_token (member (cu_Key c)) (cu_Lease c) ≫= k) b = (b, Err ErrLeaseLost).
Proof.
  intros Hh. destruct own_shard as (d & Hd & _ & Heq). rewrite Hh in Heq.
  symmetry in Heq. apply bool_decide_eq_false in Heq.
  by rewrite (scripted_err _ d "LEASELOST") by (done || by apply check_lost).
Qed.

(** the unit's primary after a script that took nothing from the unit *)
Lemma kept_law d d' l :
  shards b !! route b (cu_Key c) = Some d →
  kept (length (shards b)) (route b (cu_Key c)) n (member (cu_Key c)) d d' l →
  l = lease (member (cu_Key c)) d ∨ l = None →
  let b' := set_shard (route b (cu_Key c)) d' b in
  vk_ok n h b' ∧ frame h (cu_Key c) b b' ∧ (∀ k, unit_handed b k ≤ unit_handed b' k) ∧
  pending b' (cu_Key c) = pending b (cu_Key c) ∧
  holds b' c = bool_decide (l = Some (cu_Lease c)) ∧
  (l = lease (member (cu_Key c)) d → same_view h b b').
Proof.
  intros Hd [Hok Ho Ht Hhd Hl] Hcase b'. split_and!.
  - by eapply vk_put.
  - apply (touched_frame b _ d d' Hd h _ Hk eq_refl Ho). rewrite Hl. tauto.
  - apply (handed_le b _ d d' Hd (member (cu_Key c))); [done|by rewrite Hhd].
  - by rewrite (own_pending b _ d d' Hd), (at_pending b _ d Hd), Ht.
  - by rewrite (own_holds b _ d d' Hd (cu_Key c)), Hl.
  - intros ->. by apply (touched_same b _ d d' Hd h (cu_Key c)).
Qed.

Lemma vk_heartbeat x :
  let r := Heartbeat e c x b in
  vk_ok n h r.1 ∧ same_view h b r.1 ∧ (∀ k, unit_handed b k ≤ unit_handed r.1 k) ∧
  r.2 = if holds b c then Ok tt else Err ErrLeaseLost.
Proof.
  intros r. subst r. unfold Heartbeat. destruct (holds b c) eqn:Hh.
  - destruct own_shard as (d & Hd & Hok & Heq). rewrite Hh in Heq.
    symmetry in Heq. apply bool_decide_eq_true in Heq.
    destruct (luaHeartbeat_held _ _ n d _ _ Hok (Milliseconds x) (nowMs e 0) Heq) as (d' & Hrun & Hkept).
    rewrite (scripted_run _ d d' tt) by done.
    destruct (kept_law d d' _ Hd Hkept) as (H1 & H2 & H3 & _ & _ & H6); [left; by rewrite Heq|].
    split; [done|]. split; [apply H6; by rewrite Heq|done].
  - unfold luaHeartbeat. by rewrite scripted_lost.
Qed.

Lemma vk_release :
  let r := Release e c b in
  vk_ok n h r.1 ∧ (∀ k, unit_handed b k ≤ unit_handed r.1 k) ∧
  if holds b c then
    frame h (cu_Key c) b r.1 ∧ pending r.1 (cu_Key c) = pending b (cu_Key c) ∧
    holds r.1 c = false ∧ r.2 = Ok tt
  else same_view h b r.1 ∧ r.2 = Err ErrLeaseLost.
Proof.
  intros r. subst r. unfold Release. destruct (holds b c) eqn:Hh.
  - destruct own_shard as (d & Hd & Hok & Heq). rewrite Hh in Heq.
    symmetry in Heq. apply bool_decide_eq_true in Heq.
    destruct (luaRelease_held _ _ n d _ _ Hok (nowMs e 0) Heq) as (d' & Hrun & Hkept).
    rewrite (scripted_run _ d d' tt) by done.
    destruct (kept_law d d' _ Hd Hkept) as (H1 & H2 & H3 & H4 & H5 & _); [by right|].
    by split_and!.
  - unfold luaRelease. by rewrite scripted_lost.
Qed.

Lemma vk_drain max :
  (0 < max)%Z →
  let r := Drain e c max b in
  vk_ok n h r.1 ∧ same_view h b r.1 ∧ (∀ k, unit_handed b k ≤ unit_handed r.1 k) ∧
  r.2 = (if holds b c then Ok (take (Z.to_nat max) (pending b (cu_Key c))) else Err ErrLeaseLost) ∧
  (holds b c = true →
   Nat.min (Z.to_nat max) (length (pending b (cu_Key c))) ≤ unit_handed r.1 (cu_Key c)).
Proof.
  intros Hmax r. destruct own_shard as (d & Hd & Hok & Heq).
  pose proof (drain_shard_drained _ _ n e (member (cu_Key c)) (cu_Lease c) max d Hok)
    as [Hok' Ho Ht Hle Hl].
  assert (r = (set_shard (route b (cu_Key c)) (drain_shard e (member (cu_Key c)) (cu_Lease c) max d).1 b,
    (drain_shard e (member (cu_Key c)) (cu_Lease c) max d).2)) as Hr.
  { unfold r, Drain. eapply on_shard_run; [exact Hd|apply surjective_pairing]. }
  rewrite Hr. cbn [fst snd]. clear r Hr.
  split; [|split; [|split; [|split]]].
  - by eapply vk_put.
  - by apply (touched_same b _ d _ Hd h (cu_Key c)).
  - by apply (handed_le b _ d _ Hd (member (cu_Key c))).
  - rewrite Heq. case_bool_decide as Hlease.
    + destruct (drain_shard_held _ _ n e _ _ max d Hok Hlease He Hmax) as (d' & Hrun & _).
      rewrite Hrun. cbn [snd]. by rewrite (at_pending b _ d Hd).
    + unfold drain_shard, send. rewrite (He 0). unfold read.
      change (lease_token (hash_of (member (cu_Key c)) d)) with (lease (member (cu_Key c)) d).
      destruct (lease _ d) as [t|]; [|done]. by rewrite bool_decide_false by congruence.
  - rewrite Heq. intros Hlease%bool_decide_eq_true.
    destruct (drain_shard_held _ _ n e _ _ max d Hok Hlease He Hmax) as (d' & Hrun & Hmin).
    rewrite Hrun in *. cbn [fst] in *. rewrite (at_pending b _ d Hd) by done.
    by rewrite (own_handed b _ d d' Hd).
Qed.

Lemma vk_ack q :
  let r := Ack e c q b in
  vk_ok n h r.1 ∧ (∀ k, k ≠ cu_Key c → unit_handed b k ≤ unit_handed r.1 k ∨ plain_key k = false) ∧
  if holds b c then
    frame h (cu_Key c) b r.1 ∧
    pending b (cu_Key c) =
      take_while (through q) (take (unit_handed b (cu_Key c)) (pending b (cu_Key c)))
        ++ pending r.1 (cu_Key c) ∧
    r.2 = Ok (holds r.1 c)
  else r = (b, Err ErrLeaseLost).
Proof.
  intros r. subst r. unfold Ack. destruct (holds b c) eqn:Hh.
  - destruct own_shard as (d & Hd & Hok & Heq). rewrite Hh in Heq.
    symmetry in Heq. apply bool_decide_eq_true in Heq.
    destruct (luaAck_held _ _ n d _ _ Hok (proj2 (vo_n _ _ _ Hb)) q (nowMs e 0) Heq)
      as (d' & r & Hrun & Ho & Hok' & Ht & Hl).
    rewrite (scripted_run _ d d' r) by done. cbn [fst snd].
    split; [|split; [|split; [|split]]].
    + by eapply vk_put.
    + intros k Hne. destruct (plain_key k) eqn:Hpk; [left|by right].
      by rewrite (touched_handed b _ d d' Hd (cu_Key c)).
    + apply (touched_frame b _ d d' Hd h _ Hk eq_refl Ho). rewrite Hl, Heq. destruct r; auto.
    + rewrite (own_pending b _ d d' Hd), (at_pending b _ d Hd), (at_handed b _ d Hd) by done.
      exact Ht.
    + rewrite (own_holds b _ d d' Hd (cu_Key c)), Hl by done. f_equal. destruct r;
        [by rewrite bool_decide_true|by rewrite bool_decide_false].
  - unfold luaAck. rewrite scripted_lost by done. split; [done|]. split; [by left|done].
Qed.

Lemma vk_fail q reason :
  let r := Fail e c q reason b in
  vk_ok n h r.1 ∧
  if holds b c then
    (frame h (cu_Key c) b r.1 ∧ holds r.1 c = false ∧ r.2 = Ok tt ∧
     (pending r.1 (cu_Key c) = pending b (cu_Key c) ∨
      ∃ t ts, pending b (cu_Key c) = t :: ts ∧ Seq t = q ∧ pending r.1 (cu_Key c) = ts)) ∨
    (same_view h b r.1 ∧ ∃ msg, r.2 = Err (ErrDriver msg))
  else r = (b, Err ErrLeaseLost).
Proof.
  intros r. subst r. unfold Fail. destruct (holds b c) eqn:Hh.
  - destruct own_shard as (d & Hd & Hok & Heq). rewrite Hh in Heq.
    symmetry in Heq. apply bool_decide_eq_true in Heq.
    destruct (luaFail_held _ _ n d _ _ Hok (proj2 (vo_n _ _ _ Hb)) q reason (nowMs e 0) (maxTries b) Heq)
      as [Hrun|(d' & Hrun & Ho & Hok' & Ht & Hl)].
    + rewrite (scripted_err _ d _ Hd Hrun). split; [done|right]. split; [apply same_view_refl|].
      by eexists.
    + rewrite (scripted_run _ d d' tt) by done. cbn [fst snd]. split; [by eapply vk_put|left].
      split; [|split; [|split]].
      * apply (touched_frame b _ d d' Hd h _ Hk eq_refl Ho). rewrite Hl. auto.
      * by rewrite (own_holds b _ d d' Hd (cu_Key c)), Hl.
      * done.
      * rewrite (own_pending b _ d d' Hd), (at_pending b _ d Hd) by done.
        destruct Ht as [[Ht _]|(t & ts & H1 & H2 & H3 & _)]; [by left|right]. by exists t, ts.
  - unfold luaFail. by rewrite scripted_lost.
Qed.
End handle.

Lemma vk_claim_turns worker tok x rr0 (todo i : nat) :
  tok = claim_token (tokens b) worker → (1 <= tokens b)%Z → tok ∉ h →
  (0 <= rr0)%Z → (rr0 + 1 + i + todo <= int64_max)%Z →
  match claim_turns e worker tok x rr0 todo i b with
  | (b', Ok (Some c)) =>
      cu_Worker c = worker ∧ plain_key (cu_Key c) = true ∧ cu_Lease c = tok ∧
      vk_ok n ({[tok]} ∪ h) b' ∧ (∀ k, pending b' k = pending b k) ∧
      (∀ k, unit_handed b k ≤ unit_handed b' k) ∧
      holds b' c = true ∧ pending b (cu_Key c) ≠ [] ∧ frame h (cu_Key c) b b'
  | (b', Ok None) => b' = b
  | _ => False
  end.
Proof.
  intros Htok Hpos Hfr H0. revert i. induction todo as [|todo IH]; intros i Hmax;
    cbn [claim_turns]; [done|].
  destruct (rotation_nonneg rr0 (length (shards b)) i) as [Hrot Hlt];
    [done|unfold int64_max in *; lia|apply (vo_len _ _ _ Hb)|].
  rewrite Hrot. set (j := Z.to_nat _) in *.
  destruct (lookup_lt_is_Some_2 _ _ Hlt) as [d Hd].
  pose proof (vo_shard _ _ _ Hb _ _ Hd) as Hok.
  destruct (luaClaim_run _ j n d worker tok (Milliseconds x) (nowMs e (Datatypes.S i)) Hok)
    as [[_ Hrun]|(m & d' & Hrun & _ & Hne & [Hok' Ho Ht Hhd Hl])].
  - rewrite (on_shard_run j _ b d d (Ok None)) by (done || by apply send_quiet).
    assert (set_shard j d b = b) as ->
      by (unfold set_shard; rewrite list_insert_id by done; by destruct b).
    apply IH. lia.
  - rewrite (on_shard_run j _ b d d' (Ok (Some m))) by (done || by apply send_quiet).
    destruct (sh_home _ _ _ _ Hok m) as (k & Hk & -> & Hr).
    { apply not_eq_None_Some. intros Hs. apply Hne. unfold tasks, stream_of. by rewrite Hs. }
    rewrite bool_decide_false by apply member_nonempty. cbn [cu_Worker cu_Key cu_Lease].
    rewrite (splitMember_plain k) by done. split; [done|]. split; [done|]. split; [done|].
    split; [|split; [|split; [|split; [|split]]]].
    + destruct (vk_put n h b j d d' Hb Hd Hok') as [? ? ? ? Hiss ?]. split; try done.
      intros t [->%elem_of_singleton|Hin]%elem_of_union; [|by apply Hiss].
      exists (tokens b), worker. cbn. split; [done|lia].
    + intros k'. destruct (decide (k' = k)) as [->|Hne']; [|by apply (touched_pending b j d d' Hd k)].
      by rewrite (own_pending b j d d' Hd), (at_pending b j d Hd), Ht.
    + apply (handed_le b j d d' Hd (member k)); [done|by rewrite Hhd].
    + rewrite (own_holds b j d d' Hd k) by done. cbn [cu_Lease]. rewrite Hl. by apply bool_decide_true.
    + by rewrite (at_pending b j d Hd).
    + apply (touched_frame b j d d' Hd h k Hk Hr Ho). right. right. by exists tok.
Qed.
End laws.

Lemma claim_token_fresh b h w :
  issued_ok b h → (0 <= tokens b)%Z → claim_token (tokens b + 1) w ∉ h.
Proof.
  intros Hi H0 Hin. destruct (Hi _ Hin) as (i & w' & Heq & Hi').
  apply (split_first_inj "-") in Heq as [Heq _]; [|apply pretty_no_dash; lia..].
  apply (inj pretty) in Heq. lia.
Qed.

(** a claim counts itself: the cursor and the token counter move on *)
Definition turned (b : Backend) : Backend :=
  mkBackend (shards b) (defT b) (defWait b) (maxTries b) (rr b + 1) (tokens b + 1).

Lemma vk_turned n h b :
  vk_ok n h b → (n < vk_capacity)%Z →
  vk_ok (n + 1) h (turned b) ∧ i64 (tokens b + 1) = (tokens b + 1)%Z ∧ rr_next (rr b) = (rr b + 1)%Z.
Proof.
  intros Hb Hn. pose proof (vo_tokens _ _ _ Hb) as Htk. pose proof (vo_rr _ _ _ Hb) as Hrr.
  split; [|split].
  - destruct (vk_ok_mono n (n + 1) h b Hb ltac:(lia)) as [? ? ? ? Hi ?]. split; try done; cbn; try lia.
    intros t Ht. destruct (Hi t Ht) as (i & w' & -> & ?). exists i, w'. split; [done|]. cbn. lia.
  - apply i64_id; unfold in_i64, int64_min, int64_max, vk_capacity in *; lia.
  - unfold rr_next; rewrite Z.mod_small; unfold vk_capacity in *; lia.
Qed.

Lemma vk_claim n h b e w x :
  vk_ok n h b → quiet e → (n < vk_capacity)%Z →
  let r := Claim e w x b in
  (∀ k, pending r.1 k = pending b k) ∧ (∀ k, unit_handed b k ≤ unit_handed r.1 k) ∧
  match r.2 with
  | Ok (Some c) =>
      cu_Worker c = w ∧ plain_key (cu_Key c) = true ∧ (cu_Lease c ∉ h) ∧
      vk_ok (n + 1) ({[cu_Lease c]} ∪ h) r.1 ∧ holds r.1 c = true ∧
      pending b (cu_Key c) ≠ [] ∧ frame h (cu_Key c) b r.1
  | Ok None => vk_ok (n + 1) h r.1 ∧ same_view h b r.1
  | _ => False
  end.
Proof.
  intros Hb He Hn r. subst r. unfold Claim.
  pose proof (vo_tokens _ _ _ Hb) as Htk. pose proof (vo_rr _ _ _ Hb) as Hrr.
  pose proof (vo_len _ _ _ Hb) as Hlen. destruct (vk_turned n h b Hb Hn) as (Hb1 & -> & ->).
  fold (turned b). set (b1 := turned b) in *.
  assert (claim_token (tokens b + 1) w ∉ h) as Hfr
    by (apply claim_token_fresh; [apply Hb|lia]).
  pose proof (vk_claim_turns (n + 1) h b1 e Hb1 He w _ x (rr b) (length (shards b)) 0 eq_refl
    ltac:(cbn; lia) Hfr ltac:(lia) ltac:(unfold vk_capacity, int64_max in *; lia)) as Ht.
  destruct (claim_turns _ _ _ _ _ _ _) as [b' [[c|]|err|]]; cbn [fst snd]; try done.
  - destruct Ht as (H1 & H2 & H3 & H4 & H5 & H6 & H7 & H8 & H9). rewrite H3. by split_and!.
  - subst b'. by split_and!.
Qed.

(** ** The reaper *)

Lemma vk_reaped n h b j d d' :
  vk_ok n h b → shards b !! j = Some d → reaped (length (shards b)) j n d d' →
  let b' := set_shard j d' b in
  vk_ok n h b' ∧ (∀ k, pending b' k = pending b k) ∧ no_revival h b b' ∧
  (∀ k, unit_handed b' k = unit_handed b k) ∧ length (shards b') = length (shards b).
Proof.
  intros Hb Hj [Hok Hs Hl] b'. subst b'.
  assert (∀ m, stream_of m d' = stream_of m d) as Hst by (intros m; unfold stream_of; by rewrite Hs).
  split_and!.
  - by eapply vk_put.
  - intros k. cbn [pending vk_View]. destruct (plain_key k); [|done]. unfold unit_tasks.
    rewrite vk_route_set. destruct (decide (route b k = j)) as [->|Hne].
    + rewrite (vk_shards_same b j d d' Hj), Hj. unfold tasks. by rewrite Hst.
    + cbn. by rewrite list_lookup_insert_ne by done.
  - intros c _. cbn [holds vk_View]. destruct (plain_key (cu_Key c)); [|done]. cbn [andb].
    unfold accepts. rewrite vk_route_set. destruct (decide (route b (cu_Key c) = j)) as [->|Hne].
    + rewrite (vk_shards_same b j d d' Hj), Hj. unfold accepts_shard.
      fold (lease (member (cu_Key c)) d') (lease (member (cu_Key c)) d).
      by destruct (Hl (member (cu_Key c))) as [->| ->].
    + cbn. by rewrite list_lookup_insert_ne by done.
  - intros k. unfold unit_handed. rewrite vk_route_set. destruct (decide (route b k = j)) as [->|Hne].
    + rewrite (vk_shards_same b j d d' Hj), Hj. unfold handed. by rewrite Hst.
    + cbn. by rewrite list_lookup_insert_ne by done.
  - cbn. by rewrite length_insert.
Qed.

Lemma vk_reap n h e now (todo j : nat) b r f :
  vk_ok n h b → quiet e → j + todo = length (shards b) →
  let b' := (reap_shards e now todo j b r f).1 in
  vk_ok n h b' ∧ (∀ k, pending b' k = pending b k) ∧ no_revival h b b' ∧
  (∀ k, unit_handed b' k = unit_handed b k) ∧ (reap_shards e now todo j b r f).2.2 = None.
Proof.
  intros Hb He. revert j b r f Hb. induction todo as [|todo IH]; intros j b r f Hb Hlen;
    cbn [reap_shards]; [split_and!; try done; by intros c _|].
  destruct (lookup_lt_is_Some_2 (shards b) j) as [d Hd]; [lia|].
  destruct (luaReap_run _ j n (UnixMilli now) d (vo_shard _ _ _ Hb _ _ Hd)) as (d' & [r1 f1] & Hrun & Hrp).
  rewrite (on_shard_run j _ b d d' (Ok (r1, f1))) by (done || by apply send_quiet).
  destruct (vk_reaped n h b j d d' Hb Hd Hrp) as (H1 & H2 & H3 & H4 & H5).
  destruct (IH (Datatypes.S j) _ (i64 (r + r1)) (i64 (f + f1)) H1) as (H6 & H7 & H8 & H9 & H10); [lia|].
  split_and!; [done|intros k; by rewrite H7|intros c Hc Hh; auto|intros k; by rewrite H9|done].
Qed.

(** ** The driver meets the contract *)

#[export] Instance Valkey_Contract : Contract Backend.
Proof.
  refine {| inv := vk_ok; env_ok := quiet; token_fresh := λ _ _, True; capacity := vk_capacity;
    key_ok := λ k, plain_key k = true; cost_ok := small_cost;
    delivered := λ b k, if plain_key k then unit_handed b k else 0 |}.
  - apply vk_ok_mono.
  - apply pending_tasks_consecutive.
  - intros n h s c c' Hs _ _ Hk H1 H2. cbn [holds vk_View] in *. unfold accepts, accepts_shard in *.
    rewrite Hk in H1. apply andb_true_iff in H1 as [_ H1]. apply andb_true_iff in H2 as [_ H2].
    destruct (shards s !! _); [|done]. b2p. congruence.
  - intros n h e k p c s s' r Hs Hn He Hk Hc Hr.
    destruct (vk_enqueue n h s e Hs He k p c Hn Hk Hc) as (b' & q & Heq & H1 & H2 & H3 & H4 & H5).
    cbn [be_Enqueue Valkey_Backend] in Hr. rewrite Heq in Hr. injection Hr as <- <-.
    split; [done|]. split; [done|]. split; [by intros c' _|]. split; [|done].
    intros k'. by case_goal.
  - intros n h e w x s s' r Hs Hn He _ _ Hr.
    pose proof (vk_claim n h s e w x Hs He Hn) as Hl.
    cbn [be_Claim Valkey_Backend] in Hr. rewrite Hr in Hl. destruct Hl as (H1 & H2 & H3).
    split; [done|]. split; [intros k'; by case_goal|]. by destruct r as [[c|]|err|].
  - intros n h e c max s s' r Hs He _ Hk Hm Hr.
    pose proof (vk_drain n h s e Hs He c Hk max Hm) as Hl.
    cbn [be_Drain Valkey_Backend] in Hr. rewrite Hr in Hl. destruct Hl as (H1 & H2 & H3 & H4 & H5).
    split; [done|]. split; [done|]. split; [intros k'; by case_goal|]. split; [done|]. by rewrite Hk.
  - intros n h e c q s s' r Hs He _ Hk Hr. pose proof (vk_ack n h s e Hs He c Hk q) as Hl.
    cbn [be_Ack Valkey_Backend] in Hr. rewrite Hr in Hl. destruct Hl as (H1 & H2 & H3).
    split; [done|]. split.
    { intros k' Hne. destruct (plain_key k') eqn:Hpk; [|done]. destruct (H2 k' Hne); [done|congruence]. }
    destruct (holds s c); [rewrite Hk; exact H3|]. injection H3 as -> ->.
    split; [apply same_view_refl|by split].
  - intros n h e c s s' r Hs He _ Hk Hr. pose proof (vk_release n h s e Hs He c Hk) as Hl.
    cbn [be_Release Valkey_Backend] in Hr. rewrite Hr in Hl. destruct Hl as (H1 & H2 & H3).
    split; [done|]. split; [intros k'; by case_goal|done].
  - intros n h e c x s s' r Hs He _ Hk Hr. pose proof (vk_heartbeat n h s e Hs He c Hk x) as Hl.
    cbn [be_Heartbeat Valkey_Backend] in Hr. rewrite Hr in Hl. destruct Hl as (H1 & H2 & H3 & H4).
    cbn [snd] in H4. subst r. split; [done|]. split; [done|]. split; [intros k'; by case_goal|].
    by destruct (holds s c).
  - intros n h e c q reason s s' r Hs He _ Hk Hr.
    pose proof (vk_fail n h s e Hs He c Hk q reason) as Hl.
    cbn [be_Fail Valkey_Backend] in Hr. rewrite Hr in Hl. destruct Hl as (H1 & H2).
    split; [done|]. destruct (holds s c); [done|]. by injection H2 as -> ->.
  - intros n h e now s s' r Hs He Hr.
    pose proof (vk_reap n h e now (length (shards s)) 0 s 0 0 Hs He eq_refl) as Hl.
    cbn [be_ReapExpired Valkey_Backend] in Hr. unfold ReapExpired in Hr.
    rewrite Hr in Hl. destruct Hl as (H1 & H2 & H3 & H4 & _). split_and!; try done.
    intros k. case_goal; [|done]. by rewrite H4.
Defined.

(** ** Any network, any handle *)

Definition keeps_shard (N j : nat) (n : Z) {A} (p : script A) : Prop :=
  ∀ d, shard_ok N j n d → shard_ok N j n (p d).1.

Definition all_ok (n : Z) (b : Backend) : Prop :=
  ∀ j d, shards b !! j = Some d → shard_ok (length (shards b)) j n d.

(** a script of a holder, by the cases of its handle *)
Ltac by_lease m tok d Hl :=
  destruct (decide (lease m d = Some tok)) as [Hl|Hl]; [|cbv beta delta
    [luaAck luaRelease luaHeartbeat luaFail]; by rewrite check_lost].

Section keeps.
Context (N j : nat) (n : Z) (Hn : (n <= vk_capacity)%Z).

Lemma keeps_ack m tok q now : keeps_shard N j n (luaAck m tok q now).
Proof.
  intros d Hd. by_lease m tok d Hl.
  by destruct (luaAck_held N j n d m tok Hd Hn q now Hl) as (d' & r & -> & _ & Hok & _).
Qed.

Lemma keeps_release m tok now : keeps_shard N j n (luaRelease m tok now).
Proof.
  intros d Hd. by_lease m tok d Hl.
  destruct (luaRelease_held N j n d m tok Hd now Hl) as (d' & -> & Hok). apply Hok.
Qed.

Lemma keeps_heartbeat m tok x now : keeps_shard N j n (luaHeartbeat m tok x now).
Proof.
  intros d Hd. by_lease m tok d Hl.
  destruct (luaHeartbeat_held N j n d m tok Hd x now Hl) as (d' & -> & Hok). apply Hok.
Qed.

Lemma keeps_fail m tok q reason now mx : keeps_shard N j n (luaFail m tok q reason now mx).
Proof.
  intros d Hd. by_lease m tok d Hl.
  by destruct (luaFail_held N j n d m tok Hd Hn q reason now mx Hl) as [->|(d' & -> & _ & Hok & _)].
Qed.

Lemma keeps_claim w tok x now : keeps_shard N j n (luaClaim w tok x now).
Proof.
  intros d Hd. destruct (luaClaim_run N j n d w tok x now Hd) as [[_ ->]|(m & d' & -> & _ & _ & Hok)];
    [done|apply Hok].
Qed.

Lemma keeps_reap now : keeps_shard N j n (luaReap now).
Proof.
  intros d Hd. destruct (luaReap_run N j n now d Hd) as (d' & r & -> & Hok). apply Hok.
Qed.
End keeps.

(** a function of one primary *)
Lemma all_ok_shard n n' {A} j (f : shard → shard * res A) b :
  all_ok n b → (n <= n')%Z →
  (∀ d, shard_ok (length (shards b)) j n d → shard_ok (length (shards b)) j n' (f d).1) →
  all_ok n' (on_shard j f b).1 ∧ length (shards (on_shard j f b).1) = length (shards b).
Proof.
  intros Hb Hn Hf. unfold on_shard. destruct (shards b !! j) as [d|] eqn:Hd.
  2:{ split; [|done]. intros j' d0 Hj'. eapply shard_ok_mono; [by apply Hb|done]. }
  pose proof (Hf d (Hb _ _ Hd)) as Hok. destruct (f d) as [d' r]. cbn [fst] in *. split.
  - intros j' d0 Hj'. cbn [set_shard shards] in *. rewrite length_insert in *.
    apply list_lookup_insert_Some in Hj' as [(-> & -> & _)|[_ Hj']]; [done|].
    eapply shard_ok_mono; [by apply Hb|done].
  - cbn. by rewrite length_insert.
Qed.

(** a round trip *)
Lemma all_ok_send n e i {A} j (p : script A) b :
  all_ok n b → keeps_shard (length (shards b)) j n p →
  all_ok n (on_shard j (send e i p) b).1 ∧
  length (shards (on_shard j (send e i p) b).1) = length (shards b).
Proof.
  intros Hb Hp. apply (all_ok_shard n); [done|lia|]. intros d Hd.
  destruct (send_state e i p d) as [-> | ->]; [done|by apply Hp].
Qed.

Lemma all_ok_scripted n e c {A} (p : script A) b :
  all_ok n b → keeps_shard (length (shards b)) (route b (cu_Key c)) n p →
  all_ok n (scripted e c p b).1 ∧ length (shards (scripted e c p b).1) = length (shards b).
Proof.
  intros Hb Hp. unfold scripted. pose proof (all_ok_send n e 0 _ p b Hb Hp) as H.
  by destruct (on_shard _ _ _).
Qed.

Lemma all_ok_turns n e w tok x rr0 (todo i : nat) b :
  all_ok n b → all_ok n (claim_turns e w tok x rr0 todo i b).1 ∧
  length (shards (claim_turns e w tok x rr0 todo i b).1) = length (shards b).
Proof.
  revert i b. induction todo as [|todo IH]; intros i b Hb; cbn [claim_turns]; [done|].
  destruct (rotation _ _ _) as [j|]; [|done].
  pose proof (all_ok_send n e i j _ b Hb
    (keeps_claim _ j n w tok (Milliseconds x) (nowMs e (Datatypes.S i)))) as [H1 H2].
  destruct (on_shard _ _ _) as [b1 [[m|]|err|]]; cbn [fst snd] in *; try done.
  - case_goal; [|done]. by destruct (IH (Datatypes.S i) b1 H1) as [? ->].
  - by destruct (IH (Datatypes.S i) b1 H1) as [? ->].
Qed.

Lemma all_ok_reap n e now (todo j : nat) b r f :
  all_ok n b → all_ok n (reap_shards e now todo j b r f).1.
Proof.
  revert j b r f. induction todo as [|todo IH]; intros j b r f Hb; cbn [reap_shards]; [done|].
  pose proof (all_ok_send n e j j _ b Hb (keeps_reap _ j n (UnixMilli now))) as [H1 _].
  destruct (on_shard _ _ _) as [b1 [[r1 f1]|err|]]; cbn [fst snd] in *; by try apply IH.
Qed.

Lemma shard_ok_empty N j n : shard_ok N j n empty_shard.
Proof.
  split; [|done|].
  - intros m. left. unfold cell_of. cbn. by rewrite !lookup_empty.
  - intros m Hm. cbn in Hm. rewrite lookup_empty in Hm. by destruct Hm.
Qed.

Lemma all_ok_reset n e (todo j : nat) b : all_ok n b → all_ok n (reset_shards e todo j b).1.
Proof.
  revert j b. induction todo as [|todo IH]; intros j b Hb; cbn [reset_shards]; [done|].
  destruct (all_ok_send n e j j (modify (λ _, empty_shard)) b Hb) as [H1 _];
    [intros d _; apply shard_ok_empty|].
  destruct (on_shard _ _ _) as [b1 [[]|err|]]; cbn [fst] in *; by try apply IH.
Qed.

(** One call, whatever the network does to it and whatever handle it is given; only the
    keys and costs enqueued are the driver's. *)
Inductive any_call : Z * Backend → Z * Backend → Prop :=
  | any_enqueue n b e k p cost :
      (n < vk_capacity)%Z → plain_key k = true → small_cost cost →
      any_call (n, b) ((n + 1)%Z, (Enqueue e k p cost b).1)
  | any_claim n b e w x : any_call (n, b) (n, (Claim e w x b).1)
  | any_drain n b e c max : any_call (n, b) (n, (Drain e c max b).1)
  | any_ack n b e c q : any_call (n, b) (n, (Ack e c q b).1)
  | any_release n b e c : any_call (n, b) (n, (Release e c b).1)
  | any_heartbeat n b e c x : any_call (n, b) (n, (Heartbeat e c x b).1)
  | any_fail n b e c q reason : any_call (n, b) (n, (Fail e c q reason b).1)
  | any_reap n b e now : any_call (n, b) (n, (ReapExpired e now b).1)
  | any_reset n b e : any_call (n, b) (n, (be_Reset e b).1).

Definition sound (x : Z * Backend) : Prop := (0 <= x.1 <= vk_capacity)%Z ∧ all_ok x.1 x.2.

Lemma any_call_sound x y : sound x → any_call x y → sound y.
Proof.
  intros [Hn Hb] Hc. destruct Hc; cbn [fst snd] in *; (split; cbn [fst snd]; [lia|]).
  - apply (all_ok_shard n); [done|lia|]. intros d Hd.
    destruct (luaEnqueue_run _ _ n (member k) d k p cost (defT b) (Milliseconds (defWait b))
      (nowMs e 0) Hd ltac:(lia)) as (d' & q & Hrun & Hok & _); try done.
    destruct (send_state e 0 (luaEnqueue (member k) p cost (defT b) (Milliseconds (defWait b))
      (nowMs e 0)) d) as [-> | ->]; [eapply shard_ok_mono; [done|lia]|by rewrite Hrun].
  - by apply all_ok_turns.
  - apply (all_ok_shard n); [done|lia|]. intros d Hd. by apply drain_shard_drained.
  - apply all_ok_scripted; [done|]. apply keeps_ack; lia.
  - apply all_ok_scripted; [done|]. apply keeps_release.
  - apply all_ok_scripted; [done|]. apply keeps_heartbeat.
  - apply all_ok_scripted; [done|]. apply keeps_fail; lia.
  - by apply all_ok_reap.
  - by apply all_ok_reset.
Qed.

Lemma any_calls_sound x y : sound x → rtc any_call x y → sound y.
Proof. intros Hx. induction 1 as [|x y z Hc _ IH]; [done|]. by apply IH, (any_call_sound x). Qed.
