(* ===== verification/ValkeyProps.v ===== *)
(** ValkeyProps: what the Valkey driver guarantees (the system's
    guarantees on a network that answers, well-formed keys on any network, a stale handle
    changes nothing, the paged acknowledgement is one scan, the conformance suite passes),
    and the runs on which it goes wrong. *)
From S2P Require Import Prelude Queue Contract Routing Valkey ValkeyFacts ValkeyContract.
From S2P Require Import System SystemFacts Conformance.

(** ** Scripts *)

Lemma check_token_stale {A} c d (f : () → script A) :
  accepts_shard d c = false →
  (check_token (member (cu_Key c)) (cu_Lease c) ≫= f) d = (d, inl "LEASELOST").
Proof.
  unfold accepts_shard, check_token, mbind, script_bind, read. intros Hh. by rewrite Hh.
Qed.

Lemma vk_set_shard_same j d b : shards b !! j = Some d → set_shard j d b = b.
Proof. intros Hj. unfold set_shard. rewrite list_insert_id by done. by destruct b. Qed.

Lemma scripted_stale {A} e c (p : script A) b :
  (∀ d, accepts_shard d c = false → p d = (d, inl "LEASELOST")) → accepts b c = false →
  (scripted e c p b).1 = b ∧ (∀ a, (scripted e c p b).2 ≠ Ok a) ∧
  (env_net e 0 = NoFault → is_Some (shards b !! route b (cu_Key c)) →
   (scripted e c p b).2 = Err ErrLeaseLost).
Proof.
  unfold accepts, scripted, on_shard. intros Hp Hh.
  destruct (shards b !! route b (cu_Key c)) as [d|] eqn:Hd.
  2:{ split_and!; [done|done|]. by intros _ [x ?]. }
  unfold send. rewrite (Hp d Hh). destruct (env_net e 0) as [|msg|msg]; cbn [fst snd];
    rewrite (vk_set_shard_same _ _ _ Hd); split_and!; try done;
    intros a; cbn [leaseLost]; by case_match.
Qed.

(** C15: No ABA within the lease: whatever the state of the primary and the network, a call
    with a handle whose token is not the unit's present one changes nothing and does not
    succeed, and on a network that answers it is refused with [ErrLeaseLost]. *)
Theorem valkey_stale_handle_changes_nothing e c q x max reason b :
  accepts b c = false →
  (let stale {A} (r : Backend * res A) :=
     r.1 = b ∧ (∀ a, r.2 ≠ Ok a) ∧
     (env_net e 0 = NoFault → is_Some (shards b !! route b (cu_Key c)) →
      r.2 = Err ErrLeaseLost) in
   stale (Ack e c q b) ∧ stale (Release e c b) ∧ stale (Heartbeat e c x b) ∧
   stale (Fail e c q reason b) ∧ stale (Drain e c max b)).
Proof.
  intros Hh. cbv zeta. split; [|split; [|split; [|split]]].
  1-4: apply scripted_stale; [|done]; intros d Hd; by apply check_token_stale.
  unfold Drain, on_shard. unfold accepts in Hh.
  destruct (shards b !! route b (cu_Key c)) as [d|] eqn:Hd.
  2:{ split_and!; [done|done|]. by intros _ [y ?]. }
  assert (drain_shard e (member (cu_Key c)) (cu_Lease c) max d = (d, Err ErrLeaseLost)) as ->.
  { unfold drain_shard, send, read. unfold accepts_shard in Hh.
    destruct (env_net e 0); cbn [fst snd]; [|done|done].
    destruct (lease_token _) as [t|]; [|done]. rewrite bool_decide_false; [done|].
    intros ->. by rewrite bool_decide_true in Hh. }
  cbn [fst snd]. by rewrite (vk_set_shard_same _ _ _ Hd).
Qed.

(** ** Keys *)

(** The member string of a key identifies it as long as its workspace and session hold
    no bar: splitting it gives the key back, whatever the peer. *)
Lemma splitMember_member k :
  has_char "|" (Workspace k) = false → has_char "|" (Session k) = false →
  splitMember (member k) = k ∧
  ∀ k', has_char "|" (Workspace k') = false → has_char "|" (Session k') = false →
    member k' = member k → k' = k.
Proof.
  intros Hw Hs. split; [by apply splitMember_plain, plain_key_true|].
  intros k' Hw' Hs' Hm. by apply member_inj; [apply plain_key_true..|].
Qed.

Lemma splitMember_member_witness :
  splitMember (member (mkKey "ws" "s-1" "p|q")) = mkKey "ws" "s-1" "p|q" ∧
  splitMember (member (mkKey "ws" "s|1" "p")) ≠ mkKey "ws" "s|1" "p".
Proof.
  split; [|vm_compute; congruence].
  apply (splitMember_member (mkKey "ws" "s-1" "p|q")); reflexivity.
Defined.

(** ** The conformance suite *)

(** A clock after the Unix epoch that advances from call to call and reading to reading. *)
Definition vk_start : time := (epoch_ms * Millisecond + 1000000 * Second)%Z.

Definition vk_ticking (i : nat) : Env :=
  mkEnv (λ j, vk_start + i * Second + j * Millisecond)%Z (λ l, l) "" (λ _, NoFault).

Definition vk_opts (t : Z) (w : duration) (ma : Z) : Options := mkOptions ["a0"; "a1"] t w ma.

Definition vk_new (o : Options) : Backend :=
  default (mkBackend [] 0 0 0 0 0) (New o (λ _, empty_shard)).

Definition valkey_factory (c : Config) : Backend :=
  vk_new (vk_opts (Threshold c) (MaxWait c) (cf_MaxAttempts c)).

(** The Valkey driver, over two primaries, passes every scenario of the conformance
    suite, like the in-memory driver. *)
Lemma valkey_conforms :
  (Conformance.Run valkey_factory vk_ticking (vk_new (vk_opts 0 0 0))).*2 = replicate 8 true.
Proof. vm_compute. reflexivity. Qed.

(** ** The paged acknowledgement *)

(** C34: The acknowledgement, which walks the pending list in pages of 256 ids, is one scan
    of the whole list: for a list in stream order, whatever its length, the pages acknowledge
    the same entries, stop at the same place and count the same cost. *)
Theorem ack_pages_is_one_scan m th start cost n fuel d :
  is_Some (streams d !! m) →
  StronglySorted lt (s_pel (stream_of m d)) → length (s_pel (stream_of m d)) < fuel →
  ack_pages fuel m th start cost n d =
  match ack_page m th (filter (λ i, start < i) (s_pel (stream_of m d))) cost n d with
  | (d', inr (_, cost', n')) => (d', inr (cost', n'))
  | (d', inl msg) => (d', inl msg)
  end.
Proof. apply ack_pages_scan. Qed.

(** A clock [ms] after the start, on a network that answers. *)
Definition vk_env (ms : Z) : Env :=
  mkEnv (λ _, vk_start + ms * Millisecond)%Z (λ l, l) "" (λ _, NoFault).

Definition vk_key : WorkUnitKey := mkKey "ws" "s" "p".

Definition big_stream : stream :=
  mkStream (map (λ i, mkEntry (Datatypes.S i) i 0 "t" 1) (seq 0 260)) 260 260 (seq 1 260).
Definition big_shard : shard := set_stream "m" big_stream empty_shard.

Lemma ack_pages_is_one_scan_witness :
  (ack_pages 261 "m" 257 0 0 0 big_shard).2 = inr (258, 258)%Z ∧
  ack_pages 261 "m" 257 0 0 0 big_shard =
    match ack_page "m" 257 (filter (λ i, 0 < i) (s_pel (stream_of "m" big_shard))) 0 0 big_shard with
    | (d', inr (_, cost', n')) => (d', inr (cost', n'))
    | (d', inl msg) => (d', inl msg)
    end.
Proof.
  assert (stream_of "m" big_shard = big_stream) as Hs by (vm_compute; reflexivity).
  split; [vm_compute; reflexivity|].
  assert (StronglySorted lt (s_pel (stream_of "m" big_shard))) as H1.
  { rewrite Hs. apply (bool_decide_unpack _). vm_compute. exact I. }
  assert (length (s_pel (stream_of "m" big_shard)) < 261) as H2.
  { rewrite Hs. cbn [big_stream s_pel]. rewrite length_seq. lia. }
  assert (is_Some (streams big_shard !! "m")) as H0 by (vm_compute; eexists; reflexivity).
  exact (ack_pages_is_one_scan "m" 257 0 0 0 261 big_shard H0 H1 H2).
Defined.

Lemma valkey_stale_handle_changes_nothing_witness :
  let b := (Enqueue (vk_env 0) vk_key "a" 5 (vk_new (vk_opts 1 Second 3))).1 in
  let c := mkClaimed vk_key "w" "1-w" 0 in
  accepts b c = false ∧ (Ack (vk_env 1) c 0 b).1 = b ∧ (Ack (vk_env 1) c 0 b).2 = Err ErrLeaseLost.
Proof.
  cbv zeta. split; [vm_compute; reflexivity|].
  destruct (valkey_stale_handle_changes_nothing (vk_env 1) (mkClaimed vk_key "w" "1-w" 0) 0 0 0 ""
    (Enqueue (vk_env 0) vk_key "a" 5 (vk_new (vk_opts 1 Second 3))).1) as [(H1 & _ & H2) _];
    [vm_compute; reflexivity|].
  split; [exact H1|]. apply H2; [reflexivity|vm_compute; eexists; reflexivity].
Defined.

(** ** The system over Valkey *)

Lemma vk_New_empty o b j d :
  New o (λ _, empty_shard) = Some b → shards b !! j = Some d → d = empty_shard.
Proof.
  intros Hnew. assert (shards b = (λ _, empty_shard) <$> Addrs o) as ->.
  { unfold New in Hnew. destruct (Addrs o); [done|]. by injection Hnew as <-. }
  rewrite list_lookup_fmap. by intros (x & _ & ->)%fmap_Some_1.
Qed.

Lemma vk_New_ok o b :
  New o (λ _, empty_shard) = Some b → (length (Addrs o) < 2 ^ 32)%Z →
  vk_ok 0 ∅ b ∧ all_ok 0 b ∧ ∀ k, pending b k = [].
Proof.
  intros Hnew Hlen. pose proof (λ j d, vk_New_empty o b j d Hnew) as Hempty.
  assert (shards b = (λ _, empty_shard) <$> Addrs o ∧ tokens b = 0%Z ∧ rr b = 0%Z ∧ Addrs o ≠ [])
    as (Hs & Ht & Hr & Hne).
  { unfold New in Hnew. destruct (Addrs o); [done|]. by injection Hnew as <-. }
  assert (all_ok 0 b) as Hall.
  { intros j d Hj. rewrite (Hempty j d Hj). apply shard_ok_empty. }
  split; [|split; [done|]].
  - split; rewrite ?Ht, ?Hr; try done.
    rewrite Hs, length_fmap. split; [destruct (Addrs o); [done|cbn; lia]|done].
  - intros k. cbn [pending vk_View]. destruct (plain_key k); [|done]. unfold unit_tasks.
    destruct (shards b !! _) as [d|] eqn:Hj; [|done]. rewrite (Hempty _ _ Hj).
    unfold tasks, stream_of. cbn. by rewrite lookup_empty.
Qed.

(** C8: The Valkey driver, over any number of primaries, meets the contract on a network
    that answers, so the system's guarantees hold of it as well: from empty primaries,
    whatever the interleaving, crash or lease expiry, no task is lost or reordered, only
    processed tasks are deleted, and at most one worker holds a handle the driver accepts;
    for keys without bars in workspace and session and costs of at most 2^21. *)
Theorem valkey_system_safe o b0 (s : sys Backend) :
  New o (λ _, empty_shard) = Some b0 → (length (Addrs o) < 2 ^ 32)%Z → reachable b0 s →
  (∀ k, enq_of (log s) k = acked_of (log s) k ++ pending (st s) k) ∧
  (∀ k p, p < length (acked_of (log s) k) → was_processed (log s) k p) ∧
  (∀ i j p q, pcs s !! i = Some p → pcs s !! j = Some q →
     cu_Key (handle p) = cu_Key (handle q) →
     holds (st s) (handle p) = true → holds (st s) (handle q) = true → i = j).
Proof.
  intros Hnew Hlen Hr. destruct (vk_New_ok o b0 Hnew Hlen) as (Hok & _ & Hp).
  exact (system_safe b0 s Hok Hp Hr).
Qed.

(** A unit claimed by [w0], which stalls; the lease is reclaimed and [w1] finishes. *)
Definition vk_acts : list action := [
  DoEnqueue (vk_env 0) vk_key "a" 2;
  DoClaim 0 (vk_env 1) "w0" Second;
  DoDrain 0 (vk_env 2) 10;
  DoReap (vk_env 3000) (env_now (vk_env 3000) 0);
  DoClaim 1 (vk_env 3001) "w1" Second;
  DoDrain 1 (vk_env 3002) 10;
  DoProcess 1;
  DoAck 1 (vk_env 3003)].

Definition vk_begin : Backend := vk_new (vk_opts 1 Second 3).
Definition vk_end : sys Backend := default (init vk_begin) (exec (init vk_begin) vk_acts).

Lemma vk_reachable : reachable vk_begin vk_end.
Proof.
  apply (exec_reachable _ vk_acts (init vk_begin)).
  - apply acts_ok_Forall. intros s. unfold vk_acts.
    repeat (apply Forall_cons_2; [repeat split|]); [vm_compute; congruence|apply Forall_nil_2].
  - apply rtc_refl.
  - vm_compute. reflexivity.
Qed.

Lemma valkey_system_safe_witness :
  acked_of (log vk_end) vk_key = [mkTask 0 "a" 2] ∧
  enq_of (log vk_end) vk_key = acked_of (log vk_end) vk_key ++ pending (st vk_end) vk_key.
Proof.
  split; [vm_compute; reflexivity|].
  destruct (valkey_system_safe (vk_opts 1 Second 3) vk_begin vk_end) as [Hf _];
    [reflexivity|reflexivity|exact vk_reachable|exact (Hf vk_key)].
Defined.

(** ** The keys of a primary agree *)

(** C13: The keys of every primary stay well-formed whatever the network loses and whatever
    handles are used, stale or forged.  The counter of pending tasks is the number of
    stream entries; a unit either has no key at all, or has work, and then its sequence
    numbers are consecutive up to [next_seq], its pending cost is the sum of its entries',
    its pending list is exactly its delivered entries, it is in [leases] at its expiry just
    when it is leased, and when it is not it waits in [eligible] or [pending_flush], so
    that no unit with work is ever stranded. *)
Theorem valkey_units_well_formed o b0 n b j d m :
  New o (λ _, empty_shard) = Some b0 → (length (Addrs o) < 2 ^ 32)%Z →
  rtc any_call (0%Z, b0) (n, b) → shards b !! j = Some d →
  pending_tasks d = stream_total d ∧
  (cell_of m d = no_cell ∨
   ∃ s h, streams d !! m = Some s ∧ hashes d !! m = Some h ∧ s_entries s ≠ [] ∧
     (∃ x, consecutive x (tasks_of s) ∧ next_seq h = Some (x + length (s_entries s))%Z) ∧
     pending_cost h = Some (total_cost (tasks_of s)) ∧
     (∃ fresh, s_entries s = take (length (s_pel s)) (s_entries s) ++ fresh ∧
        s_pel s = e_id <$> take (length (s_pel s)) (s_entries s)) ∧
     leases d !! m = lease_exp h ∧ (is_Some (lease_token h) ↔ is_Some (leases d !! m)) ∧
     (lease_token h = None → is_Some (eligible d !! m) ∨ is_Some (pending_flush d !! m))).
Proof.
  intros Hnew Hlen Hrun Hj. destruct (vk_New_ok o b0 Hnew Hlen) as (_ & Hall & _).
  assert (sound (0%Z, b0)) as Hs0 by (by split).
  destruct (any_calls_sound _ _ Hs0 Hrun) as [_ Hb]. pose proof (Hb j d Hj) as Hd. split; [apply Hd|].
  destruct (cell_cases n m d (sh_cells _ _ _ _ Hd m)) as [Hc|(s & h & [Hh Hs Hok [Hls Hfree]])];
    [by left|right]. exists s, h. destruct (uo_seqs _ _ _ Hok) as (x & _ & Hx & Hn & _).
  destruct (uo_parts _ _ _ Hok) as (es1 & es2 & [He Hp _ _ _ _ _]).
  pose proof (uo_claim _ _ _ Hok) as Hcl. split_and!; try done; try apply Hok.
  - by exists x.
  - exists es2. rewrite Hp, length_fmap, He, take_app_length. done.
  - rewrite Hls. destruct (lease_token h); [split; intros; [apply Hcl|by eexists]|].
    destruct Hcl as [_ ->]. done.
Qed.

(** The reply of the enqueue is lost after it was done, an acknowledgement is made with a
    forged handle. *)
Definition wf_unacked : Env :=
  mkEnv (λ _, vk_start) (λ l, l) "" (λ _, Unacked "i/o timeout").
Definition wf_b1 : Backend := (Enqueue wf_unacked vk_key "a" 2 vk_begin).1.
Definition wf_b2 : Backend := (Ack (vk_env 1) (mkClaimed vk_key "w" "forged" 0) 9 wf_b1).1.
Definition wf_shard : shard := default empty_shard (shards wf_b2 !! route wf_b2 vk_key).

Lemma valkey_units_well_formed_witness :
  pending_tasks wf_shard = 1%Z ∧ pending_tasks wf_shard = stream_total wf_shard.
Proof.
  split; [vm_compute; reflexivity|].
  destruct (valkey_units_well_formed (vk_opts 1 Second 3) vk_begin 1 wf_b2 (route wf_b2 vk_key)
    wf_shard (member vk_key)) as [Hp _]; [reflexivity|reflexivity| |vm_compute; reflexivity|exact Hp].
  apply (rtc_l _ _ (1%Z, wf_b1)).
  - apply (any_enqueue 0 vk_begin wf_unacked vk_key "a" 2); vm_compute; congruence.
  - apply rtc_once, (any_ack 1 wf_b1).
Defined.

(** ** Where the driver departs from the contract *)

(** A unit below its threshold, flushed by the reaper, then enqueued to again before
    anyone claims it; then claimed by [w1] for a minute, and the reaper passes. *)
Definition dc_free : Backend :=
  let b := vk_new (vk_opts 100 (5 * Second) 3) in
  let b := (Enqueue (vk_env 0) vk_key "a" 10 b).1 in
  let b := (ReapExpired (vk_env 6000) (env_now (vk_env 6000) 0) b).1 in
  (Enqueue (vk_env 6100) vk_key "b" 10 b).1.

Definition dc_w1 : Backend * res (option ClaimedUnit) :=
  Claim (vk_env 6200) "w1" (60 * Second) dc_free.

Definition dc_reaped : Backend :=
  (ReapExpired (vk_env 6300) (env_now (vk_env 6300) 0) dc_w1.1).1.

Definition dc_w2 : Backend * res (option ClaimedUnit) :=
  Claim (vk_env 6400) "w2" (60 * Second) dc_reaped.

(** The Valkey driver can hand out a unit that a live worker holds.  An enqueue to a
    flushed unit leaves it in both indexes; the reaper then offers it again while [w1],
    whose lease has almost a minute left, is working on it, and [w2] gets it. *)
Lemma valkey_claims_a_held_unit :
  ∃ c1 c2, dc_w1.2 = Ok (Some c1) ∧ dc_w2.2 = Ok (Some c2) ∧
    cu_Key c1 = vk_key ∧ cu_Key c2 = vk_key ∧
    (env_now (vk_env 6400) 0 + 59 * Second < cu_LeaseTill c1)%Z ∧
    accepts dc_reaped c1 = true ∧ accepts dc_w2.1 c1 = false ∧ accepts dc_w2.1 c2 = true.
Proof.
  eexists _, _. split; [vm_compute; reflexivity|]. split; [vm_compute; reflexivity|].
  split_and!; vm_compute; reflexivity.
Qed.

(** The same run opens the gate early: [w1] acknowledges the first task while its unit is
    again in [eligible]; what is left is below the threshold and its deadline is seconds
    away, so the unit is given up, but nothing takes it out of [eligible], and [w2] gets
    it. *)
Lemma valkey_gate_opens_early :
  let b := (Drain (vk_env 6210) (mkClaimed vk_key "w1" "1-w1" 0) 1 dc_w1.1).1 in
  let b := (ReapExpired (vk_env 6300) (env_now (vk_env 6300) 0) b).1 in
  let a := Ack (vk_env 6350) (mkClaimed vk_key "w1" "1-w1" 0) 0 b in
  a.2 = Ok false ∧ pending a.1 vk_key = [mkTask 1 "b" 10] ∧ defT a.1 = 100%Z ∧
  ∃ c, (Claim (vk_env 6400) "w2" (60 * Second) a.1).2 = Ok (Some c) ∧ cu_Key c = vk_key.
Proof.
  cbv zeta. split; [vm_compute; reflexivity|]. split; [vm_compute; reflexivity|].
  split; [vm_compute; reflexivity|]. eexists. split; vm_compute; reflexivity.
Qed.

(** Two tasks; [w0] drains the first and crashes; its lease is reclaimed and [w1] claims
    the unit. *)
Definition dl_claimed : Backend * res (option ClaimedUnit) :=
  let b := vk_new (vk_opts 1 (3600 * Second) 3) in
  let b := (Enqueue (vk_env 0) vk_key "a" 1 b).1 in
  let b := (Enqueue (vk_env 1) vk_key "b" 1 b).1 in
  let '(b, r) := Claim (vk_env 2) "w0" Second b in
  let b := match r with Ok (Some c) => (Drain (vk_env 3) c 1 b).1 | _ => b end in
  let b := (ReapExpired (vk_env 2000) (env_now (vk_env 2000) 0) b).1 in
  Claim (vk_env 2001) "w1" (60 * Second) b.

(** the second round trip of a call, [XAUTOCLAIM] in a drain, is lost *)
Definition dl_env : Env :=
  mkEnv (λ _, vk_start + 2002 * Millisecond)%Z (λ l, l) ""
    (λ i, if bool_decide (i = 1) then Lost "i/o timeout" else NoFault).

(** A lost reply in [Drain] loses a task.  The error of the command that recovers the
    tasks of a crashed worker is dropped, so the drain succeeds with the tasks after them;
    acknowledging these deletes the unrecovered one too, which no live worker ever got. *)
Lemma valkey_drain_can_lose_a_task :
  ∃ c ts, dl_claimed.2 = Ok (Some c) ∧
    Drain dl_env c 10 dl_claimed.1 = ((Drain dl_env c 10 dl_claimed.1).1, Ok ts) ∧
    ts = [mkTask 1 "b" 1] ∧
    let '(b, r) := Ack (vk_env 2003) c 1 (Drain dl_env c 10 dl_claimed.1).1 in
    r = Ok false ∧ Forall (λ d, streams d = ∅ ∧ hashes d = ∅ ∧ dlq d = []) (shards b).
Proof.
  eexists _, _. split; [vm_compute; reflexivity|]. split; [vm_compute; reflexivity|].
  split; [reflexivity|]. vm_compute. repeat constructor.
Qed.

(** A process that restarts finds the primaries as they were, and counts from 0. *)
Definition restart (b : Backend) : Backend :=
  mkBackend (shards b) (defT b) (defWait b) (maxTries b) 0 0.

Definition rs_w : Backend * res (option ClaimedUnit) :=
  Claim (vk_env 1) "w-0" Second
    (Enqueue (vk_env 0) vk_key "a" 5 (vk_new (vk_opts 1 Second 3))).1.

Definition rs_reaped : Backend :=
  restart (ReapExpired (vk_env 5000) (env_now (vk_env 5000) 0) rs_w.1).1.

(** Lease tokens are not safe across processes: they are numbered per process, so after
    a restart the first claim by a worker of the same name issues the token of the first
    claim before it, and the old handle, refused since its lease was reclaimed, is accepted
    again. *)
Lemma valkey_restart_reissues_tokens :
  (∀ b w, claim_token (i64 (tokens (restart b) + 1)) w = claim_token 1 w) ∧
  ∃ old new, rs_w.2 = Ok (Some old) ∧
    (Claim (vk_env 6000) "w-0" Second rs_reaped).2 = Ok (Some new) ∧
    accepts rs_reaped old = false ∧
    accepts (Claim (vk_env 6000) "w-0" Second rs_reaped).1 old = true.
Proof.
  split; [done|]. eexists _, _. split; [vm_compute; reflexivity|].
  split; [vm_compute; reflexivity|]. split; vm_compute; reflexivity.
Qed.

(** The age of the oldest waiting unit is asked for with the score range from 0 to 0, which
    no deadline after 1970 is in: it is always reported as 0. *)
Lemma valkey_stats_age_is_blind e b st :
  Forall (λ d, map_Forall (λ _ s, s ≠ 0%Z) (pending_flush d)) (shards b) →
  be_Stats e b = Ok st → OldestBelowT st = 0%Z.
Proof.
  intros Hd [= <-]. assert (∀ ds i st, Forall (λ d, map_Forall (λ _ s, s ≠ 0%Z) (pending_flush d)) ds →
    OldestBelowT (stats_shards e b i ds st) = OldestBelowT st) as Hgen; [|by apply Hgen].
  clear Hd. induction ds as [|d ds IH]; intros i st Hf; [done|].
  apply Forall_cons in Hf as [Hd Hf]. cbn [stats_shards]. rewrite IH by done.
  unfold stats_shard. destruct (env_net e i); [|done|done]. cbn [OldestBelowT].
  rewrite filter_none; [done|]. intros [m s] Hin Hs. apply elem_of_map_to_list in Hin.
  by apply (Hd m s Hin).
Qed.
