(* ===== verification/OrderingValkey.v ===== *)
(** OrderingValkey: the Valkey driver over one primary, working on a single unit; the crash
    proof of tests/proofs on it, and the large-batch test of
    internal/valkey/backend_test.go, at every size and on every clock. *)
From S2P Require Import Prelude Queue Contract Conformance Ordering Routing.
From S2P Require Import Valkey ValkeyFacts.

#[local] Existing Instances test_ret test_bind.

(** ** The driver with one unit *)

Definition m0 : string := member tkey.

(** the keys of the unit: every task costs one, so the gate is open *)
Record lane (ts : list Task) (q : Z) (o : option lease_on) (d : shard) (s : stream) (h : hash) :
    Prop := {
  ln_alone : ∀ m, m ≠ m0 → cell_of m d = no_cell;
  ln_at : unit_at q m0 d s h;
  ln_pf : pending_flush d !! m0 = None;
  ln_tasks : tasks_of s = ts;
  ln_next : next_seq h = Some q;
  ln_few : (q <= many)%Z;
  ln_unit : Forall (λ t, Cost t = 1%Z) ts;
  ln_gate : threshold h = Some 1%Z;
  ln_count : pending_tasks d = length ts;
  ln_lease : match o with
    | None => lease_token h = None ∧ is_Some (eligible d !! m0)
    | Some l => lease_token h = Some (cu_Lease (lo_handle l)) ∧ eligible d !! m0 = None ∧
        cu_Key (lo_handle l) = tkey ∧ lease_ms h = Some (Milliseconds (lo_dur l)) ∧
        whole (lo_dur l) ∧ leases d !! m0 = Some (UnixMilli (lo_till l)) ∧
        (0 <= UnixMilli (lo_till l) < exact)%Z ∧ lo_seen l ≤ length (s_pel s)
    end;
}.

(** nothing on the primary *)
Definition bare (d : shard) : Prop := (∀ m, cell_of m d = no_cell) ∧ pending_tasks d = 0%Z.

Definition valkey_solo (b : Backend) (ts : list Task) (q : Z) (o : option lease_on) : Prop :=
  ∃ d, shards b = [d] ∧ defT b = 1%Z ∧
    ((ts = [] ∧ q = 0%Z ∧ o = None ∧ bare d) ∨ ∃ s h, lane ts q o d s h).

(** a primary that answers, and a clock the scripts' doubles hold exactly *)
Definition answers (e : Env) : Prop :=
  (∀ i, env_net e i = NoFault) ∧ ∀ i, (0 <= nowMs e i < 2 ^ 52)%Z.

Lemma unit_costs_rest (p : Task → bool) ts :
  Forall (λ t, Cost t = 1%Z) ts → Forall (λ t, Cost t = 1%Z) (drop_while p ts).
Proof. rewrite <- (take_drop_while p ts) at 1. by intros [_ ?]%Forall_app. Qed.

Lemma lane_length ts q o d s h :
  lane ts q o d s h → length ts = length (s_entries s) ∧ (length ts <= many)%Z.
Proof.
  intros Hl. rewrite <- (ln_tasks _ _ _ _ _ _ Hl). unfold tasks_of. rewrite length_fmap.
  pose proof (unit_length _ _ _ (ua_ok _ _ _ _ _ (ln_at _ _ _ _ _ _ Hl))).
  pose proof (ln_few _ _ _ _ _ _ Hl). lia.
Qed.

Lemma whole_ms t d : whole d →
  UnixMilli (t + d) = (UnixMilli t + Milliseconds d)%Z ∧ (0 < Milliseconds d <= 3600000)%Z.
Proof.
  intros [Hd [x ->]]. unfold UnixMilli, Milliseconds, Millisecond, Hour in *.
  rewrite Z.div_add, Z.quot_mul by lia. lia.
Qed.

(** a sorted set that mentions no other unit *)
Lemma index_one (z : gmap string Z) :
  (∀ m, m ≠ m0 → z !! m = None) →
  z = match z !! m0 with Some x => {[m0 := x]} | None => ∅ end.
Proof.
  intros Hz. apply map_eq. intros m. destruct (decide (m = m0)) as [->|Hm].
  - destruct (z !! m0); [by rewrite lookup_singleton_eq|done].
  - rewrite Hz by done. destruct (z !! m0); [by rewrite lookup_singleton_ne|done].
Qed.

Lemma alone_eligible d m : (∀ m, m ≠ m0 → cell_of m d = no_cell) → m ≠ m0 → eligible d !! m = None.
Proof. intros Ha Hm. exact (f_equal c_el (Ha m Hm)). Qed.
Lemma alone_pending d m : (∀ m, m ≠ m0 → cell_of m d = no_cell) → m ≠ m0 → pending_flush d !! m = None.
Proof. intros Ha Hm. exact (f_equal c_pf (Ha m Hm)). Qed.
Lemma alone_leases d m : (∀ m, m ≠ m0 → cell_of m d = no_cell) → m ≠ m0 → leases d !! m = None.
Proof. intros Ha Hm. exact (f_equal c_ls (Ha m Hm)). Qed.

Lemma alone_only d d' : (∀ m, m ≠ m0 → cell_of m d = no_cell) → only m0 d d' →
  ∀ m, m ≠ m0 → cell_of m d' = no_cell.
Proof. intros Ha Ho m Hm. by rewrite (Ho m Hm), Ha. Qed.

(** *** Enqueue *)

(** the script on a unit, or none yet, that nobody holds *)
Lemma luaEnqueue_solo p wait now d d1 s h ts q :
  d1 = match streams d !! m0 with Some _ => d | None => set_stream m0 no_stream d end →
  (∀ m, m ≠ m0 → cell_of m d1 = no_cell) →
  streams d1 !! m0 = Some s → hash_of m0 d1 = h → leases d1 !! m0 = None →
  receives q s h → default 0%Z (next_seq h) = q → (0 <= q < many)%Z →
  lease_token h = None → tasks_of s = ts → Forall (λ t, Cost t = 1%Z) ts →
  (ts = [] ∨ threshold h = Some 1%Z) → pending_tasks d1 = length ts →
  ∃ d' s' h', luaEnqueue m0 p 1 1 wait now d = (d', inr q) ∧
    lane (ts ++ [mkTask q p 1]) (q + 1) None d' s' h'.
Proof.
  intros Hd1 Ha Hs Hh Hls Hrc Hq Hfew Hlt Hts Hone Hgate Hcnt.
  assert (q < vk_capacity)%Z as Hn by (unfold vk_capacity, many in *; lia).
  assert (small_cost 1) as Hsm by (unfold small_cost, cost_bound; lia).
  destruct (received q s h 1 wait now p 1 Hrc Hsm Hn) as (Hok & _ & Htot & Htk).
  rewrite Hq, Hts in Htk. rewrite Hq in Hok. rewrite (rc_cost _ _ _ Hrc), Hts in Hok, Htot.
  rewrite (unit_costs ts Hone) in Hok, Htot.
  unfold luaEnqueue. rewrite run_modify, <- Hd1.
  destruct (enqueued_run m0 p 1 1 wait now d1 s h q (λ seq total,
    h ← read (hash_of m0);
    (if bool_decide (claimed_by h = None) then
       fd ← need (flush_ms h);
       if (num 1 <=? num total)%Z
       then ZADD_eligible m0 (num fd);; ZREM_pending m0
       else ZADD_pending m0 (num fd)
     else mret tt);;
    mret seq) Hs Hh Hrc Hsm Hn) as (d2 & Hrun & Ho2 & Hh2 & Hs2 & Hp2 & Hl2).
  cbv zeta in Hrun. rewrite Hrun. clear Hrun. rewrite Hq in Hh2, Hs2 |- *.
  rewrite (rc_cost _ _ _ Hrc), Hts, (unit_costs ts Hone) in Hh2 |- *.
  set (h2 := stamped _ _ _ _ _ _ h) in *.
  destruct (stamped_fields 1 wait now 1 (length ts + 1) (q + 1) h) as (_ & Hnx & Hcb & Hlt2 & _).
  fold h2 in Hnx, Hcb, Hlt2.
  assert (hash_of m0 d2 = h2) as Hof by (unfold hash_of; by rewrite Hh2).
  rewrite run_read, Hof. clear Hof.
  assert (claimed_by h = None) as Hfree
    by (pose proof (rc_claim _ _ _ Hrc) as Hc; rewrite Hlt in Hc; by destruct Hc).
  rewrite bool_decide_true by (by rewrite Hcb).
  destruct (uo_clock _ _ _ Hok) as [_ [fd Hfd]]. rewrite bind_assoc, (run_need _ _ _ _ Hfd).
  rewrite (num_exact 1), num_exact by (unfold exact, many in *; lia).
  rewrite (proj2 (Z.leb_le _ _)) by lia. vk_run.
  eexists _, _, h2. split; [reflexivity|].
  assert (threshold h2 = Some 1%Z) as Hg.
  { unfold h2, stamped. destruct Hgate as [->|Hg]; [done|]. by case_goal. }
  split; try done.
  - apply (alone_only d1); [done|]. eapply only_trans; [exact Ho2|only_tac].
  - split; [done|exact Hs2|done|]. split; [|left; look; by eexists]. cbn. rewrite Hl2, Hls.
    pose proof (uo_claim _ _ _ Hok) as Hc. rewrite Hlt2, Hlt in Hc. by destruct Hc as [_ ->].
  - look.
  - lia.
  - apply Forall_app. by repeat constructor.
  - cbn. rewrite Hp2, Hcnt, length_app. cbn. lia.
  - rewrite Hlt2, Hlt. split; [done|]. look. by eexists.
Qed.

Lemma on_one {A} (f : shard → shard * res A) b d d' r :
  shards b = [d] → f d = (d', r) → on_shard 0 f b = (set_shard 0 d' b, r).
Proof. intros Hs Hf. unfold on_shard. rewrite Hs. cbn. by rewrite Hf. Qed.

Lemma send_one e i {A} (p : script A) d d' a :
  answers e → p d = (d', inr a) → send e i p d = (d', Ok a).
Proof. intros [Hq _] Hp. unfold send. by rewrite Hq, Hp. Qed.

Lemma solo_put b d d' ts q o s h :
  shards b = [d] → defT b = 1%Z → lane ts q o d' s h → valkey_solo (set_shard 0 d' b) ts q o.
Proof.
  intros Hs HT Hl. exists d'. cbn [set_shard shards defT]. rewrite Hs. split; [done|].
  split; [done|]. right. eauto.
Qed.

Lemma valkey_solo_enqueue e p b ts q :
  answers e → (0 ≤ q < many)%Z → valkey_solo b ts q None →
  ∃ b', Enqueue e tkey p 1 b = (b', Ok q) ∧ valkey_solo b' (ts ++ [mkTask q p 1]) (q + 1) None.
Proof.
  intros He Hq (d & Hs & HT & Hd).
  assert (∃ d' s' h', luaEnqueue m0 p 1 1 (Milliseconds (defWait b)) (nowMs e 0) d = (d', inr q) ∧
    lane (ts ++ [mkTask q p 1]) (q + 1) None d' s' h') as (d' & s' & h' & Hrun & Hl).
  { destruct Hd as [(-> & -> & _ & Hbare & Hcnt)|(s & h & Hl)].
    - assert (hashes d !! m0 = None ∧ streams d !! m0 = None ∧ leases d !! m0 = None)
        as (Hh0 & Hs0 & Hl0) by (pose proof (Hbare m0) as Hc; by injection Hc).
      apply (luaEnqueue_solo p _ _ d (set_stream m0 no_stream d) no_stream no_hash []); try done.
      + by rewrite Hs0.
      + apply (alone_only d); [by intros m _|only_tac].
      + look.
      + unfold hash_of. cbn. by rewrite Hh0.
      + by apply receives_none.
      + by left.
    - pose proof (ln_at _ _ _ _ _ _ Hl) as Hu. pose proof (ua_ok _ _ _ _ _ Hu) as Hok.
      destruct (ln_lease _ _ _ _ _ _ Hl) as [Hlt _].
      pose proof (ua_stream _ _ _ _ _ Hu) as Hst.
      assert (leases d !! m0 = None) as Hls.
      { rewrite (proj1 (ua_indexed _ _ _ _ _ Hu)). pose proof (uo_claim _ _ _ Hok) as Hc.
        rewrite Hlt in Hc. by destruct Hc. }
      apply (luaEnqueue_solo p _ _ d d s h ts q); try done; [by rewrite Hst|by destruct Hl| | | |by destruct Hl..| |by destruct Hl].
      + by apply (unit_at_hash q m0 d s).
      + by apply receives_unit.
      + by rewrite (ln_next _ _ _ _ _ _ Hl).
      + right. by destruct Hl. }
  exists (set_shard 0 d' b). split; [|by eapply solo_put].
  unfold Enqueue. unfold route. rewrite Hs. change (shard_index (length [d]) _) with 0.
  fold m0. rewrite HT. eapply on_one; [done|]. by apply send_one.
Qed.

(** *** Claim *)

Lemma luaClaim_solo worker tok d ts q s h i e x :
  answers e → whole x → lane ts q None d s h →
  ∃ d', luaClaim worker tok (Milliseconds x) (nowMs e i) d = (d', inr (Some m0)) ∧
    ∀ till, cu_Lease till = tok → cu_Key till = tkey →
      ∃ h', lane ts q (Some (mkLeaseOn till x (env_now e i + x) 0)) d' s h'.
Proof.
  intros [_ Hnow] Hx Hl. pose proof (ln_at _ _ _ _ _ _ Hl) as Hu.
  destruct (ln_lease _ _ _ _ _ _ Hl) as [Hlt [sc Hsc]].
  pose proof (index_one (eligible d) (λ m, alone_eligible d m (ln_alone _ _ _ _ _ _ Hl))) as Hel.
  rewrite Hsc in Hel. unfold luaClaim. rewrite run_read, Hel, map_to_list_singleton.
  cbn [zmin]. vk_run. rewrite (unit_at_hash _ _ _ _ _ Hu).
  destruct (whole_ms (env_now e i) x Hx) as [Hms Hpos]. fold (nowMs e i) in Hms.
  specialize (Hnow i).
  rewrite (num_exact (nowMs e i)), (num_exact (Milliseconds x)), num_exact by (unfold exact; lia).
  eexists. split; [reflexivity|]. intros c Htok Hkey.
  exists (set_claim (Some worker) (Some tok) (Some (Milliseconds x))
    (Some (nowMs e i + Milliseconds x)%Z) h).
  destruct Hl as [Ha _ Hpf Hts Hnx Hfew Hone Hg Hcnt _]. split; try done.
  - apply (alone_only d); [done|only_tac].
  - split; [look|apply Hu|apply unit_claimed, Hu|]. split; [look|done].
  - cbn [lo_handle lo_dur lo_till lo_seen]. rewrite Htok, Hms. unfold exact.
    split_and!; [done|look|done|done|done|look|lia..].
Qed.

Lemma valkey_solo_claim e worker x b ts q :
  answers e → whole x → ts ≠ [] → valkey_solo b ts q None →
  ∃ b' c i, Claim e worker x b = (b', Ok (Some c)) ∧
    valkey_solo b' ts q (Some (mkLeaseOn c x (env_now e i + x) 0)).
Proof.
  intros He Hx Hts (d & Hs & HT & [(-> & _)|(s & h & Hl)]); [done|].
  destruct (luaClaim_solo worker (claim_token (i64 (tokens b + 1)) worker) d ts q s h 1 e x He Hx Hl)
    as (d' & Hrun & Hl').
  unfold Claim. cbv zeta. rewrite Hs. cbn [length claim_turns shards].
  change (length [d]) with 1. unfold rotation. change (Z.of_nat 1) with 1%Z. rewrite Z.rem_1_r.
  cbn [Z.ltb Z.compare]. change (Z.to_nat 0) with 0.
  rewrite (on_one _ _ d d' (Ok (Some m0))); [|done|by apply send_one].
  rewrite bool_decide_false by (apply member_nonempty).
  change (splitMember m0) with tkey.
  eexists _, _, 1. split; [reflexivity|].
  destruct (Hl' (mkClaimed tkey worker (claim_token (i64 (tokens b + 1)) worker) (env_now e 0 + x))
    eq_refl eq_refl) as [h' Hl2].
  by eapply solo_put.
Qed.

(** *** Drain *)

(** the unit after a delivery: the same tasks *)
Lemma lane_delivered ts q l d s h s' a c n :
  lane ts q (Some l) d s h → s_entries s' = s_entries s → parts s' a c → n ≤ length (s_pel s') →
  lane ts q (Some (saw n l)) (set_stream m0 s' d) s' h.
Proof.
  intros [Ha Hu Hpf Hts Hnx Hfew Hone Hg Hcnt Hl] He Hp Hn.
  assert (tasks_of s' = tasks_of s) as Ht by (unfold tasks_of; by rewrite He).
  destruct Hl as (? & ? & ? & ? & ? & ? & ? & _).
  split; try done; [by apply (alone_only d); [|only_tac]| |by rewrite Ht].
  split; [by destruct Hu|look| |apply Hu].
  destruct (ua_ok _ _ _ _ _ Hu). split; rewrite ?Ht, ?He; eauto.
Qed.

Lemma drain_solo e tok max ts q l d s h :
  answers e → (0 < max)%Z → lease_token h = Some tok → lane ts q (Some l) d s h →
  ∃ d' s', drain_shard e m0 tok max d = (d', Ok (take (Z.to_nat max) ts)) ∧
    lane ts q (Some (saw (Nat.min (Z.to_nat max) (length ts)) l)) d' s' h.
Proof.
  intros He Hmax Ht Hl. pose proof (ln_at _ _ _ _ _ _ Hl) as Hu.
  pose proof (ua_ok _ _ _ _ _ Hu) as Hok. destruct (uo_parts _ _ _ Hok) as (es1 & es2 & Hp).
  destruct (uo_seqs _ _ _ Hok) as (b & _ & Hc & _). rewrite (ln_tasks _ _ _ _ _ _ Hl) in Hc.
  assert (ts = entryToTask <$> es1 ++ es2) as Hts
    by (rewrite <- (ln_tasks _ _ _ _ _ _ Hl), <- (p_entries _ _ _ Hp); done).
  assert (∀ es, es = take (Z.to_nat max) (es1 ++ es2) →
    merge_sort seq_le (entryToTask <$> es) = take (Z.to_nat max) ts) as Hsort.
  { intros es ->. rewrite fmap_take, <- Hts. rewrite <- (take_drop (Z.to_nat max) ts) in Hc.
    apply consecutive_app in Hc as [Hc _]. by apply (sort_consecutive b). }
  unfold drain_shard. rewrite (send_one e 0 (read (λ d, lease_token (hash_of m0 d))) d d (Some tok) He)
    by (unfold read; by rewrite (unit_at_hash _ _ _ _ _ Hu), Ht).
  rewrite bool_decide_true by done.
  rewrite (send_one e 1 _ d d _ He (XAUTOCLAIM_run m0 max s es1 es2 d (ua_stream _ _ _ _ _ Hu) Hp Hmax)).
  cbn [dropped].
  destruct (Z.ltb_spec (length (take (Z.to_nat max) es1)) max) as [Hlt|Hge]; rewrite length_take in *.
  - assert (take (Z.to_nat max) es1 = es1) as -> by (apply take_ge; lia).
    destruct (XREADGROUP_run m0 (max - length es1) s es1 es2 d (ua_stream _ _ _ _ _ Hu) Hp)
      as (s' & Hrun & Hes & Hp').
    replace (max - (Z.to_nat max `min` length es1)%nat)%Z with (max - length es1)%Z by lia.
    rewrite (send_one e 2 _ d _ _ He Hrun). cbn [dropped].
    exists (set_stream m0 s' d), s'. rewrite Hsort.
    + split; [done|]. eapply lane_delivered; [done..|].
      rewrite (p_pel _ _ _ Hp'), length_fmap, length_app, length_take, Hts, length_fmap, length_app. lia.
    + rewrite take_app_ge by lia. do 2 f_equal. lia.
  - exists d, s. rewrite app_nil_r, Hsort; [|by rewrite take_app_le by lia]. split; [done|].
    destruct Hl as [? ? ? ? ? ? ? ? ? (? & ? & ? & ? & ? & ? & ? & _)]. split; try done.
    cbn [saw lo_handle lo_dur lo_till lo_seen]. split_and!; [tauto..|].
    rewrite (p_pel _ _ _ Hp), length_fmap, Hts, length_fmap, length_app. lia.
Qed.

Lemma lane_route b d k : shards b = [d] → route b k = 0.
Proof. intros Hs. unfold route. by rewrite Hs. Qed.

Lemma valkey_solo_drain e max b ts q l :
  answers e → (0 < max)%Z → valkey_solo b ts q (Some l) →
  ∃ b', Drain e (lo_handle l) max b = (b', Ok (take (Z.to_nat max) ts)) ∧
    valkey_solo b' ts q (Some (saw (Nat.min (Z.to_nat max) (length ts)) l)).
Proof.
  intros He Hm (d & Hs & HT & [(_ & _ & [=] & _)|(s & h & Hl)]).
  destruct (ln_lease _ _ _ _ _ _ Hl) as (Hlt & _ & Hk & _).
  destruct (drain_solo e _ max ts q l d s h He Hm Hlt Hl) as (d' & s' & Hrun & Hl').
  exists (set_shard 0 d' b). split; [|by eapply solo_put].
  unfold Drain. rewrite (lane_route b d _ Hs), Hk. by eapply on_one.
Qed.


(** *** Ack *)

Lemma take_while_of_take {A} (p : A → bool) n (l : list A) :
  length (take_while p l) ≤ n → take_while p (take n l) = take_while p l.
Proof.
  revert n. induction l as [|x l IH]; intros n Hn; [by rewrite take_nil|].
  cbn [take_while] in Hn. destruct n as [|n].
  - cbn [take_while take]. destruct (p x); [simpl in Hn; lia|done].
  - cbn [take take_while]. destruct (p x); [|done]. cbn [length] in Hn. by rewrite IH by lia.
Qed.

(** the tasks an acknowledgement leaves, when it covers delivered ones only *)
Lemma lane_rest th ts q l d s h s' es1 es2 :
  lane ts q (Some l) d s h → length (take_while (through th) ts) ≤ lo_seen l →
  parts s es1 es2 → s_entries s = take_while (reached th) es1 ++ s_entries s' →
  tasks_of s' = drop_while (through th) ts.
Proof.
  intros Hl Hle Hp He. pose proof (ln_at _ _ _ _ _ _ Hl) as Hu.
  pose proof (acked_prefix q d m0 th s h s' es1 es2 Hu Hp He) as Hpre.
  assert (tasks m0 d = ts) as Htk.
  { unfold tasks. rewrite (unit_at_stream _ _ _ _ _ Hu). by destruct Hl. }
  assert (lo_seen l ≤ handed m0 d) as Hseen.
  { unfold handed. rewrite (unit_at_stream _ _ _ _ _ Hu). by destruct (ln_lease _ _ _ _ _ _ Hl) as (_&_&_&_&_&_&_&?). }
  rewrite Htk, take_while_of_take in Hpre by lia.
  rewrite <- (take_drop_while (through th) ts) in Hpre at 1. by apply app_inv_head in Hpre.
Qed.

(** the scan of an acknowledgement, and the new cost *)
Lemma ack_scan_solo th ts q l d s h :
  length (take_while (through th) ts) ≤ lo_seen l → lane ts q (Some l) d s h →
  ∃ s' n cost, ack_pages (Datatypes.S (length (s_pel s))) m0 th 0 0 0 d =
      (set_stream m0 s' d, inr (cost, Z.of_nat n)) ∧
    tasks_of s' = drop_while (through th) ts ∧ length ts = n + length (s_entries s') ∧
    incr (pending_cost h) (- cost) = Some (Z.of_nat (length (s_entries s'))) ∧
    (s_entries s' ≠ [] → unit_ok q s' (set_cost (length (s_entries s')) h)).
Proof.
  intros Hle Hl. pose proof (ln_at _ _ _ _ _ _ Hl) as Hu.
  assert (q <= vk_capacity)%Z as Hn
    by (pose proof (ln_few _ _ _ _ _ _ Hl); unfold vk_capacity, many in *; lia).
  pose proof (ua_ok _ _ _ _ _ Hu) as Hok. destruct (uo_parts _ _ _ Hok) as (es1 & es2 & Hp).
  destruct (ack_pages_run q d m0 Hn th s h es1 es2 Hu Hp) as (s' & Hrun & Hp').
  assert (s_entries s = take_while (reached th) es1 ++ s_entries s') as Hes.
  { rewrite (p_entries _ _ _ Hp), (p_entries _ _ _ Hp'), (assoc_L (++)).
    by rewrite take_drop_while. }
  pose proof (lane_rest th ts q l d s h s' es1 es2 Hl Hle Hp Hes) as Hrest.
  assert (total_cost (tasks_of s') = length (s_entries s')) as Hcost.
  { rewrite Hrest, unit_costs by apply unit_costs_rest, Hl.
    rewrite <- Hrest. unfold tasks_of. by rewrite length_fmap. }
  exists s', (length (take_while (reached th) es1)), (entries_cost (take_while (reached th) es1)).
  split; [exact Hrun|]. split; [exact Hrest|]. split.
  { rewrite <- (ln_tasks _ _ _ _ _ _ Hl). unfold tasks_of. rewrite length_fmap, Hes, length_app. done. }
  rewrite <- Hcost. split; [by apply (incr_cost q Hn s h)|].
  intros Hne. by eapply unit_cut.
Qed.

Lemma luaAck_solo th e ts q l d s h :
  answers e → length (take_while (through th) ts) ≤ lo_seen l → lane ts q (Some l) d s h →
  ∃ d', match drop_while (through th) ts with
        | [] => luaAck m0 (cu_Lease (lo_handle l)) th (nowMs e 0) d = (d', inr false) ∧ bare d'
        | rest => luaAck m0 (cu_Lease (lo_handle l)) th (nowMs e 0) d = (d', inr true) ∧
            ∃ s' h', lane rest q
              (Some (mkLeaseOn (lo_handle l) (lo_dur l) (env_now e 0 + lo_dur l) 0)) d' s' h'
        end.
Proof.
  intros [_ Hnow] Hle Hl. specialize (Hnow 0).
  destruct (ack_scan_solo th ts q l d s h Hle Hl) as (s' & n & cost & Hrun & Hrest & Hlen & Hcost & Hcut).
  pose proof (ln_at _ _ _ _ _ _ Hl) as Hu. pose proof (unit_at_hash _ _ _ _ _ Hu) as Hh.
  destruct (ln_lease _ _ _ _ _ _ Hl) as (Ht & Hel & Hk & Hlm & Hwh & _).
  destruct (uo_policy _ _ _ (ua_ok _ _ _ _ _ Hu)) as [_ [W HW]].
  unfold luaAck. rewrite check_held by (unfold lease; by rewrite Hh).
  rewrite run_read, (unit_at_stream _ _ _ _ _ Hu). cbv beta.
  rewrite (bind_inr _ _ _ _ _ Hrun). cbv beta iota.
  rewrite (run_hincrby _ _ _ _ _ (Z.of_nat (length (s_entries s')))) by (autorewrite with vk; by rewrite Hh).
  rewrite count_down by lia. vk_run. rewrite Hh, <- Hrest.
  destruct (s_entries s') as [|x es] eqn:Hes; cbn [head].
  { unfold tasks_of. rewrite Hes. eexists. split; [reflexivity|]. split.
    - intros m. destruct (decide (m = m0)) as [->|Hm]; [unfold cell_of; look|].
      apply (alone_only d); [apply Hl|only_tac|done].
    - cbn. rewrite (ln_count _ _ _ _ _ _ Hl), Hlen. cbn. lia. }
  specialize (Hcut ltac:(done)). vk_run. cbn [threshold max_wait_ms set_attempts set_cost].
  rewrite (run_need _ _ _ _ (ln_gate _ _ _ _ _ _ Hl)), (run_need _ _ _ _ HW). vk_run.
  destruct (lane_length _ _ _ _ _ _ Hl) as [_ Hsize].
  rewrite (num_exact 1), (num_exact (length (x :: es))) by (unfold exact, many in *; lia).
  rewrite (proj2 (Z.leb_le 1 _)) by (cbn [length]; lia). cbn [orb]. vk_run.
  cbn [lease_ms set_clock set_attempts set_cost]. rewrite (run_need _ _ _ _ Hlm). vk_run.
  destruct (whole_ms (env_now e 0) _ Hwh) as [Hms Hpos]. fold (nowMs e 0) in Hms.
  rewrite (num_exact (nowMs e 0)), (num_exact (Milliseconds (lo_dur l))), num_exact
    by (unfold exact; lia).
  assert (tasks_of s' = entryToTask x :: (entryToTask <$> es)) as Htk
    by (unfold tasks_of; by rewrite Hes).
  rewrite Htk. eexists. split; [reflexivity|]. rewrite <- Htk.
  exists s', (set_exp (nowMs e 0 + Milliseconds (lo_dur l))
    (set_clock (num (e_ts x)) (num (num (e_ts x) + num W))
       (set_attempts 0 (set_cost (length (x :: es)) h)))).
  destruct Hl as [Ha _ Hpf Hts Hnx Hfew Hone Hg Hcnt _]. split; try done.
  - apply (alone_only d); [done|only_tac].
  - split; [look|look| |split; [look|]].
    + apply unit_extended; [by apply unit_clocked, unit_attempted|]. cbn. by rewrite Ht.
    + cbn. by rewrite Ht.
  - rewrite Hrest. by apply unit_costs_rest.
  - cbn. rewrite Hcnt, Hlen. unfold tasks_of. rewrite length_fmap, Hes. cbn. lia.
  - cbn [lo_handle lo_dur lo_till lo_seen]. rewrite Hms. unfold exact.
    split_and!; [done|done|done|done|done|look|lia..].
Qed.

Lemma Ack_solo th e b ts q l d s h :
  answers e → length (take_while (through th) ts) ≤ lo_seen l →
  shards b = [d] → defT b = 1%Z → lane ts q (Some l) d s h →
  ∃ b', match drop_while (through th) ts with
        | [] => Ack e (lo_handle l) th b = (b', Ok false) ∧ ∃ d', shards b' = [d'] ∧ bare d'
        | rest => Ack e (lo_handle l) th b = (b', Ok true) ∧
            valkey_solo b' rest q
              (Some (mkLeaseOn (lo_handle l) (lo_dur l) (env_now e 0 + lo_dur l) 0))
        end.
Proof.
  intros He Hle Hs HT Hl. destruct (luaAck_solo th e ts q l d s h He Hle Hl) as (d' & Hrun).
  destruct (ln_lease _ _ _ _ _ _ Hl) as (_ & _ & Hk & _).
  exists (set_shard 0 d' b).
  assert (∀ r : bool, luaAck m0 (cu_Lease (lo_handle l)) th (nowMs e 0) d = (d', inr r) →
    Ack e (lo_handle l) th b = (set_shard 0 d' b, Ok r)) as Hgo.
  { intros r Hr. unfold Ack, scripted. rewrite (lane_route b d _ Hs), Hk. fold m0.
    by rewrite (on_one _ b d d' (Ok r) Hs (send_one e 0 _ d d' r He Hr)). }
  destruct (drop_while (through th) ts) as [|t rest]; destruct Hrun as [Hr Hd']; split; auto.
  - exists d'. cbn [set_shard shards]. by rewrite Hs.
  - destruct Hd' as (s' & h' & Hl'). by eapply solo_put.
Qed.

Lemma valkey_solo_ack e i b ts q c d x n :
  answers e → length (take_while (through i) ts) ≤ n →
  valkey_solo b ts q (Some (mkLeaseOn c d x n)) →
  ∃ b', match drop_while (through i) ts with
        | [] => Ack e c i b = (b', Ok false)
        | rest => Ack e c i b = (b', Ok true) ∧
            ∃ j, valkey_solo b' rest q (Some (mkLeaseOn c d (env_now e j + d) 0))
        end.
Proof.
  intros He Hle (sh & Hs & HT & [(_ & _ & [=] & _)|(s & h & Hl)]).
  destruct (Ack_solo i e b ts q (mkLeaseOn c d x n) sh s h He Hle Hs HT Hl) as (b' & Hb'). exists b'.
  cbn [lo_handle lo_dur] in Hb'.
  destruct (drop_while _ ts); destruct Hb' as [Ha Hb']; [done|]. split; [done|]. by exists 0.
Qed.

(** *** ReapExpired *)

(** the expired leases: that of the unit *)
Lemma lane_due now ts q l d s h :
  (UnixMilli (lo_till l) <= now)%Z → lane ts q (Some l) d s h →
  ZRANGEBYSCORE (leases d) (num now) = [m0].
Proof.
  intros Hnow Hl. destruct (ln_lease _ _ _ _ _ _ Hl) as (_ & _ & _ & _ & _ & Hls & Hx & _).
  pose proof (index_one (leases d) (λ m, alone_leases d m (ln_alone _ _ _ _ _ _ Hl))) as Hli.
  rewrite Hls in Hli.
  assert ((num now <? UnixMilli (lo_till l))%Z = false) as Hdue.
  { rewrite <- (num_exact (UnixMilli (lo_till l))) by (unfold exact in *; lia).
    rewrite num_ltb by done. apply Z.ltb_ge. lia. }
  apply Z.ltb_ge in Hdue. unfold ZRANGEBYSCORE.
  rewrite Hli, map_to_list_singleton, filter_cons, decide_True by (cbn [snd]; lia). done.
Qed.

Lemma luaReap_solo now ts q l d s h :
  (UnixMilli (lo_till l) <= now)%Z → ts ≠ [] → lane ts q (Some l) d s h →
  ∃ d' h', luaReap now d = (d', inr (1, 0)%Z) ∧ lane ts q None d' s h'.
Proof.
  intros Hnow Hts Hl. pose proof (ln_at _ _ _ _ _ _ Hl) as Hu.
  pose proof (index_one (pending_flush d) (λ m, alone_pending d m (ln_alone _ _ _ _ _ _ Hl))) as Hpi.
  rewrite (ln_pf _ _ _ _ _ _ Hl) in Hpi.
  pose proof (uo_cost _ _ _ (ua_ok _ _ _ _ _ Hu)) as Hcost.
  destruct (uo_clock _ _ _ (ua_ok _ _ _ _ _ Hu)) as [_ [f Hf]].
  assert (total_cost (tasks_of s) = length ts) as Htot
    by (rewrite (ln_tasks _ _ _ _ _ _ Hl); apply unit_costs, Hl).
  destruct (lane_length _ _ _ _ _ _ Hl) as [_ Hlen].
  unfold luaReap. rewrite run_read, (lane_due now ts q l d s h Hnow Hl).
  cbn [reap_expired]. unfold reindex. vk_run. rewrite (unit_at_hash _ _ _ _ _ Hu).
  cbn [pending_cost threshold flush_ms unclaim set_claim].
  rewrite Hcost, (ln_gate _ _ _ _ _ _ Hl), Hf, Htot. cbn [default from_option id].
  rewrite (num_exact 1), (num_exact (length ts)) by (unfold exact, many in *; lia).
  assert (0 < length ts) as Hpos by (destruct ts; [done|simpl; lia]).
  rewrite (proj2 (Z.leb_le 1 _)) by lia. cbn [orb]. vk_run. cbn [reap_expired]. vk_run.
  cbn [pending_flush set_eligible set_leases set_hash]. rewrite Hpi.
  change (ZRANGEBYSCORE ∅ (num now)) with (@nil string).
  eexists _, (unclaim h). split; [reflexivity|].
  destruct Hl as [Ha _ Hpf Hts' Hnx Hfew Hone Hg Hcnt _]. split; try done.
  - apply (alone_only d); [done|only_tac].
  - split; [look|apply Hu|apply unit_unclaimed, Hu|]. split; [look|]. left. look. by eexists.
  - split; [done|]. look. by eexists.
Qed.

Lemma valkey_solo_reap e t b ts q l :
  answers e → ts ≠ [] → (lo_till l < t)%Z → valkey_solo b ts q (Some l) →
  ∃ b', ReapExpired e t b = (b', (1, 0, None)%Z) ∧ valkey_solo b' ts q None.
Proof.
  intros He Hts Ht (d & Hs & HT & [(_ & _ & [=] & _)|(s & h & Hl)]).
  assert (UnixMilli (lo_till l) <= UnixMilli t)%Z as Hle.
  { unfold UnixMilli. pose proof (Z.div_le_mono (lo_till l) t Millisecond). unfold Millisecond in *. lia. }
  destruct (luaReap_solo _ ts q l d s h Hle Hts Hl) as (d' & h' & Hrun & Hl').
  exists (set_shard 0 d' b). split; [|by eapply solo_put].
  unfold ReapExpired. rewrite Hs. cbn [length reap_shards].
  rewrite (on_one _ b d d' (Ok (1, 0)%Z) Hs (send_one e 0 _ d d' _ He Hrun)). done.
Qed.

#[export] Instance Valkey_Solo : Solo Backend.
Proof.
  refine {| solo := valkey_solo; good := answers |}.
  - intros. by apply valkey_solo_enqueue.
  - intros. by apply valkey_solo_claim.
  - intros. by apply valkey_solo_drain.
  - intros. by eapply valkey_solo_ack.
  - intros. by eapply valkey_solo_reap.
Defined.

(** ** The crash proof *)

(** The factory of tests/proofs/proofs_test.go: one emptied primary; [b0] is not used, the
    list of addresses not being empty. *)
Definition one_primary (b0 : Backend) (c : Config) : Backend :=
  default b0 (New (mkOptions ["a0"] (Threshold c) (MaxWait c) (cf_MaxAttempts c))
                (λ _, empty_shard)).

Lemma one_primary_solo b0 : valkey_solo (one_primary b0 (mkConf 1 Hour 3)) [] 0 None.
Proof. exists empty_shard. split; [done|]. split; [done|]. left. by split_and!. Qed.

(** C12: The crash proof on Valkey, at every size (tests/proofs/ordering_test.go).  On one
    primary that answers, with a clock that does not go back from one call to the next and
    whose milliseconds a double holds, the test passes for any number [n] of tasks and any
    crash point [k < n]: the entries left pending by the crashed worker are claimed again,
    and what the two workers processed is exactly the [n] tasks, each once, in order. *)
Theorem valkey_survives_a_crash (w : nat → Env) (n k : nat) (b0 : Backend) :
  (∀ i, answers (w i)) → forward w → k < n → (n ≤ many)%Z →
  ∃ st, orderingUnderCrash (one_primary b0) w n k (0, b0) = Pass (tt, st).
Proof.
  intros Hw Hf Hk Hn. by apply orderingUnderCrash_pass; [..|apply one_primary_solo].
Qed.

(** A primary on a clock that stands still, after the Unix epoch. *)
Definition vk_still (i : nat) : Env := env_at ((epoch_ms + 1000000) * Millisecond).

Lemma vk_still_answers i : answers (vk_still i).
Proof. split; [done|]. intros j. by vm_compute. Qed.

Lemma vk_still_forward : forward vk_still.
Proof. intros i a. cbn [vk_still env_at env_now]. lia. Qed.

Lemma valkey_survives_a_crash_witness :
  forward vk_still ∧
  ∃ st, TestOrderingUnderCrash (one_primary (mkBackend [] 0 0 0 0 0)) vk_still
    (0, mkBackend [] 0 0 0 0 0) = Pass (tt, st).
Proof.
  split; [apply vk_still_forward|].
  refine (valkey_survives_a_crash vk_still 10 3 _ _ vk_still_forward _ _); [|lia|done].
  intros i. apply vk_still_answers.
Defined.

(** ** A large batch *)

(** [be.(queue.Stater).Stats(ctx)] *)
Definition stats (w : nat → Env) : test (S := Backend) Stats := λ '(i, s),
  match be_Stats (w i) s with Ok st => Pass (st, (Datatypes.S i, s)) | _ => Fatal "stats" end.

(** [TestAckPagesLargePEL], with [n] tasks; the source has [n = 600], more than two pages of
    256 pending ids *)
Definition ackPagesLargePEL (b0 : Backend) (w : nat → Env) (n : nat) : test (S := Backend) () :=
  build (one_primary b0) (mkConf 1 Hour 3);;
  enqueueN w n 1;;
  c ← claimed w "w" Minute "claim";
  tasks ← drain w c n;
  require (bool_decide (length tasks = n)) "drained, want n";;
  q ← seq_at tasks (n - 1);
  held ← ack w c q;
  require (negb held) "expected release after acking all tasks";;
  st ← stats w;
  require ((PendingTasks st =? 0)%Z && (TotalUnits st =? 0)%Z) "orphaned state after full ack".

(** a primary with nothing on it reports nothing *)
Lemma bare_stats e b d :
  shards b = [d] → bare d → env_net e 0 = NoFault →
  ∃ st, be_Stats e b = Ok st ∧ PendingTasks st = 0%Z ∧ TotalUnits st = 0%Z.
Proof.
  intros Hs [Hc Hp] Hn. eexists. split; [reflexivity|].
  assert (∀ m, eligible d !! m = None ∧ pending_flush d !! m = None ∧ leases d !! m = None) as Hm.
  { intros m. specialize (Hc m). unfold cell_of, no_cell in Hc. by simplify_eq. }
  assert (size (eligible d) = 0 ∧ size (pending_flush d) = 0 ∧ size (leases d) = 0) as (H1 & H2 & H3)
    by (split_and!; apply map_size_empty_iff, map_empty; intros m; apply (Hm m)).
  rewrite Hs. cbn [stats_shards]. unfold stats_shard. by rewrite Hn, H1, H2, H3, Hp.
Qed.

(** A batch larger than the acknowledgement's scan page leaves nothing behind
    (internal/valkey/backend_test.go).  On one primary that answers, [n] tasks of one unit
    are claimed, drained in a single batch and acknowledged through the last: the test
    passes for every [n] from 1 up, so the paged scan of the pending list has reached every
    entry, the unit is released and gone, and the primary's counters are zero. *)
Lemma large_batch_leaves_nothing (w : nat → Env) (n : nat) (b0 : Backend) :
  (∀ i, answers (w i)) → 0 < n → (n ≤ many)%Z →
  ∃ st, ackPagesLargePEL b0 w n (0, b0) = Pass (tt, st).
Proof.
  intros Hw Hpos Hn. assert (∀ i, good (S := Backend) (w i)) as Hg by exact Hw.
  unfold ackPagesLargePEL. set (b1 := one_primary b0 (mkConf 1 Hour 3)).
  rewrite (bind_pass _ _ _ tt (0, b1)) by done.
  destruct (enqueueN_pass w Hg n 0 0 b1 [] ltac:(lia) (one_primary_solo b0)) as (b2 & H2 & Hs2).
  cbn [app Nat.add] in H2, Hs2. rewrite (bind_pass _ _ _ _ _ H2). clear H2.
  set (ts := tasks_from (λ _, "x") 0 n) in *.
  assert (length ts = n) as Hl by apply tasks_from_length.
  assert (ts ≠ []) as Hne by (by apply tasks_from_nonempty).
  assert (whole Minute) as HM by (split; [unfold Minute, Second, Hour; lia|by exists 60000%Z]).
  destruct (claimed_pass w Hg "claim" "w" Minute n b2 ts _ HM ltac:(done) Hne Hs2)
    as (b3 & c & a & H3 & Hs3).
  rewrite (bind_pass _ _ _ _ _ H3). clear H3.
  destruct (drain_pass w Hg n (Datatypes.S n) b3 ts _ _ ltac:(lia) Hs3) as (b4 & H4 & Hs4).
  cbn [lo_handle lo_dur lo_till saw] in H4, Hs4. rewrite Nat2Z.id, Hl, Nat.min_id in Hs4.
  rewrite (bind_pass _ _ _ _ _ H4), Nat2Z.id, take_ge, Hl, bool_decide_true by lia. clear H4.
  rewrite (bind_pass _ _ _ tt (Datatypes.S (Datatypes.S n), b4)) by done.
  assert (drop_while (through (n - 1)) ts = []) as Hdrop.
  { pose proof (tasks_from_drop (λ _, "x") n 0) as Hd. by rewrite Nat.add_0_r in Hd. }
  assert (seq_at (S := Backend) ts (n - 1) (Datatypes.S (Datatypes.S n), b4) =
    Pass ((n - 1)%Z, (Datatypes.S (Datatypes.S n), b4))) as H5.
  { unfold seq_at, ts, tasks_from. rewrite list_lookup_fmap, lookup_seq_lt by lia. cbn.
    by replace (Z.of_nat (n - 1)) with (n - 1)%Z by lia. }
  rewrite (bind_pass _ _ _ _ _ H5). clear H5.
  assert (length (take_while (through (n - 1)) ts) ≤ n) as Hseen
    by (rewrite <- Hl; apply take_while_length).
  destruct Hs4 as (d & Hd & HT & [(_ & _ & [=] & _)|(s & h & Hlane)]).
  destruct (Ack_solo (n - 1) _ b4 ts _ (mkLeaseOn c Minute _ n) d s h (Hw (Datatypes.S (Datatypes.S n)))
    Hseen Hd HT Hlane) as (b5 & Hack).
  rewrite Hdrop in Hack. destruct Hack as (Hack & d5 & Hd5 & Hbare). cbn [lo_handle] in Hack.
  rewrite (bind_pass _ _ _ false (Datatypes.S (Datatypes.S (Datatypes.S n)), b5))
    by (unfold ack; by rewrite (bind_pass _ _ _ _ _ (call_pass _ _ _ _ _ _ Hack))).
  destruct (bare_stats (w (Datatypes.S (Datatypes.S (Datatypes.S n)))) b5 d5 Hd5 Hbare (proj1 (Hw _) 0))
    as (st & Hst & Hp & Ht).
  cbn [require negb]. rewrite (bind_pass _ _ _ tt (Datatypes.S (Datatypes.S (Datatypes.S n)), b5)) by done.
  assert (stats w (Datatypes.S (Datatypes.S (Datatypes.S n)), b5) =
    Pass (st, (Datatypes.S (Datatypes.S (Datatypes.S (Datatypes.S n))), b5))) as H6
    by (unfold stats; by rewrite Hst).
  eexists. rewrite (bind_pass _ _ _ _ _ H6). by rewrite Hp, Ht.
Qed.

Lemma large_batch_leaves_nothing_witness :
  ∃ st, ackPagesLargePEL (mkBackend [] 0 0 0 0 0) vk_still 600
    (0, mkBackend [] 0 0 0 0 0) = Pass (tt, st).
Proof.
  refine (large_batch_leaves_nothing vk_still 600 _ vk_still_answers _ _); [lia|done].
Defined.
