(* ===== verification/ValkeyLive.v ===== *)
(** ValkeyLive: liveness of the Valkey driver.  What a pass of the reaper does to the
    indexes of a primary, and that after it a claim finds the unit, or one that waits at
    least as long: no unit is stranded in an index nobody looks at. *)
From S2P Require Import Prelude Queue Contract Routing Valkey ValkeyFacts ValkeyContract ValkeyProps.
From S2P Require Import System SystemFacts.

(** ** The reaper on one primary *)

(** the gate of a unit is open for the reaper: it has enough work or its flush is due *)
Definition opens (now : Z) (h : hash) : Prop :=
  (num (default 0 (threshold h)) <= num (default 0 (pending_cost h)))%Z ∨
  (num (default 0 (flush_ms h)) <= now)%Z.

(** a unit whose turn has come at [now], in milliseconds: its lease has run out and its
    gate is open, or it is free and in [eligible], or its flush is due *)
Definition overdue (now : Z) (m : string) (d : shard) : Prop :=
  match leases d !! m with
  | Some x => (0 <= x <= now)%Z ∧ (is_Some (eligible d !! m) ∨ opens now (hash_of m d))
  | None => is_Some (eligible d !! m) ∨ ∃ f, pending_flush d !! m = Some f ∧ (0 <= f <= now)%Z
  end.

Lemma ZRANGEBYSCORE_in (z : gmap string Z) hi m x :
  z !! m = Some x → (0 <= x <= hi)%Z → m ∈ ZRANGEBYSCORE z hi.
Proof.
  intros Hm Hx. unfold ZRANGEBYSCORE. apply list_elem_of_fmap. exists (m, x). split; [done|].
  rewrite merge_sort_Permutation. apply list_elem_of_filter. split; [done|].
  by apply elem_of_map_to_list.
Qed.

Lemma ZRANGEBYSCORE_score (z : gmap string Z) hi m :
  m ∈ ZRANGEBYSCORE z hi → ∃ x, z !! m = Some x ∧ (0 <= x <= hi)%Z.
Proof.
  unfold ZRANGEBYSCORE. intros ([m' x] & -> & Hin)%list_elem_of_fmap.
  rewrite merge_sort_Permutation in Hin. apply list_elem_of_filter in Hin as [Hx Hin].
  apply elem_of_map_to_list in Hin. by exists x.
Qed.

(** one expired lease *)
Lemma reap_one x now n d ms {d' r} :
  reap_expired (x :: ms) now n d = (d', inr r) →
  ∃ d1, reap_expired ms now (n + 1) d1 = (d', inr r) ∧ only x d d1 ∧
    hash_of x d1 = unclaim (hash_of x d) ∧
    (is_Some (eligible d !! x) ∨ opens now (hash_of x d) → is_Some (eligible d1 !! x)).
Proof.
  cbn [reap_expired]. unfold reindex. vk_run. unfold opens.
  destruct (_ || _) eqn:Hc; vk_run; intros Hr; eexists; (split; [exact Hr|]);
    (split; [only_tac|]); (split; [unfold hash_of; look|]).
  - intros _. look. by eexists.
  - apply orb_false_iff in Hc as [H1 H2]. apply Z.leb_gt in H1. apply Z.leb_gt in H2.
    cbn in H1, H2. intros [He|[Ho|Ho]]; [look|lia|lia].
Qed.

(** [reap_expired]: who was in [eligible] stays there, and so comes who had an expired
    lease and an open gate *)
Lemma reap_expired_eligible now ms n d d' r m :
  reap_expired ms now n d = (d', inr r) →
  (is_Some (eligible d !! m) → is_Some (eligible d' !! m)) ∧
  (m ∉ ms → cell_of m d' = cell_of m d) ∧
  (m ∈ ms → opens now (hash_of m d) → is_Some (eligible d' !! m)).
Proof.
  revert n d. induction ms as [|x ms IH]; intros n d.
  { intros [= <- _]. split_and!; [done|done|by intros ?%elem_of_nil]. }
  intros (d1 & Hr & Ho & Hh & Hx)%reap_one. destruct (IH _ _ Hr) as (IH1 & IH2 & IH3).
  destruct (decide (m = x)) as [->|Hne].
  - split; [intros He; apply IH1, Hx; by left|]. split; [intros Hn; by destruct Hn; left|].
    intros _ Hop. apply IH1, Hx. by right.
  - pose proof (Ho m Hne) as Hc. assert (hash_of m d1 = hash_of m d) as Hhm
      by (unfold hash_of; by rewrite (only_hash x d d1 m Ho Hne)).
    assert (eligible d1 !! m = eligible d !! m) as Hel by exact (f_equal c_el Hc).
    split; [intros He; apply IH1; by rewrite Hel|].
    split; [intros Hn; rewrite IH2; [done|by intros ?; apply Hn; right]|].
    intros [->|Hin]%elem_of_cons Hop; [done|]. apply IH3; [done|by rewrite Hhm].
Qed.

(** [reap_due]: who was in [eligible] stays there, and so come the due ones *)
Lemma reap_due_eligible ms n d d' r m :
  reap_due ms n d = (d', inr r) →
  (is_Some (eligible d !! m) ∨ m ∈ ms) → is_Some (eligible d' !! m).
Proof.
  revert n d. induction ms as [|x ms IH]; intros n d.
  { intros [= <- _] [He|?%elem_of_nil]; done. }
  cbn [reap_due]. rewrite run_read. destruct (pending_flush d !! x) as [sc|] eqn:Hsc; [|done].
  rewrite (run_need _ _ _ _ eq_refl). vk_run. intros Hr Hm. eapply IH; [exact Hr|].
  cbn. destruct (decide (m = x)) as [->|Hne].
  - left. rewrite lookup_insert_eq. by eexists.
  - rewrite lookup_insert_ne by done. destruct Hm as [He|[->|Hin]%elem_of_cons]; [by left|done|by right].
Qed.

Lemma luaReap_eligible now d d' r m :
  (0 <= now < exact)%Z → luaReap now d = (d', inr r) → overdue now m d → is_Some (eligible d' !! m).
Proof.
  intros Hnow. unfold luaReap. rewrite run_read.
  rewrite (num_exact now) by (unfold exact in *; lia).
  set (ms := ZRANGEBYSCORE (leases d) now).
  destruct (reap_expired ms now 0 d) as [d1 [msg|r1]] eqn:H1; [by rewrite (bind_inl _ _ _ _ _ H1)|].
  rewrite (bind_inr _ _ _ _ _ H1), run_read.
  destruct (reap_due (ZRANGEBYSCORE (pending_flush d1) now) 0 d1) as [d2 [msg|r2]] eqn:H2;
    [by rewrite (bind_inl _ _ _ _ _ H2)|].
  rewrite (bind_inr _ _ _ _ _ H2). intros [= <- _].
  destruct (reap_expired_eligible now ms 0 d d1 r1 m H1) as (He & Hout & Hin).
  unfold overdue. destruct (leases d !! m) as [x|] eqn:Hl.
  - intros [Hx Hop]. apply (reap_due_eligible _ _ _ _ _ m H2). left.
    destruct Hop as [Hel|Hop]; [by apply He|]. apply Hin; [|done]. by apply (ZRANGEBYSCORE_in _ _ _ x).
  - assert (m ∉ ms) as Hm.
    { intros (x & Hx & _)%ZRANGEBYSCORE_score. congruence. }
    pose proof (Hout Hm) as Hc. intros [Hel|(f & Hf & Hfn)];
      apply (reap_due_eligible _ _ _ _ _ m H2); [left; by apply He|right].
    assert (pending_flush d1 !! m = pending_flush d !! m) as Hpf by exact (f_equal c_pf Hc).
    apply (ZRANGEBYSCORE_in _ _ _ f); [|done]. by rewrite Hpf.
Qed.

(** ** The reaper on every primary *)

Lemma reap_shards_at n h e now (todo j0 : nat) b r f j d :
  vk_ok n h b → quiet e → j0 + todo = length (shards b) → shards b !! j = Some d →
  ∃ d', shards (reap_shards e now todo j0 b r f).1 !! j = Some d' ∧
    (j < j0 → d' = d) ∧ (j0 ≤ j → ∃ x, luaReap (UnixMilli now) d = (d', inr x)).
Proof.
  intros Hb He. revert j0 b r f d Hb. induction todo as [|todo IH]; intros j0 b r f d Hb Hlen Hj;
    cbn [reap_shards].
  { exists d. split; [done|]. split; [done|]. apply lookup_lt_Some in Hj. lia. }
  destruct (lookup_lt_is_Some_2 (shards b) j0) as [d0 Hd0]; [lia|].
  destruct (luaReap_run _ j0 n (UnixMilli now) d0 (vo_shard _ _ _ Hb _ _ Hd0)) as (d0' & [r1 f1] & Hrun & Hrp).
  rewrite (on_shard_run j0 _ b d0 d0' (Ok (r1, f1))) by (done || by apply send_quiet).
  destruct (vk_reaped n h b j0 d0 d0' Hb Hd0 Hrp) as (Hb1 & _ & _ & _ & Hl).
  destruct (decide (j = j0)) as [->|Hne].
  - assert (d0 = d) as -> by congruence.
    destruct (IH (Datatypes.S j0) _ (i64 (r + r1)) (i64 (f + f1)) d0' Hb1) as (d' & Hd' & Hlt & _);
      [lia|by apply vk_shards_same with (d := d)|].
    exists d'. rewrite Hlt in * by lia. split; [done|]. split; [lia|]. intros _. by eexists.
  - destruct (IH (Datatypes.S j0) _ (i64 (r + r1)) (i64 (f + f1)) d Hb1) as (d' & Hd' & Hlt & Hge);
      [lia|cbn; by rewrite list_lookup_insert_ne|].
    exists d'. split; [done|]. split; intros ?; [apply Hlt|apply Hge]; lia.
Qed.

Lemma reap_shards_length e now (todo j : nat) b r f :
  length (shards (reap_shards e now todo j b r f).1) = length (shards b).
Proof.
  revert j b r f. induction todo as [|todo IH]; intros j b r f; cbn [reap_shards]; [done|].
  assert (∀ A (p : shard → shard * res A), length (shards (on_shard j p b).1) = length (shards b)) as Hl.
  { intros A p. unfold on_shard. destruct (shards b !! j) as [d|]; [|done].
    destruct (p d). cbn. by rewrite length_insert. }
  specialize (Hl _ (send e j (luaReap (UnixMilli now)))).
  destruct (on_shard _ _ b) as [b' [[r1 f1]|err|]]; cbn [fst] in *; by rewrite ?IH.
Qed.

Lemma ReapExpired_eligible n h e now b j d m :
  vk_ok n h b → quiet e → (0 <= UnixMilli now < exact)%Z → shards b !! j = Some d →
  overdue (UnixMilli now) m d →
  ∃ d', shards (ReapExpired e now b).1 !! j = Some d' ∧ is_Some (eligible d' !! m).
Proof.
  intros Hb He Hnow Hj Ho.
  destruct (reap_shards_at n h e now (length (shards b)) 0 b 0 0 j d Hb He eq_refl Hj)
    as (d' & Hd' & _ & Hrun). destruct Hrun as [x Hrun]; [lia|].
  exists d'. split; [exact Hd'|]. by eapply luaReap_eligible.
Qed.

(** ** The claim *)

(** the first of a sorted set has the least score *)
Lemma zmin_least l best x :
  zmin l best = Some x →
  (∀ y, y ∈ l → (x.2 <= y.2)%Z) ∧ (∀ y, best = Some y → (x.2 <= y.2)%Z).
Proof.
  assert (∀ a b : string * Z, if zlt a b then (a.2 <= b.2)%Z else (b.2 <= a.2)%Z) as Hlt.
  { intros a b. destruct (zlt a b) eqn:Hz; unfold zlt in Hz.
    - apply orb_true_iff in Hz as [Hz|Hz]; b2p; lia.
    - apply orb_false_iff in Hz as [Hz _]. b2p. lia. }
  revert best. induction l as [|y l IH]; intros best; cbn [zmin].
  { intros ->. split; [by intros ? ?%elem_of_nil|]. by intros z [= <-]. }
  intros [H1 H2]%IH. destruct best as [z|].
  - pose proof (Hlt y z) as Hyz. destruct (zlt y z).
    + specialize (H2 y eq_refl). split; [intros w [->|Hw]%elem_of_cons; auto|]. intros ? [= <-]. lia.
    + specialize (H2 z eq_refl). split; [intros w [->|Hw]%elem_of_cons; [lia|auto]|]. by intros ? [= <-].
  - split; [intros w [->|Hw]%elem_of_cons; auto|done].
Qed.

Lemma luaClaim_least worker tok ms now d d' m :
  luaClaim worker tok ms now d = (d', inr (Some m)) →
  ∃ f, eligible d !! m = Some f ∧ ∀ m' f', eligible d !! m' = Some f' → (f <= f')%Z.
Proof.
  unfold luaClaim. setoid_rewrite run_read.
  destruct (zmin (map_to_list (eligible d)) None) as [[m0 f]|] eqn:Hz; [|by intros [=]].
  vk_run. intros Hr. assert (m0 = m) as -> by (by injection Hr).
  destruct (zmin_least _ _ _ Hz) as [Hl _].
  apply zmin_some in Hz as [Hin|]; [|done]. apply elem_of_map_to_list in Hin.
  exists f. split; [done|]. intros m' f' Hm'. apply (Hl (m', f')). by apply elem_of_map_to_list.
Qed.

(** What [Claim] hands out is first in [eligible] on its primary; it hands out nothing only
    when [eligible] is empty on every primary it consulted. *)
Lemma claim_turns_first n h b e worker tok x rr0 (todo i : nat) :
  vk_ok n h b → quiet e → (0 <= rr0)%Z → (rr0 + 1 + i + todo <= int64_max)%Z →
  match (claim_turns e worker tok x rr0 todo i b).2 with
  | Ok (Some c) => ∃ j d f, shards b !! j = Some d ∧ route b (cu_Key c) = j ∧
      pending b (cu_Key c) ≠ [] ∧ eligible d !! member (cu_Key c) = Some f ∧
      ∀ m' f', eligible d !! m' = Some f' → (f <= f')%Z
  | Ok None => ∀ z j d, i ≤ z < i + todo → rotation rr0 (length (shards b)) z = Some j →
      shards b !! j = Some d → eligible d = ∅
  | _ => False
  end.
Proof.
  intros Hb He H0. revert i. induction todo as [|todo IH]; intros i Hmax; cbn [claim_turns];
    [cbn [snd]; intros; lia|].
  destruct (rotation_nonneg rr0 (length (shards b)) i) as [Hrot Hlt];
    [done|unfold int64_max in *; lia|apply (vo_len _ _ _ Hb)|].
  rewrite Hrot. set (j := Z.to_nat _) in *.
  destruct (lookup_lt_is_Some_2 _ _ Hlt) as [d Hd]. pose proof (vo_shard _ _ _ Hb _ _ Hd) as Hok.
  destruct (luaClaim_run _ j n d worker tok (Milliseconds x) (nowMs e (Datatypes.S i)) Hok)
    as [[Hemp Hrun]|(m & d' & Hrun & _ & Hne & _)].
  - rewrite (on_shard_run j _ b d d (Ok None)) by (done || by apply send_quiet).
    rewrite (vk_set_shard_same j d b Hd). specialize (IH (Datatypes.S i) ltac:(lia)).
    destruct (claim_turns _ _ _ _ _ _ _ _) as [b' [[c|]|err|]]; cbn [snd] in *; try done.
    intros z j' d1 Hz Hr Hd1. destruct (decide (z = i)) as [->|Hzi]; [congruence|].
    apply (IH z j' d1); [lia|done|done].
  - rewrite (on_shard_run j _ b d d' (Ok (Some m))) by (done || by apply send_quiet).
    destruct (luaClaim_least _ _ _ _ _ _ _ Hrun) as (f & Hf & Hleast).
    destruct (sh_home _ _ _ _ Hok m) as (k & Hk & -> & Hr).
    { apply not_eq_None_Some. intros Hs. apply Hne. unfold tasks, stream_of. by rewrite Hs. }
    rewrite bool_decide_false by apply member_nonempty. cbn [snd cu_Key].
    rewrite (splitMember_plain k) by done. exists j, d, f. split_and!; try done.
    by rewrite (at_pending b j d Hd).
Qed.

(** C26: No unit is stranded on Valkey.  Once the lease on a unit has run out and it has
    enough work or its flush is due, or it is free and eligible or its flush is due, a pass
    of the reaper followed by a claim on primaries that answer hands out a unit that has
    work, whichever primary it is on; and if it is on the same primary it is, by the scores
    in that primary's index of eligible units, that unit or one that waited as long. *)
Theorem valkey_no_unit_is_stranded n h b e e' w x now j d m :
  vk_ok n h b → (n < vk_capacity)%Z → quiet e → quiet e' → (0 <= UnixMilli now < exact)%Z →
  shards b !! j = Some d → overdue (UnixMilli now) m d →
  ∃ b' c j' d' f, Claim e' w x (ReapExpired e now b).1 = (b', Ok (Some c)) ∧
    pending b (cu_Key c) ≠ [] ∧ route b (cu_Key c) = j' ∧
    shards (ReapExpired e now b).1 !! j' = Some d' ∧ eligible d' !! member (cu_Key c) = Some f ∧
    (j' = j → ∃ g, eligible d' !! m = Some g ∧ (f <= g)%Z).
Proof.
  intros Hb Hn He He' Hnow Hd Ho.
  destruct (ReapExpired_eligible n h e now b j d m Hb He Hnow Hd Ho) as (d1 & Hd1 & g & Hg).
  destruct (vk_reap n h e now (length (shards b)) 0 b 0 0 Hb He eq_refl) as (Hb1 & Hpend & _).
  fold (ReapExpired e now b) in Hb1, Hpend. set (b1 := (ReapExpired e now b).1) in *.
  unfold Claim. pose proof (vo_rr _ _ _ Hb1) as Hrr. pose proof (vo_len _ _ _ Hb1) as Hlen.
  destruct (vk_turned n h b1 Hb1 Hn) as (Hb2 & -> & ->). fold (turned b1).
  pose proof (claim_turns_first (n + 1) h (turned b1) e' w (claim_token (tokens b1 + 1) w) x (rr b1)
    (length (shards b1)) 0 Hb2 He' ltac:(lia)
    ltac:(unfold vk_capacity, int64_max in *; lia)) as Ht.
  destruct (claim_turns _ _ _ _ _ _ _ _) as [b' [[c|]|err|]]; cbn [snd] in Ht; try done.
  - destruct Ht as (j' & d' & f & Hd' & Hr & Hne & Hf & Hleast).
    exists b', c, j', d', f. split; [done|]. split; [by rewrite <- Hpend|].
    assert (length (shards b1) = length (shards b)) as Hlb by apply reap_shards_length.
    split; [by rewrite <- Hr; unfold route; cbn [turned shards]; rewrite Hlb|]. split; [done|]. split; [done|].
    intros ->. exists g. cbn [turned shards] in Hd'. assert (d' = d1) as -> by congruence.
    split; [done|]. by eapply Hleast.
  - destruct (rotation_covers (rr b1) (length (shards b1)) j) as (i & Hi & Hrot);
      [lia|unfold vk_capacity, int64_max in *; lia|by eapply lookup_lt_Some|].
    specialize (Ht i j d1 ltac:(lia) Hrot Hd1). by rewrite Ht, lookup_empty in Hg.
Qed.

(** A unit claimed by [w0], which stalls; two seconds past the lease. *)
Definition vk_stalled : sys Backend :=
  default (init vk_begin) (exec (init vk_begin) (take 3 vk_acts)).
Definition stalled_shard : shard :=
  default empty_shard (shards (st vk_stalled) !! route (st vk_stalled) vk_key).

Lemma vk_stalled_ok : vk_ok (calls vk_stalled) (toks vk_stalled) (st vk_stalled).
Proof.
  assert (reachable vk_begin vk_stalled) as Hr.
  { apply (exec_reachable _ (take 3 vk_acts) (init vk_begin)).
    - apply acts_ok_Forall. intros s. unfold vk_acts.
      repeat (apply Forall_cons_2; [repeat split|]); [vm_compute; congruence|apply Forall_nil_2].
    - apply rtc_refl.
    - vm_compute. reflexivity. }
  destruct (vk_New_ok (vk_opts 1 Second 3) vk_begin eq_refl eq_refl) as (Hok & _ & Hp).
  exact (ok_inv _ (reachable_ok vk_begin vk_stalled Hok Hp Hr)).
Qed.

Lemma stalled_overdue : overdue (UnixMilli (env_now (vk_env 3000) 0)) (member vk_key) stalled_shard.
Proof.
  unfold overdue. assert (leases stalled_shard !! member vk_key = Some 1000001001%Z) as ->
    by (vm_compute; reflexivity).
  split; [vm_compute; split; congruence|]. right. left. apply Z.leb_le. vm_compute. reflexivity.
Qed.

Lemma valkey_no_unit_is_stranded_witness :
  ∃ b' c, Claim (vk_env 3001) "w1" Second
      (ReapExpired (vk_env 3000) (env_now (vk_env 3000) 0) (st vk_stalled)).1 = (b', Ok (Some c)) ∧
    pending (st vk_stalled) (cu_Key c) ≠ [].
Proof.
  destruct (valkey_no_unit_is_stranded (calls vk_stalled) (toks vk_stalled) (st vk_stalled)
    (vk_env 3000) (vk_env 3001) "w1" Second (env_now (vk_env 3000) 0)
    (route (st vk_stalled) vk_key) stalled_shard (member vk_key)) as (b' & c & _ & _ & _ & Hc & Hp & _);
    [exact vk_stalled_ok|vm_compute; reflexivity|done|done|vm_compute; split; congruence
    |vm_compute; reflexivity|exact stalled_overdue|].
  exists b', c. split; [exact Hc|exact Hp].
Defined.
