(* ===== verification/ValkeyCut.v ===== *)
(** ValkeyCut: calls of the Valkey driver that are cut short (internal/valkey/backend.go on a
    context that is done): a script is executed or not, whatever becomes of its reply; a claim
    stops at the primary it was at; a drain, which drops the errors of its reads, returns what
    it has. *)
From S2P Require Import Prelude Queue Contract Cut Routing Valkey ValkeyFacts ValkeyContract.

(** a context that is done stays done: after the first round trip it cuts nothing is sent *)
Definition done_stays (e : Env) : Prop :=
  ∀ i j, i < j → env_net e i ≠ NoFault → ∃ msg, env_net e j = Lost msg.

(** ** One primary *)

Section drain.
Context (N j : nat) (n : Z) (d : shard) (m tok : string) (max : Z) (es1 es2 : list entry) (s : stream).
Context (h : hash) (Hd : shard_ok N j n d) (Hu : unit_at n m d s h) (Hp : parts s es1 es2).
Context (Hl : lease m d = Some tok) (Hmax : (0 < max)%Z).

(** the drain of a holder, once the orphaned entries are read *)
Lemma drain_shard_rest e :
  env_net e 0 = NoFault →
  drain_shard e m tok max d =
    let r1 := (send e 1 (XAUTOCLAIM m max) d).2 in
    let '(d', more) :=
      if (length (dropped r1) <? max)%Z then
        let '(d, r2) := send e 2 (XREADGROUP m (max - length (dropped r1))) d in (d, dropped r2)
      else (d, []) in
    (d', Ok (merge_sort seq_le (entryToTask <$> dropped r1 ++ more))).
Proof.
  intros H0. unfold drain_shard, send at 1. rewrite H0. unfold read at 1. fold (lease m d).
  rewrite Hl, bool_decide_true by done.
  pose proof (send_state e 1 (XAUTOCLAIM m max) d) as Hs.
  rewrite (XAUTOCLAIM_same N j n d m Hd) in Hs.
  destruct (send e 1 _ d) as [d1 r1]. cbn [fst] in Hs. by destruct Hs as [-> | ->].
Qed.

Lemma orphans e :
  (send e 1 (XAUTOCLAIM m max) d).2 =
    match env_net e 1 with
    | NoFault => Ok (take (Z.to_nat max) es1)
    | Lost msg | Unacked msg => Err (ErrDriver msg)
    end.
Proof.
  unfold send. rewrite (XAUTOCLAIM_run m max s es1 es2 d (ua_stream _ _ _ _ _ Hu) Hp Hmax).
  by destruct (env_net e 1).
Qed.

Lemma first_tasks x :
  x ≤ length es1 → merge_sort seq_le (entryToTask <$> take x es1) = take x (tasks m d).
Proof.
  intros Hx. destruct (uo_seqs _ _ _ (ua_ok _ _ _ _ _ Hu)) as (b & _ & Hc & _).
  unfold tasks. rewrite (unit_at_stream _ _ _ _ _ Hu). unfold tasks_of in *.
  rewrite (p_entries _ _ _ Hp), fmap_app in *. rewrite take_app_le by (rewrite length_fmap; lia).
  rewrite fmap_take. apply (sort_consecutive b). apply consecutive_app in Hc as [Hc _].
  rewrite <- (take_drop x) in Hc. by apply consecutive_app in Hc as [Hc _].
Qed.

(** a drain that was cut after the check: the first tasks delivered before, or none *)
Lemma drain_held_cut e :
  done_stays e → env_net e 0 = NoFault →
  let r := drain_shard e m tok max d in
  r = drain_shard (answered e) m tok max d ∨
  ∃ x, r.2 = Ok (take x (tasks m d)) ∧ x ≤ handed m d.
Proof.
  intros He H0. rewrite !drain_shard_rest, !orphans by done. cbv zeta. cbn [env_net answered].
  assert (handed m d = length es1) as ->
    by (unfold handed; by rewrite (unit_at_stream _ _ _ _ _ Hu), (p_pel _ _ _ Hp), length_fmap).
  destruct (env_net e 1) eqn:H1; cbn [dropped].
  - case_goal; [|by left]. unfold send. change (env_net (answered e) 2) with NoFault.
    destruct (env_net e 2); [by left|right..]; cbn [dropped snd]; rewrite app_nil_r;
      exists (Nat.min (Z.to_nat max) (length es1)); (split; [f_equal|lia]);
      rewrite <- first_tasks by lia; do 2 f_equal;
      by rewrite <- take_take, firstn_all.
  - right. exists 0. destruct (He 1 2) as [msg' H2]; [lia|congruence|]. unfold send. rewrite H2.
    cbn. split; [by case_goal|lia].
  - right. exists 0. destruct (He 1 2) as [msg' H2]; [lia|congruence|]. unfold send. rewrite H2.
    cbn. split; [by case_goal|lia].
Qed.
End drain.

Lemma drain_shard_cut N j n e m tok max d :
  shard_ok N j n d → done_stays e → (0 < max)%Z →
  let r := drain_shard e m tok max d in
  r = drain_shard (answered e) m tok max d ∨ r.2 = Err ErrLeaseLost ∨
  ∃ x, r.2 = Ok (take x (tasks m d)) ∧ x ≤ handed m d.
Proof.
  intros Hd He Hmax r. subst r. destruct (env_net e 0) eqn:H0.
  2,3: right; left; unfold drain_shard, send at 1; by rewrite H0.
  destruct (decide (lease m d = Some tok)) as [Hl|Hl].
  - destruct (unit_of_lease N j n m d tok Hd Hl) as (s & h & Hu & _).
    destruct (uo_parts _ _ _ (ua_ok _ _ _ _ _ Hu)) as (es1 & es2 & Hp).
    destruct (drain_held_cut N j n d m tok max es1 es2 s h Hd Hu Hp Hl Hmax e He H0); auto.
  - right. left. unfold drain_shard, send at 1. rewrite H0. unfold read at 1. fold (lease m d).
    destruct (lease m d) as [t|]; [|done]. by rewrite bool_decide_false by congruence.
Qed.

(** ** The driver *)

Lemma set_shard_id j d b : shards b !! j = Some d → set_shard j d b = b.
Proof. intros Hd. unfold set_shard. rewrite list_insert_id by done. by destruct b. Qed.

Lemma scripted_cut e c {A} (p : script A) b d :
  shards b !! route b (cu_Key c) = Some d → cut_at b (scripted e c p b) (scripted (answered e) c p b).
Proof.
  intros Hd. unfold scripted, on_shard. rewrite Hd. unfold send.
  change (env_net (answered e)) with (λ _ : nat, NoFault). cbv beta iota.
  assert (∀ msg, ∃ err, leaseLost (Err (ErrDriver msg)) = Err err :> res A) as Hll
    by (intros msg; cbn; case_goal; by eexists).
  destruct (env_net e 0) as [|msg|msg]; [by left|right..];
    destruct (Hll msg) as [err Herr]; exists err; cbn [fst snd]; (split; [done|]).
  - right. by apply set_shard_id.
  - left. by destruct (p d) as [d' [?|?]].
Qed.

Lemma vk_claim_turns_cut n h e worker tok x rr0 (todo i : nat) b :
  vk_ok n h b →
  cut_at b (claim_turns e worker tok x rr0 todo i b) (claim_turns (answered e) worker tok x rr0 todo i b).
Proof.
  intros Hb. revert i. induction todo as [|todo IH]; intros i; cbn [claim_turns]; [by left|].
  destruct (rotation _ _ _) as [j|]; [|by left]. unfold on_shard.
  destruct (shards b !! j) as [d|] eqn:Hd; [|by left].
  pose proof (set_shard_id j d b Hd) as Hsame. unfold send.
  change (nowMs (answered e)) with (nowMs e).
  change (env_net (answered e)) with (λ _ : nat, NoFault). cbv beta iota.
  pose proof (vo_shard _ _ _ Hb _ _ Hd) as Hok.
  destruct (luaClaim_run _ j n d worker tok (Milliseconds x) (nowMs e (Datatypes.S i)) Hok)
    as [[_ ->]|(m & d' & -> & _ & Hne & _)].
  - destruct (env_net e i); cbn [fst]; rewrite !Hsame; [apply IH|right; eexists; by eauto..].
  - destruct (sh_home _ _ _ _ Hok m) as (k & Hk & -> & _).
    { apply not_eq_None_Some. intros Hs. apply Hne. unfold tasks, stream_of. by rewrite Hs. }
    assert (bool_decide (member k = "") = false) as Hm by (apply bool_decide_false, member_nonempty).
    destruct (env_net e i); cbn [fst]; rewrite ?Hm, ?Hsame; [by left|right; eexists; by eauto..].
Qed.

Lemma vk_Drain_cut n h e c max b :
  vk_ok n h b → done_stays e → plain_key (cu_Key c) = true → (0 < max)%Z →
  cut_of n h b (Drain e c max b) (Drain (answered e) c max b) ∨
  ∃ s' x, Drain e c max b = (s', Ok (take x (pending b (cu_Key c)))) ∧
    hidden n h b s' ∧ length (take x (pending b (cu_Key c))) ≤ delivered s' (cu_Key c).
Proof.
  intros Hb He Hk Hmax. destruct (vk_shard n h b (cu_Key c) Hb) as [d Hd].
  pose proof (vo_shard _ _ _ Hb _ _ Hd) as Hok. set (m := member (cu_Key c)). set (j := route b (cu_Key c)) in *.
  pose proof (drain_shard_drained _ j n e m (cu_Lease c) max d Hok) as [Hok' Ho Ht Hle Hl].
  assert (hidden n h b (set_shard j (drain_shard e m (cu_Lease c) max d).1 b)) as Hh.
  { split_and!; [by eapply vk_put|by apply (touched_same b j d _ Hd h (cu_Key c))|].
    intros k. cbn [delivered Valkey_Contract]. case_goal; [|done]. by apply (handed_le b j d _ Hd m). }
  unfold Drain, on_shard. fold j m. rewrite Hd.
  destruct (drain_shard_cut _ j n e m (cu_Lease c) max d Hok He Hmax) as [-> |[Hr|(x & Hr & Hx)]].
  - left. by left.
  - left. right. exists ErrLeaseLost. destruct (drain_shard e _ _ _ _) as [d' r]. cbn [fst snd] in *. auto.
  - right. rewrite (at_pending b j d Hd) by done. fold m.
    destruct (drain_shard e _ _ _ _) as [d' r]. cbn [fst snd] in *. subst r.
    exists (set_shard j d' b), x. split_and!; [done|apply Hh..|].
    cbn [delivered Valkey_Contract]. rewrite Hk, (own_handed b j d d' Hd) by done.
    rewrite length_take. fold m. lia.
Qed.

#[export] Instance Valkey_Cuttable : Cuttable Backend.
Proof.
  refine {| cut_ok := done_stays |}; try done.
  - by left.
  - intros n h e w x b Hb Hn _ _ _. cbn [be_Claim Valkey_Backend]. unfold Claim.
    destruct (vk_turned n h b Hb Hn) as (Hb1 & -> & ->). fold (turned b).
    destruct (vk_claim_turns_cut (n + 1) h e w (claim_token (tokens b + 1) w) x (rr b)
      (length (shards b)) 0 (turned b) Hb1)
      as [?|(err & Herr & [?|Hx])]; [by left|right; by eauto|right; exists err; split; [done|right]].
    assert (hidden (n + 1) h b (turned b)) as Ht by by split_and!.
    rewrite <- Hx in Ht. exact Ht.
  - intros n h e c max b Hb He _ Hk Hm. by apply vk_Drain_cut.
  - intros n h e c q b Hb _ _ _. destruct (vk_shard n h b (cu_Key c) Hb) as [d Hd].
    apply cut_at_of; [done|]. by eapply scripted_cut.
  - intros n h e c b Hb _ _ _. destruct (vk_shard n h b (cu_Key c) Hb) as [d Hd].
    apply cut_at_of; [done|]. by eapply scripted_cut.
  - intros n h e c x b Hb _ _ _. destruct (vk_shard n h b (cu_Key c) Hb) as [d Hd].
    apply cut_at_of; [done|]. by eapply scripted_cut.
Defined.
