(* ===== verification/PostgresLetters.v ===== *)
(** PostgresLetters: the dead letters of the Postgres driver (table [dead_letters]): only
    [Fail] writes one, and it is the task it takes from the head of a FIFO, so the driver
    meets the interface [Buries] and the books of Client.v balance over it. *)
From S2P Require Import Prelude Queue Contract Client Routing Postgres PostgresFacts PostgresGate.

Section postgres.
Context `{PgService}.

(** the rows of [dead_letters] of unit [k], as the tasks they were *)
Definition letters_of (k : WorkUnitKey) (d : db) : list Task :=
  (λ r, to_task (d_task r)) <$> filter (λ r, t_key (d_task r) = k) (dead_letters d).

Definition pg_letters (b : Backend) (k : WorkUnitKey) : list Task :=
  match shards b !! route b k with Some d => letters_of k d | None => [] end.

(** a program that writes no dead letter *)
Definition tidy {A} (p : prog A) : Prop := ∀ l, keeps (λ d, dead_letters d = l) p.

Definition tidy_stmt {A} (f : stmt A) : Prop :=
  ∀ d d' a, f d = inr (d', a) → dead_letters d' = dead_letters d.

Lemma tidy_exec e {A} (f : time → stmt A) : (∀ now, tidy_stmt (f now)) → tidy (exec e f).
Proof. intros Hf l. apply keeps_exec. intros i d d' a <- Hr. by eapply Hf. Qed.

Lemma tidy_bind {A B} (m : prog A) (f : A → prog B) : tidy m → (∀ a, tidy (f a)) → tidy (m ≫= f).
Proof. intros Hm Hf l. apply keeps_bind; [apply Hm|]. intros a. apply Hf. Qed.

Lemma tidy_ret {A} (a : A) : tidy (mret a).
Proof. intros l. apply keeps_ret. Qed.

Lemma tidy_throw {A} err : tidy (@throw A err).
Proof. intros l. apply keeps_throw. Qed.

Lemma tidy_transaction e {A} (body : time → prog A) : (∀ now, tidy (body now)) → tidy (transaction e body).
Proof.
  intros Hb l. apply keeps_transaction. intros i j d j' d' a Hd Hr.
  pose proof (Hb (env_now e i) l j d Hd) as Hx. by rewrite Hr in Hx.
Qed.

(** what a program on one shard does to the dead letters of the whole *)
Definition same_letters (b b' : Backend) : Prop := dead_letters <$> shards b' = dead_letters <$> shards b.

Lemma pg_same_letters_at b b' k : same_letters b b' → pg_letters b' k = pg_letters b k.
Proof.
  intros Hs. unfold pg_letters, route.
  assert (length (shards b') = length (shards b)) as ->.
  { rewrite <- !(length_fmap dead_letters). by rewrite Hs. }
  set (i := shard_index _ _). pose proof (f_equal (.!! i) Hs) as Hi.
  rewrite !list_lookup_fmap in Hi. unfold letters_of.
  destruct (shards b' !! i), (shards b !! i); simplify_eq/=; by rewrite ?Hi.
Qed.

Lemma tidy_on_shard {A} (p : prog A) j i b : tidy p → same_letters b (on_shard j i p b).1.1.
Proof.
  intros Hp. unfold on_shard, same_letters. destruct (shards b !! j) as [d|] eqn:Hj; [|done].
  pose proof (Hp _ i d eq_refl) as Hd. destruct (p (i, d)) as [[i' d'] r]. cbn [fst snd] in *.
  cbn [set_shard shards]. rewrite list_fmap_insert, Hd. apply list_insert_id.
  by rewrite list_lookup_fmap, Hj.
Qed.

Lemma tidy_routed {A} k (p : prog A) b : tidy p → same_letters b (routed k p b).1.
Proof.
  intros Hp. unfold routed. pose proof (tidy_on_shard p (route b k) 0 b Hp) as Hx.
  by destruct (on_shard _ _ _ _) as [[b' i] r].
Qed.

Lemma tidy_check e c : tidy (checkLease e c).
Proof.
  apply tidy_bind; [|intros []; [apply tidy_ret|apply tidy_throw]].
  apply tidy_exec. intros _ d d' a. unfold check_stmt. case_match; [done|]. by intros [= <- _].
Qed.

Lemma tidy_update_leased c f : tidy_stmt (update_leased c f).
Proof.
  intros d d' n. unfold update_leased. destruct (leased_row c d) as [|[w|]]; [done| |];
    by intros [= <- _].
Qed.

Lemma tidy_affected m : tidy m → tidy (affected m).
Proof.
  intros Hm. apply tidy_bind; [done|]. intros n. case_match; [apply tidy_throw|apply tidy_ret].
Qed.

Lemma tidy_update_where p f : tidy_stmt (update_where p f).
Proof. by intros d d' n [= <- _]. Qed.

Lemma tidy_enqueue_stmt now k t wait cost p : tidy_stmt (enqueue_stmt now k t wait cost p).
Proof.
  intros d d' q. unfold enqueue_stmt. repeat (case_match; try done). by intros [= <- _].
Qed.

Lemma tidy_claim_stmt now uuid w ms : tidy_stmt (claim_stmt now uuid w ms).
Proof.
  intros d d' o. unfold claim_stmt. destruct (negb _); [done|].
  destruct (pick _ _) as [[k r]|]; by intros [= <- _].
Qed.

Lemma tidy_ack_stmt now c q : tidy_stmt (ack_stmt now c q).
Proof.
  intros d d' o. unfold ack_stmt. destruct (uuid_in _); [|done].
  destruct (work_units d !! _); [|by intros [= <- _]]. cbv zeta. destruct (int8 _); [|done].
  by intros [= <- _].
Qed.

Lemma letters_tenant_get e ws b : same_letters b (tenant_get e ws b).1.1.
Proof.
  unfold tenant_get. destruct (cache b !! ws); [done|].
  pose proof (tidy_on_shard (exec e (λ _, tenant_stmt ws))
    (shard_index (length (shards b)) ws) 0 b) as H1.
  destruct (on_shard _ _ _ _) as [[b1 i1] r]. apply H1.
  apply tidy_exec. by intros _ d d' a [= <- _].
Qed.

Lemma pg_letters_claim_turns e w ms r (todo i : nat) b : same_letters b (claim_turns e w ms r todo i b).1.
Proof.
  revert i b. induction todo as [|todo IH]; intros i b; cbn [claim_turns]; [done|].
  destruct (rotation _ _ _) as [j|]; [|done].
  pose proof (tidy_on_shard (exec e (λ now, claim_stmt now (env_uuid e) w ms)) j i b
    (tidy_exec e _ (λ now, tidy_claim_stmt now _ _ _))) as H1.
  destruct (on_shard _ _ _ _) as [[b1 i1] [[[[k tok] exp]|]|err|]]; try exact H1.
  unfold same_letters in *. by rewrite (IH (Datatypes.S i) b1).
Qed.

Lemma pg_letters_reap_shards e now (todo j i : nat) b r f :
  same_letters b (reap_shards e now todo j i b r f).1.
Proof.
  revert j i b r f. induction todo as [|todo IH]; intros j i b r f; cbn [reap_shards]; [done|].
  pose proof (tidy_on_shard (exec e (λ _, reclaim_stmt now)) j i b
    (tidy_exec e _ (λ _, tidy_update_where _ _))) as H1.
  destruct (on_shard j i (exec e (λ _, reclaim_stmt now)) b) as [[b1 i1] [n|err|]]; try exact H1.
  pose proof (tidy_on_shard (exec e (λ _, flush_stmt now)) j i1 b1
    (tidy_exec e _ (λ _, tidy_update_where _ _))) as H2.
  unfold same_letters in *.
  destruct (on_shard j i1 _ b1) as [[b2 i2] [n2|err|]]; cbn [fst] in *; [rewrite IH|..]; by rewrite H2.
Qed.

(** ** Only [Fail] writes a letter *)
Lemma pg_letters_kept e (b : Backend) k :
  (∀ k' p c, pg_letters (Enqueue e k' p c b).1 k = pg_letters b k) ∧
  (∀ w d, pg_letters (Claim e w d b).1 k = pg_letters b k) ∧
  (∀ c m, pg_letters (Drain e c m b).1 k = pg_letters b k) ∧
  (∀ c q, pg_letters (Ack e c q b).1 k = pg_letters b k) ∧
  (∀ c, pg_letters (Release e c b).1 k = pg_letters b k) ∧
  (∀ c d, pg_letters (Heartbeat e c d b).1 k = pg_letters b k) ∧
  (∀ now, pg_letters (ReapExpired e now b).1 k = pg_letters b k).
Proof.
  split_and!; intros; apply pg_same_letters_at.
  - unfold Enqueue. pose proof (letters_tenant_get e (Workspace k') b) as H1.
    destruct (tenant_get _ _ _) as [[b1 i] [t wait]]. cbn [fst] in H1.
    pose proof (tidy_on_shard (exec e (λ now, enqueue_stmt now k' t (Milliseconds wait) c p))
      (route b1 k') i b1 (tidy_exec e _ (λ now, tidy_enqueue_stmt now _ _ _ _ _))) as H2.
    destruct (on_shard _ _ _ _) as [[b2 i2] r]. unfold same_letters in *. cbn [fst] in *. by rewrite H2.
  - unfold Claim. etrans; [apply pg_letters_claim_turns|done].
  - apply tidy_routed, tidy_bind; [apply tidy_check|]. intros _. apply tidy_exec.
    intros _ d d' ts. unfold drain_stmt. case_match; [done|]. by intros [= <- _].
  - apply tidy_routed, tidy_transaction. intros now. apply tidy_bind; [apply tidy_check|]. intros _.
    apply tidy_bind; [apply tidy_exec; intros _; apply tidy_ack_stmt|].
    intros [held|]; [apply tidy_ret|apply tidy_throw].
  - apply tidy_routed, tidy_affected, tidy_exec. intros _. apply tidy_update_leased.
  - apply tidy_routed, tidy_affected, tidy_exec. intros now x x' n. unfold heartbeat_stmt.
    case_match; [done|]. apply tidy_update_leased.
  - apply pg_letters_reap_shards.
Qed.

(** ** A letter is the head [Fail] took *)
Lemma pg_letters_fail n h e c q reason (b b' : Backend) r :
  pg_ok n h b → quiet e → issued h c → Fail e c q reason b = (b', r) →
  (∀ k, k ≠ cu_Key c → pg_letters b' k = pg_letters b k) ∧
  ((pending b' (cu_Key c) = pending b (cu_Key c) ∧
    pg_letters b' (cu_Key c) = pg_letters b (cu_Key c)) ∨
   ∃ t ts, pending b (cu_Key c) = t :: ts ∧ Seq t = q ∧ pending b' (cu_Key c) = ts ∧
     pg_letters b' (cu_Key c) = pg_letters b (cu_Key c) ++ [t]).
Proof.
  intros Hb Hq Hc Hr. destruct (pg_shard n h b (cu_Key c) Hb) as [d Hd].
  destruct (holds d c) eqn:Hh.
  2:{ assert (b' = b) as ->.
      { unfold Fail in Hr. erewrite routed_tx in Hr; [|done|exact Hd|].
        2:{ unfold fail_tx, mbind, prog_bind. rewrite (checkLease_run n h b e Hb Hq c d), Hh by done.
            done. }
        by simplify_eq/=. }
      split; [done|by left]. }
  pose proof (fail_tx_run n h b e Hb Hq c q reason (maxTries b) d Hd Hc Hh) as Hf.
  unfold fail_ends in Hf. unfold Fail in Hr.
  destruct (fail_tx _ _ _ _ _ _ _) as [[j d'] x] eqn:Hrun. cbn [fst snd] in Hf.
  rewrite (routed_tx b e Hq _ _ d _ _ _ Hd Hrun) in Hr.
  destruct x as [[]|[| | |msg]|]; try done; injection Hr as <- <-; [|by split; [|left]].
  destruct Hf as (_ & _ & _ & _ & Hf).
  assert (∀ k, pg_letters (set_shard (route b (cu_Key c)) d' b) k =
    if decide (route b k = route b (cu_Key c)) then letters_of k d' else pg_letters b k) as Hset.
  { intros k. unfold pg_letters. rewrite route_set. cbn [set_shard shards].
    case_decide as Hk; [rewrite Hk, list_lookup_insert_eq by (by eapply lookup_lt_Some); done|].
    by rewrite list_lookup_insert_ne. }
  assert (∀ k, route b k = route b (cu_Key c) → pg_letters b k = letters_of k d) as Hat.
  { intros k Hk. unfold pg_letters. by rewrite Hk, Hd. }
  split.
  - intros k Hk. rewrite Hset. case_decide as Hrt; [|done]. rewrite Hat by done.
    destruct Hf as [[_ Hl]|(t & ts & now & rs & _ & _ & Hkey & _ & Hl)];
      unfold letters_of; rewrite Hl; [done|].
    rewrite filter_app, fmap_app, filter_cons. cbn [d_task]. rewrite decide_False by congruence.
    by rewrite app_nil_r.
  - rewrite Hset, decide_True, Hat, (pending_set _ d), decide_True, (pending_shard _ d b) by done.
    destruct Hf as [[Hp Hl]|(t & ts & now & rs & Hp & Hs & Hkey & Hp' & Hl)];
      [left; unfold letters_of; by rewrite Hl|].
    right. exists (to_task t), ts. split_and!; [done..|]. unfold letters_of.
    rewrite Hl, filter_app, fmap_app, filter_cons. cbn [d_task]. by rewrite decide_True.
Qed.

#[export] Instance Postgres_Buries : Buries Backend.
Proof.
  refine {| letters := pg_letters |}.
  - intros e s k. cbn [be_Enqueue be_Claim be_Drain be_Ack be_Release be_Heartbeat be_ReapExpired
      Postgres_Backend]. apply pg_letters_kept.
  - intros n h e c q reason s s' r Hi He Hc _ Hr. cbn [be_Fail Postgres_Backend] in Hr.
    by apply (pg_letters_fail n h e c q reason s s' r).
Defined.
End postgres.
