(* ===== verification/ValkeyLetters.v ===== *)
(** ValkeyLetters: the dead letters of the Valkey driver (the [:dlq] stream): only [Fail]
    writes one, and it is the task it takes from the head of a stream, so the driver meets
    the interface [Buries] and the books of Client.v balance over it. *)
From S2P Require Import Prelude Queue Contract Client Routing Valkey ValkeyFacts ValkeyContract.

(** the entries of [:dlq] of a unit, as the tasks they were *)
Definition letters_at (m : string) (d : shard) : list Task :=
  (λ x, mkTask (dl_seq x) (dl_p x) (dl_c x)) <$> filter (λ x, dl_member x = m) (dlq d).

Definition vk_letters (b : Backend) (k : WorkUnitKey) : list Task :=
  if plain_key k then
    match shards b !! route b k with Some d => letters_at (member k) d | None => [] end
  else [].

(** what a call does to the dead letters of the whole *)
Definition same_letters (b b' : Backend) : Prop := dlq <$> shards b' = dlq <$> shards b.

Lemma vk_same_letters_at b b' k : same_letters b b' → vk_letters b' k = vk_letters b k.
Proof.
  intros Hs. unfold vk_letters, route.
  assert (length (shards b') = length (shards b)) as ->.
  { rewrite <- !(length_fmap dlq). by rewrite Hs. }
  set (i := shard_index _ _). pose proof (f_equal (.!! i) Hs) as Hi.
  rewrite !list_lookup_fmap in Hi. unfold letters_at.
  destruct (shards b' !! i), (shards b !! i); simplify_eq/=; by rewrite ?Hi.
Qed.

(** ** The scripts that are silent *)

Lemma silent_ack_page m q ids cost n : silent (ack_page m q ids cost n).
Proof.
  revert cost n. induction ids as [|id ids IH]; intros cost n; cbn [ack_page]; silent; apply IH.
Qed.

Lemma silent_ack_pages fuel m q start cost n : silent (ack_pages fuel m q start cost n).
Proof.
  revert start cost n. induction fuel as [|fuel IH]; intros start cost n; cbn [ack_pages]; [done|].
  apply silent_bind; [apply silent_xpending|]. intros pend. destruct (last pend); [|done].
  apply silent_bind; [apply silent_ack_page|]. intros [[d c] x]. case_match; [done|]. apply IH.
Qed.

Lemma silent_luaAck m tok q now : silent (luaAck m tok q now).
Proof.
  unfold luaAck, check_token, on_hash, tombstone. apply silent_bind; [silent|]. intros _.
  apply silent_bind; [silent|]. intros pel.
  apply silent_bind; [apply silent_ack_pages|]. intros [c x]. silent.
Qed.

Lemma silent_reap_expired ms now n : silent (reap_expired ms now n).
Proof.
  revert n. induction ms as [|m ms IH]; intros n; cbn [reap_expired]; unfold on_hash, reindex;
    silent; apply IH.
Qed.

Lemma silent_reap_due ms n : silent (reap_due ms n).
Proof. revert n. induction ms as [|m ms IH]; intros n; cbn [reap_due]; silent; apply IH. Qed.

Lemma silent_luaReap now : silent (luaReap now).
Proof.
  unfold luaReap. apply silent_bind; [silent|]. intros ms.
  apply silent_bind; [apply silent_reap_expired|]. intros r.
  apply silent_bind; [silent|]. intros due. apply silent_bind; [apply silent_reap_due|]. silent.
Qed.

Lemma silent_luaEnqueue m p c T w now : silent (luaEnqueue m p c T w now).
Proof. unfold luaEnqueue, on_hash. silent. Qed.

Lemma silent_luaClaim w tok x now : silent (luaClaim w tok x now).
Proof. unfold luaClaim, on_hash. silent. Qed.

Lemma silent_luaRelease m tok now : silent (luaRelease m tok now).
Proof. unfold luaRelease, check_token, on_hash, tombstone, reindex. silent. Qed.

Lemma silent_luaHeartbeat m tok x now : silent (luaHeartbeat m tok x now).
Proof. unfold luaHeartbeat, check_token, on_hash. silent. Qed.

Lemma silent_xautoclaim m x : silent (XAUTOCLAIM m x).
Proof. unfold XAUTOCLAIM. silent. Qed.

Lemma silent_xreadgroup m x : silent (XREADGROUP m x).
Proof. unfold XREADGROUP. silent. Qed.

(** ** The methods that are silent *)

Lemma letters_send e i {A} (p : script A) d : silent p → dlq (send e i p d).1 = dlq d.
Proof.
  intros Hp. destruct (send_state e i p d) as [-> | ->]; [done|apply Hp].
Qed.

Lemma letters_on_shard {A} j (f : shard → shard * res A) b :
  (∀ d, dlq (f d).1 = dlq d) → same_letters b (on_shard j f b).1.
Proof.
  intros Hf. unfold on_shard, same_letters. destruct (shards b !! j) as [d|] eqn:Hj; [|done].
  pose proof (Hf d) as Hd. destruct (f d) as [d' r]. cbn [fst set_shard shards] in *.
  rewrite list_fmap_insert, Hd. apply list_insert_id. by rewrite list_lookup_fmap, Hj.
Qed.

Lemma letters_scripted {A} e c (p : script A) b : silent p → same_letters b (scripted e c p b).1.
Proof.
  intros Hp. unfold scripted.
  pose proof (letters_on_shard (route b (cu_Key c)) (send e 0 p) b
    (λ d, letters_send e 0 p d Hp)) as H. by destruct (on_shard _ _ _).
Qed.

Lemma vk_letters_claim_turns e w tok x r (todo i : nat) b :
  same_letters b (claim_turns e w tok x r todo i b).1.
Proof.
  revert i b. induction todo as [|todo IH]; intros i b; cbn [claim_turns]; [done|].
  destruct (rotation _ _ _) as [j|]; [|done].
  pose proof (letters_on_shard j _ b (λ d, letters_send e i
    (luaClaim w tok (Milliseconds x) (nowMs e (Datatypes.S i))) d (silent_luaClaim _ _ _ _))) as H1.
  unfold same_letters in *. destruct (on_shard _ _ _) as [b1 [[m|]|err|]]; cbn [fst] in *; try done.
  - case_match; [by rewrite IH|done].
  - by rewrite IH.
Qed.

Lemma vk_letters_reap_shards e now (todo j : nat) b r f :
  same_letters b (reap_shards e now todo j b r f).1.
Proof.
  revert j b r f. induction todo as [|todo IH]; intros j b r f; cbn [reap_shards]; [done|].
  pose proof (letters_on_shard j _ b
    (λ d, letters_send e j (luaReap (UnixMilli now)) d (silent_luaReap _))) as H1.
  unfold same_letters in *. destruct (on_shard _ _ _) as [b1 [[r1 f1]|err|]]; cbn [fst] in *;
    [by rewrite IH|done..].
Qed.

Lemma letters_drain_shard e m tok max d : dlq (drain_shard e m tok max d).1 = dlq d.
Proof.
  unfold drain_shard.
  pose proof (letters_send e 0 (read (λ d, lease_token (hash_of m d))) d (silent_read _)) as H0.
  destruct (send e 0 _ d) as [d0 [[t|]|err|]]; cbn [fst] in *; try done.
  case_bool_decide; [|done].
  pose proof (letters_send e 1 _ d0 (silent_xautoclaim m max)) as H1.
  destruct (send e 1 _ d0) as [d1 r1]. cbn [fst] in *.
  destruct (_ <? _)%Z; [|cbn; congruence].
  pose proof (letters_send e 2 _ d1 (silent_xreadgroup m (max - length (dropped r1)))) as H2.
  destruct (send e 2 _ d1) as [d2 r2]. cbn [fst] in *. congruence.
Qed.

Lemma vk_letters_kept e (b : Backend) k :
  (∀ k' p c, vk_letters (Enqueue e k' p c b).1 k = vk_letters b k) ∧
  (∀ w d, vk_letters (Claim e w d b).1 k = vk_letters b k) ∧
  (∀ c m, vk_letters (Drain e c m b).1 k = vk_letters b k) ∧
  (∀ c q, vk_letters (Ack e c q b).1 k = vk_letters b k) ∧
  (∀ c, vk_letters (Release e c b).1 k = vk_letters b k) ∧
  (∀ c d, vk_letters (Heartbeat e c d b).1 k = vk_letters b k) ∧
  (∀ now, vk_letters (ReapExpired e now b).1 k = vk_letters b k).
Proof.
  split_and!; intros; apply vk_same_letters_at.
  - apply letters_on_shard. intros d. apply letters_send, silent_luaEnqueue.
  - unfold Claim. etrans; [apply vk_letters_claim_turns|done].
  - apply letters_on_shard. intros d. apply letters_drain_shard.
  - apply letters_scripted, silent_luaAck.
  - apply letters_scripted, silent_luaRelease.
  - apply letters_scripted, silent_luaHeartbeat.
  - apply vk_letters_reap_shards.
Qed.

(** ** A letter is the head [Fail] took *)

Lemma vk_letters_fail n h e c q reason (b b' : Backend) r :
  vk_ok n h b → quiet e → plain_key (cu_Key c) = true → Fail e c q reason b = (b', r) →
  (∀ k, k ≠ cu_Key c → vk_letters b' k = vk_letters b k) ∧
  ((pending b' (cu_Key c) = pending b (cu_Key c) ∧
    vk_letters b' (cu_Key c) = vk_letters b (cu_Key c)) ∨
   ∃ t ts, pending b (cu_Key c) = t :: ts ∧ Seq t = q ∧ pending b' (cu_Key c) = ts ∧
     vk_letters b' (cu_Key c) = vk_letters b (cu_Key c) ++ [t]).
Proof.
  intros Hb Hq Hk Hr. destruct (own_shard n h b Hb c Hk) as (d & Hd & Hok & Heq).
  destruct (holds b c) eqn:Hh.
  2:{ pose proof (vk_fail n h b e Hb Hq c Hk q reason) as [_ Hl]. rewrite Hh, Hr in Hl.
      injection Hl as -> ->. split; [done|by left]. }
  symmetry in Heq. apply bool_decide_eq_true in Heq. unfold Fail in Hr.
  assert (∀ d', only (member (cu_Key c)) d d' → ∀ k, plain_key k = true →
    vk_letters (set_shard (route b (cu_Key c)) d' b) k =
    if decide (route b k = route b (cu_Key c)) then letters_at (member k) d' else vk_letters b k) as Hset.
  { intros d' _ k Hkk. unfold vk_letters. rewrite Hkk, vk_route_set. cbn [set_shard shards].
    case_decide as Hx; [rewrite Hx, list_lookup_insert_eq by (by eapply lookup_lt_Some); done|].
    by rewrite list_lookup_insert_ne. }
  assert (∀ k, plain_key k = true → route b k = route b (cu_Key c) →
    vk_letters b k = letters_at (member k) d) as Hat.
  { intros k Hkk Hx. unfold vk_letters. by rewrite Hkk, Hx, Hd. }
  destruct (luaFail_held _ _ n d _ _ Hok (proj2 (vo_n _ _ _ Hb)) q reason (nowMs e 0) (maxTries b) Heq)
    as [Hrun|(d' & Hrun & Ho & _ & Ht & _)].
  { erewrite scripted_err in Hr by done. injection Hr as <- _. by split; [|left]. }
  erewrite scripted_run in Hr by done. injection Hr as <- _. split.
  - intros k Hne. destruct (plain_key k) eqn:Hkk; [|by unfold vk_letters; rewrite Hkk].
    rewrite (Hset d' Ho k Hkk). case_decide as Hx; [|done]. rewrite (Hat k Hkk Hx).
    unfold letters_at. destruct Ht as [[_ ->]|(t & ts & _ & _ & _ & ->)]; [done|].
    rewrite filter_app, fmap_app, filter_cons. cbn [dl_member].
    rewrite decide_False; [by rewrite app_nil_r|]. intros Hm. apply Hne. symmetry. by apply member_inj.
  - rewrite (Hset d' Ho _ Hk), decide_True, Hat by done.
    rewrite (own_pending b _ d d' Hd), (at_pending b _ d Hd) by done. unfold letters_at.
    destruct Ht as [[-> ->]|(t & ts & H1 & H2 & H3 & ->)]; [by left|right].
    exists t, ts. split_and!; [done..|]. rewrite filter_app, fmap_app, filter_cons. cbn [dl_member].
    rewrite decide_True by done. by destruct t.
Qed.

#[export] Instance Valkey_Buries : Buries Backend.
Proof.
  refine {| letters := vk_letters |}.
  - intros e s k. cbn [be_Enqueue be_Claim be_Drain be_Ack be_Release be_Heartbeat be_ReapExpired
      Valkey_Backend]. apply vk_letters_kept.
  - intros n h e c q reason s s' r Hi He _ Hk Hr. cbn [be_Fail Valkey_Backend] in Hr.
    by apply (vk_letters_fail n h e c q reason s s' r).
Defined.
