(* ===== verification/GoText.v ===== *)
(** GoText: the parts of Go's [strings] and [strconv] that the program uses on its
    configuration and its schema: splitting, trimming, parsing and printing decimal
    integers.  Strings are byte strings; white space is that of ASCII text. *)
From S2P Require Import Prelude.

(** ** strings *)

(** [strings.Split(s, sep)] for a separator of one byte *)
Fixpoint Split (sep : ascii) (s : string) : list string :=
  match s with
  | EmptyString => [EmptyString]
  | String c s =>
      if bool_decide (c = sep) then EmptyString :: Split sep s
      else match Split sep s with
           | p :: ps => String c p :: ps
           | [] => [String c EmptyString]
           end
  end.

(** the inverse, [strings.Join] *)
Fixpoint Join (sep : ascii) (ps : list string) : string :=
  match ps with
  | [] => EmptyString
  | [p] => p
  | p :: ps => p +:+ String sep (Join sep ps)
  end.

Definition is_space (c : ascii) : bool :=
  let n := nat_of_ascii c in
  (Nat.eqb n 32 || (Nat.leb 9 n && Nat.leb n 13))%bool.

Fixpoint trim_left (s : string) : string :=
  match s with
  | EmptyString => EmptyString
  | String c s' => if is_space c then trim_left s' else s
  end.

Fixpoint str_rev (s : string) : string :=
  match s with EmptyString => EmptyString | String c s => str_rev s +:+ String c EmptyString end.

(** [strings.TrimSpace] *)
Definition TrimSpace (s : string) : string := str_rev (trim_left (str_rev (trim_left s))).

(** the part of a line before the first [--]; [strings.Index] and the slice *)
Fixpoint before_dashes (s : string) : string :=
  match s with
  | String "-" (String "-" _) => EmptyString
  | String c s => String c (before_dashes s)
  | EmptyString => EmptyString
  end.

Fixpoint has_dashes (s : string) : bool :=
  match s with
  | String "-" (String "-" _) => true
  | String _ s => has_dashes s
  | EmptyString => false
  end.

Definition newline : ascii := "010".
Definition comma : ascii := ",".

(** *** Facts *)

Lemma Split_ne sep s : Split sep s ≠ [].
Proof. destruct s; simpl; [done|]. repeat case_match; done. Qed.

Lemma Join_Split sep s : Join sep (Split sep s) = s.
Proof.
  induction s as [|c s IH]; [done|]. cbn [Split]. pose proof (Split_ne sep s).
  case_bool_decide as Hc; destruct (Split sep s) as [|p ps]; try done.
  - subst c. cbn [Join] in *. by rewrite IH.
  - cbn [Join] in *. rewrite <- IH. by destruct ps.
Qed.

Lemma Split_no_sep sep s : has_char sep s = false → Split sep s = [s].
Proof.
  induction s as [|c s IH]; [done|]. cbn [has_char Split]. intros H. b2p.
  rewrite bool_decide_false by done. by rewrite IH.
Qed.

Lemma Split_app sep p s :
  has_char sep p = false → Split sep (p +:+ String sep s) = p :: Split sep s.
Proof.
  induction p as [|c p IH]; cbn [has_char]; intros H.
  - change ("" +:+ String sep s) with (String sep s). cbn [Split]. by rewrite bool_decide_true.
  - b2p. change (String c p +:+ String sep s) with (String c (p +:+ String sep s)).
    cbn [Split]. rewrite bool_decide_false by done. by rewrite IH.
Qed.

(** splitting what was joined gives the pieces back *)
Lemma Split_Join sep ps :
  ps ≠ [] → Forall (λ p, has_char sep p = false) ps → Split sep (Join sep ps) = ps.
Proof.
  intros Hne Hf. induction Hf as [|p ps Hp Hf IH]; [done|]. destruct ps as [|p' ps].
  - cbn [Join]. by apply Split_no_sep.
  - change (Join sep (p :: p' :: ps)) with (p +:+ String sep (Join sep (p' :: ps))).
    rewrite Split_app by done. by rewrite IH.
Qed.

Lemma has_dashes_cons c s :
  has_dashes (String c s) = (match s with String "-" _ => bool_decide (c = "-"%char) | _ => false end)
    || has_dashes s.
Proof.
  destruct (decide (c = "-"%char)) as [->|Hc].
  - rewrite bool_decide_true by done. destruct s as [|a s]; [done|].
    by destruct a as [[] [] [] [] [] [] [] []].
  - rewrite bool_decide_false by done.
    transitivity (has_dashes s); [|by destruct s as [|a s]; [|repeat case_match]].
    by destruct c as [[] [] [] [] [] [] [] []].
Qed.

(** *** Numbers *)

Definition digit (c : ascii) : option Z :=
  let n := Z.of_N (N_of_ascii c) in
  if ((48 <=? n) && (n <=? 57))%Z then Some (n - 48)%Z else None.

Fixpoint parse_digits (acc : Z) (s : string) : option Z :=
  match s with
  | EmptyString => Some acc
  | String c s => match digit c with Some x => parse_digits (acc * 10 + x) s | None => None end
  end.

(** [strconv.ParseInt(s, 10, 64)], and [strconv.Atoi]: [None] is an error *)
Definition ParseInt (s : string) : option Z :=
  let '(neg, t) :=
    match s with
    | String "-" t => (true, t)
    | String "+" t => (false, t)
    | _ => (false, s)
    end in
  if bool_decide (t = "") then None
  else
    match parse_digits 0 t with
    | None => None
    | Some x =>
        let x := if neg : bool then (- x)%Z else x in
        if ((int64_min <=? x) && (x <=? int64_max))%Z then Some x else None
    end.

(** [strconv.ParseBool] *)
Definition ParseBool (s : string) : option bool :=
  if bool_decide (s ∈ ["1"; "t"; "T"; "TRUE"; "true"; "True"]) then Some true
  else if bool_decide (s ∈ ["0"; "f"; "F"; "FALSE"; "false"; "False"]) then Some false
  else None.

Lemma digit_char n : (n < 10)%N → digit (pretty_N_char n) = Some (Z.of_N n).
Proof.
  intros Hn. assert (n ∈ [0; 1; 2; 3; 4; 5; 6; 7; 8; 9])%N as Hin.
  { destruct n as [|p]; [by left|]. do 4 (destruct p as [p|p|]; try lia; try set_solver). }
  clear Hn. revert n Hin. apply Forall_forall. repeat constructor.
Qed.

Lemma parse_pretty_go n s :
  parse_digits 0 (pretty_N_go n s) = parse_digits (Z.of_N n) s.
Proof.
  revert s. induction (N.lt_wf_0 n) as [n _ IH]. intros s.
  destruct (decide (n = 0)%N) as [->|Hn]; [by rewrite pretty_N_go_0|].
  rewrite pretty_N_go_step by lia. rewrite IH by (apply N.div_lt; lia).
  cbn [parse_digits]. rewrite digit_char by (apply N.mod_lt; done).
  f_equal. rewrite N2Z.inj_div, N2Z.inj_mod. simpl.
  pose proof (Z.div_mod (Z.of_N n) 10). lia.
Qed.

Lemma pretty_N_digits (n : N) : parse_digits 0 (pretty n) = Some (Z.of_N n).
Proof.
  unfold pretty, pretty_N. case_decide as Hn; [by subst|]. by rewrite parse_pretty_go.
Qed.

(** a printed number is digits only *)
Lemma pretty_N_first (n : N) : ∃ c t, pretty n = String c t ∧ digit c ≠ None.
Proof.
  pose proof (pretty_N_digits n) as H. destruct (pretty n) as [|c t] eqn:Hp.
  - exfalso. unfold pretty, pretty_N in Hp. case_decide; [done|].
    assert (∀ n s, s ≠ "" → pretty_N_go n s ≠ "") as Hne.
    { clear. intros n. induction (N.lt_wf_0 n) as [n _ IH]. intros s Hs.
      destruct (decide (n = 0)%N) as [->|Hn]; [by rewrite pretty_N_go_0|].
      rewrite pretty_N_go_step by lia. apply IH; [apply N.div_lt; lia|done]. }
    rewrite pretty_N_go_step in Hp by lia. by apply Hne in Hp.
  - exists c, t. split; [done|]. intros Hc. cbn [parse_digits] in H. by rewrite Hc in H.
Qed.

(** Printing an [int64] in decimal ([fmt]'s %d) and parsing it gives it back. *)
Lemma ParseInt_pretty (x : Z) : in_i64 x → ParseInt (pretty x) = Some x.
Proof.
  intros Hx. assert (∀ (n : N) (y : Z), (y = Z.of_N n ∨ y = - Z.of_N n)%Z → in_i64 y →
    ((int64_min <=? y) && (y <=? int64_max))%Z = true) as Hr.
  { intros n y _ Hy. unfold in_i64 in Hy. by rewrite !(proj2 (Z.leb_le _ _)) by lia. }
  assert (∀ n : N, (Z.of_N n = x) → ParseInt (pretty n) = Some x) as Hpos.
  { intros n Hn. destruct (pretty_N_first n) as (c & t & Hp & Hc).
    pose proof (pretty_N_digits n) as Hd. unfold ParseInt. rewrite Hp in *.
    assert (∀ r, match String c t with String "-" t => (true, t) | String "+" t => (false, t)
      | _ => (false, String c t) end = r → r = (false, String c t)) as Hs.
    { intros r <-. by destruct c as [[] [] [] [] [] [] [] []]. }
    rewrite (Hs _ eq_refl). rewrite bool_decide_false by done. rewrite Hd, Hn.
    by rewrite (Hr n) by (auto || done). }
  destruct x as [|p|p]; [by apply (Hpos 0%N)|by apply (Hpos (Npos p))|].
  change (pretty (Zneg p)) with (String "-" (pretty (Npos p))). unfold ParseInt.
  destruct (pretty_N_first (Npos p)) as (c & t & Hp & _).
  rewrite bool_decide_false by (by rewrite Hp).
  rewrite pretty_N_digits. cbn [Z.of_N Z.opp]. by rewrite (Hr (Npos p)) by (auto || done).
Qed.
