(* ===== verification/GoFloat.v ===== *)
(** GoFloat: Go's [float64] as the harness uses it: the operations of IEEE 754 binary64
    (the Standard Library's [SpecFloat], 53 bits of precision), conversions from and to
    integers and durations, and [fmt]'s %.nf. *)
From Stdlib Require Import SpecFloat.
From S2P Require Import Prelude Queue GoText.

Abbreviation float64 := spec_float (only parsing).

(** ** Operations *)

Definition fadd : float64 → float64 → float64 := SFadd 53 1024.
Definition fmul : float64 → float64 → float64 := SFmul 53 1024.
Definition fdiv : float64 → float64 → float64 := SFdiv 53 1024.
Definition fltb : float64 → float64 → bool := SFltb.
Definition fzero : float64 := S754_zero false.

(** [float64(x)] of an integer: rounded to the nearest, ties to even *)
Definition of_int (x : Z) : float64 := binary_normalize 53 1024 x 0 false.

(** a decimal constant of the source, [num/den] for integers that convert exactly *)
Definition lit (num den : Z) : float64 := fdiv (of_int num) (of_int den).

(** [int64(f)] of a float in range: truncated towards zero *)
Definition to_int (f : float64) : Z :=
  match f with
  | S754_finite s m e =>
      let v := if (0 <=? e)%Z then (Z.pos m * 2 ^ e)%Z else (Z.pos m / 2 ^ (- e))%Z in
      i64 (if s then - v else v)%Z
  | _ => 0%Z
  end.

(** ** Durations *)

(** [time.Duration.Seconds] *)
Definition Seconds (d : duration) : float64 :=
  fadd (of_int (Z.quot d Second)) (fdiv (of_int (Z.rem d Second)) (of_int 1000000000)).

(** ** Printing *)

(** the integer nearest to [m * 2^e * 10^p], ties to even *)
Definition scaled (p : nat) (m : positive) (e : Z) : Z :=
  let n := (Z.pos m * 10 ^ p)%Z in
  if (0 <=? e)%Z then (n * 2 ^ e)%Z
  else
    let d := (2 ^ (- e))%Z in
    let q := (n / d)%Z in
    let r := (n mod d)%Z in
    if (2 * r <? d)%Z then q
    else if (d <? 2 * r)%Z then (q + 1)%Z
    else if Z.even q then q else (q + 1)%Z.

Fixpoint zeros (n : nat) : string :=
  match n with O => EmptyString | S n => String "0" (zeros n) end.

(** [q / 10^p] in decimal, with [p] digits after the point *)
Definition decimal (p : nat) (q : Z) : string :=
  match p with
  | O => pretty q
  | _ =>
      let frac := pretty (q mod 10 ^ p)%Z in
      pretty (q / 10 ^ p)%Z +:+ "." +:+ zeros (p - String.length frac) +:+ frac
  end.

(** [fmt.Sprintf("%.pf", f)] *)
Definition fmt_f (p : nat) (f : float64) : string :=
  let sign (s : bool) := if s then "-" else "" in
  match f with
  | S754_nan => "NaN"
  | S754_infinity s => if s then "-Inf" else "+Inf"
  | S754_zero s => sign s +:+ decimal p 0
  | S754_finite s m e => sign s +:+ decimal p (scaled p m e)
  end.

(** [%t] *)
Definition fmt_t (b : bool) : string := if b then "true" else "false".

(** ** Facts *)

Example fmt_f_demo :
  fmt_f 2 (lit 5 2) = "2.50" ∧ fmt_f 0 (lit 5 2) = "2" ∧ fmt_f 1 (lit (-9) 100) = "-0.1" ∧
  fmt_f 2 (lit 1005 1000) = "1.00" ∧ fmt_f 0 (Seconds (1500000000)) = "2" ∧
  fmt_f 3 (lit 1 16) = "0.062" ∧ fmt_f 2 (lit 1 0) = "+Inf".
Proof. vm_compute. repeat split. Qed.

(** the separators of a CSV file: a comma between the fields, a newline after a row *)
Definition is_sep (c : ascii) : Prop := c = comma ∨ c = newline.

Lemma pretty_no_sep c (z : Z) : is_sep c → has_char c (pretty z) = false.
Proof.
  intros Hc. assert (∀ y, (y < 10)%N → pretty_N_char y ≠ c) as Hd.
  { apply pretty_N_char_ne. intros y.
    destruct Hc as [-> | ->]; repeat (inv_fin y; [done|intros y]); inv_fin y. }
  destruct (Z.le_gt_cases 0 z) as [Hz|Hz]; [by apply pretty_digits|].
  destruct z as [|p|p]; [lia|lia|].
  change (pretty (Z.neg p)) with (String "-" (pretty (Z.pos p))). cbn [has_char].
  rewrite pretty_digits by (done || lia). by destruct Hc as [-> | ->].
Qed.

Lemma zeros_no_sep c n : is_sep c → has_char c (zeros n) = false.
Proof. intros Hc. induction n as [|n IH]; [done|]. cbn. rewrite IH. by destruct Hc as [-> | ->]. Qed.

Lemma decimal_no_sep c p q : is_sep c → has_char c (decimal p q) = false.
Proof.
  intros Hc. unfold decimal. destruct p; [by apply pretty_no_sep|].
  rewrite !has_char_app, !pretty_no_sep, zeros_no_sep by done. by destruct Hc as [-> | ->].
Qed.

Lemma fmt_f_no_sep c p f : is_sep c → has_char c (fmt_f p f) = false.
Proof.
  intros Hc. destruct f as [s|s| |s m e]; cbn [fmt_f];
    rewrite ?has_char_app, ?decimal_no_sep by done;
    try destruct s; by destruct Hc as [-> | ->].
Qed.

Lemma fmt_t_no_sep c b : is_sep c → has_char c (fmt_t b) = false.
Proof. intros Hc. by destruct b, Hc as [-> | ->]. Qed.

#[export] Hint Resolve pretty_no_sep fmt_f_no_sep fmt_t_no_sep : plq.
