(* ===== verification/Schema.v ===== *)
(** Schema: how the Postgres driver prepares a primary (internal/postgres/backend.go:
    applySchema, stripSQLComments, on the embedded schema.sql): comments are cut, the text
    is split at semicolons, and the statements are sent one by one. *)
From S2P Require Import Prelude GoText.

(** the embedded file *)
Definition schemaSQL : string :=
"-- Schema for the Postgres work-unit queue (M1). Idempotent: run on startup.
-- Keyed on the composite natural key (ws, sess, peer) = the contract's WorkUnitKey.

CREATE TABLE IF NOT EXISTS work_units (
  ws            text   NOT NULL,
  sess          text   NOT NULL,
  peer          text   NOT NULL,
  pending_cost  bigint NOT NULL DEFAULT 0,   -- I3: += on enqueue, -= on ack
  next_seq      bigint NOT NULL DEFAULT 0,   -- per-unit monotonic seq generator
  threshold     int    NOT NULL,             -- denormalized tenant T (hot-path local)
  max_wait_ms   int    NOT NULL,             -- denormalized tenant max_wait
  eligible      boolean NOT NULL DEFAULT false,
  claimed_by    text,                        -- worker id; NULL = free
  lease_token   uuid,                        -- per-claim token (ABA-safe lease)
  lease_ms      int,                          -- lease window of the current claim (ack renews from this)
  lease_expires timestamptz,
  oldest_pending_at timestamptz,
  flush_deadline    timestamptz,
  PRIMARY KEY (ws, sess, peer)
);

CREATE TABLE IF NOT EXISTS tasks (
  ws          text   NOT NULL,
  sess        text   NOT NULL,
  peer        text   NOT NULL,
  seq         bigint NOT NULL,               -- per-unit arrival order (I1)
  payload     bytea  NOT NULL,
  cost        int    NOT NULL,
  attempts    int    NOT NULL DEFAULT 0,
  enqueued_at timestamptz NOT NULL DEFAULT now(),
  PRIMARY KEY (ws, sess, peer, seq)
) PARTITION BY HASH (ws, sess, peer);         -- spread vacuum churn
CREATE TABLE IF NOT EXISTS tasks_p0 PARTITION OF tasks FOR VALUES WITH (MODULUS 2, REMAINDER 0);
CREATE TABLE IF NOT EXISTS tasks_p1 PARTITION OF tasks FOR VALUES WITH (MODULUS 2, REMAINDER 1);

-- THE look-ahead index: partial, over work_units (10^4-10^5), never tasks (10^6).
CREATE INDEX IF NOT EXISTS wu_claimable ON work_units (flush_deadline NULLS LAST, ws, sess, peer)
  WHERE eligible AND claimed_by IS NULL;
CREATE INDEX IF NOT EXISTS wu_leased ON work_units (lease_expires) WHERE claimed_by IS NOT NULL;
CREATE INDEX IF NOT EXISTS wu_flushable ON work_units (flush_deadline)
  WHERE NOT eligible AND claimed_by IS NULL;

CREATE TABLE IF NOT EXISTS dead_letters (
  ws text, sess text, peer text, seq bigint, payload bytea, cost int, attempts int,
  enqueued_at timestamptz, failed_at timestamptz NOT NULL DEFAULT now(), reason text
);

CREATE TABLE IF NOT EXISTS tenant_config (
  ws text PRIMARY KEY, threshold int NOT NULL, max_wait_ms int NOT NULL
);
".

(** ** The code *)

(** a [strings.Builder] to which each line is written, cut at its first dashes *)
Fixpoint write_lines (ls : list string) : string :=
  match ls with
  | [] => EmptyString
  | l :: ls => before_dashes l +:+ String newline (write_lines ls)
  end.

Definition stripSQLComments (s : string) : string := write_lines (Split newline s).

(** the loop over the statements: [exec] is the server, [Some msg] its refusal *)
Fixpoint apply_stmts (exec : string → option string) (stmts : list string) :
    list string * option string :=
  match stmts with
  | [] => ([], None)
  | stmt :: stmts =>
      let s := TrimSpace stmt in
      if bool_decide (s = "") then apply_stmts exec stmts
      else
        match exec s with
        | Some msg =>
            ([s], Some ("stmt " +:+ default "" (head (Split newline s)) +:+ ": " +:+ msg))
        | None => let '(sent, err) := apply_stmts exec stmts in (s :: sent, err)
        end
  end.

(** [applySchema]: the statements sent, and the error if one was refused *)
Definition applySchema (exec : string → option string) : list string * option string :=
  apply_stmts exec (Split ";" (stripSQLComments schemaSQL)).

(** ** Facts *)

Lemma has_dashes_newline a b :
  has_dashes (a +:+ String newline b) = has_dashes a || has_dashes b.
Proof.
  induction a as [|c a IH].
  - change ("" +:+ String newline b) with (String newline b). by rewrite has_dashes_cons; destruct b as [|x b];
      [|destruct x as [[] [] [] [] [] [] [] []]].
  - change (String c a +:+ String newline b) with (String c (a +:+ String newline b)).
    rewrite !has_dashes_cons, IH, orb_assoc. f_equal. f_equal. by destruct a.
Qed.

(** [String c s] starts with two dashes *)
Definition dashes (c : ascii) (s : string) : bool :=
  bool_decide (c = "-"%char) && match s with String a _ => bool_decide (a = "-"%char) | _ => false end.

Lemma before_dashes_cons c s :
  before_dashes (String c s) = if dashes c s then "" else String c (before_dashes s).
Proof.
  unfold dashes. destruct (decide (c = "-"%char)) as [->|Hc].
  - rewrite bool_decide_true by done. destruct s as [|a s]; [done|].
    destruct (decide (a = "-"%char)) as [->|Ha]; [done|]. rewrite bool_decide_false by done.
    by destruct a as [[] [] [] [] [] [] [] []].
  - rewrite bool_decide_false by done. by destruct c as [[] [] [] [] [] [] [] []].
Qed.

Lemma has_dashes_first c s : has_dashes (String c s) = dashes c s || has_dashes s.
Proof.
  rewrite has_dashes_cons. f_equal. unfold dashes. destruct s as [|a s]; [by rewrite andb_false_r|].
  destruct (decide (a = "-"%char)) as [->|Ha]; [by rewrite andb_true_r|].
  rewrite (bool_decide_false (a = _)), andb_false_r by done.
  by destruct a as [[] [] [] [] [] [] [] []].
Qed.

Lemma before_dashes_none s : has_dashes (before_dashes s) = false.
Proof.
  induction s as [|c s IH]; [done|]. rewrite before_dashes_cons.
  destruct (dashes c s) eqn:Hd; [done|]. rewrite has_dashes_first, IH, orb_false_r.
  unfold dashes in *. destruct s as [|a s]; [done|]. rewrite before_dashes_cons.
  by destruct (dashes a s); rewrite ?andb_false_r.
Qed.

(** A stripped text has no comment left: no two dashes follow each other in it,
    whatever the input. *)
Lemma strip_removes_comments s : has_dashes (stripSQLComments s) = false.
Proof.
  unfold stripSQLComments. induction (Split newline s) as [|l ls IH]; [done|].
  cbn [write_lines]. by rewrite has_dashes_newline, before_dashes_none, IH.
Qed.

(** the words of a statement *)
Definition words (s : string) : list string :=
  filter (λ w, w ≠ "") (Split " " s).

(** On a server that accepts each of them, the driver sends exactly the nine
    statements of schema.sql, in order, each of which creates a table or an index only if
    it does not exist, so that preparing a primary again changes nothing; and if the server
    refuses one, the ones after it are not sent. *)
Lemma schema_is_idempotent_ddl :
  (applySchema (λ _, None)).2 = None ∧
  ((λ s, (take 2 (words s), nth 5 (words s) "")) <$> (applySchema (λ _, None)).1) =
    [(["CREATE"; "TABLE"], "work_units"); (["CREATE"; "TABLE"], "tasks");
     (["CREATE"; "TABLE"], "tasks_p0"); (["CREATE"; "TABLE"], "tasks_p1");
     (["CREATE"; "INDEX"], "wu_claimable"); (["CREATE"; "INDEX"], "wu_leased");
     (["CREATE"; "INDEX"], "wu_flushable"); (["CREATE"; "TABLE"], "dead_letters");
     (["CREATE"; "TABLE"], "tenant_config")] ∧
  Forall (λ s, take 3 (drop 2 (words s)) = ["IF"; "NOT"; "EXISTS"]) (applySchema (λ _, None)).1 ∧
  (∀ exec, (applySchema exec).1 `prefix_of` (applySchema (λ _, None)).1).
Proof.
  split; [vm_compute; reflexivity|]. split; [vm_compute; reflexivity|].
  split; [apply (bool_decide_unpack _); vm_compute; exact I|].
  intros exec. unfold applySchema.
  induction (Split ";" (stripSQLComments schemaSQL)) as [|s l IH]; [done|]. cbn [apply_stmts].
  case_bool_decide; [done|]. destruct (apply_stmts (λ _, None) l) as [sent err].
  destruct (exec (TrimSpace s)); cbn [fst].
  - exists sent. done.
  - destruct (apply_stmts exec l) as [sent' err']. cbn [fst] in *. by apply prefix_cons.
Qed.
