(* ===== verification/Config.v ===== *)
(** Config: the tunables of the program (internal/config/config.go), read from the
    variables PLQ_* of the process environment with a default for each.  Parsing of
    integers and booleans is GoText's; that of floats and durations is a parameter. *)
From S2P Require Import Prelude Queue GoText Worker.

(** Floats and the library's parsers for them and for durations. *)
Class GoParse := {
  float : Type;
  float_lit : string → float;               (* a constant of the source *)
  ParseFloat : string → option float;
  ParseDuration : string → option duration;
}.

Section config.
Context `{GoParse}.

Record Config := mkCfg {
  cfg_Backend : string;
  cfg_Workers : Z;
  cfg_Lease : duration;
  cfg_Batch : Z;
  cfg_DefaultThreshold : Z;
  cfg_DefaultMaxWait : duration;
  cfg_MaxAttempts : Z;
  cfg_PollMin : duration;
  cfg_PollMax : duration;
  cfg_Process : ProcessModel;
  PostgresDSN : string;
  PostgresParts : Z;
  ValkeyAddr : string;
  LoadKeys : Z;
  LoadTasks : Z;
  LoadCost : Z;
  cfg_Seed : Z;
  cfg_Producers : Z;
  cfg_Duration : duration;
  cfg_Warmup : duration;
  cfg_WorkingSet : Z;
  cfg_ZipfS : float;
  cfg_BirthRate : float;
  CostLo : Z;
  CostHi : Z;
  ResultsDir : string;
  cfg_Chaos : bool;
  ChaosEvery : duration;
  cfg_Reset : bool;
}.

(** ** Reading a variable; [os] is [os.LookupEnv] *)

Definition parsed {A} (parse : string → option A) (os : string → option string) (k : string)
    (def : A) : A :=
  match os k with
  | Some v => match parse v with Some a => a | None => def end
  | None => def
  end.

Definition boolenv (os : string → option string) (k : string) (def : bool) : bool :=
  parsed ParseBool os k def.
Definition atof (os : string → option string) (k : string) (def : float) : float :=
  parsed ParseFloat os k def.
Definition env (os : string → option string) (k def : string) : string :=
  match os k with Some v => v | None => def end.
Definition atoi (os : string → option string) (k : string) (def : Z) : Z :=
  parsed ParseInt os k def.
Definition atoi64 (os : string → option string) (k : string) (def : Z) : Z :=
  parsed ParseInt os k def.
Definition dur (os : string → option string) (k : string) (def : duration) : duration :=
  parsed ParseDuration os k def.

(** [Load]: the fields in the order of [Config] *)
Definition Load (os : string → option string) : Config := {|
  cfg_Backend := env os "PLQ_BACKEND" "memory";
  cfg_Workers := atoi os "PLQ_WORKERS" 10;
  cfg_Lease := dur os "PLQ_LEASE" (30 * Second);
  cfg_Batch := atoi os "PLQ_BATCH" 64;
  cfg_DefaultThreshold := atoi64 os "PLQ_THRESHOLD" 1000;
  cfg_DefaultMaxWait := dur os "PLQ_MAX_WAIT" (5 * Second);
  cfg_MaxAttempts := atoi os "PLQ_MAX_ATTEMPTS" 3;
  cfg_PollMin := dur os "PLQ_POLL_MIN" Millisecond;
  cfg_PollMax := dur os "PLQ_POLL_MAX" Second;
  cfg_Process := mkProcess (env os "PLQ_PROCESS" "zero") (dur os "PLQ_PROCESS_BASE" 0)
                   (dur os "PLQ_PROCESS_PERCOST" 0);
  PostgresDSN := env os "PLQ_POSTGRES_DSN" "";
  PostgresParts := atoi os "PLQ_POSTGRES_PARTS" 2;
  ValkeyAddr := env os "PLQ_VALKEY_ADDR" "";
  LoadKeys := atoi os "PLQ_LOAD_KEYS" 100;
  LoadTasks := atoi os "PLQ_LOAD_TASKS" 10000;
  LoadCost := atoi64 os "PLQ_LOAD_COST" 100;
  cfg_Seed := atoi64 os "PLQ_SEED" 1;
  cfg_Producers := atoi os "PLQ_PRODUCERS" 8;
  cfg_Duration := dur os "PLQ_DURATION" (30 * Second);
  cfg_Warmup := dur os "PLQ_WARMUP" (5 * Second);
  cfg_WorkingSet := atoi os "PLQ_WORKING_SET" 1000;
  cfg_ZipfS := atof os "PLQ_ZIPF_S" (float_lit "1.2");
  cfg_BirthRate := atof os "PLQ_BIRTH_RATE" (float_lit "0.02");
  CostLo := atoi64 os "PLQ_COST_LO" 10;
  CostHi := atoi64 os "PLQ_COST_HI" 50;
  ResultsDir := env os "PLQ_RESULTS" "./results";
  cfg_Chaos := boolenv os "PLQ_CHAOS" false;
  ChaosEvery := dur os "PLQ_CHAOS_EVERY" (5 * Second);
  cfg_Reset := boolenv os "PLQ_RESET" true;
|}.

(** [Config.WorkerConfig]: the hooks are left nil *)
Definition WorkerConfig_of (c : Config) : WorkerConfig :=
  mkConfig (cfg_Lease c) (cfg_Batch c) (mkBackoff (cfg_PollMin c) (cfg_PollMax c))
    (cfg_Process c) false false.

(** ** Properties *)

Lemma parsed_malformed {A} (parse : string → option A) os k def :
  (∀ v, os k = Some v → parse v = None) → parsed parse os k def = def.
Proof. unfold parsed. intros H1. destruct (os k) as [v|]; [|done]. by rewrite H1. Qed.

(** An environment that spells a configuration out, given printers for floats and
    durations. *)
Section environ.
Context (print_float : float → string) (print_dur : duration → string).

Definition print_bool (b : bool) : string := if b then "true" else "false".

Definition vars (c : Config) : list (string * string) := [
  ("PLQ_BACKEND", cfg_Backend c); ("PLQ_WORKERS", pretty (cfg_Workers c));
  ("PLQ_LEASE", print_dur (cfg_Lease c)); ("PLQ_BATCH", pretty (cfg_Batch c));
  ("PLQ_THRESHOLD", pretty (cfg_DefaultThreshold c));
  ("PLQ_MAX_WAIT", print_dur (cfg_DefaultMaxWait c));
  ("PLQ_MAX_ATTEMPTS", pretty (cfg_MaxAttempts c));
  ("PLQ_POLL_MIN", print_dur (cfg_PollMin c)); ("PLQ_POLL_MAX", print_dur (cfg_PollMax c));
  ("PLQ_PROCESS", Kind (cfg_Process c)); ("PLQ_PROCESS_BASE", print_dur (Base (cfg_Process c)));
  ("PLQ_PROCESS_PERCOST", print_dur (PerCost (cfg_Process c)));
  ("PLQ_POSTGRES_DSN", PostgresDSN c); ("PLQ_POSTGRES_PARTS", pretty (PostgresParts c));
  ("PLQ_VALKEY_ADDR", ValkeyAddr c); ("PLQ_LOAD_KEYS", pretty (LoadKeys c));
  ("PLQ_LOAD_TASKS", pretty (LoadTasks c)); ("PLQ_LOAD_COST", pretty (LoadCost c));
  ("PLQ_SEED", pretty (cfg_Seed c)); ("PLQ_PRODUCERS", pretty (cfg_Producers c));
  ("PLQ_DURATION", print_dur (cfg_Duration c)); ("PLQ_WARMUP", print_dur (cfg_Warmup c));
  ("PLQ_WORKING_SET", pretty (cfg_WorkingSet c)); ("PLQ_ZIPF_S", print_float (cfg_ZipfS c));
  ("PLQ_BIRTH_RATE", print_float (cfg_BirthRate c)); ("PLQ_COST_LO", pretty (CostLo c));
  ("PLQ_COST_HI", pretty (CostHi c)); ("PLQ_RESULTS", ResultsDir c);
  ("PLQ_CHAOS", print_bool (cfg_Chaos c)); ("PLQ_CHAOS_EVERY", print_dur (ChaosEvery c));
  ("PLQ_RESET", print_bool (cfg_Reset c))].

Definition environ (c : Config) (k : string) : option string :=
  snd <$> find (λ kv, String.eqb kv.1 k) (vars c).

(** the integers and durations are Go's *)
Definition ints_ok (c : Config) : Prop :=
  Forall in_i64 [cfg_Workers c; cfg_Batch c; cfg_DefaultThreshold c; cfg_MaxAttempts c;
    PostgresParts c; LoadKeys c; LoadTasks c; LoadCost c; cfg_Seed c; cfg_Producers c;
    cfg_WorkingSet c; CostLo c; CostHi c; cfg_Lease c; cfg_DefaultMaxWait c; cfg_PollMin c;
    cfg_PollMax c; Base (cfg_Process c); PerCost (cfg_Process c); cfg_Duration c; cfg_Warmup c;
    ChaosEvery c].

Lemma parse_bool_print b : ParseBool (print_bool b) = Some b.
Proof. by destruct b. Qed.

(** *** Any subset of the variables *)

(** The configuration of an empty environment. *)
Definition defaults : Config :=
  mkCfg "memory" 10 (30 * Second) 64 1000 (5 * Second) 3 Millisecond Second
    (mkProcess "zero" 0 0) "" 2 "" 100 10000 100 1 8 (30 * Second) (5 * Second) 1000
    (float_lit "1.2") (float_lit "0.02") 10 50 "./results" false (5 * Second) true.

(** the variables that are taken as they are *)
Definition text_knobs : list string :=
  ["PLQ_BACKEND"; "PLQ_PROCESS"; "PLQ_POSTGRES_DSN"; "PLQ_VALKEY_ADDR"; "PLQ_RESULTS"].

(** variable [k] tells nothing: unset, or set to what no parser reads *)
Definition useless (k : string) (o : option string) : Prop :=
  match o with
  | None => True
  | Some v => k ∉ text_knobs ∧ ParseInt v = None ∧ ParseDuration v = None ∧
      ParseFloat v = None ∧ ParseBool v = None
  end.

(** an environment that spells [c] out in the variables [kept], and nothing in the others *)
Definition spells (kept : string → bool) (c : Config) (os : string → option string) : Prop :=
  Forall (λ kv, if kept kv.1 then os kv.1 = Some kv.2 else useless kv.1 (os kv.1)) (vars c).

Lemma parsed_spelled {A} (parse : string → option A) (print : A → string) os k (x def : A) (kept : bool) :
  parse (print x) = Some x →
  (if kept then os k = Some (print x) else ∀ v, os k = Some v → parse v = None) →
  parsed parse os k def = if kept then x else def.
Proof.
  intros Hp Hk. destruct kept; [|by apply parsed_malformed]. unfold parsed. by rewrite Hk, Hp.
Qed.

Lemma env_spelled os k (x def : string) (kept : bool) :
  k ∈ text_knobs → (if kept then os k = Some x else useless k (os k)) →
  env os k def = if kept then x else def.
Proof.
  intros Hin Hk. unfold env, useless in *. destruct kept; [by rewrite Hk|].
  destruct (os k); [by destruct Hk|done].
Qed.

Lemma useless_parse {A} (parse : string → option A) (kept : bool) os k txt :
  (∀ v, ParseInt v = None ∧ ParseDuration v = None ∧ ParseFloat v = None ∧ ParseBool v = None →
     parse v = None) →
  (if kept then os k = Some txt else useless k (os k)) →
  if kept then os k = Some txt else ∀ v, os k = Some v → parse v = None.
Proof.
  intros Hp. destruct kept; [done|]. intros Hu v Hv. rewrite Hv in Hu. apply Hp, Hu.
Qed.

(** a knob read by a parser *)
Lemma knob_spelled {A} (parse : string → option A) (print : A → string) os k (x def : A) (kept : bool) :
  (∀ v, ParseInt v = None ∧ ParseDuration v = None ∧ ParseFloat v = None ∧ ParseBool v = None →
     parse v = None) →
  parse (print x) = Some x →
  (if kept then os k = Some (print x) else useless k (os k)) →
  parsed parse os k def = if kept then x else def.
Proof. intros Hv Hp Hk. by eapply parsed_spelled, useless_parse. Qed.

Lemma pair_if {A} (b : bool) (k : string) (f : A → string) (x y : A) :
  (k, f (if b then x else y)) = if b then (k, f x) else (k, f y).
Proof. by destruct b. Qed.

(** the configuration whose field comes from [c] or [d] as its variable is kept or not *)
Definition blend (kept : string → bool) (c d : Config) : Config :=
  let pick {A} (k : string) (f : Config → A) : A := if kept k then f c else f d in {|
  cfg_Backend := pick "PLQ_BACKEND" cfg_Backend; cfg_Workers := pick "PLQ_WORKERS" cfg_Workers;
  cfg_Lease := pick "PLQ_LEASE" cfg_Lease; cfg_Batch := pick "PLQ_BATCH" cfg_Batch;
  cfg_DefaultThreshold := pick "PLQ_THRESHOLD" cfg_DefaultThreshold;
  cfg_DefaultMaxWait := pick "PLQ_MAX_WAIT" cfg_DefaultMaxWait;
  cfg_MaxAttempts := pick "PLQ_MAX_ATTEMPTS" cfg_MaxAttempts;
  cfg_PollMin := pick "PLQ_POLL_MIN" cfg_PollMin; cfg_PollMax := pick "PLQ_POLL_MAX" cfg_PollMax;
  cfg_Process := mkProcess (pick "PLQ_PROCESS" (λ c, Kind (cfg_Process c)))
    (pick "PLQ_PROCESS_BASE" (λ c, Base (cfg_Process c)))
    (pick "PLQ_PROCESS_PERCOST" (λ c, PerCost (cfg_Process c)));
  PostgresDSN := pick "PLQ_POSTGRES_DSN" PostgresDSN;
  PostgresParts := pick "PLQ_POSTGRES_PARTS" PostgresParts;
  ValkeyAddr := pick "PLQ_VALKEY_ADDR" ValkeyAddr; LoadKeys := pick "PLQ_LOAD_KEYS" LoadKeys;
  LoadTasks := pick "PLQ_LOAD_TASKS" LoadTasks; LoadCost := pick "PLQ_LOAD_COST" LoadCost;
  cfg_Seed := pick "PLQ_SEED" cfg_Seed; cfg_Producers := pick "PLQ_PRODUCERS" cfg_Producers;
  cfg_Duration := pick "PLQ_DURATION" cfg_Duration; cfg_Warmup := pick "PLQ_WARMUP" cfg_Warmup;
  cfg_WorkingSet := pick "PLQ_WORKING_SET" cfg_WorkingSet; cfg_ZipfS := pick "PLQ_ZIPF_S" cfg_ZipfS;
  cfg_BirthRate := pick "PLQ_BIRTH_RATE" cfg_BirthRate; CostLo := pick "PLQ_COST_LO" CostLo;
  CostHi := pick "PLQ_COST_HI" CostHi; ResultsDir := pick "PLQ_RESULTS" ResultsDir;
  cfg_Chaos := pick "PLQ_CHAOS" cfg_Chaos; ChaosEvery := pick "PLQ_CHAOS_EVERY" ChaosEvery;
  cfg_Reset := pick "PLQ_RESET" cfg_Reset |}.

Lemma vars_blend kept c d :
  vars (blend kept c d) = zip_with (λ kv kd, if kept kv.1 then kv else kd) (vars c) (vars d).
Proof.
  unfold vars, blend. cbn -[pretty].
  repeat (apply (f_equal2 cons); [first [apply pair_if|by case_match]|]). done.
Qed.

Lemma Load_blend c kept os :
  (∀ f, ParseFloat (print_float f) = Some f) → (∀ d, in_i64 d → ParseDuration (print_dur d) = Some d) →
  ints_ok c → spells kept c os → Load os = blend kept c defaults.
Proof.
  intros Hf Hd Hi Hs. unfold spells, vars, ints_ok in *. 
  repeat (apply Forall_cons_1 in Hs as [? Hs]). repeat (apply Forall_cons_1 in Hi as [? Hi]). clear Hs Hi.
  cbn -[pretty] in *. unfold Load, blend. f_equal; [..|f_equal| | | | | | | | | | | | | | | | | | |].
  all: first
    [ eapply env_spelled; [unfold text_knobs; set_solver|done]
    | eapply (knob_spelled ParseInt pretty); [by intros ? (? & ? & ? & ?)|by apply ParseInt_pretty|done]
    | eapply (knob_spelled ParseDuration print_dur); [by intros ? (? & ? & ? & ?)|by apply Hd|done]
    | eapply (knob_spelled ParseFloat print_float); [by intros ? (? & ? & ? & ?)|by apply Hf|done]
    | eapply (knob_spelled ParseBool print_bool); [by intros ? (? & ? & ? & ?)|apply parse_bool_print|done]].
Qed.

End environ.
End config.

(** A library whose floats are their literals, written after an [f], and whose durations
    are counted in nanoseconds. *)
#[local] Instance demo_parse : GoParse :=
  {| float := string; float_lit := λ s, s;
     ParseFloat := λ s, match s with String "f" s => Some s | _ => None end;
     ParseDuration := ParseInt |}.

Definition demo_cfg : Config :=
  mkCfg "postgres" 100 (2 * Second) 8 500 Second 5 1 2 (mkProcess "fixed" 3 4) "dsn0,dsn1" 2 ""
    7 8 9 (-3) 4 5 6 77 "1.5" "0.1" 1 2 "/tmp/r" true 11 false.

(** Four variables are set, a fifth is malformed, the others are not set. *)
Definition demo_kept (k : string) : bool :=
  bool_decide (k ∈ ["PLQ_SEED"; "PLQ_DURATION"; "PLQ_RESULTS"; "PLQ_ZIPF_S"]).

Definition demo_os (k : string) : option string :=
  if demo_kept k then @environ demo_parse (String "f") pretty demo_cfg k
  else if bool_decide (k = "PLQ_PRODUCERS") then Some "many" else None.

