(* ===== verification/Loadgen.v ===== *)
(** Loadgen: the load generator of internal/loadgen: costs and keys (workload.go),
    producers (producer.go), worker names and lifetimes under chaos (chaos.go), counters
    and the latency histogram (metrics.go), the reaper loop and the backlog sampler of a
    sweep point (harness.go; Harness.v puts them together).  The random source of math/rand
    is a parameter, with its floats; the other floats are GoFloat's.  Bucket bounds are
    whole nanoseconds, which [bounds_exact] of LoadgenProps.v justifies. *)
From S2P Require Import Prelude Queue GoText GoFloat Worker.

(** ** Randomness (math/rand) *)

(** What the generator uses of a seeded source: each draw returns the next source. *)
Class Rand (R : Type) := {
  rfloat : Type;
  flt : rfloat → rfloat → bool;               (* < *)
  NewSource : Z → R;
  Float64 : R → rfloat * R;
  Int63n : Z → R → Z * R;                     (* of a positive bound *)
  Zipf : rfloat → Z → R → option (Z * R);     (* Uint64 of NewZipf(r, s, 1, imax);
                                                 [None]: a nil Zipf, which panics *)
}.

(** The documented ranges. *)
Class RandLaws (R : Type) `{Rand R} := {
  Int63n_range n r : (0 < n)%Z → (0 <= (Int63n n r).1 < n)%Z;
  Zipf_range s imax r k r' : (0 <= imax)%Z → Zipf s imax r = Some (k, r') → (0 <= k <= imax)%Z;
}.

(** ** workload.go *)

Record CostDist := mkCost {
  cd_Kind : string;     (* constant | uniform *)
  Lo : Z;
  Hi : Z;
}.

(** [keyFor] *)
Definition keyFor (idx workspaces : Z) : WorkUnitKey :=
  let ws := Z.rem idx (Z.max workspaces 1) in
  mkKey ("ws-" +:+ pretty ws) ("s-" +:+ pretty idx) "p".

Section producers.
Context {R : Type} `{Rand R}.

(** [CostDist.sample]; a bound of [Int63n] that is not positive panics *)
Definition sample (c : CostDist) (r : R) : res (Z * R) :=
  if bool_decide (cd_Kind c = "uniform") && (Lo c <? Hi c)%Z then
    let n := i64 (i64 (Hi c - Lo c) + 1) in
    if (n <=? 0)%Z then Panic
    else let '(x, r) := Int63n n r in Ok (i64 (Lo c + x), r)
  else if (Lo c <=? 0)%Z then Ok (1%Z, r)
  else Ok (Lo c, r).

Record Workload := mkWorkload {
  Seed : Z;
  WorkingSet : Z;
  ZipfS : rfloat;
  BirthRate : rfloat;
  wl_Cost : CostDist;
  Workspaces : Z;
}.

Definition DefaultWorkload (lit : string → rfloat) (seed : Z) : Workload :=
  mkWorkload seed 1000 (lit "1.2") (lit "0.02") (mkCost "uniform" 10 50) 8.

(** ** producer.go *)

Definition payload : bytes := "task".

(** the clamp of [RunProducers] *)
Definition clamp (w : Workload) : Workload :=
  mkWorkload (Seed w) (if (WorkingSet w <? 2)%Z then 2%Z else WorkingSet w) (ZipfS w)
    (BirthRate w) (wl_Cost w) (Workspaces w).

(** the source of producer [id] *)
Definition source (w : Workload) (id : nat) : R := NewSource (i64 (Seed w + id)).

(** What one turn of the loop meets: the environment of its call, how far the other
    producers slide the window before it reads [base], and whether the context is found
    cancelled after an error. *)
Record turn := mkTurn {
  tu_env : Env;
  tu_others : Z;
  tu_cancelled : bool;
}.

(** An enqueue the producer made: the window's base it read, the key and the cost. *)
Record made := mkMade {
  m_base : Z;
  m_idx : Z;
  m_key : WorkUnitKey;
  m_cost : Z;
  m_ok : bool;
}.

(** the slide of the window at the top of the loop *)
Definition slide (w : Workload) (base : Z) (r : R) : Z * R :=
  let '(f, r) := Float64 r in
  (if flt f (BirthRate w) then i64 (base + 1) else base, r).

(** the index and the cost picked for the base read *)
Definition choose (w : Workload) (base : Z) (r : R) : res (Z * Z * R) :=
  match Zipf (ZipfS w) (i64 (WorkingSet w - 1)) r with
  | None => Panic
  | Some (rank, r) =>
      let idx := i64 (base + i64 rank) in
      match sample (wl_Cost w) r with
      | Ok (cost, r) => Ok (idx, cost, r)
      | Err e => Err e
      | Panic => Panic
      end
  end.

(** the random part of a turn: the base it reads, and the index, key and cost it picks *)
Definition pick_task (w : Workload) (t : turn) (base : Z) (r : R) :
    res (Z * Z * Z * R) :=
  let '(base, r) := slide w base r in
  let base := i64 (base + tu_others t) in
  match choose w base r with
  | Ok (idx, cost, r) => Ok (base, idx, cost, r)
  | Err e => Err e
  | Panic => Panic
  end.

Context {S : Type} `{Queue.Backend S}.

(** [produce]: the loop while the context lives, over the turns it is given; the calls
    made, the number counted in [m.Enqueued] and the backend. *)
Fixpoint produce (w : Workload) (turns : list turn) (base : Z) (r : R) (s : S)
    (enqueued : Z) (log : list made) : res (S * Z * Z * list made) :=
  match turns with
  | [] => Ok (s, base, enqueued, log)
  | t :: turns =>
      match pick_task w t base r with
      | Ok (base, idx, cost, r) =>
          let key := keyFor idx (Workspaces w) in
          let '(s, x) := be_Enqueue (tu_env t) key payload cost s in
          let made ok := mkMade base idx key cost ok in
          match x with
          | Ok _ => produce w turns base r s (i64 (enqueued + 1)) (log ++ [made true])
          | Err _ =>
              if tu_cancelled t then Ok (s, base, enqueued, log ++ [made false])
              else produce w turns base r s enqueued (log ++ [made false])
          | Panic => Panic
          end
      | Err e => Err e
      | Panic => Panic
      end
  end.
End producers.

(** ** chaos.go *)

(** [itoa]: digits written from the end of a buffer of 12 bytes; an index below 0 panics *)
Fixpoint itoa_loop (p : nat) (i : Z) (b : list ascii) : res (list ascii) :=
  if (0 <? i)%Z then
    match p with
    | O => Panic
    | Datatypes.S p =>
        itoa_loop p (Z.quot i 10) (<[p := ascii_of_N (Z.to_N (48 + Z.rem i 10))]> b)
    end
  else Ok (drop p b).

Definition itoa (i : Z) : res string :=
  if (i =? 0)%Z then Ok "0"
  else
    match itoa_loop 12 i (replicate 12 zero) with
    | Ok b => Ok (foldr String EmptyString b)
    | Err e => Err e
    | Panic => Panic
    end.

Definition workerName (i : Z) : res string :=
  match itoa i with Ok s => Ok ("chaos-w" +:+ s) | r => r end.

(** ** metrics.go *)

Record hist := mkHist {
  counts : list Z;
  h_n : Z;
}.

(** the bounds 50µs ... 10s *)
Definition histBounds : list duration :=
  [50000; 100000; 200000; 500000; 1000000; 2000000; 5000000; 10000000; 20000000; 50000000;
   100000000; 200000000; 500000000; 1000000000; 2000000000; 5000000000; 10000000000]%Z.

Definition newHist : hist := mkHist (replicate 18 0%Z) 0.

Definition bucket (d : duration) : nat := length (take_while (λ b, b <? d)%Z histBounds).

Definition hist_add (d : duration) (h : hist) : hist :=
  mkHist (alter (λ c, i64 (c + 1)) (bucket d) (counts h)) (i64 (h_n h + 1)).

(** the scan of [quantile] for a target count, from bucket [i] *)
Fixpoint scan_hist (target : Z) (cs : list Z) (i : nat) (cum : Z) : duration :=
  match cs with
  | [] => default 0%Z (last histBounds)
  | c :: cs =>
      let cum := i64 (cum + c) in
      if (target <=? cum)%Z then
        match histBounds !! i with
        | Some b => b
        | None => (default 0%Z (last histBounds) * 2)%Z
        end
      else scan_hist target cs (Datatypes.S i) cum
  end.

(** the number of samples the quantile must cover *)
Definition target (q : float64) (n : Z) : Z := to_int (fmul q (of_int n)).

(** [quantile] *)
Definition quantile (q : float64) (h : hist) : duration :=
  if (h_n h =? 0)%Z then 0%Z else scan_hist (target q (h_n h)) (counts h) 0 0.

Record Metrics := mkMetrics {
  Enqueued : Z;
  Acked : Z;
  Claims : Z;
  ClaimEmpty : Z;
  LeaseExpired : Z;
  claimLat : hist;
  loopLat : hist;
}.

Definition NewMetrics : Metrics := mkMetrics 0 0 0 0 0 newHist newHist.

Definition q99 : float64 := lit 99 100.
Definition get_ClaimP99 (m : Metrics) : duration := quantile q99 (claimLat m).
Definition get_LoopP99 (m : Metrics) : duration := quantile q99 (loopLat m).

(** [hist.total], [LoopSamples] *)
Definition hist_total (h : hist) : Z := h_n h.
Definition LoopSamples (m : Metrics) : Z := hist_total (loopLat m).

(** the methods of [queue.Recorder], on the events of the worker loop *)
Definition record (m : Metrics) (ev : Worker.event) : Metrics :=
  match ev with
  | RecClaim d gotUnit =>
      mkMetrics (Enqueued m) (Acked m) (i64 (Claims m + 1))
        (if gotUnit then ClaimEmpty m else i64 (ClaimEmpty m + 1)) (LeaseExpired m)
        (hist_add d (claimLat m)) (loopLat m)
  | RecAck tasks =>
      mkMetrics (Enqueued m) (i64 (Acked m + tasks)) (Claims m) (ClaimEmpty m) (LeaseExpired m)
        (claimLat m) (loopLat m)
  | RecLoop d =>
      mkMetrics (Enqueued m) (Acked m) (Claims m) (ClaimEmpty m) (LeaseExpired m)
        (claimLat m) (hist_add d (loopLat m))
  | _ => m
  end.

(** ** harness.go *)

(** the period of [reaperLoop] *)
Definition reaper_period (lease : duration) : duration :=
  let iv := Z.quot lease 3 in
  if (iv <? 100 * Millisecond)%Z then (100 * Millisecond)%Z else iv.

(** [reaperLoop] over its ticks: an erroneous pass is not counted *)
Fixpoint reaperLoop {S} `{Queue.Backend S} (ticks : list (Env * time)) (s : S) (expired : Z) :
    S * Z :=
  match ticks with
  | [] => (s, expired)
  | (e, now) :: ticks =>
      let '(s, (r, _, err)) := be_ReapExpired e now s in
      reaperLoop ticks s (match err with None => i64 (expired + r) | Some _ => expired end)
  end.

(** The sampler's state between ticks. *)
Record sampler := mkSampler {
  minB : Z;
  maxB : Z;
  measured : option (Z * time);      (* acked count and time at the end of the warmup *)
}.

Definition sampler0 : sampler := mkSampler int64_max (-1) None.

(** A tick: the time since the start, the acked count, the answer of [Stats] if the
    backend is a [Stater], and the clock. *)
Record sample_tick := mkTick {
  tk_elapsed : duration;
  tk_acked : Z;
  tk_stats : option (res Z);         (* eligible units *)
  tk_now : time;
}.

Definition on_tick (warmup : duration) (t : sample_tick) (s : sampler) : sampler :=
  let s :=
    match tk_stats t with
    | Some (Ok backlog) =>
        if (warmup <=? tk_elapsed t)%Z then
          mkSampler (if (backlog <? minB s)%Z then backlog else minB s)
            (if (maxB s <? backlog)%Z then backlog else maxB s) (measured s)
        else s
    | _ => s
    end in
  match measured s with
  | None =>
      if (warmup <=? tk_elapsed t)%Z then mkSampler (minB s) (maxB s) (Some (tk_acked t, tk_now t))
      else s
  | Some _ => s
  end.

(** the loop of [sample]: it ends with the ticks (the context) or past the duration *)
Fixpoint sample_loop (warmup duration_ : duration) (ticks : list sample_tick) (s : sampler) :
    sampler :=
  match ticks with
  | [] => s
  | t :: ticks =>
      let s := on_tick warmup t s in
      if (duration_ <=? tk_elapsed t)%Z then s else sample_loop warmup duration_ ticks s
  end.

(** One row of the sweep. *)
Record Result := mkResult {
  rs_Backend : string;
  rs_Shards : Z;
  rs_Workers : Z;
  rs_Process : string;
  Throughput : float64;                (* tasks per second *)
  ClaimP99 : duration;
  LoopP99 : duration;
  LoopSamps : Z;
  MinBacklog : Z;
  MaxBacklog : Z;
  Saturated : bool;
  rs_Enqueued : Z;
  rs_Acked : Z;
  LeaseExp : Z;
}.

(** What [finalize] loads from the metrics, in its order: each load is an access of its
    own, and the run goes on between two of them. *)
Definition final_loads : list (Metrics → Z) :=
  [get_ClaimP99; get_LoopP99; LoopSamples; Enqueued; Acked; LeaseExpired].

(** what the loads gave *)
Record loaded := mkLoaded {
  ld_ClaimP99 : duration;
  ld_LoopP99 : duration;
  ld_LoopSamps : Z;
  ld_Enqueued : Z;
  ld_Acked : Z;
  ld_LeaseExp : Z;
}.

(** the rest of [finalize], at time [now] *)
Definition finalize (workers : Z) (label : string) (l : loaded) (s : sampler)
    (now : time) (hasStater : bool) : Result :=
  let tp := match measured s with
            | Some (a, start) =>
                let secs := Seconds (i64 (now - start)) in
                if negb (IsZero start) && fltb fzero secs
                then fdiv (of_int (i64 (ld_Acked l - a))) secs else fzero
            | None => fzero
            end in
  let '(lo, hi, sat) :=
    if hasStater && negb (minB s =? int64_max)%Z then (minB s, maxB s, (0 <? minB s)%Z)
    else ((-1)%Z, (-1)%Z, false) in
  mkResult "" 0 workers label tp (ld_ClaimP99 l) (ld_LoopP99 l) (ld_LoopSamps l) lo hi sat
    (ld_Enqueued l) (ld_Acked l) (ld_LeaseExp l).

(** the label of a sweep point falls back to its process's kind *)
Definition point_label (label kind : string) : string :=
  if bool_decide (label = "") then kind else label.

(** [sample]; [l] is what its last lines loaded *)
Definition sample_run (workers : Z) (label kind : string)
    (warmup duration_ : duration) (ticks : list sample_tick) (l : loaded) (now : time)
    (hasStater : bool) : Result :=
  finalize workers (point_label label kind) l
    (sample_loop warmup duration_ ticks sampler0) now hasStater.
