(* ===== verification/LoadgenProps.v ===== *)
(** LoadgenProps: properties of the load generator: the costs and keys it draws, the window
    of keys a producer works on, the names of chaos workers, the latency quantile and the
    saturation verdict. *)
From S2P Require Import Prelude Queue GoText GoFloat Worker Loadgen.
From S2P Require Memory.
Import (hints) Memory.

(** ** Costs and keys *)

(** The cost of a task, on every branch: a uniform distribution with [Lo < Hi] draws
    from [Lo] to [Hi] (whatever their sign); any other distribution gives [Lo], or 1 if it
    is not positive; and the draw panics exactly for ranges too wide for an [int64]. *)
Lemma sample_spec `{RandLaws R} c (r : R) :
  in_i64 (Lo c) → in_i64 (Hi c) →
  match sample c r with
  | Ok (x, _) =>
      if bool_decide (cd_Kind c = "uniform") && (Lo c <? Hi c)%Z then (Lo c <= x <= Hi c)%Z
      else x = if (Lo c <=? 0)%Z then 1%Z else Lo c
  | Err _ => False
  | Panic => cd_Kind c = "uniform" ∧ (2 ^ 63 - 1 <= Hi c - Lo c)%Z
  end.
Proof.
  intros Hlo Hhi. unfold sample. destruct (_ && _) eqn:Hu; [|by destruct (Lo c <=? 0)%Z].
  b2p. rewrite i64_add_l. unfold in_i64, int64_min, int64_max in *.
  destruct (Z.leb_spec (i64 (Hi c - Lo c + 1)) 0) as [Hn|Hn].
  - split; [done|]. destruct (Z.le_gt_cases (2 ^ 63 - 1) (Hi c - Lo c)); [done|].
    rewrite i64_id in Hn by (unfold in_i64, int64_min, int64_max; lia). lia.
  - assert (Hi c - Lo c + 1 < 2 ^ 63)%Z as Hd.
    { unfold i64 in Hn. destruct (Z.lt_ge_cases (Hi c - Lo c + 1) (2 ^ 63)); [done|].
      assert ((Hi c - Lo c + 1 + 2 ^ 63) mod 2 ^ 64 = Hi c - Lo c + 1 - 2 ^ 63)%Z as Hm.
      { symmetry. apply (Z.mod_unique_pos _ _ 1); lia. }
      lia. }
    rewrite i64_id in * by (unfold in_i64, int64_min, int64_max; lia).
    pose proof (Int63n_range (Hi c - Lo c + 1) r Hn) as Hr.
    destruct (Int63n (Hi c - Lo c + 1) r) as [x r']. cbn [fst] in Hr.
    rewrite i64_id by (unfold in_i64, int64_min, int64_max; lia). lia.
Qed.

#[export] Instance pretty_Z_inj' : Inj (=@{Z}) (=) pretty.
Proof. apply _. Qed.

Lemma app_str_inj (p a b : string) : p +:+ a = p +:+ b → a = b.
Proof. induction p as [|c p IH]; [done|]. intros [= H]. auto. Qed.

(** The key of an index: different indices give different work units, an index is owned
    by the tenant numbered by its remainder, and a workload of [n] tenants has exactly the
    workspaces [ws-0] to [ws-(n-1)]. *)
Lemma keyFor_spec (idx n : Z) :
  (∀ idx' n', keyFor idx n = keyFor idx' n' → idx = idx') ∧
  ((0 <= idx)%Z → ∃ ws, (0 <= ws < Z.max n 1)%Z ∧ ws = (idx mod Z.max n 1)%Z ∧
     Workspace (keyFor idx n) = "ws-" +:+ pretty ws) ∧
  (∀ ws, (0 <= ws < n)%Z → Workspace (keyFor (ws + n * Z.abs idx) n) = "ws-" +:+ pretty ws).
Proof.
  split_and!.
  - intros idx' n' [= _ Hs]. by apply pretty_Z_inj' in Hs.
  - intros H0. exists (idx mod Z.max n 1)%Z. split; [apply Z.mod_pos_bound; lia|]. split; [done|].
    cbn [keyFor Workspace]. by rewrite Z.rem_mod_nonneg by lia.
  - intros ws Hws. cbn [keyFor Workspace]. rewrite Z.max_l, Z.rem_mod_nonneg by nia.
    rewrite Z.mul_comm, Z.mod_add, Z.mod_small by lia. done.
Qed.

(** ** Producers *)

(** how far the window has slid at most *)
Definition slides (turns : list turn) : Z :=
  (length turns + list_Z_sum (tu_others <$> turns))%Z.

(** a call the producer may make from window base [b] with total slides at most [d] *)
Definition in_window {R} `{Rand R} (w : Workload) (b d : Z) (m : made) : Prop :=
  (b <= m_base m <= b + d)%Z ∧ (m_base m <= m_idx m < m_base m + WorkingSet w)%Z ∧
  m_key m = keyFor (m_idx m) (Workspaces w).

Section produce.
Context {R : Type} `{RandLaws R} {S : Type} `{Queue.Backend S}.

Lemma pick_task_spec w t base r b' idx cost r' :
  (0 <= base)%Z → (0 <= tu_others t)%Z → (2 <= WorkingSet w)%Z →
  (base + 1 + tu_others t + WorkingSet w <= int64_max)%Z →
  pick_task w t base r = Ok (b', idx, cost, r') →
  (base <= b' <= base + 1 + tu_others t)%Z ∧ (b' <= idx < b' + WorkingSet w)%Z ∧
  ∃ r1 r2, sample (wl_Cost w) r1 = Ok (cost, r2).
Proof.
  intros H0' Ho Hw Hmax. unfold pick_task, slide, choose, int64_max in *.
  destruct (Float64 r) as [f r1].
  rewrite (i64_id (WorkingSet w - 1)) by (unfold in_i64, int64_min, int64_max; lia).
  destruct (Zipf _ _ _) as [[k r2]|] eqn:Hz; [|done].
  assert (0 <= WorkingSet w - 1)%Z as Hi by lia. pose proof (Zipf_range _ _ _ _ _ Hi Hz) as Hk.
  destruct (sample (wl_Cost w) r2) as [[x r3]| |] eqn:Hs; [|done|done]. intros [= <- <- <- <-].
  assert (i64 ((if flt f (BirthRate w) then i64 (base + 1) else base) + tu_others t) =
    (if flt f (BirthRate w) then base + 1 else base) + tu_others t)%Z as ->.
  { destruct (flt _ _); rewrite ?i64_add_l; apply i64_id;
      unfold in_i64, int64_min, int64_max; lia. }
  rewrite (i64_id k) by (unfold in_i64, int64_min, int64_max; lia).
  split; [destruct (flt _ _); lia|]. split; [|eauto].
  rewrite i64_id by (unfold in_i64, int64_min, int64_max; destruct (flt _ _); lia). lia.
Qed.

Lemma in_window_mono w b d b' d' m :
  in_window w b' d' m → (b <= b')%Z → (b' + d' <= b + d)%Z → in_window w b d m.
Proof. intros (? & ? & ?) ? ?. split_and!; first [lia|done]. Qed.

Lemma slides_cons t turns :
  slides (t :: turns) = (1 + tu_others t + slides turns)%Z.
Proof. unfold slides. rewrite fmap_cons, length_cons. cbn [list_Z_sum]. lia. Qed.

Lemma slides_nonneg turns :
  Forall (λ t, 0 <= tu_others t)%Z turns → (length turns <= slides turns)%Z.
Proof.
  intros Ho. unfold slides. pose proof (list_Z_sum_nonneg (tu_others <$> turns)) as Hnn.
  rewrite Forall_fmap in Hnn. specialize (Hnn Ho). lia.
Qed.

Lemma produce_spec w turns base r (s : S) c l s' base' n log :
  (2 <= WorkingSet w)%Z → Forall (λ t, 0 <= tu_others t)%Z turns → (0 <= base)%Z →
  (base + slides turns + WorkingSet w <= int64_max)%Z → (0 <= c)%Z →
  (c + length turns <= int64_max)%Z →
  produce w turns base r s c l = Ok (s', base', n, log) →
  (base <= base' <= base + slides turns)%Z ∧ ∃ l', log = l ++ l' ∧
    Forall (in_window w base (slides turns)) l' ∧ length l' <= length turns ∧
    n = (c + length (filter (λ m, m_ok m = true) l'))%Z.
Proof.
  intros Hw. revert base r s c l. induction turns as [|t turns IH];
    intros base r s c l Ho H0' Hmax Hc0 Hc Hp.
  { cbn [produce] in Hp. injection Hp as <- <- <- <-. unfold slides. simpl. split; [lia|].
    exists []. rewrite app_nil_r. split_and!; [done|constructor|done|simpl; lia]. }
  apply Forall_cons in Ho as [Hot Ho]. rewrite slides_cons, length_cons in *.
  pose proof (slides_nonneg _ Ho) as Hs.
  cbn [produce] in Hp. destruct (pick_task w t base r) as [[[[b1 idx] cost] r1]|err|] eqn:Hpick;
    [|done|done].
  apply pick_task_spec in Hpick as (Hb1 & Hidx & _); [|done|done|done|lia].
  set (mk := λ ok, mkMade b1 idx (keyFor idx (Workspaces w)) cost ok) in *.
  assert (∀ ok, in_window w base (1 + tu_others t + slides turns) (mk ok)) as Hmk
    by (intros ok; split_and!; simpl; (done || lia)).
  assert (∀ c' ok, (c <= c' <= c + 1)%Z → c' = (if ok : bool then c + 1 else c)%Z → ∀ s1,
    produce w turns b1 r1 s1 c' (l ++ [mk ok]) = Ok (s', base', n, log) →
    (base <= base' <= base + (1 + tu_others t + slides turns))%Z ∧ ∃ l', log = l ++ l' ∧
      Forall (in_window w base (1 + tu_others t + slides turns)) l' ∧
      length l' <= Datatypes.S (length turns) ∧
      n = (c + length (filter (λ m, m_ok m = true) l'))%Z) as Hgo.
  { intros c' ok Hc' Heq s1 Hp1.
    destruct (IH b1 r1 s1 c' (l ++ [mk ok])) as (H3 & l' & -> & H4 & H5 & ->);
      [done|lia|lia|lia|lia|done|].
    split; [lia|]. exists (mk ok :: l'). rewrite <- (assoc_L (++)). split_and!; [done| |simpl; lia|].
    - constructor; [apply Hmk|]. eapply Forall_impl; [exact H4|]. intros m Hm.
      eapply in_window_mono; [exact Hm|lia|lia].
    - rewrite filter_cons. subst c'. destruct ok; simpl; lia. }
  destruct (be_Enqueue _ _ _ _ s) as [s1 [q|err|]]; [| |done].
  - eapply (Hgo (i64 (c + 1)) true); [| |exact Hp];
      rewrite i64_id by (unfold in_i64, int64_min, int64_max in *; lia); lia.
  - destruct (tu_cancelled t).
    + injection Hp as <- <- <- <-. split; [lia|]. exists [mk false].
      split_and!; [done|by apply Forall_singleton|simpl; lia|simpl; lia].
    + eapply (Hgo c false); [lia|done|exact Hp].
Qed.

(** C37: A producer stays in its sliding window: every call it makes is for a key whose
    index lies within [WorkingSet] of the base it read, the base moves only forward and at
    most by one per turn beside what others add, and its counter [Enqueued] is exactly the
    number of calls the backend accepted. *)
Theorem producer_stays_in_window w turns base r (s s' : S) base' n log :
  (0 <= base)%Z → (2 <= WorkingSet w)%Z → Forall (λ t, 0 <= tu_others t)%Z turns →
  (base + slides turns + WorkingSet w <= int64_max)%Z →
  produce w turns base r s 0 [] = Ok (s', base', n, log) →
  (base <= base' <= base + slides turns)%Z ∧
  Forall (in_window w base (slides turns)) log ∧ length log <= length turns ∧
  n = length (filter (λ m, m_ok m = true) log).
Proof.
  intros H0' Hw Ho Hmax Hp. pose proof (slides_nonneg _ Ho).
  destruct (produce_spec _ _ _ _ _ _ _ _ _ _ _ Hw Ho H0' Hmax (Z.le_refl 0) ltac:(lia) Hp)
    as (H3 & l' & -> & H4 & H5 & ->). split_and!; first [done|lia].
Qed.
End produce.

(** A source that counts: draws are its successive values, reduced to the range asked. *)
#[local] Instance demo_rand : Rand Z := {|
  rfloat := Z;
  flt := Z.ltb;
  NewSource := λ s, s;
  Float64 := λ r, (r mod 100, r + 1)%Z;
  Int63n := λ n r, (r mod n, r + 1)%Z;
  Zipf := λ s imax r, if (s <=? 1)%Z then None else Some (r mod (imax + 1), r + 1)%Z;
|}.

#[local] Instance demo_rand_laws : RandLaws Z.
Proof.
  split.
  - intros n r Hn. by apply Z.mod_pos_bound.
  - intros s imax r k r' Hi Hz. cbv beta iota delta [Zipf demo_rand] in Hz.
    destruct (_ <=? 1)%Z; [done|]. injection Hz as <- _.
    pose proof (Z.mod_pos_bound r (imax + 1)). lia.
Qed.

Lemma sample_spec_witness :
  sample (mkCost "uniform" (-3) 4) 21%Z = Ok (2%Z, 22%Z) ∧ (-3 <= 2 <= 4)%Z.
Proof.
  split; [reflexivity|].
  assert (in_i64 (-3) ∧ in_i64 4) as [H1 H2] by (unfold in_i64, int64_min, int64_max; lia).
  pose proof (sample_spec (mkCost "uniform" (-3) 4) 21%Z H1 H2) as Hs. exact Hs.
Defined.

Definition demo_wl : Workload := mkWorkload 7 3 2 50 (mkCost "uniform" 10 50) 2.

Definition demo_turns : list turn :=
  [mkTurn (env_at 0) 0 false; mkTurn (env_at 0) 2 false; mkTurn (env_at 0) 0 true].

Definition demo_mem : Memory.Backend := Memory.New (Memory.mkOptions 10 Second 3).
Lemma producer_stays_in_window_witness :
  ∃ s' base' n log,
    produce demo_wl demo_turns 5 (source demo_wl 1) demo_mem 0 [] = Ok (s', base', n, log) ∧
    n = 3%Z ∧ Forall (in_window demo_wl 5 (slides demo_turns)) log ∧
    n = length (filter (λ m, m_ok m = true) log).
Proof.
  eexists _, _, _, _. split; [vm_compute; reflexivity|]. split; [reflexivity|].
  edestruct (producer_stays_in_window demo_wl demo_turns 5 (source demo_wl 1) demo_mem)
    as (_ & Hin & _ & Hn).
  5: { vm_compute. reflexivity. }
  all: try (vm_compute; congruence).
  - by repeat constructor.
  - exact (conj Hin Hn).
Defined.

(** ** Names of chaos workers *)

Lemma digit_ascii x :
  (0 <= x < 10)%Z → ascii_of_N (Z.to_N (48 + x)) = pretty_N_char (Z.to_N x).
Proof.
  intros Hx. assert (x ∈ [0; 1; 2; 3; 4; 5; 6; 7; 8; 9]%Z) as Hin.
  { rewrite !elem_of_cons. lia. }
  clear Hx. revert x Hin. apply Forall_forall. repeat constructor.
Qed.

Lemma itoa_loop_digits (p : nat) (i : Z) (b : list ascii) :
  (0 <= i < 10 ^ p)%Z → p <= length b →
  ∃ b', itoa_loop p i b = Ok b' ∧
    foldr String EmptyString b' = pretty_N_go (Z.to_N i) (foldr String EmptyString (drop p b)).
Proof.
  revert i b. induction p as [|p IH]; intros i b Hi Hp; cbn [itoa_loop].
  - change (10 ^ 0%nat)%Z with 1%Z in Hi. replace i with 0%Z by lia. cbn [Z.ltb Z.compare].
    eexists. split; [done|]. by rewrite pretty_N_go_0.
  - destruct (Z.ltb_spec 0 i) as [H0|H0].
    + rewrite Z.rem_mod_nonneg, Z.quot_div_nonneg by lia.
      pose proof (Z.mod_pos_bound i 10 ltac:(lia)) as Hm.
      destruct (IH (i / 10)%Z (<[p := ascii_of_N (Z.to_N (48 + i mod 10))]> b)) as (b' & -> & Hb').
      { split; [apply Z.div_pos; lia|]. rewrite Nat2Z.inj_succ, Z.pow_succ_r in Hi by lia.
        apply Z.div_lt_upper_bound; lia. }
      { rewrite length_insert. lia. }
      exists b'. split; [done|]. rewrite Hb', (pretty_N_go_step (Z.to_N i)) by lia.
      rewrite Z2N.inj_div by lia. change (Z.to_N 10) with 10%N. f_equal.
      rewrite (drop_S _ (ascii_of_N (Z.to_N (48 + i mod 10)))) by (apply list_lookup_insert_eq; lia).
      cbn [foldr]. f_equal.
      * change 10%N with (Z.to_N 10). rewrite <- Z2N.inj_mod by lia. by apply digit_ascii.
      * by rewrite drop_insert_lt by lia.
    + replace i with 0%Z by lia. eexists. split; [done|]. by rewrite pretty_N_go_0.
Qed.

Lemma itoa_loop_overflow (p : nat) (i : Z) (b : list ascii) :
  (10 ^ p <= i)%Z → itoa_loop p i b = Panic.
Proof.
  revert i b. induction p as [|p IH]; intros i b Hi; cbn [itoa_loop].
  - change (10 ^ 0%nat)%Z with 1%Z in Hi. by rewrite (proj2 (Z.ltb_lt 0 i)) by lia.
  - rewrite Nat2Z.inj_succ, Z.pow_succ_r in Hi by lia.
    rewrite (proj2 (Z.ltb_lt 0 i)) by lia. rewrite Z.quot_div_nonneg by lia. apply IH.
    apply Z.div_le_lower_bound; lia.
Qed.

(** [itoa] prints a number of up to twelve digits in decimal, as the library does,
    so the names of chaos workers are distinct; it panics on a longer number, for which its
    buffer has no room, and prints a negative one as nothing. *)
Lemma itoa_spec (i : Z) :
  ((0 <= i < 10 ^ 12)%Z → itoa i = Ok (pretty i)) ∧
  ((10 ^ 12 <= i)%Z → itoa i = Panic) ∧
  ((i < 0)%Z → itoa i = Ok "") ∧
  (∀ j, (0 <= i < 10 ^ 12)%Z → (0 <= j < 10 ^ 12)%Z → workerName i = workerName j → i = j).
Proof.
  assert (∀ i, (0 <= i < 10 ^ 12)%Z → itoa i = Ok (pretty i)) as Hd.
  { clear. intros i Hi. unfold itoa. destruct (Z.eqb_spec i 0) as [->|Hne]; [done|].
    destruct (itoa_loop_digits 12 i (replicate 12 zero) Hi) as (b' & -> & ->); [done|].
    by destruct i as [|p|p]; [done| |lia]. }
  split_and!.
  - apply Hd.
  - intros Hi. unfold itoa. destruct (Z.eqb_spec i 0); [lia|]. by rewrite itoa_loop_overflow.
  - intros Hi. unfold itoa. destruct (Z.eqb_spec i 0); [lia|]. cbn [itoa_loop].
    by rewrite (proj2 (Z.ltb_ge 0 i)) by lia.
  - intros j Hi Hj. unfold workerName. rewrite !Hd by done. intros [= Heq].
    by apply app_str_inj, pretty_Z_inj' in Heq.
Qed.

(** ** The latency quantile *)

(** The samples not above a bound, and the histogram of all samples. *)
Definition at_most (b : duration) (ds : list duration) : Z :=
  length (filter (λ d, (d <= b)%Z) ds).

Definition hist_of (ds : list duration) : hist := foldr hist_add newHist ds.

Definition in_bucket (i : nat) (ds : list duration) : Z :=
  length (filter (λ d, bucket d = i) ds).

Definition below (i : nat) (ds : list duration) : Z :=
  length (filter (λ d, bucket d < i) ds).

Lemma bounds_sorted : StronglySorted Z.lt histBounds.
Proof. repeat constructor. Qed.

Lemma sorted_bucket (l : list Z) (d : Z) (i : nat) b :
  StronglySorted Z.lt l → l !! i = Some b →
  length (take_while (λ b, b <? d)%Z l) ≤ i ↔ (d <= b)%Z.
Proof.
  intros Hs. revert i. induction Hs as [|x l Hs IH Hf]; intros i Hi; [done|].
  cbn [take_while]. destruct (Z.ltb_spec x d) as [Hx|Hx].
  - destruct i as [|i]; simpl in Hi; [injection Hi as <-; simpl; split; lia|].
    rewrite length_cons, <- (IH i Hi). lia.
  - simpl. split; [|lia]. intros _. destruct i as [|i]; simpl in Hi; [by injection Hi as <-|].
    pose proof (proj1 (Forall_lookup _ _) Hf i b Hi). simpl in *. lia.
Qed.

Lemma below_at_most (i : nat) b ds :
  histBounds !! i = Some b → below (Datatypes.S i) ds = at_most b ds.
Proof.
  intros Hi. unfold below, at_most. f_equal. f_equal. apply list_filter_iff. intros d.
  rewrite <- (sorted_bucket histBounds d i b bounds_sorted Hi). unfold bucket. lia.
Qed.

Lemma below_S (i : nat) ds : below (Datatypes.S i) ds = (below i ds + in_bucket i ds)%Z.
Proof.
  unfold below, in_bucket. induction ds as [|d ds IH]; [done|]. rewrite !filter_cons.
  repeat case_decide; simpl; lia.
Qed.

Lemma bucket_lt d : bucket d < 18.
Proof.
  unfold bucket. assert (∀ (p : Z → bool) l, length (take_while p l) ≤ length l) as H.
  { intros p l. induction l as [|x l IH]; simpl; [done|]. destruct (p x); simpl; lia. }
  specialize (H (λ b, b <? d)%Z histBounds). change (length histBounds) with 17 in H. lia.
Qed.

Lemma below_all ds : below 18 ds = length ds.
Proof.
  unfold below. f_equal. f_equal. apply filter_all. intros d _. apply bucket_lt.
Qed.

Lemma hist_of_spec ds :
  (length ds <= int64_max)%Z →
  hist_of ds = mkHist ((λ i, in_bucket i ds) <$> seq 0 18) (length ds).
Proof.
  induction ds as [|d ds IH]; [done|]. rewrite length_cons. intros Hl. cbn [hist_of foldr].
  change (foldr hist_add newHist ds) with (hist_of ds). rewrite IH by lia.
  unfold hist_add. cbn [counts h_n]. f_equal.
  - apply list_eq. intros i. rewrite list_lookup_fmap.
    destruct (decide (i = bucket d)) as [->|Hne].
    + rewrite list_lookup_alter_eq, list_lookup_fmap, lookup_seq_lt by apply bucket_lt. simpl.
      f_equal. unfold in_bucket. rewrite filter_cons, decide_True by done.
      pose proof (length_filter (λ x, bucket x = bucket d) ds). rewrite length_cons.
      rewrite i64_id; [lia|]. unfold in_i64, int64_min, int64_max in *. lia.
    + rewrite list_lookup_alter_ne, list_lookup_fmap by done.
      destruct (seq 0 18 !! i) as [j|] eqn:Hj; [|done]. simpl. f_equal.
      apply lookup_seq in Hj as [-> _]. unfold in_bucket. rewrite filter_cons.
      by rewrite decide_False by done.
  - rewrite i64_id; [lia|]. unfold in_i64, int64_min, int64_max in *. lia.
Qed.

Lemma below_bounds i ds : (0 <= in_bucket i ds ∧ 0 <= below i ds <= length ds)%Z.
Proof.
  unfold in_bucket, below. pose proof (length_filter (λ d, bucket d < i) ds). lia.
Qed.

Lemma below_mono (i m : nat) ds : (below i ds <= below (i + m) ds)%Z.
Proof.
  induction m as [|m IH]; [by rewrite Nat.add_0_r|].
  rewrite Nat.add_succ_r, below_S. pose proof (below_bounds (i + m) ds). lia.
Qed.

(** the duration reported for bucket [j] *)
Definition upper (j : nat) : duration :=
  match histBounds !! j with Some b => b | None => (default 0%Z (last histBounds) * 2)%Z end.

Lemma scan_hist_spec target ds (k i : nat) :
  (length ds <= int64_max)%Z → i + k = 18 → (target <= length ds)%Z → 0 < k →
  ∃ j, i ≤ j < 18 ∧
    scan_hist target ((λ i, in_bucket i ds) <$> seq i k) i (below i ds) = upper j ∧
    (target <= below (Datatypes.S j) ds)%Z ∧ (i < j → (below j ds < target)%Z).
Proof.
  intros Hl. revert i. induction k as [|k IH]; intros i Hik Ht Hk; [lia|].
  rewrite <- cons_seq, fmap_cons. cbn [scan_hist].
  pose proof (below_bounds (Datatypes.S i) ds) as [_ Hb].
  rewrite <- below_S, i64_id by (unfold in_i64, int64_min, int64_max in *; lia).
  destruct (Z.leb_spec target (below (Datatypes.S i) ds)) as [Hle|Hgt].
  - exists i. split_and!; [lia|lia|done|done|lia].
  - destruct k as [|k].
    { replace (Datatypes.S i) with 18 in * by lia. rewrite below_all in Hgt. lia. }
    destruct (IH (Datatypes.S i)) as (j & Hj & -> & H1 & H2); [lia|done|lia|].
    exists j. split_and!; [lia|lia|done|done|]. intros Hij.
    destruct (decide (j = Datatypes.S i)) as [->|Hne]; [done|]. apply H2. lia.
Qed.

(** The quantile of a non-empty histogram is the least bucket bound that at least the
    target number of samples do not exceed; past the last bound it is twice that bound. *)
Lemma quantile_is_least_bound (f : float64) ds :
  ds ≠ [] → (length ds <= int64_max)%Z → (0 < target f (length ds) <= length ds)%Z →
  let q := quantile f (hist_of ds) in
  let n := target f (length ds) in
  (q ∈ histBounds ∧ (n <= at_most q ds)%Z ∧
   ∀ b, b ∈ histBounds → (b < q)%Z → (at_most b ds < n)%Z) ∨
  (q = (20 * Second)%Z ∧ (at_most (10 * Second) ds < n)%Z).
Proof.
  intros Hne Hl Hr. cbv zeta. unfold quantile. rewrite hist_of_spec by done. cbn [counts h_n].
  destruct (Z.eqb_spec (length ds) 0) as [H0|_]; [destruct ds; [done|simpl in H0; lia]|].
  set (n := target f (length ds)) in *.
  destruct (scan_hist_spec n ds 18 0 Hl eq_refl) as (j & Hj & Hq & H1 & H2); [lia|lia|].
  replace (below 0 ds) with 0%Z in Hq.
  2:{ unfold below. rewrite filter_none; [done|]. intros d _. lia. }
  rewrite Hq. clear Hq. unfold upper. destruct (histBounds !! j) as [q|] eqn:Hbj.
  - left. split; [by eapply list_elem_of_lookup_2|]. rewrite <- (below_at_most _ _ _ Hbj).
    split; [done|]. intros b Hb Hlt. apply list_elem_of_lookup in Hb as [i Hi].
    rewrite <- (below_at_most _ _ _ Hi).
    pose proof (proj2 (sorted_bucket _ q _ _ bounds_sorted Hbj) (Z.le_refl q)) as HL.
    assert (i < j) as Hij.
    { destruct (Nat.lt_ge_cases i j) as [|Hge]; [done|].
      pose proof (proj1 (sorted_bucket _ q _ _ bounds_sorted Hi)). lia. }
    pose proof (below_mono (Datatypes.S i) (j - Datatypes.S i) ds) as Hm.
    replace (Datatypes.S i + (j - Datatypes.S i)) with j in Hm by lia. lia.
  - right. split; [done|]. apply lookup_ge_None in Hbj. change (length histBounds) with 17 in Hbj.
    replace j with 17 in * by lia. rewrite <- (below_at_most 16 (10 * Second)) by done.
    apply H2. lia.
Qed.

Definition demo_ds : list duration :=
  [3 * Millisecond; 70000; 30 * Second; 2 * Millisecond; 60000]%Z.

Lemma quantile_is_least_bound_witness :
  quantile q99 (hist_of demo_ds) = (5 * Millisecond)%Z ∧
  at_most (2 * Millisecond) demo_ds = 3%Z ∧ at_most (5 * Millisecond) demo_ds = 4%Z ∧
  let q := quantile q99 (hist_of demo_ds) in
  let n := target q99 (length demo_ds) in
  (q ∈ histBounds ∧ (n <= at_most q demo_ds)%Z ∧
   ∀ b, b ∈ histBounds → (b < q)%Z → (at_most b demo_ds < n)%Z) ∨
  (q = (20 * Second)%Z ∧ (at_most (10 * Second) demo_ds < n)%Z).
Proof.
  split; [vm_compute; reflexivity|]. split; [reflexivity|]. split; [reflexivity|].
  apply (quantile_is_least_bound q99 demo_ds); [done|done|].
  split; vm_compute; congruence.
Defined.

(** The bounds of the source, in seconds. *)
Definition boundsF : list float64 :=
  [lit 50 1000000; lit 100 1000000; lit 200 1000000; lit 500 1000000; lit 1 1000; lit 2 1000;
   lit 5 1000; lit 10 1000; lit 20 1000; lit 50 1000; lit 100 1000; lit 200 1000; lit 500 1000;
   lit 1 1; lit 2 1; lit 5 1; lit 10 1].

(** Whole nanoseconds lose nothing at the bounds: a bound converts to its duration exactly
    ([quantile]), a duration equal to it does not exceed it, and one nanosecond more does
    ([add]). *)
Lemma bounds_exact :
  (λ f, to_int (fmul f (of_int Second))) <$> boundsF = histBounds ∧
  Forall2 (λ f (b : Z), fltb f (Seconds b) = false ∧ fltb f (Seconds (b + 1)) = true ∧
    fltb f (Seconds (b - 1)) = false) boundsF histBounds.
Proof. split; [vm_compute; reflexivity|]. repeat constructor. Qed.

(** The 99th percentile of a single sample is reported as 50 microseconds, the first
    bucket bound, however long the sample was: the target count rounds down to 0, which
    the scan meets before it has seen the sample. *)
Lemma lone_sample_p99 (d : duration) (m : Metrics) :
  loopLat m = hist_of [d] → get_LoopP99 m = 50000%Z.
Proof.
  intros Hm. unfold get_LoopP99. rewrite Hm, hist_of_spec by (vm_compute; congruence).
  unfold quantile. cbn [counts h_n]. change (length [d] =? 0)%Z with false. cbn iota.
  replace (target q99 (length [d])) with 0%Z by (vm_compute; reflexivity).
  change (seq 0 18) with (0 :: seq 1 17). rewrite fmap_cons. cbn [scan_hist].
  pose proof (below_bounds 0 [d]) as [H0' _].
  assert (in_bucket 0 [d] <= 1)%Z.
  { unfold in_bucket. pose proof (length_filter (λ d, bucket d = 0) [d]). simpl in *. lia. }
  rewrite i64_id by (unfold in_i64, int64_min, int64_max; lia).
  by rewrite (proj2 (Z.leb_le _ _)) by lia.
Qed.

Lemma lone_sample_p99_witness :
  let m := record NewMetrics (RecLoop (3 * Second)%Z) in
  h_n (loopLat m) = 1%Z ∧ get_LoopP99 m = 50000%Z.
Proof. split; [reflexivity|]. apply (lone_sample_p99 (3 * Second)). reflexivity. Defined.

(** ** The saturation verdict *)

(** the backlogs the verdict is drawn from: those answered after the warmup, up to the
    tick that ends the run *)
Fixpoint judged (warmup duration_ : duration) (ticks : list sample_tick) : list Z :=
  match ticks with
  | [] => []
  | t :: ticks =>
      match tk_stats t with
      | Some (Ok b) => if (warmup <=? tk_elapsed t)%Z then [b] else []
      | _ => []
      end ++ (if (duration_ <=? tk_elapsed t)%Z then [] else judged warmup duration_ ticks)
  end.

Lemma sample_loop_spec warmup duration_ ticks s :
  minB (sample_loop warmup duration_ ticks s) = foldl Z.min (minB s) (judged warmup duration_ ticks) ∧
  maxB (sample_loop warmup duration_ ticks s) = foldl Z.max (maxB s) (judged warmup duration_ ticks).
Proof.
  revert s. induction ticks as [|t ticks IH]; intros s; [done|]. cbn [sample_loop judged].
  set (now := match tk_stats t with Some (Ok b) => _ | _ => [] end).
  assert (minB (on_tick warmup t s) = foldl Z.min (minB s) now ∧
    maxB (on_tick warmup t s) = foldl Z.max (maxB s) now) as [Hmin Hmax].
  { unfold on_tick, now. destruct (tk_stats t) as [[b|err|]|], (warmup <=? tk_elapsed t)%Z;
      simpl; destruct (measured s); simpl; try done.
    all: destruct (Z.ltb_spec b (minB s)), (Z.ltb_spec (maxB s) b); lia. }
  rewrite !foldl_app, <- Hmin, <- Hmax. destruct (duration_ <=? tk_elapsed t)%Z; [done|apply IH].
Qed.

Lemma foldl_min_pos l (m : Z) : (0 < foldl Z.min m l)%Z ↔ (0 < m)%Z ∧ Forall (λ b, 0 < b)%Z l.
Proof.
  revert m. induction l as [|b l IH]; intros m; simpl; [by intuition|].
  rewrite IH, Forall_cons, Z.min_glb_lt_iff. tauto.
Qed.

Lemma foldl_min_max l :
  Forall (λ b, b < int64_max)%Z l → (foldl Z.min int64_max l = int64_max ↔ l = []).
Proof.
  intros Hl. split; [|by intros ->]. destruct l as [|b l]; [done|].
  apply Forall_cons in Hl as [Hb _]. cbn [foldl]. intros Heq.
  assert (∀ l (m : Z), (foldl Z.min m l <= m)%Z) as Hle.
  { intros l'. induction l' as [|x l' IH]; intros m; simpl; [done|]. specialize (IH (Z.min m x)). lia. }
  specialize (Hle l (Z.min int64_max b)). lia.
Qed.

(** A sweep point is reported saturated exactly when the backend answers statistics, at
    least one answer came after the warmup, and every such answer showed eligible units
    waiting; the reported backlogs are then the least and the greatest of those answers. *)
Lemma saturated_iff workers label kind warmup duration_ ticks l now hasStater :
  Forall (λ b, 0 <= b < int64_max)%Z (judged warmup duration_ ticks) →
  let r := sample_run workers label kind warmup duration_ ticks l now hasStater in
  let bs := judged warmup duration_ ticks in
  (Saturated r = true ↔ hasStater = true ∧ bs ≠ [] ∧ Forall (λ b, 0 < b)%Z bs) ∧
  (hasStater = true → bs ≠ [] →
     MinBacklog r = foldl Z.min int64_max bs ∧ MaxBacklog r = foldl Z.max (-1)%Z bs).
Proof.
  intros Hb. cbv zeta. set (bs := judged warmup duration_ ticks) in *.
  destruct (sample_loop_spec warmup duration_ ticks sampler0) as [Hmin Hmax].
  fold bs in Hmin, Hmax. cbn [sampler0 minB maxB] in Hmin, Hmax.
  unfold sample_run, finalize. rewrite Hmin, Hmax.
  assert (foldl Z.min int64_max bs = int64_max ↔ bs = []) as Hnil.
  { apply foldl_min_max. eapply Forall_impl; [exact Hb|]. simpl. lia. }
  destruct hasStater; cbn [andb].
  - destruct (Z.eqb_spec (foldl Z.min int64_max bs) int64_max) as [He|He]; cbn [negb].
    + apply Hnil in He as ->. split; [|done]. split; [done|by intros (_ & ? & _)].
    + cbn [Saturated MinBacklog MaxBacklog]. split; [|done]. rewrite Z.ltb_lt, foldl_min_pos.
      split; [intros [_ H]|by intros (_ & _ & H)]. split_and!; [done| |done].
      intros ->. by apply He, Hnil.
  - split; [|done]. split; [done|by intros [? _]].
Qed.

Definition demo_ticks : list sample_tick :=
  [mkTick Second 10 (Some (Ok 0%Z)) 100; mkTick (2 * Second) 20 (Some (Ok 4%Z)) 200;
   mkTick (3 * Second) 30 (Some (Err ErrCtxDone)) 300; mkTick (4 * Second) 40 (Some (Ok 9%Z)) 400;
   mkTick (5 * Second) 50 (Some (Ok 0%Z)) 500].

Lemma saturated_iff_witness :
  judged (2 * Second) (4 * Second) demo_ticks = [4; 9]%Z ∧
  let r := sample_run 8 "" "zero" (2 * Second) (4 * Second) demo_ticks (mkLoaded 0 0 0 0 0 0) 500 true in
  Saturated r = true ∧ MinBacklog r = 4%Z ∧ MaxBacklog r = 9%Z.
Proof.
  split; [reflexivity|]. cbv zeta.
  destruct (saturated_iff 8 "" "zero" (2 * Second) (4 * Second) demo_ticks (mkLoaded 0 0 0 0 0 0) 500 true)
    as [H1 H2].
  - repeat constructor; vm_compute; congruence.
  - split; [apply H1; split; [done|split; [done|by repeat constructor]]|].
    apply H2; [done|vm_compute; congruence].
Defined.
