(* ===== verification/Chaos.v ===== *)
(** Chaos: workers that crash and come back (internal/loadgen/chaos.go).  [RunChaosWorkers]
    gives each worker a name and a life time; [runChaosWorker] lives [Worker.Run] again and
    again, each life cut by its own context, in the middle of a call too, until the parent
    context is done.  Its history is a run of the system with cut calls (Cut.v), so a crash
    loses no task. *)
From S2P Require Worker.
From S2P Require Import Prelude Queue Contract Lease System SystemFacts WorkerSystem Cut.
From S2P Require Loadgen LoadgenProps Postgres PostgresFacts PostgresProps PostgresCut.

(** ** Life times *)

(** the default of [RunChaosWorkers] *)
Definition kill_period (killEvery : duration) : duration :=
  if (killEvery <=? 0)%Z then 5 * Second else killEvery.

(** [time.Duration(i) * killEvery / 8]: the product wraps, the quotient truncates *)
Definition jitter (killEvery : duration) (i : Z) : duration := Z.quot (i64 (i * killEvery)) 8.

(** the timeout of worker [i]'s contexts *)
Definition life_time (killEvery : duration) (i : Z) : duration :=
  i64 (killEvery + jitter killEvery i).

(** ** The goroutines *)

Section chaos.
Context {S : Type} `{Queue.Backend S}.

(** [runChaosWorker]: life [m] reads the worlds [ws m]; [over m]: the parent context is done
    at the top of life [m].  The end of a life's context is in its worlds: the worker finds it
    cancelled at the top of its loop or in its sleep, and a call under way when it comes meets
    it in its environment, as round trips that are lost or whose replies are.  The time-outs
    of the lives' contexts are returned with the telemetry.  [lives] bounds the lives, [rounds] and [fuel] those of each; [None]: out of
    one of them. *)
Fixpoint runChaosWorker (cfg : Worker.WorkerConfig) (id : WorkerID) (killEvery : duration) (i : Z)
    (over : nat → bool) (ws : nat → nat → Worker.World) (lives rounds fuel m : nat) (s : S)
    (log : list Worker.event) (timeouts : list duration) :
    option (S * list Worker.event * list duration * Worker.outcome ()) :=
  match lives with
  | O => None
  | Datatypes.S lives =>
      if over m then Some (s, log, timeouts, Worker.Returned ())
      else
        match Worker.Run cfg id (ws m) rounds fuel 0 0 s [] with
        | None => None
        | Some (s, l, Worker.Panicked) =>
            Some (s, log ++ l, timeouts ++ [life_time killEvery i], Worker.Panicked)
        | Some (s, l, Worker.Returned _) =>
            runChaosWorker cfg id killEvery i over ws lives rounds fuel (Datatypes.S m) s
              (log ++ l) (timeouts ++ [life_time killEvery i])
        end
  end.

(** [RunChaosWorkers]: the goroutines it starts, each by its name and the period of its
    kills; [itoa] panics on an index past twelve digits *)
Definition RunChaosWorkers (n : Z) (killEvery : duration) : list (res WorkerID * duration) :=
  (λ i : nat, (Loadgen.workerName i, life_time (kill_period killEvery) i)) <$> seq 0 (Z.to_nat n).
End chaos.

(** ** Staggering *)

(** The kills are staggered: of two workers the later one lives longer, by an eighth of the
    period each, when no product overflows. *)
Lemma lives_are_staggered killEvery (i j : Z) :
  (8 <= kill_period killEvery)%Z → (0 <= i < j)%Z →
  ((j + 8) * kill_period killEvery <= int64_max)%Z →
  (kill_period killEvery <= life_time (kill_period killEvery) i
     < life_time (kill_period killEvery) j)%Z.
Proof.
  intros Hk Hij Hj. set (k := kill_period killEvery) in *. clearbody k.
  assert (∀ x, (0 <= x <= j)%Z → life_time k x = (k + x * k / 8)%Z) as Hl.
  { intros x Hx. pose proof (Z.div_le_upper_bound (x * k) 8 (x * k)). unfold life_time, jitter.
    assert (0 <= x * k <= j * k)%Z by nia. assert (0 <= x * k / 8 <= x * k)%Z
      by (split; [apply Z.div_pos; lia|apply Z.div_le_upper_bound; lia]).
    rewrite (i64_id (x * k)), Z.quot_div_nonneg, i64_id; unfold in_i64, int64_min, int64_max in *; lia. }
  rewrite !Hl by lia. assert (i * k + 8 <= j * k)%Z as Hs by nia.
  pose proof (Z.div_pos (i * k) 8). apply (Z.div_le_mono _ _ 8) in Hs; [|lia].
  replace (i * k + 8)%Z with (i * k + 1 * 8)%Z in Hs by lia. rewrite Z.div_add in Hs by lia. nia.
Qed.

(** ** Chaos in the system *)

Section sim.
Context {S : Type} `{Cuttable S}.
Context (cfg : Worker.WorkerConfig) (id : WorkerID) (i : nat).
Context (Hbatch : (0 < Worker.Batch cfg)%Z) (Hid : id ≠ "").
Context (killEvery : duration) (over : nat → bool) (ws : nat → nat → Worker.World).
Context (Hws : ∀ m j n, cut_ok (Worker.w_env (ws m j) n)).

(** the tokens [h] issued before round [j] of life [m]: those of [h0], and what the database
    gave this worker's earlier claims *)
Definition given_by (h0 : gset LeaseToken) (m j : nat) (h : gset LeaseToken) : Prop :=
  ∀ tok, tok ∈ h → tok ∈ h0 ∨
    ∃ m' j', (m' < m ∨ m' = m ∧ j' < j) ∧ tok = env_uuid (Worker.w_env (ws m' j') 0).

Definition accounted (h0 : gset LeaseToken) (m j : nat) (h : gset LeaseToken) : Prop :=
  (∀ h e, token_fresh h e) ∨ given_by h0 m j h.

Lemma accounted_later h0 m j m' j' h :
  accounted h0 m j h → m < m' ∨ m = m' ∧ j ≤ j' → accounted h0 m' j' h.
Proof.
  intros [Ha|Ha] Hle; [by left|right]. intros tok Ht.
  destruct (Ha tok Ht) as [?|(m1 & j1 & Hlt & ->)]; [by left|right].
  exists m1, j1. split; [lia|done].
Qed.

Lemma accounted_claim h0 m j h h' :
  accounted h0 m j h →
  (∀ h e, token_fresh h e) ∨ h' ⊆ {[env_uuid (Worker.w_env (ws m j) 0)]} ∪ h →
  accounted h0 m (Datatypes.S j) h'.
Proof.
  intros Ha [?|Hsub]; [by left|].
  destruct (accounted_later h0 m j m (Datatypes.S j) h Ha) as [?|Hg]; [lia|by left|right].
  intros tok [->%elem_of_singleton|Ht]%Hsub%elem_of_union; [|by apply Hg].
  right. exists m, j. split; [lia|done].
Qed.

Context (h0 : gset LeaseToken).
Context (Hfresh : ∀ m j h, given_by h0 m j h → token_fresh h (Worker.w_env (ws m j) 0)).

Lemma accounted_fresh m j h : accounted h0 m j h → token_fresh h (Worker.w_env (ws m j) 0).
Proof. intros [?|?]; auto. Qed.

(** a life *)
Lemma life_cut m (rounds fuel j : nat) idle (s : sys S) l0 s' l out :
  sys_ok s → pcs s !! i = None → (calls s + rounds <= capacity S)%Z → accounted h0 m j (toks s) →
  Worker.Run cfg id (ws m) rounds fuel j idle (st s) l0 = Some (s', l, out) →
  ∃ s2 l1, l = l0 ++ l1 ∧ st s2 = s' ∧ pcs s2 = pcs s ∧ (calls s2 <= calls s + rounds)%Z ∧
    went cfg s s2 l1 ∧ accounted h0 (Datatypes.S m) 0 (toks s2).
Proof.
  revert j idle s l0. induction rounds as [|rounds IH]; intros j idle s l0 Hs Hp Hc Ha; [done|].
  cbn [Worker.Run]. destruct (Worker.w_cancelled (ws m j) 0).
  { intros [= <- <- _]. exists s, []. rewrite app_nil_r.
    split_and!; [done..|lia|by apply went_quiet|eapply accounted_later; [done|lia]]. }
  destruct (Worker.runOnce cfg (ws m j) id fuel 0 (st s)) as [[[s1 l1] r]|] eqn:Hr; [|done].
  destruct (runOnce_cut cfg id i Hbatch Hid (ws m j) (Hws m j) fuel s s1 l1 r Hs Hp ltac:(lia)
    (accounted_fresh _ _ _ Ha) Hr) as (y & <- & Hpy & Hcy & Hy & Ht).
  pose proof (accounted_claim _ _ _ _ _ Ha Ht) as Hay. pose proof (went_ok _ _ _ _ Hs Hy) as Hsy.
  assert (accounted h0 (Datatypes.S m) 0 (toks y)) as Hend by (eapply accounted_later; [done|lia]).
  pose proof (went_trans _ _ _ _ _ _ Hy (went_quiet _ y y
    [Worker.Idle (Worker.next (Worker.Backoff cfg) idle)] ltac:(done) eq_refl eq_refl eq_refl)) as Hyi.
  assert (∀ idle l1, went cfg s y l1 →
    Worker.Run cfg id (ws m) rounds fuel (Datatypes.S j) idle (st y) (l0 ++ l1) = Some (s', l, out) →
    ∃ s2 l2, l = l0 ++ l2 ∧ st s2 = s' ∧ pcs s2 = pcs s ∧
      (calls s2 <= calls s + Datatypes.S rounds)%Z ∧ went cfg s s2 l2 ∧
      accounted h0 (Datatypes.S m) 0 (toks s2)) as Hgo.
  { intros idle' l1' Hy1 Hx. rewrite <- Hpy in Hp.
    destruct (IH (Datatypes.S j) idle' y _ Hsy Hp ltac:(lia) Hay Hx)
      as (s2 & l2 & -> & <- & Hp2 & Hc2 & Hw2 & Ha2).
    exists s2, (l1' ++ l2). rewrite (assoc_L (++)).
    split_and!; [done|done|by rewrite Hp2|lia|by eapply went_trans|done]. }
  destruct r as [[[] [err|]]|];
    [destruct (Worker.w_cancelled (ws m j) 1)|by apply Hgo|destruct (Worker.w_cancelled (ws m j) 1)..|].
  all: try (by apply Hgo).
  all: intros [= <- <- _]; exists y; eexists; (split; [reflexivity|]); split_and!; [done..|lia|done|done].
Qed.

Lemma chaos_cut (lives rounds fuel m : nat) (s : sys S) l0 t0 s' l t out :
  sys_ok s → pcs s !! i = None → (calls s + lives * rounds <= capacity S)%Z →
  accounted h0 m 0 (toks s) →
  runChaosWorker cfg id killEvery (Z.of_nat i) over ws lives rounds fuel m (st s) l0 t0 =
    Some (s', l, t, out) →
  ∃ s2 l1 k, l = l0 ++ l1 ∧ t = t0 ++ replicate k (life_time killEvery (Z.of_nat i)) ∧
    st s2 = s' ∧ pcs s2 = pcs s ∧ went cfg s s2 l1.
Proof.
  revert m s l0 t0. induction lives as [|lives IH]; intros m s l0 t0 Hs Hp Hc Ha; [done|].
  cbn [runChaosWorker]. destruct (over m).
  { intros [= <- <- <- _]. exists s, [], 0. rewrite !app_nil_r.
    split_and!; try done. by apply went_quiet. }
  destruct (Worker.Run cfg id (ws m) rounds fuel 0 0 (st s) []) as [[[s1 l1] r]|] eqn:Hr; [|done].
  assert (calls s + rounds <= capacity S)%Z as Hcap by nia.
  destruct (life_cut m rounds fuel 0 0 s [] s1 l1 r Hs Hp Hcap Ha Hr)
    as (y & l1' & -> & <- & Hpy & Hcy & Hy & Hay).
  destruct r as [e|].
  - intros Hx. rewrite <- Hpy in Hp. assert (calls y + lives * rounds <= capacity S)%Z as Hcy' by nia.
    destruct (IH (Datatypes.S m) y _ _ (went_ok _ _ _ _ Hs Hy) Hp Hcy' Hay Hx)
      as (s2 & l2 & k & -> & -> & <- & Hp2 & Hw2).
    exists s2, (l1' ++ l2), (Datatypes.S k). cbn [app replicate]. rewrite <- !(assoc_L (++)).
    split_and!; [done|done|done|by rewrite Hp2|by eapply went_trans].
  - intros [= <- <- <- _]. by exists y, l1', 1.
Qed.
End sim.

(** C10: A crash loses nothing (RunChaosWorkers, runChaosWorker).  A chaos worker lives again
    and again, each life cut by its own context, at any point: between two calls, or in the
    middle of one, so that it was not executed, or was and its reply is lost, or was half
    done; whatever it held is abandoned.  Over a driver whose calls may be cut ([Cuttable]:
    all three), from a state the system reaches with such calls, the worker idle, its
    history is a run of the system: the worker is idle again, the hook saw exactly the tasks
    that were processed, in order, and no more acknowledgements were recorded than took
    effect.  Over all the crashes a unit's enqueued tasks are those deleted, then those still
    pending, in order; each one deleted was processed, even where the reply to its
    acknowledgement was lost; and first-time processing is in the unit's order. *)
Theorem chaos_worker_loses_nothing {S} `{Cuttable S} (cfg : Worker.WorkerConfig) (id : WorkerID)
    (i : nat) (killEvery : duration) (over : nat → bool) (ws : nat → nat → Worker.World)
    (lives rounds fuel : nat) (s0 : S) (s : sys S) (s' : S) (l : list Worker.event)
    (t : list duration) (out : Worker.outcome ()) :
  (0 < Worker.Batch cfg)%Z → id ≠ "" → pcs s !! i = None →
  (calls s + lives * rounds <= capacity S)%Z →
  inv 0 ∅ s0 → (∀ k, pending s0 k = []) → rtc flaky (init s0) s →
  (∀ m j n, cut_ok (Worker.w_env (ws m j) n)) →
  (∀ m j h, given_by ws (toks s) m j h → token_fresh h (Worker.w_env (ws m j) 0)) →
  runChaosWorker cfg id killEvery (Z.of_nat i) over ws lives rounds fuel 0 (st s) [] [] =
    Some (s', l, t, out) →
  ∃ s2 evs, rtc flaky (init s0) s2 ∧ st s2 = s' ∧ pcs s2 = pcs s ∧ log s2 = log s ++ evs ∧
    (Worker.hasOnProcess cfg = true → Worker.processed l = hooked evs) ∧
    recorded l `sublist_of` batches evs ∧
    (∀ k, enq_of (log s2) k = acked_of (log s2) k ++ pending s' k) ∧
    (∀ k p, p < length (acked_of (log s2) k) → was_processed (log s2) k p) ∧
    fifo_processing (log s2) ∧
    Forall (λ d, d = life_time killEvery (Z.of_nat i)) t.
Proof.
  intros Hb Hid Hp Hc Hinv Hemp Hreach He Hf Hr.
  assert (sys_ok s) as Hs by (eapply flakies_ok; [by apply sys_ok_init|done]).
  destruct (chaos_cut cfg id i Hb Hid killEvery over ws He (toks s) Hf lives rounds fuel 0 s [] []
    s' l t out Hs Hp Hc) as (s2 & l1 & k & -> & -> & <- & Hp2 & evs & Hx & Hl & Hh & Hrec);
    [right; intros tok; by left|exact Hr|].
  assert (rtc flaky (init s0) s2) as Hr2 by by etrans.
  destruct (flaky_safe s0 s2 Hinv Hemp Hr2) as (H3 & H4 & H5).
  exists s2, evs. split_and!; try done. by apply Forall_replicate.
Qed.

(** A worker of batches of one over two Postgres primaries; each claim draws its own uuid. *)
Definition chaos_cfg : Worker.WorkerConfig :=
  Worker.mkConfig (3 * Second) 1 (Worker.mkBackoff Millisecond Second)
    (Worker.mkProcess "zero" 0 0) true true.

(** In its first life the context is done while the first acknowledgement commits: the
    answer of the commit is lost. *)
Definition chaos_net (m n r : nat) : fault :=
  if bool_decide (m = 0 ∧ n = 2 ∧ r = 3) then Unacked "context deadline exceeded" else NoFault.

Definition chaos_worlds (m j : nat) : Worker.World :=
  Worker.mkWorld
    (λ n, mkEnv (λ _, 2 * Second)%Z (λ l, l) ("u" +:+ pretty (encode (m, j))) (chaos_net m n))
    (λ _, 0%Z) (λ _, 0) (λ x, bool_decide (x = 1)).

Section witness.
#[local] Existing Instances PostgresProps.demo_service Postgres.Postgres_Backend
  PostgresFacts.pg_View PostgresFacts.Postgres_Strict PostgresCut.Postgres_Cuttable.

Definition chaos_acts : list action := [
  DoEnqueue (PostgresProps.pg_env Second "u1") PostgresProps.pg_key "a" 2;
  DoEnqueue (PostgresProps.pg_env Second "u1") PostgresProps.pg_key "b" 2].

Definition chaos_start : sys Postgres.Backend :=
  default (init (PostgresProps.pg_two 1)) (exec (init (PostgresProps.pg_two 1)) chaos_acts).

Lemma chaos_empty :
  PostgresFacts.pg_ok 0 ∅ (PostgresProps.pg_two 1) ∧ ∀ k, pending (PostgresProps.pg_two 1) k = [].
Proof. by apply (PostgresProps.New_ok (PostgresProps.pg_opts 1) ∅). Qed.

Lemma chaos_started : rtc flaky (init (PostgresProps.pg_two 1)) chaos_start.
Proof.
  apply steps_flaky, (exec_reachable _ (chaos_acts) (init (PostgresProps.pg_two 1)));
    [|apply rtc_refl|vm_compute; reflexivity].
  apply acts_ok_Forall. intros x. by repeat constructor.
Qed.

(** the first task is processed once and is gone, though nobody was told; the second waits *)
Lemma chaos_worker_loses_nothing_witness :
  ∃ s2, rtc flaky (init (PostgresProps.pg_two 1)) s2 ∧
    pending (st s2) PostgresProps.pg_key = [mkTask 1 "b" 2] ∧
    enq_of (log s2) PostgresProps.pg_key =
      acked_of (log s2) PostgresProps.pg_key ++ pending (st s2) PostgresProps.pg_key ∧
    ∃ l, Worker.processed l = [(PostgresProps.pg_key, mkTask 0 "a" 2)] ∧ recorded l = [].
Proof.
  assert ((λ r, (Worker.processed r.1.1.2, recorded r.1.1.2,
      pending r.1.1.1 PostgresProps.pg_key, r.1.2)) <$>
    runChaosWorker chaos_cfg "chaos-w4" (2 * Second) 4 (λ m, bool_decide (2 ≤ m)) chaos_worlds 3 3 4 0
      (st chaos_start) [] [] =
    Some ([(PostgresProps.pg_key, mkTask 0 "a" 2)], [], [mkTask 1 "b" 2], [3 * Second; 3 * Second]%Z))
    as Hrun by (vm_compute; reflexivity).
  destruct (runChaosWorker _ _ _ _ _ _ _ _ _ _ _ _ _) as [[[[s' l] t] out]|] eqn:Hr;
    [|discriminate Hrun].
  injection Hrun as Hl Hrec Hpend _.
  destruct (chaos_worker_loses_nothing chaos_cfg "chaos-w4" 4 (2 * Second) (λ m, bool_decide (2 ≤ m))
    chaos_worlds 3 3 4 (PostgresProps.pg_two 1) chaos_start s' l t out)
    as (s2 & evs & H1 & <- & _ & _ & _ & _ & H2 & _);
    [done|done|reflexivity|vm_compute; congruence| | | |done| |exact Hr|].
  - apply chaos_empty.
  - apply chaos_empty.
  - exact chaos_started.
  - intros m j h Hg. split; [|done]. intros Hin. cbn in Hin.
    destruct (Hg _ Hin) as [Hs|(m' & j' & Hlt & Heq)]; [by vm_compute in Hs|].
    cbn in Heq. injection Heq as Heq. apply pretty_positive_inj, encode_inj in Heq.
    injection Heq as <- <-. lia.
  - exists s2. split; [exact H1|]. split; [exact Hpend|]. split; [apply H2|]. exists l.
    split; [exact Hl|exact Hrec].
Defined.
End witness.
