(* ===== verification/Harness.v ===== *)
(** Harness: one sweep point of the load harness (internal/loadgen/harness.go: Run, sample,
    CSVRow; producer.go: RunProducers; chaos.go: RunChaosWorkers), as a transition system:
    the producers, the workers, the reaper and the sampler share a backend, the metrics and
    the window base, and their steps interleave in any order.  A step is one access to what
    is shared: a call of the backend, or a load or an update of one counter; so the
    sampler loads the counters of a row at different moments, with the run going on between
    them.  Timing is free: a lease, a kill or a tick may come at any point. *)
From S2P Require Import Prelude Queue Contract GoText GoFloat System SystemFacts.
From S2P Require Worker.
From S2P Require Import Loadgen.

Section harness.
Context {R : Type} `{Rand R} {S : Type} `{Contract S}.

(** ** A sweep point *)

Record RunSpec := mkSpec {
  sp_Workers : Z;
  sp_Producers : Z;
  sp_Process : Worker.ProcessModel;
  sp_Label : string;
  sp_Workload : Workload (R := R);
  sp_Lease : duration;
  sp_Batch : Z;
  sp_Duration : duration;
  sp_Warmup : duration;
  sp_Chaos : bool;
  sp_KillEvery : duration;
  sp_SampleCSV : bool;            (* spec.SampleCSV != nil *)
}.

(** the workers' configuration in [Run] *)
Definition wcfg (spec : RunSpec) : Worker.WorkerConfig :=
  Worker.mkConfig (sp_Lease spec) (sp_Batch spec)
    (Worker.mkBackoff Millisecond (100 * Millisecond)) (sp_Process spec) false true.

(** the name of worker [i], of the pool or of [RunChaosWorkers], where a worker respawned
    has the name of the one that crashed *)
Definition worker_id (spec : RunSpec) (i : nat) : WorkerID :=
  if sp_Chaos spec then match workerName i with Ok w => w | _ => "" end
  else Worker.worker_name i.

(** Where a producer stands in the loop of [produce], with its random source. *)
Inductive producer :=
  | Sliding (r : R)      (* at the top of the loop *)
  | Pushing (r : R)      (* about to read the base and to enqueue *)
  | Counting (r : R)     (* enqueued, about to count it *)
  | Gone.                (* returned *)

(** Where the sampler stands in [sample] and [finalize], with what it has loaded. *)
Inductive sampling :=
  | Waiting                                          (* in its select *)
  | Asking (elapsed : duration) (acked : Z)          (* a tick came; about to call [Stats] *)
  | Printing (elapsed : duration) (acked backlog : Z) (vs : list Z)   (* a line of SampleCSV *)
  | Finalizing (vs : list Z)
  | Returned (r : Result).

(** The state the goroutines of [Run] share, and where each of them stands. *)
Record point := mkPoint {
  pt_sys : sys S;                       (* the backend and the workers *)
  pt_m : Metrics;
  pt_base : Z;
  pt_prods : list producer;
  pt_todo : list (list Worker.event);   (* telemetry a worker has yet to record *)
  pt_smp : sampler;
  pt_rows : list string;                (* the lines of spec.SampleCSV *)
  pt_at : sampling;
}.

(** what [sample] returned *)
Definition pt_res (p : point) : option Result :=
  match pt_at p with Returned r => Some r | _ => None end.

Definition sample_header : string :=
  "elapsed_s,acked,enqueued,eligible_backlog,claim_p99_ms,loop_p99_ms".

(** [RunProducers]: the goroutines it starts, on the clamped workload *)
Definition RunProducers (w : Workload (R := R)) (n : Z) : list producer :=
  (λ i, Sliding (source (clamp w) i)) <$> seq 0 (Z.to_nat n).

(** what [Run] starts; [sample] writes the header *)
Definition start (spec : RunSpec) (s0 : S) : point :=
  mkPoint (init s0) NewMetrics 0 (RunProducers (sp_Workload spec) (sp_Producers spec))
    (replicate (Z.to_nat (sp_Workers spec)) []) sampler0
    (if sp_SampleCSV spec then [sample_header] else []) Waiting.

(** ** What a goroutine does next *)

Inductive paction :=
  | Slide (i : nat)
  | Push (i : nat) (e : Env) (cancelled : bool)
  | Count (i : nat)
  | WClaim (i : nat) (e : Env) (since : duration)
  | WDrain (i : nat) (e : Env)
  | WProcess (i : nat)
  | WBeat (i : nat) (e : Env)           (* its heartbeat goroutine, as late as it may be *)
  | WAck (i : nat) (e : Env) (since : duration)
  | WRelease (i : nat) (e : Env)
  | WRecord (i : nat)
  | WCrash (i : nat)                    (* its context is cancelled: by chaos, by the caller, at the end *)
  | Reaper (e : Env) (now : time)
  | Tick (elapsed : duration)           (* the sampler: a tick, and the acked count *)
  | Ask (e : Env) (now : time)          (* its call of [Stats]; the clock after it *)
  | Load                                (* its next load of the metrics *)
  | Return (now : time)                 (* the rest of [finalize] *)
  | Interrupt.                          (* it finds the context cancelled *)

Definition set_prod (i : nat) (x : producer) (p : point) : point :=
  mkPoint (pt_sys p) (pt_m p) (pt_base p) (<[i := x]> (pt_prods p)) (pt_todo p) (pt_smp p)
    (pt_rows p) (pt_at p).

Definition set_base (b : Z) (p : point) : point :=
  mkPoint (pt_sys p) (pt_m p) b (pt_prods p) (pt_todo p) (pt_smp p) (pt_rows p) (pt_at p).

Definition set_sys (s : sys S) (p : point) : point :=
  mkPoint s (pt_m p) (pt_base p) (pt_prods p) (pt_todo p) (pt_smp p) (pt_rows p) (pt_at p).

Definition set_m (m : Metrics) (p : point) : point :=
  mkPoint (pt_sys p) m (pt_base p) (pt_prods p) (pt_todo p) (pt_smp p) (pt_rows p) (pt_at p).

Definition set_todo (i : nat) (l : list Worker.event) (p : point) : point :=
  mkPoint (pt_sys p) (pt_m p) (pt_base p) (pt_prods p) (<[i := l]> (pt_todo p)) (pt_smp p)
    (pt_rows p) (pt_at p).

Definition add_Enqueued (m : Metrics) : Metrics :=
  mkMetrics (i64 (Loadgen.Enqueued m + 1)) (Loadgen.Acked m) (Claims m) (ClaimEmpty m)
    (LeaseExpired m) (claimLat m) (loopLat m).

Definition set_LeaseExpired (x : Z) (m : Metrics) : Metrics :=
  mkMetrics (Loadgen.Enqueued m) (Loadgen.Acked m) (Claims m) (ClaimEmpty m) x
    (claimLat m) (loopLat m).

(** the events a call of the system logged *)
Definition news (s s' : sys S) : list System.event := drop (length (log s)) (log s').

(** worker [i] of the pool, with nothing left to record, makes a call *)
Definition call (i : nat) (a : action) (p : point) : option (sys S) :=
  match pt_todo p !! i with
  | Some [] => exec1 (pt_sys p) a
  | _ => None
  end.

(** [float64(d) / float64(time.Millisecond)] *)
Definition ms (d : duration) : float64 := fdiv (of_int d) (of_int Millisecond).

(** a line of spec.SampleCSV, and what its last arguments load *)
Definition sample_row (elapsed : duration) (acked enqueued backlog : Z)
    (claimP99 loopP99 : duration) : string :=
  Join comma [fmt_f 0 (Seconds elapsed); pretty acked; pretty enqueued; pretty backlog;
    fmt_f 1 (ms claimP99); fmt_f 1 (ms loopP99)].

Definition row_loads : list (Metrics → Z) := [Loadgen.Enqueued; get_ClaimP99; get_LoopP99].

Definition set_sampler (s : sampler) (rows : list string) (x : sampling) (p : point) : point :=
  mkPoint (pt_sys p) (pt_m p) (pt_base p) (pt_prods p) (pt_todo p) s rows x.

Definition set_at (x : sampling) (p : point) : point := set_sampler (pt_smp p) (pt_rows p) x p.

Section steps.
Context (spec : RunSpec) (stater : option (Env → S → res Stats)).

(** the end of a tick *)
Definition after_tick (elapsed : duration) : sampling :=
  if (sp_Duration spec <=? elapsed)%Z then Finalizing [] else Waiting.

(** the body of a tick from its call of [Stats] on *)
Definition ask (e : Env) (elapsed : duration) (acked : Z) (now : time) (p : point) : point :=
  let answer := (λ stats, match stats e (st (pt_sys p)) with
                          | Ok x => Ok (EligibleUnits x) | Err err => Err err | Panic => Panic
                          end) <$> stater in
  set_sampler (on_tick (sp_Warmup spec) (mkTick elapsed acked answer now) (pt_smp p)) (pt_rows p)
    (if sp_SampleCSV spec
     then Printing elapsed acked (match answer with Some (Ok b) => b | _ => -1 end)%Z []
     else after_tick elapsed) p.

(** the next load of the sampler; the last one of a line writes it *)
Definition load (p : point) : option point :=
  match pt_at p with
  | Printing elapsed acked backlog vs =>
      f ← row_loads !! length vs;
      Some (match vs ++ [f (pt_m p)] with
            | [enqueued; c; l] =>
                set_sampler (pt_smp p)
                  (pt_rows p ++ [sample_row elapsed acked enqueued backlog c l])
                  (after_tick elapsed) p
            | vs => set_at (Printing elapsed acked backlog vs) p
            end)
  | Finalizing vs =>
      f ← final_loads !! length vs; Some (set_at (Finalizing (vs ++ [f (pt_m p)])) p)
  | _ => None
  end.

(** [finalize] after its loads *)
Definition finish (l : loaded) (s : sampler) (now : time) : Result :=
  finalize (sp_Workers spec) (point_label (sp_Label spec) (Worker.Kind (sp_Process spec))) l s now
    (bool_decide (stater ≠ None)).

(** One step of one goroutine; [None] when it is not the next thing that goroutine does. *)
Definition do (a : paction) (p : point) : option point :=
  let w := clamp (sp_Workload spec) in
  match a with
  | Slide i =>
      match pt_prods p !! i with
      | Some (Sliding r) =>
          let '(b, r) := slide w (pt_base p) r in Some (set_base b (set_prod i (Pushing r) p))
      | _ => None
      end
  | Push i e cancelled =>
      match pt_prods p !! i with
      | Some (Pushing r) =>
          match choose w (pt_base p) r with
          | Ok (idx, cost, r) =>
              s ← exec1 (pt_sys p) (DoEnqueue e (keyFor idx (Workspaces w)) payload cost);
              Some (set_sys s (set_prod i
                (match news (pt_sys p) s with
                 | [] => if cancelled then Gone else Sliding r
                 | _ => Counting r
                 end) p))
          | _ => None
          end
      | _ => None
      end
  | Count i =>
      match pt_prods p !! i with
      | Some (Counting r) => Some (set_m (add_Enqueued (pt_m p)) (set_prod i (Sliding r) p))
      | _ => None
      end
  | WClaim i e since =>
      s ← call i (DoClaim i e (worker_id spec i) (sp_Lease spec)) p;
      Some (set_sys s (set_todo i [Worker.RecClaim since (bool_decide (is_Some (pcs s !! i)))] p))
  | WDrain i e => s ← call i (DoDrain i e (sp_Batch spec)) p; Some (set_sys s p)
  | WProcess i => s ← call i (DoProcess i) p; Some (set_sys s p)
  | WBeat i e => s ← exec1 (pt_sys p) (DoHeartbeat i e (sp_Lease spec)); Some (set_sys s p)
  | WAck i e since =>
      s ← call i (DoAck i e) p;
      Some (set_sys s (set_todo i
        (match news (pt_sys p) s with
         | [System.Acked _ ts] => [Worker.RecAck (length ts); Worker.RecLoop since]
         | _ => []
         end) p))
  | WRelease i e => s ← call i (DoRelease i e) p; Some (set_sys s p)
  | WRecord i =>
      match pt_todo p !! i with
      | Some (ev :: evs) => Some (set_m (record (pt_m p) ev) (set_todo i evs p))
      | _ => None
      end
  | WCrash i => s ← call i (DoCrash i) p; Some (set_sys s p)
  | Reaper e now =>
      let '(s', x) := reaperLoop [(e, now)] (st (pt_sys p)) (LeaseExpired (pt_m p)) in
      s ← exec1 (pt_sys p) (DoReap e now);
      Some (set_sys s (set_m (set_LeaseExpired x (pt_m p)) p))
  | Tick elapsed =>
      match pt_at p with
      | Waiting => Some (set_at (Asking elapsed (Loadgen.Acked (pt_m p))) p)
      | _ => None
      end
  | Ask e now =>
      match pt_at p with Asking elapsed acked => Some (ask e elapsed acked now p) | _ => None end
  | Load => load p
  | Return now =>
      match pt_at p with
      | Finalizing [c; l; n; enq; ack; x] =>
          Some (set_at (Returned (finish (mkLoaded c l n enq ack x) (pt_smp p) now)) p)
      | _ => None
      end
  | Interrupt =>
      match pt_at p with Waiting => Some (set_at (Finalizing []) p) | _ => None end
  end.

(** [Run] up to some point: the steps of its goroutines in some order *)
Fixpoint run (acts : list paction) (p : point) : option point :=
  match acts with
  | [] => Some p
  | a :: acts => p ← do a p; run acts p
  end.
End steps.

(** ** The rows of results/sweep.csv *)

Definition SweepHeader : string :=
  "backend,shards,workers,process,throughput_acks_s,claim_p99_ms,loop_p99_ms,loop_samples,min_backlog,max_backlog,saturated,enqueued,acked,lease_expired".

(** [Result.CSVRow]: the arguments of the format, each under its verb *)
Definition CSVRow (r : Result) : string := Join comma [
  rs_Backend r; pretty (rs_Shards r); pretty (rs_Workers r); rs_Process r;
  fmt_f 0 (Throughput r); fmt_f 2 (ms (Loadgen.ClaimP99 r)); fmt_f 2 (ms (Loadgen.LoopP99 r));
  pretty (LoopSamps r); pretty (MinBacklog r); pretty (MaxBacklog r); fmt_t (Saturated r);
  pretty (rs_Enqueued r); pretty (rs_Acked r); pretty (LeaseExp r)].
End harness.
Arguments RunSpec R {_}.
Arguments producer R : clear implicits.
Arguments point R S : clear implicits.
