(* ===== verification/HarnessProps.v ===== *)
(** HarnessProps: what a sweep point reports: its counters balance with the backend's
    backlog, each at the moment it is loaded, whatever the interleaving and the crashes, and a
    row of the results file has the columns its header names. *)
From S2P Require Import Prelude Queue Contract GoText GoFloat System SystemFacts.
From S2P Require Worker.
From S2P Require Import Memory MemoryFacts Loadgen LoadgenProps Harness.

(** ** Sums over the goroutines *)

Definition sum_with {A} (f : A → Z) (l : list A) : Z := list_Z_sum (f <$> l).

Lemma sum_with_app {A} (f : A → Z) l1 l2 : sum_with f (l1 ++ l2) = (sum_with f l1 + sum_with f l2)%Z.
Proof. unfold sum_with. by rewrite fmap_app, list_Z_sum_app. Qed.

Lemma sum_with_insert {A} (f : A → Z) l (i : nat) x y :
  l !! i = Some x → sum_with f (<[i := y]> l) = (sum_with f l - f x + f y)%Z.
Proof.
  intros Hi. rewrite <- (take_drop_middle _ _ _ Hi) at 2.
  rewrite (insert_take_drop l i y) by (by eapply lookup_lt_Some).
  rewrite !sum_with_app. unfold sum_with. cbn. lia.
Qed.

Lemma sum_with_nonneg {A} (f : A → Z) l : Forall (λ x, (0 <= f x)%Z) l → (0 <= sum_with f l)%Z.
Proof. intros Hf. apply list_Z_sum_nonneg. by rewrite Forall_fmap. Qed.

Lemma sum_with_le {A} (f : A → Z) l (i : nat) x :
  Forall (λ x, (0 <= f x)%Z) l → l !! i = Some x → (f x <= sum_with f l)%Z.
Proof.
  intros Hf Hi. rewrite <- (take_drop_middle _ _ _ Hi) in Hf |- *.
  apply Forall_app in Hf as [Hf1 Hf2]. apply Forall_cons in Hf2 as [_ Hf2].
  rewrite sum_with_app. pose proof (sum_with_nonneg _ _ Hf1). pose proof (sum_with_nonneg _ _ Hf2).
  unfold sum_with in *. cbn. lia.
Qed.

Lemma sum_with_zero {A} (f : A → Z) l : Forall (λ x, f x = 0%Z) l → sum_with f l = 0%Z.
Proof. unfold sum_with. induction 1 as [|x l Hx _ IH]; [done|]. cbn. by rewrite Hx, IH. Qed.

Lemma sum_with_add {A} (f g : A → Z) l :
  sum_with (λ x, f x + g x)%Z l = (sum_with f l + sum_with g l)%Z.
Proof. unfold sum_with. induction l as [|x l IH]; [done|]. cbn in *. lia. Qed.

Lemma sum_with_one {A} `{EqDecision A} (l : list A) (a : A) (n : Z) :
  NoDup l → a ∈ l → sum_with (λ x, if decide (a = x) then n else 0%Z) l = n.
Proof.
  unfold sum_with. induction 1 as [|x l Hx _ IH]; [by intros ?%elem_of_nil|].
  intros Ha. cbn. case_decide as Hax.
  - subst x. clear IH Ha. assert (∀ l, a ∉ l →
      list_Z_sum ((λ x, if decide (a = x) then n else 0%Z) <$> l) = 0%Z) as Hz.
    { clear. induction l as [|y l IH]; [done|]. intros [Hy Hl]%not_elem_of_cons. cbn.
      rewrite decide_False by done. by rewrite IH. }
    rewrite Hz by done. lia.
  - apply elem_of_cons in Ha as [->|Ha]; [done|]. rewrite IH by done. lia.
Qed.

(** ** Counting the log *)

(** the tasks enqueued and the tasks acknowledged, over all units *)
Definition enq_total (l : list System.event) : Z :=
  sum_with (λ ev, match ev with System.Enqueued _ _ => 1 | _ => 0 end)%Z l.
Definition acked_total (l : list System.event) : Z :=
  sum_with (λ ev, match ev with System.Acked _ ts => Z.of_nat (length ts) | _ => 0 end)%Z l.

Lemma enq_total_app l1 l2 : enq_total (l1 ++ l2) = (enq_total l1 + enq_total l2)%Z.
Proof. apply sum_with_app. Qed.
Lemma acked_total_app l1 l2 : acked_total (l1 ++ l2) = (acked_total l1 + acked_total l2)%Z.
Proof. apply sum_with_app. Qed.

Lemma enq_total_nil : enq_total [] = 0%Z.
Proof. done. Qed.
Lemma acked_total_nil : acked_total [] = 0%Z.
Proof. done. Qed.

Lemma enq_total_one ev :
  enq_total [ev] = match ev with System.Enqueued _ _ => 1 | _ => 0 end%Z.
Proof. by destruct ev. Qed.
Lemma acked_total_one ev :
  acked_total [ev] = match ev with System.Acked _ ts => Z.of_nat (length ts) | _ => 0%Z end.
Proof. destruct ev; cbv [acked_total sum_with]; cbn; lia. Qed.

#[local] Hint Rewrite enq_total_app acked_total_app enq_total_one acked_total_one : plq_simp.

(** the units of a log *)
Definition units (l : list System.event) : list WorkUnitKey :=
  remove_dups (omap (λ ev, match ev with
    | System.Enqueued k _ | System.Acked k _ => Some k
    | _ => None end) l).

(** counted unit by unit *)
Lemma totals_by_unit l ks :
  NoDup ks → (∀ k, k ∈ units l → k ∈ ks) →
  enq_total l = sum_with (λ k, Z.of_nat (length (enq_of l k))) ks ∧
  acked_total l = sum_with (λ k, Z.of_nat (length (acked_of l k))) ks.
Proof.
  intros Hks Hin. induction l as [|ev l IH] using rev_ind.
  { assert (∀ ks : list WorkUnitKey, sum_with (λ _, 0%Z) ks = 0%Z) as Hz
      by (induction ks0 as [|k ks0 IHk]; [done|exact IHk]).
    split; symmetry; apply Hz. }
  unfold units in *. setoid_rewrite elem_of_remove_dups in Hin.
  setoid_rewrite elem_of_remove_dups in IH. setoid_rewrite omap_app in Hin.
  setoid_rewrite elem_of_app in Hin.
  destruct IH as [IHe IHa]; [auto|]. autorewrite with plq_simp. rewrite IHe, IHa.
  assert (∀ (f : WorkUnitKey → list Task) k n, (k ∈ ks) →
    (sum_with (λ k, Z.of_nat (length (f k))) ks + Z.of_nat n)%Z =
    sum_with (λ k', Z.of_nat (length (f k')) + if decide (k = k') then Z.of_nat n else 0)%Z ks) as Hone.
  { intros f k n Hk. rewrite sum_with_add. f_equal. symmetry. by apply sum_with_one. }
  assert (∀ f g : WorkUnitKey → Z, (∀ k, f k = g k) → sum_with f ks = sum_with g ks) as Hext.
  { intros f g Hfg. unfold sum_with. f_equal. by apply list_fmap_ext. }
  destruct ev as [k t|k q t|k ts]; rewrite ?Z.add_0_r; split.
  - change 1%Z with (Z.of_nat 1). rewrite (Hone _ k) by (apply Hin; right; apply list_elem_of_here).
    apply Hext. intros k'. rewrite enq_of_app, length_app. cbn. case_decide; cbn; lia.
  - apply Hext. intros k'. by rewrite acked_of_app, app_nil_r.
  - apply Hext. intros k'. by rewrite enq_of_app, app_nil_r.
  - apply Hext. intros k'. by rewrite acked_of_app, app_nil_r.
  - apply Hext. intros k'. by rewrite enq_of_app, app_nil_r.
  - rewrite (Hone _ k) by (apply Hin; right; apply list_elem_of_here).
    apply Hext. intros k'. rewrite acked_of_app, length_app. cbn. rewrite app_nil_r.
    case_decide; cbn; lia.
Qed.

(** ** The invariant of a sweep point *)

Section balance.
Context {R : Type} `{Rand R} {S : Type} `{Contract S}.
Context (spec : RunSpec R) (stater : option (Env → S → res Stats)) (s0 : S).

(** accepted enqueues their producer has yet to count, and acknowledged tasks their worker
    has yet to record *)
Definition uncounted (p : point R S) : Z :=
  sum_with (λ x, match x with Counting _ => 1 | _ => 0 end)%Z (pt_prods p).

Definition rec_acks (evs : list Worker.event) : Z :=
  sum_with (λ ev, match ev with Worker.RecAck n => n | _ => 0%Z end) evs.

Lemma rec_acks_cons ev evs :
  rec_acks (ev :: evs) =
    ((match ev with Worker.RecAck n => n | _ => 0 end) + rec_acks evs)%Z.
Proof. done. Qed.

(** no telemetry takes an acknowledgement back *)
Definition todo_ok : list (list Worker.event) → Prop :=
  Forall (Forall (λ ev, (0 <= match ev with Worker.RecAck n => n | _ => 0 end)%Z)).

Definition unrecorded (p : point R S) : Z := sum_with rec_acks (pt_todo p).

(** the calls of a step show the backend a well-behaved environment, and what a producer
    pushes is within the driver's domain *)
Definition paction_ok (p : point R S) (a : paction) : Prop :=
  match a with
  | Push i e _ =>
      env_ok e ∧ ∀ r idx cost r', pt_prods p !! i = Some (Pushing r) →
        choose (clamp (sp_Workload spec)) (pt_base p) r = Ok (idx, cost, r') →
        key_ok (keyFor idx (Workspaces (sp_Workload spec))) ∧ cost_ok cost
  | WClaim _ e _ => env_ok e ∧ token_fresh (toks (pt_sys p)) e
  | WDrain _ e | WBeat _ e | WAck _ e _ | WRelease _ e | Reaper e _ => env_ok e
  | _ => True
  end.

Definition pstep (p p' : point R S) : Prop :=
  ∃ a, paction_ok p a ∧ do spec stater a p = Some p'.

Definition point_reachable : point R S → Prop := rtc pstep (start spec s0).

(** what an action of the system adds to its log *)
Definition logs (a : action) (l : list System.event) : Prop :=
  match a with
  | DoEnqueue _ k _ _ => l = [] ∨ ∃ t, l = [System.Enqueued k t]
  | DoAck _ _ => l = [] ∨ ∃ k ts, l = [System.Acked k ts]
  | DoProcess _ => ∃ k p t, l = [Processed k p t]
  | _ => l = []
  end.

Lemma exec1_logs (s : sys S) a s' :
  exec1 s a = Some s' →
  log s' = log s ++ news s s' ∧ logs a (news s s') ∧
  (calls s + enq_total (news s s') <= calls s' <= Z.max (calls s) (capacity S))%Z.
Proof.
  intros Hx. assert (∃ l, log s' = log s ++ l ∧ logs a l ∧
    (calls s + enq_total l <= calls s' <= Z.max (calls s) (capacity S))%Z) as (l & Hl & Hr).
  { destruct a; simpl in Hx; unfold mbind, option_bind in Hx; call_in Hx; simplify_eq; b2p;
      cbn [log calls] in *.
    all: repeat match goal with r : res _ |- _ => destruct r end;
         repeat match goal with r : option ClaimedUnit |- _ => destruct r end;
      first [ exists []; rewrite ?app_nil_r; cbn [logs log calls];
              split; [done|]; split; [by auto|cbn; lia]
            | eexists; split; [done|]; split; [cbn [logs]; eauto|rewrite enq_total_one; lia] ]. }
  unfold news. by rewrite Hl, drop_app_length.
Qed.

(** only an enqueue and an acknowledgement count *)
Lemma quiet_news (s : sys S) a s' :
  exec1 s a = Some s' → match a with DoEnqueue _ _ _ _ | DoAck _ _ => False | _ => True end →
  enq_total (news s s') = 0%Z ∧ acked_total (news s s') = 0%Z.
Proof.
  intros Hx Ha. destruct (exec1_logs _ _ _ Hx) as (_ & Hl & _).
  destruct a; try done; cbn [logs] in Hl; try (by rewrite Hl).
  destruct Hl as (? & ? & ? & ->). by split.
Qed.

Record balanced (p : point R S) : Prop := {
  bl_reach : reachable s0 (pt_sys p);
  bl_calls : (enq_total (log (pt_sys p)) <= calls (pt_sys p) <= Z.max 0 (capacity S))%Z;
  bl_enq : (Loadgen.Enqueued (pt_m p) + uncounted p)%Z = enq_total (log (pt_sys p));
  bl_ack : (Loadgen.Acked (pt_m p) + unrecorded p)%Z = acked_total (log (pt_sys p));
  bl_pos : (0 <= Loadgen.Enqueued (pt_m p) ∧ 0 <= Loadgen.Acked (pt_m p))%Z;
  bl_todo : todo_ok (pt_todo p);
}.

Hypothesis Hinv : inv 0 ∅ s0.
Hypothesis Hempty : ∀ k, pending s0 k = [].
Hypothesis Hcap : (capacity S <= int64_max)%Z.

(** tasks enqueued, acknowledged and pending, over all units *)
Lemma totals_balance (s : sys S) ks :
  sys_ok s → NoDup ks → (∀ k, k ∈ units (log s) → k ∈ ks) →
  enq_total (log s) =
    (acked_total (log s) + sum_with (λ k, Z.of_nat (length (pending (st s) k))) ks)%Z.
Proof.
  intros Hr Hks Hin. destruct (totals_by_unit _ _ Hks Hin) as [-> ->].
  rewrite <- sum_with_add. unfold sum_with. f_equal. apply list_fmap_ext. intros _ k _.
  rewrite (ok_fifo _ Hr), length_app. lia.
Qed.

Lemma acked_le_enq (s : sys S) :
  sys_ok s → (acked_total (log s) <= enq_total (log s))%Z.
Proof.
  intros Hr. rewrite (totals_balance s (units (log s)) Hr (NoDup_remove_dups _)) by done.
  pose proof (sum_with_nonneg (λ k, Z.of_nat (length (pending (st s) k))) (units (log s))) as Hn.
  rewrite Forall_forall in Hn. specialize (Hn ltac:(intros; lia)). lia.
Qed.

Lemma bl_ok p : balanced p → sys_ok (pt_sys p).
Proof. intros Hb. by apply (reachable_ok s0); [..|apply Hb]. Qed.

Lemma uncounted_nonneg p : (0 <= uncounted p)%Z.
Proof. apply sum_with_nonneg, Forall_true. intros []; lia. Qed.

Lemma rec_acks_nonneg l : todo_ok l → (0 <= sum_with rec_acks l)%Z.
Proof.
  intros Hf. apply sum_with_nonneg. eapply Forall_impl; [exact Hf|]. intros evs Hevs.
  by apply sum_with_nonneg.
Qed.

Lemma unrecorded_nonneg p : todo_ok (pt_todo p) → (0 <= unrecorded p)%Z.
Proof. apply rec_acks_nonneg. Qed.

Lemma start_balanced : balanced (start spec s0).
Proof.
  assert (uncounted (start spec s0) = 0%Z) as Hu.
  { unfold uncounted, sum_with, start, RunProducers. cbn [pt_prods]. induction (seq _ _) as [|i l IH]; [done|].
    cbn in *. done. }
  assert (unrecorded (start spec s0) = 0%Z) as Hr.
  { unfold unrecorded, sum_with, start. cbn [pt_todo]. induction (Z.to_nat _) as [|n IH]; [done|].
    cbn in *. done. }
  split; rewrite ?Hu, ?Hr; cbn; try done.
  - apply rtc_refl.
  - unfold enq_total, sum_with. cbn. lia.
  - apply Forall_replicate, Forall_nil_2.
Qed.

(** the books after a call: what the log gained, the counters have gained or owe *)
Lemma call_balanced p p' a s' :
  balanced p → action_ok (pt_sys p) a → exec1 (pt_sys p) a = Some s' →
  pt_sys p' = s' → pt_m p' = pt_m p →
  uncounted p' = (uncounted p + enq_total (news (pt_sys p) s'))%Z →
  unrecorded p' = (unrecorded p + acked_total (news (pt_sys p) s'))%Z →
  todo_ok (pt_todo p') →
  balanced p'.
Proof.
  intros [Hr Hc He Ha Hp Ht] Hok Hx Hs Hm Hu Hur Ht'.
  destruct (exec1_logs _ _ _ Hx) as (Hl & _ & Hcalls).
  split; rewrite ?Hs, ?Hm, ?Hu, ?Hur; rewrite ?Hl; autorewrite with plq_simp; try done; try lia.
  eapply rtc_r; [exact Hr|]. by eapply exec1_step.
Qed.

(** a call that logs neither *)
Lemma quiet_balanced p a s' :
  balanced p → action_ok (pt_sys p) a → exec1 (pt_sys p) a = Some s' →
  match a with DoEnqueue _ _ _ _ | DoAck _ _ => False | _ => True end →
  balanced (set_sys s' p).
Proof.
  intros Hb Hok Hx Ha. destruct (quiet_news _ _ _ Hx Ha) as [He Hk].
  eapply call_balanced; [exact Hb|exact Hok|exact Hx|done|done| | |apply (bl_todo _ Hb)];
    rewrite ?He, ?Hk, Z.add_0_r; done.
Qed.

(** a step that leaves the backend alone *)
Lemma still_balanced p p' :
  balanced p → pt_sys p' = pt_sys p →
  Loadgen.Enqueued (pt_m p') = (Loadgen.Enqueued (pt_m p) + (uncounted p - uncounted p'))%Z →
  Loadgen.Acked (pt_m p') = (Loadgen.Acked (pt_m p) + (unrecorded p - unrecorded p'))%Z →
  (uncounted p' <= uncounted p)%Z → (unrecorded p' <= unrecorded p)%Z →
  todo_ok (pt_todo p') →
  balanced p'.
Proof. intros [] Hs He Ha Hu Hr Ht. split; rewrite ?Hs; try done; rewrite ?He, ?Ha; lia. Qed.

(** open the books of a point, down to its lists *)
Ltac books :=
  unfold uncounted, unrecorded;
  cbn [set_base set_prod set_sys set_m set_todo pt_sys pt_m pt_base pt_prods pt_todo].

Lemma todo_insert l (i : nat) evs :
  todo_ok l → Forall (λ ev, (0 <= match ev with Worker.RecAck n => n | _ => 0 end)%Z) evs →
  todo_ok (<[i := evs]> l).
Proof. intros Hl He. by apply Forall_insert. Qed.

Lemma slide_balanced (i : nat) (r r' : R) b p :
  balanced p → pt_prods p !! i = Some (Sliding r) →
  balanced (set_base b (set_prod i (Pushing r') p)).
Proof.
  intros Hb Hi.
  assert (uncounted (set_base b (set_prod i (Pushing r') p)) = uncounted p) as Hu.
  { books. rewrite (sum_with_insert _ _ _ _ _ Hi). lia. }
  apply (still_balanced p); rewrite ?Hu; try done; books; try lia; apply Hb.
Qed.

Lemma push_balanced (i : nat) e k (pl : bytes) c (r r' : R) (gone : bool) p s' :
  balanced p → env_ok e → key_ok k → cost_ok c → pt_prods p !! i = Some (Pushing r) →
  exec1 (pt_sys p) (DoEnqueue e k pl c) = Some s' →
  balanced (set_sys s' (set_prod i
    (match news (pt_sys p) s' with
     | [] => if gone then Gone else Sliding r'
     | _ => Counting r'
     end) p)).
Proof.
  intros Hb He Hk Hc Hi Hx. destruct (exec1_logs _ _ _ Hx) as (_ & Hl & _). cbn [logs] in Hl.
  eapply (call_balanced p _ (DoEnqueue e k pl c) s' Hb); [by repeat split|exact Hx|done|done| | |apply (bl_todo _ Hb)].
  - books. rewrite (sum_with_insert _ _ _ _ _ Hi).
    destruct Hl as [-> |[t ->]]; [rewrite enq_total_nil; destruct gone; lia|]. rewrite enq_total_one. lia.
  - books.
    destruct Hl as [-> |[t ->]]; [rewrite acked_total_nil; cbn; lia|]. rewrite acked_total_one. lia.
Qed.

Lemma count_balanced (i : nat) (r : R) p :
  balanced p → pt_prods p !! i = Some (Counting r) →
  balanced (set_m (add_Enqueued (pt_m p)) (set_prod i (Sliding r) p)).
Proof.
  intros Hb Hi. set (p' := set_m _ _).
  assert (uncounted p' = uncounted p - 1)%Z as Hu.
  { subst p'. books. rewrite (sum_with_insert _ _ _ _ _ Hi). lia. }
  pose proof (uncounted_nonneg p'). destruct (bl_pos _ Hb). pose proof (bl_enq _ Hb).
  pose proof (bl_calls _ Hb).
  apply (still_balanced p); rewrite ?Hu; subst p'; try done; try apply Hb; books; try lia.
  all: cbn -[i64]; rewrite ?i64_id; unfold in_i64, int64_min, int64_max in *; try lia.
Qed.

Lemma claim_balanced (i : nat) e d p s' got :
  balanced p → env_ok e → token_fresh (toks (pt_sys p)) e →
  call i (DoClaim i e (worker_id spec i) (sp_Lease spec)) p = Some s' →
  balanced (set_sys s' (set_todo i [Worker.RecClaim d got] p)).
Proof.
  intros Hb He Ht Hx. unfold call in Hx. destruct (pt_todo p !! i) as [[|]|] eqn:Hi; [|done|done].
  destruct (exec1_logs _ _ _ Hx) as (_ & Hl & _). cbn [logs] in Hl.
  eapply (call_balanced p _ (DoClaim i e (worker_id spec i) (sp_Lease spec)) s' Hb); [by repeat split|exact Hx|done|done| | |]; rewrite ?Hl, ?enq_total_nil, ?acked_total_nil.
  - books. lia.
  - books. rewrite (sum_with_insert _ _ _ _ _ Hi). cbn. lia.
  - apply todo_insert; [apply Hb|]. by repeat constructor.
Qed.

Lemma ack_balanced (i : nat) e d p s' :
  balanced p → env_ok e → call i (DoAck i e) p = Some s' →
  balanced (set_sys s' (set_todo i
    (match news (pt_sys p) s' with
     | [System.Acked _ ts] => [Worker.RecAck (length ts); Worker.RecLoop d]
     | _ => []
     end) p)).
Proof.
  intros Hb He Hx. unfold call in Hx. destruct (pt_todo p !! i) as [[|]|] eqn:Hi; [|done|done].
  destruct (exec1_logs _ _ _ Hx) as (_ & Hl & _). cbn [logs] in Hl.
  eapply (call_balanced p _ (DoAck i e) s' Hb); [by repeat split|exact Hx|done|done| | |].
  - books. destruct Hl as [-> |(k & ts & ->)]; [cbn; lia|].
    rewrite enq_total_one. lia.
  - books. rewrite (sum_with_insert _ _ _ _ _ Hi).
    destruct Hl as [-> |(k & ts & ->)]; [rewrite acked_total_nil; cbn; lia|]. rewrite acked_total_one. cbn. lia.
  - apply todo_insert; [apply Hb|]. destruct Hl as [-> |(k & ts & ->)]; repeat constructor; lia.
Qed.

Lemma record_balanced (i : nat) ev evs p :
  balanced p → pt_todo p !! i = Some (ev :: evs) →
  balanced (set_m (record (pt_m p) ev) (set_todo i evs p)).
Proof.
  intros Hb Hi. set (p' := set_m _ _).
  pose proof (proj1 (Forall_lookup _ _) (bl_todo _ Hb) _ _ Hi) as Hev.
  apply Forall_cons in Hev as [Hev Hevs].
  assert (todo_ok (pt_todo p')) as Ht by (apply todo_insert; [apply Hb|done]).
  assert (unrecorded p' = unrecorded p - match ev with Worker.RecAck n => n | _ => 0 end)%Z as Hu.
  { subst p'. books. rewrite (sum_with_insert _ _ _ _ _ Hi), rec_acks_cons. lia. }
  pose proof (unrecorded_nonneg _ Ht). destruct (bl_pos _ Hb) as [_ Hpos].
  pose proof (bl_ack _ Hb). pose proof (acked_le_enq _ (bl_ok _ Hb)).
  pose proof (bl_calls _ Hb).
  apply (still_balanced p); rewrite ?Hu; try done; try lia.
  - subst p'. books. destruct ev; cbn [record Loadgen.Enqueued]; lia.
  - subst p'. books. destruct ev; cbn [record Loadgen.Acked]; try lia.
    rewrite i64_id; [lia|]. unfold in_i64, int64_min, int64_max in *. lia.
Qed.

(** the sampler, the reaper's counter and the rows are no part of the books *)
Lemma aside_balanced p p' :
  balanced p → pt_sys p' = pt_sys p → pt_prods p' = pt_prods p → pt_todo p' = pt_todo p →
  Loadgen.Enqueued (pt_m p') = Loadgen.Enqueued (pt_m p) →
  Loadgen.Acked (pt_m p') = Loadgen.Acked (pt_m p) → balanced p'.
Proof.
  intros Hb Hs Hp Ht He Ha.
  assert (uncounted p' = uncounted p) as Hu by (unfold uncounted; by rewrite Hp).
  assert (unrecorded p' = unrecorded p) as Hr by (unfold unrecorded; by rewrite Ht).
  apply (still_balanced p); rewrite ?Hu, ?Hr, ?Ht; try done; [lia|lia|apply Hb].
Qed.

Lemma call_exec1 (i : nat) a (p : point R S) s' : call i a p = Some s' → exec1 (pt_sys p) a = Some s'.
Proof. unfold call. by destruct (pt_todo p !! i) as [[|]|]. Qed.

(** a load changes only where the sampler stands *)
Lemma load_books (p p' : point R S) :
  load spec p = Some p' →
  pt_sys p' = pt_sys p ∧ pt_prods p' = pt_prods p ∧ pt_todo p' = pt_todo p ∧ pt_m p' = pt_m p.
Proof.
  unfold load, mbind, option_bind. intros Hd.
  destruct (pt_at p) as [| |el ac bk vs|vs|r]; try done.
  - destruct (row_loads !! _) as [g|]; [|done]. injection Hd as <-. by repeat case_match.
  - destruct (final_loads !! _) as [g|]; [|done]. by injection Hd as <-.
Qed.

Lemma step_balanced p p' : balanced p → pstep p p' → balanced p'.
Proof.
  intros Hb (a & Hok & Hd).
  destruct a as [i|i e cancelled|i|i e d|i e|i|i e|i e d|i e|i|i|e now|el|e now| |now|];
    cbn [do paction_ok] in *; unfold mbind, option_bind in Hd.
  - destruct (pt_prods p !! i) as [[r|r|r|]|] eqn:Hi; try done.
    destruct (slide _ _ r) as [b r']. injection Hd as <-. by eapply slide_balanced.
  - destruct (pt_prods p !! i) as [[r|r|r|]|] eqn:Hi; try done.
    destruct (choose _ _ r) as [[[idx cost] r']|err|] eqn:Hc; try done.
    destruct (exec1 _ _) as [s'|] eqn:Hx; [|done]. injection Hd as <-.
    destruct Hok as [He Hok]. destruct (Hok _ _ _ _ eq_refl Hc) as [Hk Hco].
    by eapply push_balanced.
  - destruct (pt_prods p !! i) as [[r|r|r|]|] eqn:Hi; try done. injection Hd as <-.
    by apply count_balanced.
  - destruct (call _ _ p) as [s'|] eqn:Hx; [|done]. injection Hd as <-. destruct Hok.
    by apply (claim_balanced i e).
  - destruct (call _ _ p) as [s'|] eqn:Hx; [|done]. injection Hd as <-.
    apply call_exec1 in Hx. by refine (quiet_balanced p _ _ Hb _ Hx _).
  - destruct (call _ _ p) as [s'|] eqn:Hx; [|done]. injection Hd as <-.
    apply call_exec1 in Hx. by refine (quiet_balanced p _ _ Hb _ Hx _).
  - destruct (exec1 _ _) as [s'|] eqn:Hx; [|done]. injection Hd as <-.
    by refine (quiet_balanced p _ _ Hb _ Hx _).
  - destruct (call _ _ p) as [s'|] eqn:Hx; [|done]. injection Hd as <-. by apply (ack_balanced i e).
  - destruct (call _ _ p) as [s'|] eqn:Hx; [|done]. injection Hd as <-.
    apply call_exec1 in Hx. by refine (quiet_balanced p _ _ Hb _ Hx _).
  - destruct (pt_todo p !! i) as [[|ev evs]|] eqn:Hi; try done. injection Hd as <-.
    by apply record_balanced.
  - destruct (call _ _ p) as [s'|] eqn:Hx; [|done]. injection Hd as <-.
    apply call_exec1 in Hx. by refine (quiet_balanced p _ _ Hb _ Hx _).
  - destruct (reaperLoop _ _ _) as [s1 x]. destruct (exec1 _ _) as [s'|] eqn:Hx; [|done].
    injection Hd as <-. eapply (aside_balanced (set_sys s' p)); [by refine (quiet_balanced p _ _ Hb _ Hx _)|done..].
  - destruct (pt_at p); try done. injection Hd as <-. by apply (aside_balanced p).
  - destruct (pt_at p); try done. injection Hd as <-. by apply (aside_balanced p).
  - destruct (load_books p p' Hd) as (? & ? & ? & ?). apply (aside_balanced p); (done || congruence).
  - destruct (pt_at p) as [| | |[|? [|? [|? [|? [|? [|? [|]]]]]]]|]; try done. injection Hd as <-.
    by apply (aside_balanced p).
  - destruct (pt_at p); try done. injection Hd as <-. by apply (aside_balanced p).
Qed.

Lemma reachable_balanced p : point_reachable p → balanced p.
Proof.
  intros Hr. assert (balanced (start spec s0)) as Hs by apply start_balanced. revert Hs.
  unfold point_reachable in Hr. induction Hr as [|a b c Hab _ IH]; [done|].
  intros Ha. apply IH. by eapply step_balanced.
Qed.

Lemma producers_length p : point_reachable p → length (pt_prods p) = Z.to_nat (sp_Producers spec).
Proof.
  assert (length (pt_prods (start spec s0)) = Z.to_nat (sp_Producers spec)) as Hs.
  { unfold start, RunProducers. cbn [pt_prods]. by rewrite length_fmap, length_seq. }
  intros Hr. revert Hs. unfold point_reachable in Hr.
  induction Hr as [|p q r Hpq _ IH]; [done|]. intros Hp. apply IH. rewrite <- Hp.
  destruct Hpq as (a & _ & Hd). clear -Hd.
  destruct a; cbn [do] in Hd; unfold mbind, option_bind, load, mbind, option_bind in Hd;
    repeat case_match; try discriminate Hd; injection Hd as <-;
    cbn [set_base set_prod set_sys set_m set_todo set_at set_sampler ask pt_prods];
    rewrite ?length_insert; done.
Qed.

(** *** The sampler among the others *)

(** a step is a call of the backend or leaves it alone *)
Lemma pstep_sys (p p' : point R S) :
  pstep p p' → pt_sys p' = pt_sys p ∨ ∃ a, exec1 (pt_sys p) a = Some (pt_sys p').
Proof.
  intros (a & _ & Hd).
  destruct a as [i|i e cancelled|i|i e d|i e|i|i e|i e d|i e|i|i|e now|el|e now| |now|];
    cbn [do] in Hd; unfold mbind, option_bind in Hd.
  all: try (destruct (call _ _ p) as [s'|] eqn:Hx; [|done]; injection Hd as <-;
            apply call_exec1 in Hx; right; by eexists).
  - destruct (pt_prods p !! i) as [[r|r|r|]|]; try done. destruct (slide _ _ r).
    injection Hd as <-. by left.
  - destruct (pt_prods p !! i) as [[r|r|r|]|]; try done.
    destruct (choose _ _ r) as [[[idx cost] r']|err|]; try done.
    destruct (exec1 _ _) as [s'|] eqn:Hx; [|done]. injection Hd as <-. right. by eexists.
  - destruct (pt_prods p !! i) as [[r|r|r|]|]; try done. injection Hd as <-. by left.
  - destruct (exec1 _ _) as [s'|] eqn:Hx; [|done]. injection Hd as <-. right. by eexists.
  - destruct (pt_todo p !! i) as [[|ev evs]|]; try done. injection Hd as <-. by left.
  - destruct (reaperLoop _ _ _) as [s1 x]. destruct (exec1 _ _) as [s'|] eqn:Hx; [|done].
    injection Hd as <-. right. by eexists.
  - destruct (pt_at p); try done. injection Hd as <-. by left.
  - destruct (pt_at p); try done. injection Hd as <-. by left.
  - left. by apply load_books.
  - destruct (pt_at p) as [| | |[|? [|? [|? [|? [|? [|? [|]]]]]]]|]; try done. injection Hd as <-.
    by left.
  - destruct (pt_at p); try done. injection Hd as <-. by left.
Qed.

(** tasks are only ever added to the enqueued *)
Lemma enq_total_grows (p p' : point R S) :
  rtc pstep p p' → (enq_total (log (pt_sys p)) <= enq_total (log (pt_sys p')))%Z.
Proof.
  induction 1 as [|p q r Hpq _ IH]; [done|]. etrans; [|exact IH].
  destruct (pstep_sys _ _ Hpq) as [-> |[a Hx]]; [done|].
  destruct (exec1_logs _ _ _ Hx) as (-> & _ & _). rewrite enq_total_app.
  assert (∀ l, (0 <= enq_total l)%Z) as Hn; [|specialize (Hn (news (pt_sys p) (pt_sys q))); lia].
  intros l. apply sum_with_nonneg, Forall_true. intros []; lia.
Qed.

(** Where a step takes the sampler: nowhere, or on by one of its own. *)
Lemma do_at a (p p' : point R S) :
  do spec stater a p = Some p' → pt_at p' = pt_at p ∨
    match pt_at p' with
    | Finalizing [] => True
    | Finalizing vs => ∃ vs0 f, pt_at p = Finalizing vs0 ∧ final_loads !! length vs0 = Some f ∧
        vs = vs0 ++ [f (pt_m p)]
    | Returned r => ∃ c l n enq ack x now, pt_at p = Finalizing [c; l; n; enq; ack; x] ∧
        r = finish spec stater (mkLoaded c l n enq ack x) (pt_smp p) now
    | _ => True
    end.
Proof.
  intros Hd.
  destruct a as [i|i e cancelled|i|i e d|i e|i|i e|i e d|i e|i|i|e now|el|e now| |now|];
    cbn [do] in Hd; unfold mbind, option_bind in Hd.
  all: try (destruct (call _ _ p) as [s'|]; [|done]; injection Hd as <-; by left).
  - destruct (pt_prods p !! i) as [[r|r|r|]|]; try done. destruct (slide _ _ r).
    injection Hd as <-. by left.
  - destruct (pt_prods p !! i) as [[r|r|r|]|]; try done.
    destruct (choose _ _ r) as [[[idx cost] r']|err|]; try done.
    destruct (exec1 _ _) as [s'|]; [|done]. injection Hd as <-. by left.
  - destruct (pt_prods p !! i) as [[r|r|r|]|]; try done. injection Hd as <-. by left.
  - destruct (exec1 _ _) as [s'|]; [|done]. injection Hd as <-. by left.
  - destruct (pt_todo p !! i) as [[|ev evs]|]; try done. injection Hd as <-. by left.
  - destruct (reaperLoop _ _ _) as [s1 x]. destruct (exec1 _ _) as [s'|]; [|done].
    injection Hd as <-. by left.
  - destruct (pt_at p); try done. injection Hd as <-. by right.
  - destruct (pt_at p); try done. injection Hd as <-. right. unfold ask, after_tick. cbn.
    by repeat case_match.
  - unfold load, mbind, option_bind in Hd. destruct (pt_at p) as [| |el ac bk vs|vs|r]; try done.
    + right. destruct (row_loads !! _) as [g|]; [|done]. injection Hd as <-. unfold after_tick.
      by repeat case_match.
    + right. destruct (final_loads !! _) as [g|] eqn:Hg; [|done]. injection Hd as <-. cbn.
      destruct (vs ++ _) eqn:Hvs; [done|]. rewrite <- Hvs. by exists vs, g.
  - destruct (pt_at p) as [| | |[|c [|l [|n [|enq [|ack [|x [|]]]]]]]|] eqn:Hat; try done.
    injection Hd as <-. right. cbn. by exists c, l, n, enq, ack, x, now.
  - destruct (pt_at p); try done. injection Hd as <-. by right.
Qed.

(** The past of the sampler: each value it holds was loaded at a point the run went through,
    and the row it returned was made of six such values. *)
Definition loaded_before (p : point R S) (vs : list Z) : Prop :=
  ∀ i f v, final_loads !! i = Some f → vs !! i = Some v →
    ∃ q, point_reachable q ∧ rtc pstep q p ∧ pt_at q = Finalizing (take i vs) ∧ v = f (pt_m q).

Definition traced (p : point R S) : Prop :=
  match pt_at p with
  | Finalizing vs => loaded_before p vs
  | Returned r => ∃ q c l n enq ack x now, point_reachable q ∧ rtc pstep q p ∧
      pt_at q = Finalizing [c; l; n; enq; ack; x] ∧
      r = finish spec stater (mkLoaded c l n enq ack x) (pt_smp q) now
  | _ => True
  end.

Lemma traced_on p p' : point_reachable p → traced p → pstep p p' → traced p'.
Proof.
  intros Hr Ht Hs. assert (∀ q, rtc pstep q p → rtc pstep q p') as Hon by (intros; by eapply rtc_r).
  assert (rtc pstep p p') as Hp by (by apply rtc_once).
  unfold traced in *. destruct Hs as (a & _ & Hd). destruct (do_at a p p' Hd) as [-> |Hat].
  - destruct (pt_at p) as [| | |vs|r]; try done.
    + intros i f v Hf Hv. destruct (Ht i f v Hf Hv) as (q & Hq & Hqp & E1 & E2). exists q. auto.
    + destruct Ht as (q & c & l & n & enq & ack & x & now & Hq & Hqp & E1 & E2).
      exists q, c, l, n, enq, ack, x, now. auto.
  - destruct (pt_at p') as [| | |vs|r]; try done.
    + destruct vs as [|v0 vs]; [by intros i f v _ Hv|].
      destruct Hat as (vs0 & f0 & Hp0 & Hf0 & Hvs). rewrite Hp0 in Ht. intros i f v Hf Hv.
      rewrite Hvs in Hv |- *. apply lookup_app_Some in Hv as [Hv|[Hlen Hv]].
      * destruct (Ht i f v Hf Hv) as (q & Hq & Hqp & E1 & E2). exists q.
        rewrite take_app_le by (apply lookup_lt_Some in Hv; lia). auto.
      * apply list_lookup_singleton_Some in Hv as [Hi <-].
        assert (i = length vs0) as -> by lia. assert (f0 = f) as -> by congruence.
        exists p. rewrite take_app_length. auto.
    + destruct Hat as (c & l & n & enq & ack & x & now & E1 & E2).
      exists p, c, l, n, enq, ack, x, now. auto.
Qed.

Lemma reachable_traced p : point_reachable p → traced p.
Proof.
  intros Hr. assert (point_reachable (start spec s0) ∧ traced (start spec s0)) as Hs
    by (split; [apply rtc_refl|done]). revert Hs. unfold point_reachable in Hr.
  induction Hr as [|a b c Hab _ IH]; [by intros [_ ?]|]. intros [Ha Ht]. apply IH.
  split; [by eapply rtc_r|by eapply traced_on].
Qed.

(** the two loads a returned row was made of, and what they found *)
Lemma row_loaded (p : point R S) (r : Result) :
  point_reachable p → pt_res p = Some r →
  ∃ p1 p2 c l n, point_reachable p1 ∧ rtc pstep p1 p2 ∧ rtc pstep p2 p ∧
    pt_at p1 = Finalizing [c; l; n] ∧ pt_at p2 = Finalizing [c; l; n; rs_Enqueued r] ∧
    rs_Enqueued r = Loadgen.Enqueued (pt_m p1) ∧ rs_Acked r = Loadgen.Acked (pt_m p2).
Proof.
  intros Hr Hres. pose proof (reachable_traced p Hr) as Ht. unfold traced, pt_res in *.
  destruct (pt_at p); try done. injection Hres as ->.
  destruct Ht as (q & c & l & n & enq & ack & x & now & Hq & Hqp & Hat & Hrow).
  pose proof (reachable_traced q Hq) as Ht. unfold traced in Ht. rewrite Hat in Ht.
  destruct (Ht 4 Loadgen.Acked ack eq_refl eq_refl) as (p2 & Hp2 & H2q & Hat2 & Hack).
  pose proof (reachable_traced p2 Hp2) as Ht2. unfold traced in Ht2. rewrite Hat2 in Ht2.
  destruct (Ht2 3 Loadgen.Enqueued enq eq_refl eq_refl) as (p1 & Hp1 & H12 & Hat1 & Henq).
  assert (rs_Enqueued r = enq ∧ rs_Acked r = ack) as [-> ->].
  { rewrite Hrow. unfold finish, finalize. by repeat case_match. }
  exists p1, p2, c, l, n. split_and!; try done. by etrans.
Qed.

(** the counters and the books, at any point *)
Lemma books_at (p : point R S) ks :
  point_reachable p → NoDup ks → (∀ k, k ∈ units (log (pt_sys p)) → k ∈ ks) →
  (Loadgen.Enqueued (pt_m p) + uncounted p)%Z = enq_total (log (pt_sys p)) ∧
  enq_total (log (pt_sys p)) =
    (Loadgen.Acked (pt_m p) + unrecorded p +
      sum_with (λ k, Z.of_nat (length (pending (st (pt_sys p)) k))) ks)%Z ∧
  (0 <= unrecorded p)%Z ∧ (uncounted p <= Z.max 0 (sp_Producers spec))%Z.
Proof.
  intros Hr Hks Hin. pose proof (reachable_balanced p Hr) as Hb.
  pose proof (totals_balance (pt_sys p) ks (bl_ok _ Hb) Hks Hin) as Ht.
  pose proof (bl_enq _ Hb). pose proof (bl_ack _ Hb). split; [done|]. split; [lia|].
  split; [apply (unrecorded_nonneg _ (bl_todo _ Hb))|].
  assert (uncounted p <= length (pt_prods p))%Z.
  { unfold uncounted, sum_with. clear. induction (pt_prods p) as [|x l IH]; [done|].
    rewrite fmap_cons. cbn [list_Z_sum length]. destruct x; lia. }
  rewrite (producers_length p Hr) in *. lia.
Qed.

(** C29: The books of a sweep point balance (harness.go, producer.go, worker.go).  Whatever
    the interleaving of producers, workers, crashes, reaper and sampler, the row the sampler
    returns was made of two loads, of the enqueued and then of the acked count, with the run
    going on between them.  The network answers: a crash comes between two calls (a call cut
    in the middle, whose effect nobody counts, is Chaos.v's).  At the first, the row's count and what accepted enqueues have
    yet to add to it are all the tasks enqueued; at the second, the row's count, what
    workers have yet to record, and what the backend has pending are all the tasks enqueued
    by then.  So the row shows more tasks acknowledged than enqueued by at most one per
    producer and the enqueues accepted between the two loads. *)
Theorem row_balances (p : point R S) (r : Result) :
  point_reachable p → pt_res p = Some r →
  ∃ p1 p2 c l n, point_reachable p1 ∧ rtc pstep p1 p2 ∧ rtc pstep p2 p ∧
    pt_at p1 = Finalizing [c; l; n] ∧ pt_at p2 = Finalizing [c; l; n; rs_Enqueued r] ∧
    let late := (enq_total (log (pt_sys p2)) - enq_total (log (pt_sys p1)))%Z in
    (rs_Enqueued r + uncounted p1)%Z = enq_total (log (pt_sys p1)) ∧ (0 <= late)%Z ∧
    (∀ ks, NoDup ks → (∀ k, k ∈ units (log (pt_sys p2)) → k ∈ ks) →
      (rs_Enqueued r + uncounted p1 + late =
         rs_Acked r + unrecorded p2 +
           sum_with (λ k, Z.of_nat (length (pending (st (pt_sys p2)) k))) ks)%Z) ∧
    (rs_Acked r <= rs_Enqueued r + Z.max 0 (sp_Producers spec) + late)%Z.
Proof.
  intros Hr Hres. destruct (row_loaded p r Hr Hres)
    as (p1 & p2 & c & l & n & Hp1 & H12 & H2p & Hat1 & Hat2 & He & Ha).
  assert (point_reachable p2) as Hp2 by (unfold point_reachable in *; by etrans).
  exists p1, p2, c, l, n. do 5 (split; [done|]). intros late.
  destruct (books_at p1 _ Hp1 (NoDup_remove_dups _) (λ _ H, H)) as (B1 & _ & _ & Hu).
  pose proof (enq_total_grows _ _ H12). split; [lia|]. split; [lia|]. split.
  - intros ks Hks Hin. destruct (books_at p2 ks Hp2 Hks Hin) as (_ & B2 & _). lia.
  - destruct (books_at p2 _ Hp2 (NoDup_remove_dups _) (λ _ H, H)) as (_ & B2 & Hn & _).
    pose proof (sum_with_nonneg (λ k, Z.of_nat (length (pending (st (pt_sys p2)) k)))
      (units (log (pt_sys p2))) ltac:(apply Forall_true; lia)). unfold units in *. lia.
Qed.

Lemma run_reachable acts p p' :
  (∀ p, Forall (paction_ok p) acts) → point_reachable p → run spec stater acts p = Some p' →
  point_reachable p'.
Proof.
  revert p. induction acts as [|a acts IH]; intros p Hok Hr Hx; cbn [run] in Hx;
    [by injection Hx as <-|].
  unfold mbind, option_bind in Hx. destruct (do spec stater a p) as [q|] eqn:Hq; [|done].
  apply (IH q); [intros p0; by apply (Forall_inv_tail (Hok p0))| |done].
  eapply rtc_r; [exact Hr|]. exists a. split; [|done]. apply (Forall_inv (Hok p)).
Qed.
End balance.

(** ** A sweep point of the in-memory driver *)

Definition demo_spec : RunSpec Z :=
  mkSpec 1 1 (Worker.mkProcess "zero" 0 0) "" demo_wl (3 * Second) 8 (2 * Second) Second true
    Second true.

(** The sampler loads the enqueued count while the first task is being counted, and the
    acked count once a worker has acknowledged that task. *)
Definition demo_steps : list paction :=
  let e := env_at Second in
  [Slide 0; Push 0 e false; Tick (2 * Second); Ask e 5; Load; Load; Load; Load; Load; Load; Load;
   Count 0; Slide 0; Push 0 e false; WClaim 0 e 70000; WRecord 0; WDrain 0 e; WBeat 0 e; WProcess 0;
   WAck 0 e (3 * Millisecond); WRecord 0; Load; Load; Return 6].

Lemma demo_mem_start : inv 0 ∅ demo_mem ∧ ∀ k, pending demo_mem k = [].
Proof. split; [by apply wf_New|done]. Qed.

Lemma demo_mem_capacity : (capacity Memory.Backend <= int64_max)%Z.
Proof. vm_compute. congruence. Qed.

Definition demo_start : point Z Memory.Backend := start demo_spec demo_mem.
Definition demo_stop : point Z Memory.Backend :=
  default demo_start (run demo_spec None demo_steps demo_start).

Lemma demo_stop_reachable : point_reachable demo_spec None demo_mem demo_stop.
Proof.
  apply (run_reachable demo_spec None demo_mem demo_steps demo_start).
  - intros p. repeat (apply Forall_cons_2; [|]); [..|apply Forall_nil_2]; try done;
      repeat split; by intros l.
  - apply rtc_refl.
  - unfold demo_stop. assert (match run demo_spec None demo_steps demo_start with
      Some _ => true | None => false end = true) as Hx by (vm_compute; reflexivity).
    by destruct (run demo_spec None demo_steps demo_start).
Qed.

(** The row shows a task acknowledged and none enqueued: its enqueue was accepted, and not
    yet counted, when the enqueued count was loaded. *)
Lemma row_balances_witness :
  ∃ r, pt_res demo_stop = Some r ∧ rs_Enqueued r = 0%Z ∧ rs_Acked r = 1%Z ∧
    ∃ p1 p2, rtc (pstep demo_spec None) p1 p2 ∧
      let late := (enq_total (log (pt_sys p2)) - enq_total (log (pt_sys p1)))%Z in
      (0 + uncounted p1)%Z = enq_total (log (pt_sys p1)) ∧ (1 <= 0 + 1 + late)%Z.
Proof.
  eexists. split; [vm_compute; reflexivity|]. split; [vm_compute; reflexivity|].
  split; [vm_compute; reflexivity|].
  edestruct (row_balances demo_spec None demo_mem (proj1 demo_mem_start) (proj2 demo_mem_start)
    demo_mem_capacity demo_stop) as (p1 & p2 & c & l & n & _ & H12 & _ & _ & _ & He & _ & _ & Hle);
    [exact demo_stop_reachable|vm_compute; reflexivity|].
  exists p1, p2. split; [exact H12|]. split; [exact He|exact Hle].
Defined.
