(* ===== verification/ValkeyHarness.v ===== *)
(** ValkeyHarness: the load harness over the Valkey driver (internal/loadgen with
    internal/valkey): the keys and costs the generator draws are ones the driver treats
    exactly, so a sweep point's books balance with what is left on the primaries. *)
From S2P Require Import Prelude Queue Contract GoText System SystemFacts.
From S2P Require Import Valkey ValkeyFacts ValkeyContract ValkeyProps.
From S2P Require Worker.
From S2P Require Import Loadgen LoadgenProps Harness HarnessProps.

(** ** What the generator draws *)

Lemma keyFor_plain (idx n : Z) : plain_key (keyFor idx n) = true.
Proof.
  assert (∀ z : Z, has_char "|" (pretty z) = false) as Hz.
  { intros z. assert (∀ y, (y < 10)%N → pretty_N_char y ≠ "|"%char) as Hd.
    { apply pretty_N_char_ne. intros y. repeat (inv_fin y; [done|intros y]). inv_fin y. }
    destruct z as [|p|p]; [by apply pretty_digits|by apply pretty_digits|].
    change (pretty (Z.neg p)) with (String "-" (pretty (Z.pos p))). cbn [has_char].
    by rewrite pretty_digits. }
  unfold plain_key, keyFor. cbn [Workspace Session]. by rewrite !has_char_app, !Hz.
Qed.

Definition small_dist (c : CostDist) : Prop := small_cost (Lo c) ∧ small_cost (Hi c).

Lemma sample_small `{RandLaws R} c (r r' : R) x :
  small_dist c → sample c r = Ok (x, r') → small_cost x.
Proof.
  unfold small_dist, small_cost, cost_bound. intros [Hl Hh] Hs.
  assert (in_i64 (Lo c) ∧ in_i64 (Hi c)) as [H1 H2]
    by (unfold in_i64, int64_min, int64_max; lia).
  pose proof (sample_spec c r H1 H2) as Hx. rewrite Hs in Hx.
  destruct (_ && _); [lia|]. subst x. destruct (Z.leb_spec (Lo c) 0); lia.
Qed.

#[local] Existing Instances demo_rand demo_rand_laws.

Section valkey.
Context {R : Type} `{RandLaws R}.
Context (spec : RunSpec R) (stater : option (Env → Backend → res Stats)).

(** the network answers every call of the step *)
Definition quiet_action (a : paction) : Prop :=
  match a with
  | Push _ e _ | WClaim _ e _ | WDrain _ e | WBeat _ e | WAck _ e _ | WRelease _ e
  | Reaper e _ => quiet e
  | _ => True
  end.

Definition quiet_step (p p' : point R Backend) : Prop :=
  ∃ a, quiet_action a ∧ do spec stater a p = Some p'.

Lemma quiet_step_ok p p' :
  small_dist (wl_Cost (sp_Workload spec)) → quiet_step p p' → pstep spec stater p p'.
Proof.
  intros Hc (a & Ha & Hd). exists a. split; [|done].
  destruct a; cbn [paction_ok quiet_action] in *; try done. split; [done|].
  intros r idx cost r' _ Hch. split; [apply keyFor_plain|]. unfold choose in Hch.
  destruct (Zipf _ _ _) as [[k r1]|]; [|done].
  destruct (sample _ r1) as [[x r2]| |] eqn:Hs; try done. injection Hch as <- <- <-.
  by eapply sample_small.
Qed.

(** A sweep point over the Valkey driver keeps its books (loadgen with valkey).  On any
    number of empty primaries and a network that answers, for cost bounds of at most 2^21
    and whatever the interleaving, the chaos and the reaper do: at every moment the tasks
    counted or about to be counted as enqueued are exactly those counted or about to be
    counted as acknowledged and those still in the streams. *)
Lemma valkey_books_balance o b0 (p : point R Backend) :
  New o (λ _, empty_shard) = Some b0 → (length (Addrs o) < 2 ^ 32)%Z →
  small_dist (wl_Cost (sp_Workload spec)) →
  rtc quiet_step (start spec b0) p →
  (Loadgen.Enqueued (pt_m p) + uncounted p = Loadgen.Acked (pt_m p) + unrecorded p +
     sum_with (λ k, Z.of_nat (length (pending (st (pt_sys p)) k))) (units (log (pt_sys p))))%Z.
Proof.
  intros Hnew Hlen Hc Hr. destruct (vk_New_ok o b0 Hnew Hlen) as (Hok & _ & Hp).
  assert (point_reachable spec stater b0 p) as Hreach.
  { revert Hr. apply rtc_subrel. intros p1 p2. by apply quiet_step_ok. }
  change (inv 0 ∅ b0) in Hok.
  assert (capacity Backend <= int64_max)%Z as Hcap by (vm_compute; congruence).
  destruct (books_at spec stater b0 Hok Hp Hcap p _ Hreach
    (NoDup_remove_dups _) (λ _ H, H)) as (B1 & B2 & _). unfold units in *. lia.
Qed.
End valkey.

(** ** A sweep point on one primary *)

Definition vk_spec : RunSpec Z :=
  mkSpec 1 1 (Worker.mkProcess "zero" 0 0) "" demo_wl (3 * Second) 8 (2 * Second) Second true
    Second true.

Definition vk_start : point Z Backend := start vk_spec vk_begin.

Definition vk_steps : list paction :=
  [Slide 0; Push 0 (vk_env 0) false; Count 0; Slide 0; Push 0 (vk_env 0) false;
   WClaim 0 (vk_env 1) 70000; WRecord 0; WDrain 0 (vk_env 2); WProcess 0;
   WAck 0 (vk_env 3) (3 * Millisecond)].

Definition vk_stop : point Z Backend := default vk_start (run vk_spec None vk_steps vk_start).

Lemma vk_stop_reached : rtc (quiet_step vk_spec None) vk_start vk_stop.
Proof.
  assert (∀ acts p p', Forall quiet_action acts → run vk_spec None acts p = Some p' →
    rtc (quiet_step vk_spec None) p p') as Hrun.
  { induction acts as [|a acts IH]; intros p p' Hq Hx; cbn [run] in Hx;
      [injection Hx as <-; apply rtc_refl|].
    unfold mbind, option_bind in Hx. destruct (do vk_spec None a p) as [q|] eqn:Ha; [|done].
    apply Forall_cons in Hq as [Hq0 Hq]. eapply rtc_l; [by exists a|by apply IH]. }
  apply (Hrun vk_steps); [by repeat constructor|]. unfold vk_stop.
  assert (match run vk_spec None vk_steps vk_start with Some _ => true | None => false end = true)
    as Hx by (vm_compute; reflexivity).
  by destruct (run vk_spec None vk_steps vk_start).
Qed.

Lemma valkey_books_balance_witness :
  Loadgen.Enqueued (pt_m vk_stop) = 1%Z ∧ uncounted vk_stop = 1%Z ∧
  Loadgen.Acked (pt_m vk_stop) = 0%Z ∧ unrecorded vk_stop = 1%Z ∧
  (1 + 1 = 0 + 1 + sum_with (λ k, Z.of_nat (length (pending (st (pt_sys vk_stop)) k)))
     (units (log (pt_sys vk_stop))))%Z.
Proof.
  split_and!; [vm_compute; reflexivity..|].
  assert (small_dist (wl_Cost (sp_Workload vk_spec))) as Hc by (split; vm_compute; congruence).
  exact (valkey_books_balance vk_spec None (vk_opts 1 Second 3) vk_begin vk_stop eq_refl eq_refl Hc
    vk_stop_reached).
Defined.
