(* ===== verification/Cmd.v ===== *)
(** Cmd: the program's entry points (cmd/plq): how the configuration selects and builds a
    driver, the labels of a sweep row, and the reaper of the worker box. *)
From S2P Require Import Prelude Queue GoText Worker Config.
From S2P Require Loadgen Memory Postgres Valkey.

(** ** Address lists *)

(** the loop of [newBackend] over a comma-separated list (backend_postgres.go,
    backend_valkey.go) *)
Definition addr_list (list_ : string) : list string :=
  filter (λ a, a ≠ "") (TrimSpace <$> Split comma list_).

(** [countAddrs] *)
Definition countAddrs (list_ : string) : Z :=
  foldl (λ n a, if bool_decide (TrimSpace a = "") then n else i64 (n + 1)) 0%Z (Split comma list_).

Section cmd.
Context `{GoParse}.

(** [shardCount] *)
Definition shardCount (c : Config) : Z :=
  let n := i64 (countAddrs (ValkeyAddr c) + countAddrs (PostgresDSN c)) in
  if (n =? 0)%Z then 1%Z else n.

(** [newBackend], default build *)
Definition newBackend_memory (c : Config) : Memory.Backend :=
  Memory.New (Memory.mkOptions (cfg_DefaultThreshold c) (cfg_DefaultMaxWait c)
    (cfg_MaxAttempts c)).

(** [newBackend], -tags postgres; [dbs] gives the tables found at each DSN *)
Definition newBackend_postgres (c : Config) (dbs : string → Postgres.db) :
    option Postgres.Backend :=
  Postgres.New (Postgres.mkOptions (addr_list (PostgresDSN c)) (cfg_DefaultThreshold c)
    (cfg_DefaultMaxWait c) (cfg_MaxAttempts c)) dbs.

(** [newBackend], -tags valkey; [ds] gives the keys found at each address *)
Definition newBackend_valkey (c : Config) (ds : string → Valkey.shard) : option Valkey.Backend :=
  Valkey.New (Valkey.mkOptions (addr_list (ValkeyAddr c)) (cfg_DefaultThreshold c)
    (cfg_DefaultMaxWait c) (cfg_MaxAttempts c)) ds.

(** [processLabel] *)
Definition processLabel (p : ProcessModel) : string :=
  if bool_decide (Kind p = "zero") || bool_decide (Kind p = "") then "zero"
  else pretty (Milliseconds (Base p)) +:+ "ms".

(** [workload]: eight tenants, uniform costs *)
Definition workload {R} `{Loadgen.Rand R} (conv : float → Loadgen.rfloat) (c : Config) :
    Loadgen.Workload :=
  Loadgen.mkWorkload (cfg_Seed c) (cfg_WorkingSet c) (conv (cfg_ZipfS c)) (conv (cfg_BirthRate c))
    (Loadgen.mkCost "uniform" (CostLo c) (CostHi c)) 8.

(** [reapInterval] *)
Definition reapInterval (c : Config) : duration :=
  let d := Z.quot (cfg_Lease c) 3 in if (0 <? d)%Z then d else Second.

(** [reapLoopM] over its ticks; [cancelled]: the context is done when the pass returns.
    An error is logged, unless the context is done. *)
Fixpoint reapLoopM {S} `{Queue.Backend S} (ticks : list (Env * time * bool)) (s : S)
    (expired : Z) (logged : list error) : S * Z * list error :=
  match ticks with
  | [] => (s, expired, logged)
  | (e, now, cancelled) :: ticks =>
      let '(s, (r, _, err)) := be_ReapExpired e now s in
      match err, cancelled with
      | Some err, false => reapLoopM ticks s expired (logged ++ [err])
      | _, _ => reapLoopM ticks s (i64 (expired + r)) logged
      end
  end.
End cmd.

(** ** Properties *)

Lemma countAddrs_list list_ :
  (length (Split comma list_) <= int64_max)%Z →
  countAddrs list_ = length (addr_list list_).
Proof.
  unfold countAddrs, addr_list. intros Hl.
  assert (∀ l (n : Z), (0 <= n)%Z → (n + length l <= int64_max)%Z →
    foldl (λ n a, if bool_decide (TrimSpace a = "") then n else i64 (n + 1)) n l =
    (n + length (filter (λ a, a ≠ "") (TrimSpace <$> l)))%Z) as Hgen.
  { clear. induction l as [|a l IH]; intros n H0 Hn; [simpl; lia|].
    rewrite length_cons in Hn. rewrite fmap_cons, filter_cons. cbn [foldl].
    case_bool_decide as Ha.
    - rewrite decide_False by tauto. rewrite IH by lia. done.
    - rewrite decide_True by done. rewrite i64_id by (unfold in_i64, int64_min, int64_max in *; lia).
      rewrite IH by lia. rewrite length_cons. lia. }
  rewrite Hgen by lia. lia.
Qed.

Lemma addr_list_length list_ :
  (length (Split comma list_) <= int64_max)%Z → (length (addr_list list_) <= int64_max)%Z.
Proof.
  intros Hl. etrans; [|exact Hl]. unfold addr_list. apply inj_le.
  etrans; [apply length_filter|]. by rewrite length_fmap.
Qed.

Lemma shardCount_lists `{GoParse} c :
  (length (Split comma (PostgresDSN c)) <= int64_max)%Z →
  (length (Split comma (ValkeyAddr c)) <= int64_max)%Z →
  addr_list (ValkeyAddr c) = [] ∨ addr_list (PostgresDSN c) = [] →
  shardCount c =
    Z.max 1 (length (addr_list (ValkeyAddr c)) + length (addr_list (PostgresDSN c))).
Proof.
  intros Hp Hv He. pose proof (addr_list_length _ Hp). pose proof (addr_list_length _ Hv).
  unfold shardCount. rewrite !countAddrs_list by done.
  rewrite i64_id.
  - destruct (Z.eqb_spec (length (addr_list (ValkeyAddr c)) + length (addr_list (PostgresDSN c))) 0);
      lia.
  - unfold in_i64, int64_min, int64_max in *.
    destruct He as [He|He]; rewrite He, length_nil in *; lia.
Qed.

(** The [shards] column of a sweep row is the number of primaries the driver was built
    on, for either driver, provided the other one's address list is empty; on an empty list
    of its own a driver refuses to start. *)
Lemma shard_column_is_shard_count `{GoParse} c :
  (length (Split comma (PostgresDSN c)) <= int64_max)%Z →
  (length (Split comma (ValkeyAddr c)) <= int64_max)%Z →
  (addr_list (ValkeyAddr c) = [] → ∀ dbs,
     match newBackend_postgres c dbs with
     | Some b => shardCount c = length (Postgres.shards b)
     | None => addr_list (PostgresDSN c) = []
     end) ∧
  (addr_list (PostgresDSN c) = [] → ∀ ds,
     match newBackend_valkey c ds with
     | Some b => shardCount c = length (Valkey.shards b)
     | None => addr_list (ValkeyAddr c) = []
     end).
Proof.
  intros Hp Hv. split; intros He dbs.
  - pose proof (shardCount_lists c Hp Hv (or_introl He)) as Hs. rewrite He in Hs.
    unfold newBackend_postgres, Postgres.New. cbn [Postgres.DSNs].
    destruct (addr_list (PostgresDSN c)) as [|a l]; [done|]. cbn [Postgres.shards].
    rewrite Hs, length_fmap, length_nil, length_cons. lia.
  - pose proof (shardCount_lists c Hp Hv (or_intror He)) as Hs. rewrite He in Hs.
    unfold newBackend_valkey, Valkey.New. cbn [Valkey.Addrs].
    destruct (addr_list (ValkeyAddr c)) as [|a l]; [done|]. cbn [Valkey.shards].
    rewrite Hs, length_fmap, length_nil, length_cons. lia.
Qed.

Lemma shard_column_is_shard_count_witness :
  addr_list (PostgresDSN demo_cfg) = ["dsn0"; "dsn1"] ∧
  match newBackend_postgres demo_cfg (λ _, Postgres.empty_db ∅) with
  | Some b => shardCount demo_cfg = length (Postgres.shards b)
  | None => addr_list (PostgresDSN demo_cfg) = []
  end.
Proof.
  split; [vm_compute; reflexivity|].
  destruct (shard_column_is_shard_count demo_cfg) as [Hs _];
    [vm_compute; congruence|vm_compute; congruence|].
  apply (Hs eq_refl).
Defined.
