(* ===== verification/CmdRun.v ===== *)
(** CmdRun: the subcommands of the program (cmd/plq/main.go): the dispatch of [main], the
    sweep point of [loadrun] with its row in sweep.csv, the worker and producer boxes.  Log
    lines and signals are left out; a file is its contents, [None] when it does not exist. *)
From S2P Require Import Prelude Queue Contract GoText GoFloat Config Cmd System.
From S2P Require Worker Loadgen.
From S2P Require Import Memory MemoryFacts LoadgenProps Harness.
From S2P Require HarnessProps.

(** ** Rows of the results file *)

Definition Fprintln (file line : string) : string := file +:+ line +:+ String newline "".

(** [appendSweepRow]: the header is written when [os.Stat] finds no file *)
Definition appendSweepRow (file : option string) (r : Loadgen.Result) : string :=
  let f := match file with None => Fprintln "" SweepHeader | Some f => f end in
  Fprintln f (CSVRow r).

(** ** main *)

(** How the process ends: its exit code, and whether the deferred [be.Close] ran, which
    [os.Exit] and [log.Fatalf] skip. *)
Record ending (S : Type) := mkEnd {
  backend : option S;
  code : Z;
  closed : bool;
}.
Arguments mkEnd {S} _ _ _.
Arguments backend {S} _.
Arguments code {S} _.
Arguments closed {S} _.

Section main.
Context {S : Type} `{Queue.Backend S}.
Context (resetter : option (Env → S → S * res ())).

(** returning from [main] *)
Definition return_ (be : S) : ending S := mkEnd (Some (be_Close be).1) 0 true.

(** [main]; [body sub be] is what running subcommand [sub] does to the backend until its
    context is cancelled, [None] if it ends in [log.Fatalf] *)
Definition main (args : list string) (newBackend : option S) (e : Env)
    (body : string → S → option S) : ending S :=
  match args with
  | _ :: sub :: _ =>
      match newBackend with
      | None => mkEnd None 1 false
      | Some be =>
          if bool_decide (sub ∈ ["worker"; "loadgen"; "loadrun"; "reap"]) then
            match body sub be with Some be => return_ be | None => mkEnd (Some be) 1 false end
          else if bool_decide (sub = "reset") then
            match resetter with
            | Some reset =>
                let '(be, r) := reset e be in
                match r with Ok _ => return_ be | _ => mkEnd (Some be) 1 false end
            | None => return_ be
            end
          else mkEnd (Some be) 2 false
      end
  | _ => mkEnd None 2 false
  end.
End main.

(** ** loadrun *)

Section loadrun.
Context `{GoParse} {R : Type} `{Loadgen.Rand R} (conv : float → Loadgen.rfloat).
Context {S : Type} `{Contract S}.
Context (resetter : option (Env → S → S * res ())) (stater : option (Env → S → res Stats)).

(** the sweep point built from the configuration *)
Definition loadrun_spec (c : Config) : RunSpec R :=
  mkSpec (cfg_Workers c) (cfg_Producers c) (cfg_Process c) (processLabel (cfg_Process c))
    (workload conv c) (cfg_Lease c) (cfg_Batch c) (cfg_Duration c) (cfg_Warmup c) (cfg_Chaos c)
    (ChaosEvery c) true.

(** the wipe before a point: skipped by PLQ_RESET=false, and without a [Resetter] *)
Definition loadrun_reset (c : Config) (e : Env) (be : S) : res S :=
  if cfg_Reset c then
    match resetter with
    | Some reset =>
        let '(be, r) := reset e be in
        match r with Ok _ => Ok be | Err err => Err err | Panic => Panic end
    | None => Ok be
    end
  else Ok be.

(** the series keys filled in after the run *)
Definition with_series (c : Config) (r : Loadgen.Result) : Loadgen.Result :=
  Loadgen.mkResult (cfg_Backend c) (shardCount c) (Loadgen.rs_Workers r) (Loadgen.rs_Process r)
    (Loadgen.Throughput r) (Loadgen.ClaimP99 r) (Loadgen.LoopP99 r) (Loadgen.LoopSamps r)
    (Loadgen.MinBacklog r) (Loadgen.MaxBacklog r) (Loadgen.Saturated r) (Loadgen.rs_Enqueued r)
    (Loadgen.rs_Acked r) (Loadgen.LeaseExp r).

(** [runLoadrun] on a schedule of the point's goroutines: the end of the point, the new
    contents of sweep.csv, and whether the warning of an unsaturated run is logged.  [None]:
    the schedule is not one of the point's, or does not reach the sampler's return. *)
Definition runLoadrun (c : Config) (e : Env) (acts : list paction) (be : S)
    (file : option string) : res (option (point R S * string * bool)) :=
  match loadrun_reset c e be with
  | Ok be =>
      Ok (p ← run (loadrun_spec c) stater acts (start (loadrun_spec c) be);
          r ← pt_res p;
          Some (p, appendSweepRow file (with_series c r), negb (Loadgen.Saturated r)))
  | Err err => Err err
  | Panic => Panic
  end.
End loadrun.

(** ** The worker and producer boxes *)

(** [everySecond]: the callback at each tick, with the variable it captures *)
Definition everySecond {A V} (fn : V → A → V) (ticks : list A) (v : V) : V := foldl fn v ticks.

(** the rate logger of [runWorker] and [runLoadgen]: the counter at each tick gives a line
    with what was gained since the last one, and the total *)
Definition rate_line (v : Z * list (Z * Z)) (total : Z) : Z * list (Z * Z) :=
  (total, v.2 ++ [(i64 (total - v.1), total)]).

Definition rates (totals : list Z) : list (Z * Z) := (everySecond rate_line totals (0%Z, [])).2.

(** the configuration of [runWorker]'s pool, whose hook is the recorder *)
Definition runWorker_config `{GoParse} (c : Config) : Worker.WorkerConfig :=
  let wc := WorkerConfig_of c in
  Worker.mkConfig (Worker.Lease wc) (Worker.Batch wc) (Worker.Backoff wc) (Worker.Process wc)
    (Worker.hasOnProcess wc) true.

(** ** Rows read back *)

(** the field of a row under a column of the header *)
Definition column (name row : string) : option string :=
  '(i, _) ← list_find (name =.) (Split comma SweepHeader); Split comma row !! i.

(** a value that fits a field *)
Definition plain (s : string) : Prop := has_char comma s = false ∧ has_char newline s = false.

Definition plain_row (r : Loadgen.Result) : Prop :=
  plain (Loadgen.rs_Backend r) ∧ plain (Loadgen.rs_Process r).

Lemma comma_sep : is_sep comma.
Proof. by left. Qed.
Lemma newline_sep : is_sep newline.
Proof. by right. Qed.
#[local] Hint Resolve comma_sep newline_sep : plq.

Lemma Join_no_char c sep l :
  c ≠ sep → Forall (λ p, has_char c p = false) l → has_char c (Join sep l) = false.
Proof.
  intros Hc. induction 1 as [|p l Hp Hl IH]; [done|]. destruct l as [|q l]; [done|].
  change (Join sep (p :: q :: l)) with (p +:+ String sep (Join sep (q :: l))).
  rewrite has_char_app, Hp. cbn [has_char]. by rewrite bool_decide_false, IH.
Qed.

(** a row has no newline, and its commas are those between its cells *)
Ltac no_sep := repeat constructor; auto with plq.

Lemma row_no_newline r : plain_row r → has_char newline (CSVRow r) = false.
Proof. intros [[_ Hb] [_ Hp]]. apply Join_no_char; [done|]. no_sep. Qed.

(** what each column of a row holds *)
Lemma row_columns r : plain_row r →
  Forall (λ '(name, text), column name (CSVRow r) = Some text) [
    ("backend", Loadgen.rs_Backend r); ("shards", pretty (Loadgen.rs_Shards r));
    ("workers", pretty (Loadgen.rs_Workers r)); ("process", Loadgen.rs_Process r); ("throughput_acks_s", fmt_f 0 (Loadgen.Throughput r));
    ("claim_p99_ms", fmt_f 2 (ms (Loadgen.ClaimP99 r)));
    ("loop_p99_ms", fmt_f 2 (ms (Loadgen.LoopP99 r)));
    ("loop_samples", pretty (Loadgen.LoopSamps r)); ("min_backlog", pretty (Loadgen.MinBacklog r));
    ("max_backlog", pretty (Loadgen.MaxBacklog r)); ("saturated", fmt_t (Loadgen.Saturated r));
    ("enqueued", pretty (Loadgen.rs_Enqueued r)); ("acked", pretty (Loadgen.rs_Acked r));
    ("lease_expired", pretty (Loadgen.LeaseExp r))].
Proof.
  intros [[Hb _] [Hp _]].
  assert (∀ name, column name (CSVRow r) =
    '(i, _) ← list_find (name =.) (Split comma SweepHeader); Split comma (CSVRow r) !! i) as Hcol by done.
  unfold CSVRow at 2 in Hcol. rewrite Split_Join in Hcol by (done || no_sep).
  repeat (apply Forall_cons_2; [rewrite Hcol; reflexivity|]). apply Forall_nil_2.
Qed.

(** a file of lines, each ended by a newline *)
Definition text (ls : list string) : string := foldr (λ l f, l +:+ String newline f) "" ls.

Lemma text_app ls1 ls2 : text (ls1 ++ ls2) = text ls1 +:+ text ls2.
Proof.
  induction ls1 as [|l ls1 IH]; [done|].
  change (l +:+ String newline (text (ls1 ++ ls2)) = (l +:+ String newline (text ls1)) +:+ text ls2).
  by rewrite IH, str_app_assoc, str_app_cons.
Qed.

Lemma text_snoc ls l : text (ls ++ [l]) = Fprintln (text ls) l.
Proof. by rewrite text_app. Qed.

Lemma Split_text ls :
  Forall (λ l, has_char newline l = false) ls → Split newline (text ls) = ls ++ [""].
Proof.
  induction 1 as [|l ls Hl _ IH]; [done|]. cbn [text foldr]. rewrite Split_app by done.
  fold (text ls). by rewrite IH.
Qed.

(** the contents of sweep.csv after the rows [rs] *)
Definition sweep_file (rs : list Loadgen.Result) : option string :=
  foldl (λ f r, Some (appendSweepRow f r)) None rs.

Lemma sweep_file_text r rs : sweep_file (r :: rs) = Some (text (SweepHeader :: (CSVRow <$> (r :: rs)))).
Proof.
  induction rs as [|x rs IH] using rev_ind; [done|].
  rewrite app_comm_cons. unfold sweep_file in *. rewrite foldl_app, IH. cbn [foldl].
  rewrite fmap_app, app_comm_cons. cbn [fmap list_fmap]. by rewrite text_snoc.
Qed.

(** C40: The results file reads back (appendSweepRow, SweepHeader, CSVRow).  However many
    points append their row to a file that did not exist, it is the header, once, then one
    line per point in order; in each line every column, by its name in the header, holds
    its own field of the result in the format's verb for it; the integers parse back to the
    numbers they are, and the saturation to the flag. *)
Theorem sweep_file_reads_back (rs : list Loadgen.Result) (file : string) :
  Forall plain_row rs → sweep_file rs = Some file →
  removelast (Split newline file) = SweepHeader :: (CSVRow <$> rs) ∧
  ∀ r, r ∈ rs →
    Forall (λ '(name, cell), column name (CSVRow r) = Some cell) [
      ("backend", Loadgen.rs_Backend r); ("process", Loadgen.rs_Process r);
      ("throughput_acks_s", fmt_f 0 (Loadgen.Throughput r));
      ("claim_p99_ms", fmt_f 2 (ms (Loadgen.ClaimP99 r)));
      ("loop_p99_ms", fmt_f 2 (ms (Loadgen.LoopP99 r)))] ∧
    Forall (λ '(name, z), in_i64 z → (column name (CSVRow r) ≫= ParseInt) = Some z) [
      ("shards", Loadgen.rs_Shards r); ("workers", Loadgen.rs_Workers r);
      ("loop_samples", Loadgen.LoopSamps r); ("min_backlog", Loadgen.MinBacklog r);
      ("max_backlog", Loadgen.MaxBacklog r); ("enqueued", Loadgen.rs_Enqueued r);
      ("acked", Loadgen.rs_Acked r); ("lease_expired", Loadgen.LeaseExp r)] ∧
    (column "saturated" (CSVRow r) ≫= ParseBool) = Some (Loadgen.Saturated r).
Proof.
  intros Hp Hf. split.
  - destruct rs as [|r rs]; [done|]. rewrite sweep_file_text in Hf.
    assert (file = text (SweepHeader :: (CSVRow <$> (r :: rs)))) as -> by congruence.
    rewrite Split_text; [by rewrite removelast_last|]. constructor; [done|].
    apply Forall_fmap. eapply Forall_impl; [exact Hp|]. intros x. apply row_no_newline.
  - intros r Hr. apply (proj1 (Forall_forall _ _) Hp), row_columns in Hr.
    repeat (apply Forall_cons_1 in Hr as [? Hr]). split; [by repeat constructor|]. split.
    + repeat (apply Forall_cons_2; [intros Hz; match goal with
        H : column ?n _ = Some (pretty ?z) |- (column ?n _ ≫= _) = Some ?z =>
          rewrite H; exact (ParseInt_pretty z Hz) end|]). apply Forall_nil_2.
    + match goal with H : column _ _ = Some (fmt_t ?b) |- _ => rewrite H; by destruct b end.
Qed.

Definition demo_result (backend : string) (acked : Z) : Loadgen.Result :=
  Loadgen.mkResult backend 2 10 "20ms" (lit 12345 2) (5 * Millisecond) 50000 7 (-1) (-1) false
    (acked + 3) acked 0.

Lemma sweep_file_reads_back_witness :
  let rs := [demo_result "memory" 40; demo_result "valkey" 41] in
  ∃ file, sweep_file rs = Some file ∧
    CSVRow (demo_result "memory" 40) =
      "memory,2,10,20ms,6172,5.00,0.05,7,-1,-1,false,43,40,0" ∧
    removelast (Split newline file) = SweepHeader :: (CSVRow <$> rs).
Proof.
  intros rs. eexists. split; [reflexivity|]. split; [vm_compute; reflexivity|].
  apply (sweep_file_reads_back rs); [by repeat constructor|reflexivity].
Defined.

#[local] Existing Instances demo_parse demo_rand.

(** ** The row of a loadrun *)

Section loadrun_facts.
Context `{GoParse} {R : Type} `{Loadgen.Rand R} (conv : float → Loadgen.rfloat).
Context {S : Type} `{Contract S}.
Context (resetter : option (Env → S → S * res ())) (stater : option (Env → S → res Stats)).

(** every result a point returns names the point *)
Lemma run_names (spec : RunSpec R) acts (p p' : point R S) :
  let named p := ∀ r, pt_res p = Some r → Loadgen.rs_Workers r = sp_Workers spec ∧
    Loadgen.rs_Process r =
      Loadgen.point_label (sp_Label spec) (Worker.Kind (sp_Process spec)) in
  named p → run spec stater acts p = Some p' → named p'.
Proof.
  intros named. revert p. induction acts as [|a acts IH]; intros p Hp Hx; cbn [run] in Hx;
    [by injection Hx as <-|].
  unfold mbind, option_bind in Hx. destruct (do spec stater a p) as [q|] eqn:Hq; [|done].
  apply (IH q); [|done]. intros r Hr. clear IH Hx.
  unfold pt_res in *. destruct (HarnessProps.do_at spec stater a p q Hq) as [He|He].
  - rewrite He in Hr. by apply Hp.
  - destruct (pt_at q); try done. injection Hr as <-.
    destruct He as (c & l & n & enq & ack & x & now & _ & ->). unfold finish, Loadgen.finalize.
    by repeat case_match.
Qed.

Lemma processLabel_plain (p : Worker.ProcessModel) : plain (processLabel p) ∧ processLabel p ≠ "".
Proof.
  unfold processLabel, plain. destruct (_ || _); [by split|].
  rewrite !has_char_app, !pretty_no_sep by auto with plq. split; [by split|].
  by destruct (pretty _).
Qed.

(** The row a loadrun appends describes the point it ran (runLoadrun): after the file as
    it was, or the header in a new file, comes one line whose series columns are the
    configured backend, its number of primaries, the number of workers and the label of the
    work model, and whose saturation column is false exactly when the warning is logged. *)
Lemma loadrun_appends_its_row (c : Config) (e : Env) (acts : list paction) (be : S)
    (file : option string) (p : point R S) (file' : string) (warn : bool) :
  plain (cfg_Backend c) →
  runLoadrun conv resetter stater c e acts be file = Ok (Some (p, file', warn)) →
  ∃ row, file' = Fprintln (match file with None => Fprintln "" SweepHeader | Some f => f end) row ∧
    column "backend" row = Some (cfg_Backend c) ∧
    column "shards" row = Some (pretty (shardCount c)) ∧
    column "workers" row = Some (pretty (cfg_Workers c)) ∧
    column "process" row = Some (processLabel (cfg_Process c)) ∧
    column "saturated" row = Some (fmt_t (negb warn)).
Proof.
  intros Hb Hx. unfold runLoadrun, mbind, option_bind in Hx.
  destruct (loadrun_reset resetter c e be) as [be'| |]; [|done|done].
  destruct (run _ _ _ _) as [q|] eqn:Hq; [|done]. destruct (pt_res q) as [r|] eqn:Hr; [|done].
  injection Hx as <- <- <-. exists (CSVRow (with_series c r)). split; [done|].
  pose proof (run_names (loadrun_spec conv c) acts (start (loadrun_spec conv c) be') q) as Hn.
  cbv zeta in Hn. destruct (Hn ltac:(discriminate) Hq r Hr) as [Hw Hl].
  destruct (processLabel_plain (cfg_Process c)) as [Hpl Hne].
  unfold Loadgen.point_label in Hl. cbn [loadrun_spec sp_Label sp_Workers] in Hw, Hl.
  rewrite bool_decide_false in Hl by done.
  assert (plain_row (with_series c r)) as Hp.
  { split; [exact Hb|]. cbn [Loadgen.rs_Process with_series]. by rewrite Hl. }
  apply row_columns in Hp. cbn [with_series Loadgen.rs_Workers Loadgen.rs_Process] in Hp.
  rewrite Hw, Hl in Hp. repeat (apply Forall_cons_1 in Hp as [? Hp]).
  rewrite negb_involutive. by split_and!.
Qed.
End loadrun_facts.

Definition demo_conv : @float demo_parse → @Loadgen.rfloat Z demo_rand := λ _, 2%Z.

(** A loadrun of the in-memory driver that stops at its first tick. *)
Definition demo_loadrun : list paction :=
  [Slide 0; Tick (100 * Second); Ask (env_at 0) 7; Load; Load; Load; Load; Load; Load; Load;
   Load; Load; Return 8].

Lemma loadrun_appends_its_row_witness :
  ∃ p file' row,
    runLoadrun demo_conv None None demo_cfg (env_at 0) demo_loadrun demo_mem None =
      Ok (Some (p, file', true)) ∧
    file' = Fprintln (Fprintln "" SweepHeader) row ∧ column "shards" row = Some "2" ∧
    column "process" row = Some "0ms" ∧ column "saturated" row = Some "false".
Proof.
  assert (match runLoadrun demo_conv None None demo_cfg (env_at 0) demo_loadrun demo_mem None with
    Ok (Some (_, _, w)) => w | _ => false end = true) as Hw by (vm_compute; reflexivity).
  destruct (runLoadrun _ _ _ _ _ _ _ _) as [[[[p f] w]|]| |] eqn:Hx; try discriminate Hw.
  subst w. exists p, f.
  destruct (loadrun_appends_its_row demo_conv None None demo_cfg (env_at 0) demo_loadrun demo_mem
    None p f true (conj eq_refl eq_refl) Hx) as (row & Hf & _ & Hs & _ & Hp & Ht).
  exists row. split; [reflexivity|]. split; [exact Hf|].
  split; [rewrite Hs; vm_compute; reflexivity|]. split; [rewrite Hp; vm_compute; reflexivity|].
  exact Ht.
Defined.

(** ** main *)

Section main_facts.
Context {S : Type} `{Queue.Backend S}.
Context (resetter : option (Env → S → S * res ())).

(** How the process ends: with code 2 exactly when no known subcommand was given, and the
    backend is closed exactly when the code is 0; a subcommand is only looked at once the
    backend is connected, so a mistyped one fails with code 1 when the backend is down. *)
Lemma main_ends args be e body :
  let r := main resetter args be e body in
  (code r = 0%Z ∨ code r = 1%Z ∨ code r = 2%Z) ∧
  (closed r = true ↔ code r = 0%Z) ∧
  (code r = 2%Z ↔ match args with
     | _ :: sub :: _ => is_Some be ∧ sub ∉ ["worker"; "loadgen"; "loadrun"; "reap"; "reset"]
     | _ => True end).
Proof.
  unfold main. destruct args as [|a0 [|sub args]]; [cbn; naive_solver..|].
  destruct be as [be|]; [|cbn; split_and!; naive_solver].
  assert (sub ∉ ["worker"; "loadgen"; "loadrun"; "reap"; "reset"] ↔
    sub ∉ ["worker"; "loadgen"; "loadrun"; "reap"] ∧ sub ≠ "reset") as Hs.
  { change ["worker"; "loadgen"; "loadrun"; "reap"; "reset"]
      with (["worker"; "loadgen"; "loadrun"; "reap"] ++ ["reset"]).
    rewrite not_elem_of_app, list_elem_of_singleton. tauto. }
  case_bool_decide as H1; [destruct (body sub be); cbn; naive_solver|].
  case_bool_decide as H2; [|cbn; naive_solver].
  destruct resetter as [reset|]; [|cbn; naive_solver].
  destruct (reset e be) as [be' [| |]]; cbn; naive_solver.
Qed.
End main_facts.

(** ** The rate log *)

(** the rates logged add up to the total last read, if none overflows *)
Lemma rates_add_up totals t :
  Forall (λ t, 0 <= t <= int64_max)%Z (totals ++ [t]) →
  list_Z_sum (fst <$> rates (totals ++ [t])) = t.
Proof.
  intros Hf. unfold rates, everySecond. rewrite foldl_app. cbn [foldl rate_line snd].
  assert (let v := foldl rate_line (0%Z, []) totals in
    (0 <= v.1 <= int64_max)%Z ∧ list_Z_sum (fst <$> v.2) = v.1) as [Hv Hs].
  { apply Forall_app in Hf as [Hf _]. induction totals as [|x l IH] using rev_ind.
    { cbn. unfold int64_max. lia. }
    rewrite Forall_app, Forall_singleton in Hf. destruct Hf as [Hl Hx].
    rewrite foldl_app. cbn [foldl rate_line fst snd]. specialize (IH Hl) as [Hv Hs].
    split; [exact Hx|]. rewrite fmap_app, list_Z_sum_app, Hs. cbn [fmap list_fmap fst list_Z_sum].
    rewrite i64_id; [lia|]. unfold in_i64, int64_min, int64_max in *. lia. }
  rewrite Forall_app, Forall_singleton in Hf. destruct Hf as [_ Ht].
  rewrite fmap_app, list_Z_sum_app, Hs. cbn [fmap list_fmap fst list_Z_sum].
  rewrite i64_id; [lia|]. unfold in_i64, int64_min, int64_max in *. lia.
Qed.
