(* ===== verification/Boxes.v ===== *)
(** Boxes: the processes of a deployment (cmd/plq: runWorker, runLoadgen, runReaper), any
    number of each, over one queue: the isolated topology, where producer boxes and worker
    boxes share nothing but the server.  Each process has a backend object of its own, with
    its own configuration, caches and turn; [Attached] says what a driver must promise for
    that.  A step is one access of one goroutine of one
    box to what it shares: the backend, or its box's metrics.  What each box prints every
    second adds up, and over all the boxes the counters balance with the backlog. *)
From S2P Require Import Prelude Queue Contract GoText GoFloat Config Cmd CmdRun System SystemFacts.
From Stdlib Require Cantor.
From S2P Require Worker.
From S2P Require Import Loadgen LoadgenProps Harness HarnessProps.
From S2P Require Postgres PostgresFacts PostgresProps.

(** ** A box *)

Inductive role := WorkerBox | LoadgenBox | ReapBox.

(** a line of a box's log: the rate, the total, and for a worker box the backlog and the
    99th percentile of the loop *)
Inductive line :=
  | WorkerLine (rate total backlog : Z) (loop_p99 : duration)
  | LoadgenLine (rate total : Z).

(** ** A backend object per process *)

(** What each process has of its own in its backend object, of type [O]; the rest, the
    queue, is shared.  [as_seen o s] is the queue of [s] through the object [o]: it has the
    same tasks and leases. *)
Class Attached (S O : Type) `{Contract S} := {
  own_of : S → O;
  as_seen : O → S → S;
  own_ok : Z → O → Prop;
  own_mono n n' o : own_ok n o → (n <= n')%Z → own_ok n' o;
  own_of_ok n h s : inv n h s → own_ok n (own_of s);
  as_seen_inv n h o s : inv n h s → own_ok n o → inv n h (as_seen o s);
  as_seen_view h o s : same_view h s (as_seen o s);
  as_seen_delivered o s k : delivered (as_seen o s) k = delivered s k;
}.

Section boxes.
Context `{GoParse} {R : Type} `{Rand R} (conv : float → rfloat).
Context {S O : Type} `{Attached S O} (stater : option (Env → S → res Stats)).

Record box := mkBox {
  bx_role : role;
  bx_cfg : Config;
  bx_m : Metrics;
  bx_base : Z;
  bx_prods : list (producer R);
  bx_todo : list (list Worker.event);   (* telemetry a worker has yet to record *)
  bx_last : Z;                          (* the variable the rate logger captures *)
  bx_lines : list line;
  bx_own : O;                           (* its backend object *)
}.

(** [runWorker]: fresh metrics, a pool of [cfg.Workers], the reaper, the rate logger *)
Definition runWorker (be : O) (c : Config) : box :=
  mkBox WorkerBox c NewMetrics 0 [] (replicate (Z.to_nat (cfg_Workers c)) []) 0 [] be.

(** [runLoadgen]: [RunProducers] on the clamped workload, the rate logger *)
Definition runLoadgen (be : O) (c : Config) : box :=
  mkBox LoadgenBox c NewMetrics 0 (RunProducers (workload conv c) (cfg_Producers c)) [] 0 [] be.

(** [runReaper]: the reaper alone *)
Definition runReaper (be : O) (c : Config) : box := mkBox ReapBox c NewMetrics 0 [] [] 0 [] be.

Definition put_prod (j : nat) (x : producer R) (b : box) : box :=
  mkBox (bx_role b) (bx_cfg b) (bx_m b) (bx_base b) (<[j := x]> (bx_prods b)) (bx_todo b)
    (bx_last b) (bx_lines b) (bx_own b).
Definition put_base (x : Z) (b : box) : box :=
  mkBox (bx_role b) (bx_cfg b) (bx_m b) x (bx_prods b) (bx_todo b) (bx_last b) (bx_lines b) (bx_own b).
Definition put_m (m : Metrics) (b : box) : box :=
  mkBox (bx_role b) (bx_cfg b) m (bx_base b) (bx_prods b) (bx_todo b) (bx_last b) (bx_lines b) (bx_own b).
Definition put_todo (i : nat) (l : list Worker.event) (b : box) : box :=
  mkBox (bx_role b) (bx_cfg b) (bx_m b) (bx_base b) (bx_prods b) (<[i := l]> (bx_todo b))
    (bx_last b) (bx_lines b) (bx_own b).
Definition put_line (last : Z) (x : line) (b : box) : box :=
  mkBox (bx_role b) (bx_cfg b) (bx_m b) (bx_base b) (bx_prods b) (bx_todo b) last
    (bx_lines b ++ [x]) (bx_own b).

Definition put_own (o : O) (b : box) : box :=
  mkBox (bx_role b) (bx_cfg b) (bx_m b) (bx_base b) (bx_prods b) (bx_todo b) (bx_last b)
    (bx_lines b) o.

(** What a goroutine of a box does next. *)
Inductive baction :=
  | BSlide (j : nat)
  | BPush (j : nat) (e : Env) (cancelled : bool)
  | BCount (j : nat)
  | BClaim (i : nat) (e : Env) (since : duration)
  | BDrain (i : nat) (e : Env)
  | BProcess (i : nat)
  | BBeat (i : nat) (e : Env)
  | BAck (i : nat) (e : Env) (since : duration)
  | BRelease (i : nat) (e : Env)
  | BRecord (i : nat)
  | BStop (i : nat)                      (* the process is told to stop *)
  | BReap (e : Env) (now : time) (cancelled : bool)
  | BSecond (e : Env).                   (* a tick of everySecond *)

(** worker [i] of box [me] in the system: workers of different boxes have the same names *)
Definition ix (me i : nat) : nat := Cantor.to_nat (me, i).

(** a call of a worker that has nothing left to record *)
Definition bcall (i : nat) (a : action) (s : sys S) (b : box) : option (sys S) :=
  match bx_todo b !! i with
  | Some [] => exec1 s a
  | _ => None
  end.

(** the backlog the rate logger of a worker box prints *)
Definition backlog (e : Env) (s : sys S) : Z :=
  match stater with
  | Some stats => match stats e (st s) with Ok x => EligibleUnits x | _ => (-1)%Z end
  | None => (-1)%Z
  end.

(** the callback of [everySecond] in each role *)
Definition second (e : Env) (s : sys S) (b : box) : option box :=
  match bx_role b with
  | WorkerBox =>
      let a := Loadgen.Acked (bx_m b) in
      Some (put_line a (WorkerLine (i64 (a - bx_last b)) a (backlog e s) (get_LoopP99 (bx_m b))) b)
  | LoadgenBox =>
      let n := Loadgen.Enqueued (bx_m b) in
      Some (put_line n (LoadgenLine (i64 (n - bx_last b)) n) b)
  | ReapBox => None
  end.

(** One step of box [me]; [None] when it is not what one of its goroutines does next. *)
Definition bdo (me : nat) (a : baction) (s : sys S) (b : box) : option (sys S * box) :=
  let c := bx_cfg b in
  let w := clamp (workload conv c) in
  match a with
  | BSlide j =>
      match bx_prods b !! j with
      | Some (Sliding r) =>
          let '(x, r) := slide w (bx_base b) r in Some (s, put_base x (put_prod j (Pushing r) b))
      | _ => None
      end
  | BPush j e cancelled =>
      match bx_prods b !! j with
      | Some (Pushing r) =>
          match choose w (bx_base b) r with
          | Ok (idx, cost, r) =>
              s' ← exec1 s (DoEnqueue e (keyFor idx (Workspaces w)) payload cost);
              Some (s', put_prod j
                (match news s s' with
                 | [] => if cancelled then Gone else Sliding r
                 | _ => Counting r
                 end) b)
          | _ => None
          end
      | _ => None
      end
  | BCount j =>
      match bx_prods b !! j with
      | Some (Counting r) => Some (s, put_m (add_Enqueued (bx_m b)) (put_prod j (Sliding r) b))
      | _ => None
      end
  | BClaim i e since =>
      s' ← bcall i (DoClaim (ix me i) e (Worker.worker_name i) (cfg_Lease c)) s b;
      Some (s', put_todo i [Worker.RecClaim since (bool_decide (is_Some (pcs s' !! ix me i)))] b)
  | BDrain i e => s' ← bcall i (DoDrain (ix me i) e (cfg_Batch c)) s b; Some (s', b)
  | BProcess i => s' ← bcall i (DoProcess (ix me i)) s b; Some (s', b)
  | BBeat i e =>
      match bx_todo b !! i with
      | Some _ => s' ← exec1 s (DoHeartbeat (ix me i) e (cfg_Lease c)); Some (s', b)
      | None => None
      end
  | BAck i e since =>
      s' ← bcall i (DoAck (ix me i) e) s b;
      Some (s', put_todo i
        (match news s s' with
         | [System.Acked _ ts] => [Worker.RecAck (length ts); Worker.RecLoop since]
         | _ => []
         end) b)
  | BRelease i e => s' ← bcall i (DoRelease (ix me i) e) s b; Some (s', b)
  | BRecord i =>
      match bx_todo b !! i with
      | Some (ev :: evs) => Some (s, put_m (record (bx_m b) ev) (put_todo i evs b))
      | _ => None
      end
  | BStop i => s' ← bcall i (DoCrash (ix me i)) s b; Some (s', b)
  | BReap e now cancelled =>
      match bx_role b with
      | LoadgenBox => None
      | _ =>
          let '(s', x, _) := reapLoopM [(e, now, cancelled)] (st s) (LeaseExpired (bx_m b)) [] in
          s' ← exec1 s (DoReap e now);
          Some (s', put_m (set_LeaseExpired x (bx_m b)) b)
      end
  | BSecond e => b' ← second e s b; Some (s, b')
  end.

(** ** A deployment *)

Record cluster := mkCluster {
  cl_sys : sys S;
  cl_boxes : list box;
}.

(** the system as the goroutines of box [b] see it, through their backend object *)
Definition seen_by (b : box) (s : sys S) : sys S :=
  mkSys (as_seen (bx_own b) (st s)) (pcs s) (log s) (toks s) (calls s).

Definition step_at (me : nat) (a : baction) (c : cluster) : option cluster :=
  b ← cl_boxes c !! me;
  '(s, b) ← bdo me a (seen_by b (cl_sys c)) b;
  Some (mkCluster s (<[me := put_own (own_of (st s)) b]> (cl_boxes c))).

Fixpoint deploy (acts : list (nat * baction)) (c : cluster) : option cluster :=
  match acts with
  | [] => Some c
  | (me, a) :: acts => c ← step_at me a c; deploy acts c
  end.

(** a box as its process starts it, with a backend object of its own *)
Definition fresh_box (b : box) : Prop :=
  ∃ be c, own_ok 0 be ∧ (b = runWorker be c ∨ b = runLoadgen be c ∨ b = runReaper be c).
End boxes.
Arguments box {_} R O.
Arguments cluster {_} R S O.

(** ** The books of a box *)

Section box_facts.
Context `{GoParse} {R : Type} `{Rand R} (conv : float → rfloat).
Context {S O : Type} `{Attached S O} (stater : option (Env → S → res Stats)).

Definition waiting (x : producer R) : Z := match x with Counting _ => 1 | _ => 0 end.

(** the tasks a box has counted as enqueued, or has yet to count; and those its workers have
    recorded as acknowledged, or have yet to record *)
Definition pushed (b : box R O) : Z := (Loadgen.Enqueued (bx_m b) + sum_with waiting (bx_prods b))%Z.
Definition done_by (b : box R O) : Z := (Loadgen.Acked (bx_m b) + sum_with rec_acks (bx_todo b))%Z.

Definition rate (x : line) : Z :=
  match x with WorkerLine r _ _ _ => r | LoadgenLine r _ => r end.
Definition total (x : line) : Z :=
  match x with WorkerLine _ t _ _ => t | LoadgenLine _ t => t end.

(** the counter the box's log is about *)
Definition counter (b : box R O) : Z :=
  match bx_role b with LoadgenBox => Loadgen.Enqueued (bx_m b) | _ => Loadgen.Acked (bx_m b) end.

Record box_ok (b : box R O) : Prop := {
  bo_pos : (0 <= Loadgen.Enqueued (bx_m b) ∧ 0 <= Loadgen.Acked (bx_m b))%Z;
  bo_todo : todo_ok (bx_todo b);
  bo_last : (0 <= bx_last b <= counter b)%Z;
  bo_rates : sum_with rate (bx_lines b) = bx_last b;
  bo_total : default 0%Z (total <$> last (bx_lines b)) = bx_last b;
}.

Lemma waiting_nonneg l : (0 <= sum_with waiting l)%Z.
Proof. apply sum_with_nonneg, Forall_true. intros []; cbn; lia. Qed.

Lemma fresh_box_ok b : fresh_box conv b → box_ok b ∧ pushed b = 0%Z ∧ done_by b = 0%Z.
Proof.
  assert (∀ n : nat, sum_with rec_acks (replicate n []) = 0%Z) as Hr.
  { unfold sum_with. induction n as [|n IH]; [done|]. cbn in *. done. }
  assert (∀ w n, sum_with waiting (RunProducers w n) = 0%Z) as Hw.
  { intros w n. unfold sum_with, RunProducers. generalize (seq 0 (Z.to_nat n)) as l.
    induction l as [|i l IH]; [done|]. cbn in *. done. }
  intros (be & c & _ & [-> |[-> | ->]]); unfold pushed, done_by; cbn [runWorker runLoadgen runReaper bx_m
    bx_prods bx_todo]; rewrite ?Hr, ?Hw; (split; [|done]); split; try done;
    first [apply Forall_replicate, Forall_nil_2|apply Forall_nil_2|cbn; lia].
Qed.

(** a step that leaves the log of the box as it is *)
Lemma box_ok_same b b' :
  box_ok b → bx_role b' = bx_role b → bx_last b' = bx_last b → bx_lines b' = bx_lines b →
  (Loadgen.Enqueued (bx_m b) <= Loadgen.Enqueued (bx_m b'))%Z →
  (Loadgen.Acked (bx_m b) <= Loadgen.Acked (bx_m b'))%Z → todo_ok (bx_todo b') → box_ok b'.
Proof.
  intros [Hp Ht Hl Hr Hlast] Hro Hla Hli He Ha Ht'. unfold counter in *.
  split; unfold counter; rewrite ?Hro, ?Hla, ?Hli; try done; [lia|]. destruct (bx_role b); lia.
Qed.

(** The rate logger: the rate is what the counter gained since the last line. *)
Lemma second_ok e (s : sys S) b b' :
  box_ok b → (counter b <= int64_max)%Z → second stater e s b = Some b' →
  box_ok b' ∧ pushed b' = pushed b ∧ done_by b' = done_by b.
Proof.
  intros [Hp Ht Hl Hr Hlast] Hc. unfold second, counter in *.
  assert (∀ x, (bx_last b <= x <= int64_max)%Z → i64 (x - bx_last b) = x - bx_last b)%Z as Hi.
  { intros x Hx. apply i64_id. unfold in_i64, int64_min, int64_max in *. lia. }
  destruct (bx_role b) eqn:Hro; intros [= <-];
    (split; [split; unfold counter; cbn [put_line bx_m bx_todo bx_role bx_last bx_lines];
             rewrite ?Hro, ?last_snoc, ?sum_with_app; try done; [lia|]|done]);
    rewrite Hr; unfold sum_with; cbn [fmap list_fmap rate list_Z_sum]; rewrite Hi by lia; lia.
Qed.
(** the calls of a step show the backend a well-behaved environment *)
Definition baction_ok (s : sys S) (b : box R O) (a : baction) : Prop :=
  match a with
  | BPush j e _ =>
      env_ok e ∧ ∀ r idx cost r', bx_prods b !! j = Some (Pushing r) →
        choose (clamp (workload conv (bx_cfg b))) (bx_base b) r = Ok (idx, cost, r') →
        key_ok (keyFor idx (Workspaces (clamp (workload conv (bx_cfg b))))) ∧ cost_ok cost
  | BClaim _ e _ => env_ok e ∧ token_fresh (toks s) e
  | BDrain _ e | BBeat _ e | BAck _ e _ | BRelease _ e | BReap e _ _ => env_ok e
  | _ => True
  end.

(** what a step of a box does to its books and to the system *)
Definition booked (s : sys S) (b : box R O) (s' : sys S) (b' : box R O) : Prop :=
  box_ok b' ∧ pushed b' = (pushed b + enq_total (news s s'))%Z ∧
  done_by b' = (done_by b + acked_total (news s s'))%Z ∧
  (s' = s ∨ ∃ x, action_ok s x ∧ exec1 s x = Some s').

Lemma news_same (s : sys S) : news s s = [].
Proof. unfold news. apply drop_all. Qed.

Lemma booked_still s b b' :
  box_ok b' → pushed b' = pushed b → done_by b' = done_by b → booked s b s b'.
Proof.
  intros Hok Hp Hd. unfold booked. rewrite news_same, enq_total_nil, acked_total_nil, Hp, Hd.
  split_and!; [done|lia|lia|by left].
Qed.

Lemma booked_quiet s b s' b' x :
  action_ok s x → exec1 s x = Some s' →
  match x with DoEnqueue _ _ _ _ | DoAck _ _ => False | _ => True end →
  box_ok b' → pushed b' = pushed b → done_by b' = done_by b → booked s b s' b'.
Proof.
  intros Hax Hx Hq Hok Hp Hd. destruct (quiet_news _ _ _ Hx Hq) as [He Hk].
  unfold booked. rewrite He, Hk, Hp, Hd. split_and!; [done|lia|lia|right; by exists x].
Qed.

Lemma bcall_exec1 i x (s : sys S) (b : box R O) s' :
  bcall i x s b = Some s' → bx_todo b !! i = Some [] ∧ exec1 s x = Some s'.
Proof. unfold bcall. by destruct (bx_todo b !! i) as [[|]|]. Qed.

(** a worker has something new to record *)
Lemma todo_booked b i evs evs' :
  box_ok b → bx_todo b !! i = Some evs' →
  Forall (λ ev, (0 <= match ev with Worker.RecAck n => n | _ => 0 end)%Z) evs →
  box_ok (put_todo i evs b) ∧ pushed (put_todo i evs b) = pushed b ∧
  done_by (put_todo i evs b) = (done_by b - rec_acks evs' + rec_acks evs)%Z.
Proof.
  intros Hb Hi Hevs. split; [|split; [done|]].
  - apply (box_ok_same b); try done. apply todo_insert; [apply Hb|done].
  - unfold done_by. cbn [put_todo bx_m bx_todo]. rewrite (sum_with_insert _ _ _ _ _ Hi). lia.
Qed.

Lemma prod_booked b (j : nat) x y m base :
  box_ok b → bx_prods b !! j = Some x → Loadgen.Acked m = Loadgen.Acked (bx_m b) →
  (Loadgen.Enqueued (bx_m b) <= Loadgen.Enqueued m)%Z →
  let b' := put_m m (put_base base (put_prod j y b)) in
  box_ok b' ∧ done_by b' = done_by b ∧
  pushed b' = (pushed b - waiting x + waiting y + (Loadgen.Enqueued m - Loadgen.Enqueued (bx_m b)))%Z.
Proof.
  intros Hb Hj Ha He b'. split; [|split].
  - apply (box_ok_same b); subst b'; cbn; try done; [lia|apply Hb].
  - unfold done_by. subst b'. cbn. by rewrite Ha.
  - unfold pushed. subst b'. cbn [put_m put_base put_prod bx_m bx_prods].
    rewrite (sum_with_insert _ _ _ _ _ Hj). lia.
Qed.
Lemma push_booked (s : sys S) b j e cancelled r r' k cost s' :
  box_ok b → bx_prods b !! j = Some (Pushing r) → env_ok e → key_ok k → cost_ok cost →
  exec1 s (DoEnqueue e k payload cost) = Some s' →
  booked s b s' (put_prod j
    (match news s s' with [] => if cancelled : bool then Gone else Sliding r' | _ => Counting r' end) b).
Proof.
  intros Hb Hj He Hk Hc Hx. destruct (exec1_logs _ _ _ Hx) as (_ & Hl & _). cbn [logs] in Hl.
  set (y := match news s s' with [] => _ | _ => _ end).
  destruct (prod_booked b j (Pushing r) y (bx_m b) (bx_base b) Hb Hj eq_refl ltac:(lia)) as (Hb1 & Hb2 & Hb3).
  change (put_m (bx_m b) (put_base (bx_base b) (put_prod j y b))) with (put_prod j y b) in *.
  split; [exact Hb1|]. rewrite Hb2, Hb3.
  assert (waiting y = enq_total (news s s') ∧ acked_total (news s s') = 0%Z) as [Hw Ha].
  { subst y. destruct Hl as [-> |[t ->]]; [by destruct cancelled|]. by rewrite enq_total_one, acked_total_one. }
  rewrite Hw, Ha. cbn [waiting]. split_and!; [lia|lia|]. right. exists (DoEnqueue e k payload cost).
  by repeat split.
Qed.

Lemma count_booked (s : sys S) b j r :
  box_ok b → (pushed b <= int64_max)%Z → bx_prods b !! j = Some (Counting r) →
  booked s b s (put_m (add_Enqueued (bx_m b)) (put_prod j (Sliding r) b)).
Proof.
  intros Hb Hp Hj. destruct (bo_pos _ Hb) as [He Ha].
  assert (0 < sum_with waiting (bx_prods b))%Z as Hpos.
  { rewrite <- (take_drop_middle _ _ _ Hj), sum_with_app. unfold sum_with at 2. cbn.
    pose proof (waiting_nonneg (take j (bx_prods b))).
    pose proof (waiting_nonneg (drop (Datatypes.S j) (bx_prods b))). unfold sum_with in *. lia. }
  assert (Loadgen.Enqueued (add_Enqueued (bx_m b)) = Loadgen.Enqueued (bx_m b) + 1)%Z as Hadd.
  { cbn. apply i64_id. unfold pushed, in_i64, int64_min, int64_max in *. lia. }
  destruct (prod_booked b j (Counting r) (Sliding r) (add_Enqueued (bx_m b)) (bx_base b) Hb Hj eq_refl
    ltac:(lia)) as (Hb1 & Hb2 & Hb3).
  change (put_m (add_Enqueued (bx_m b)) (put_base (bx_base b) (put_prod j (Sliding r) b)))
    with (put_m (add_Enqueued (bx_m b)) (put_prod j (Sliding r) b)) in *.
  apply booked_still; [done| |done]. rewrite Hb3, Hadd. cbn [waiting]. lia.
Qed.

Lemma record_booked (s : sys S) b i ev evs :
  box_ok b → (done_by b <= int64_max)%Z → bx_todo b !! i = Some (ev :: evs) →
  booked s b s (put_m (record (bx_m b) ev) (put_todo i evs b)).
Proof.
  intros Hb Hd Hi. destruct (bo_pos _ Hb) as [He Ha].
  pose proof (proj1 (Forall_lookup _ _) (bo_todo _ Hb) _ _ Hi) as Hev.
  apply Forall_cons in Hev as [Hev Hevs].
  destruct (todo_booked b i evs (ev :: evs) Hb Hi Hevs) as (Hb1 & Hb2 & Hb3). rewrite rec_acks_cons in Hb3.
  set (n := match ev with Worker.RecAck n => n | _ => 0%Z end) in *.
  pose proof (rec_acks_nonneg _ (bo_todo _ Hb1)) as Hrest. cbn [put_todo bx_todo] in Hrest.
  assert (Loadgen.Acked (record (bx_m b) ev) = Loadgen.Acked (bx_m b) + n)%Z as Hrec.
  { subst n. destruct ev; cbn [record Loadgen.Acked]; try lia. apply i64_id.
    unfold done_by in *. cbn [put_todo bx_m bx_todo] in Hb3.
    unfold in_i64, int64_min, int64_max in *. lia. }
  assert (Loadgen.Enqueued (record (bx_m b) ev) = Loadgen.Enqueued (bx_m b)) as Henq by (by destruct ev).
  apply booked_still.
  - apply (box_ok_same _ _ Hb1); cbn [put_m put_todo bx_role bx_last bx_lines bx_m bx_todo];
      try done; [by rewrite Henq|rewrite Hrec; lia|apply Hb1].
  - unfold pushed in *. cbn [put_m bx_m bx_prods] in *. by rewrite Henq.
  - unfold done_by in *. cbn [put_m put_todo bx_m bx_todo] in *. rewrite Hrec. lia.
Qed.

Lemma ack_booked (s : sys S) b i me e d s' :
  box_ok b → env_ok e → bcall i (DoAck (ix me i) e) s b = Some s' →
  booked s b s' (put_todo i
    (match news s s' with
     | [System.Acked _ ts] => [Worker.RecAck (length ts); Worker.RecLoop d]
     | _ => []
     end) b).
Proof.
  intros Hb He (Hi & Hx)%bcall_exec1. destruct (exec1_logs _ _ _ Hx) as (_ & Hl & _).
  cbn [logs] in Hl. set (evs := match news s s' with [System.Acked _ ts] => _ | _ => _ end).
  assert (rec_acks evs = acked_total (news s s') ∧ enq_total (news s s') = 0%Z ∧
    Forall (λ ev, (0 <= match ev with Worker.RecAck n => n | _ => 0 end)%Z) evs) as (Hr & Hz & Hf).
  { subst evs. destruct Hl as [-> |(k & ts & ->)]; [by split_and!|].
    rewrite acked_total_one, enq_total_one. split_and!; [|done|by repeat constructor; lia].
    cbn. unfold rec_acks, sum_with. cbn. lia. }
  destruct (todo_booked b i evs [] Hb Hi Hf) as (Hb1 & Hb2 & Hb3).
  split; [done|]. rewrite Hb2, Hb3, Hr, Hz. change (rec_acks []) with 0%Z.
  split_and!; [lia|lia|]. right. by exists (DoAck (ix me i) e).
Qed.

(** Every step keeps the books of its box. *)
Lemma bdo_booked me a (s : sys S) b s' b' :
  box_ok b → (pushed b <= int64_max)%Z → (done_by b <= int64_max)%Z → baction_ok s b a →
  bdo conv stater me a s b = Some (s', b') → booked s b s' b'.
Proof.
  intros Hb Hp Hd Hok Hx.
  destruct a as [j|j e cancelled|j|i e d|i e|i|i e|i e d|i e|i|i|e now cancelled|e];
    cbn [bdo baction_ok] in *; unfold mbind, option_bind in Hx.
  - destruct (bx_prods b !! j) as [[r|r|r|]|] eqn:Hj; try done.
    destruct (slide _ _ r) as [x r']. injection Hx as <- <-.
    destruct (prod_booked b j (Sliding r) (Pushing r') (bx_m b) x Hb Hj eq_refl ltac:(lia)) as (Hb1 & Hb2 & Hb3).
    apply booked_still; [exact Hb1| |exact Hb2]. etrans; [exact Hb3|]. cbn [waiting]. lia.
  - destruct (bx_prods b !! j) as [[r|r|r|]|] eqn:Hj; try done.
    destruct (choose _ _ r) as [[[idx cost] r']|err|] eqn:Hc; try done.
    destruct (exec1 _ _) as [s1|] eqn:He; [|done]. injection Hx as <- <-.
    destruct Hok as [Henv Hok]. destruct (Hok _ _ _ _ eq_refl Hc) as [Hk Hco].
    by eapply push_booked.
  - destruct (bx_prods b !! j) as [[r|r|r|]|] eqn:Hj; try done. injection Hx as <- <-.
    by apply count_booked.
  - destruct (bcall _ _ s b) as [s1|] eqn:Hc; [|done]. injection Hx as <- <-.
    apply bcall_exec1 in Hc as [Hi Hc]. destruct Hok.
    destruct (todo_booked b i [Worker.RecClaim d (bool_decide (is_Some (pcs s1 !! ix me i)))] [] Hb Hi)
      as (Hb1 & Hb2 & Hb3); [by repeat constructor|].
    refine (booked_quiet _ _ _ _ _ _ Hc _ Hb1 Hb2 _); [done|done|]. rewrite Hb3. cbn. lia.
  - destruct (bcall _ _ s b) as [s1|] eqn:Hc; [|done]. injection Hx as <- <-.
    apply bcall_exec1 in Hc as [_ Hc]. by refine (booked_quiet _ _ _ _ _ _ Hc _ _ _ _).
  - destruct (bcall _ _ s b) as [s1|] eqn:Hc; [|done]. injection Hx as <- <-.
    apply bcall_exec1 in Hc as [_ Hc]. by refine (booked_quiet _ _ _ _ _ _ Hc _ _ _ _).
  - destruct (bx_todo b !! i); [|done]. destruct (exec1 _ _) as [s1|] eqn:Hc; [|done].
    injection Hx as <- <-. by refine (booked_quiet _ _ _ _ _ _ Hc _ _ _ _).
  - destruct (bcall _ _ s b) as [s1|] eqn:Hc; [|done]. injection Hx as <- <-. by apply (ack_booked s b i me e).
  - destruct (bcall _ _ s b) as [s1|] eqn:Hc; [|done]. injection Hx as <- <-.
    apply bcall_exec1 in Hc as [_ Hc]. by refine (booked_quiet _ _ _ _ _ _ Hc _ _ _ _).
  - destruct (bx_todo b !! i) as [[|ev evs]|] eqn:Hi; try done. injection Hx as <- <-.
    by apply record_booked.
  - destruct (bcall _ _ s b) as [s1|] eqn:Hc; [|done]. injection Hx as <- <-.
    apply bcall_exec1 in Hc as [_ Hc]. by refine (booked_quiet _ _ _ _ _ _ Hc _ _ _ _).
  - destruct (reapLoopM _ _ _ _) as [[s1 x] lg] eqn:Hre. destruct (exec1 _ _) as [s2|] eqn:Hc.
    2:{ by destruct (bx_role b). }
    destruct (bx_role b); try done; injection Hx as <- <-;
      (refine (booked_quiet _ _ _ _ _ _ Hc _ _ _ _); [done|done| |done|done]);
      apply (box_ok_same b); try done; apply Hb.
  - destruct (second _ _ _ b) as [b1|] eqn:Hs; [|done]. injection Hx as <- <-.
    assert (counter b <= int64_max)%Z as Hc.
    { pose proof (waiting_nonneg (bx_prods b)). pose proof (rec_acks_nonneg _ (bo_todo _ Hb)).
      unfold counter, pushed, done_by in *. destruct (bx_role b); lia. }
    destruct (second_ok e s b b1 Hb Hc Hs) as (Hb1 & Hb2 & Hb3). by apply booked_still.
Qed.
End box_facts.

(** ** The books of a deployment *)

Section cluster_facts.
Context `{GoParse} {R : Type} `{Rand R} (conv : float → rfloat).
Context {S O : Type} `{Attached S O} (stater : option (Env → S → res Stats)).
Context (s0 : S) (boxes : list (box R O)).
Hypothesis Hinv : inv 0 ∅ s0.
Hypothesis Hempty : ∀ k, pending s0 k = [].
Hypothesis Hcap : (capacity S <= int64_max)%Z.
Hypothesis Hfresh : Forall (fresh_box conv) boxes.

Definition cstep (c c' : cluster R S O) : Prop :=
  ∃ me a b, cl_boxes c !! me = Some b ∧ baction_ok conv (seen_by b (cl_sys c)) b a ∧
    step_at conv stater me a c = Some c'.

Definition deployed : cluster R S O → Prop := rtc cstep (mkCluster (init s0) boxes).

Record cluster_ok (c : cluster R S O) : Prop := {
  co_ok : sys_ok (cl_sys c);
  co_calls : (0 <= calls (cl_sys c) ∧
    enq_total (log (cl_sys c)) <= calls (cl_sys c) <= Z.max 0 (capacity S))%Z;
  co_boxes : Forall (λ b, box_ok b ∧ own_ok (calls (cl_sys c)) (bx_own b)) (cl_boxes c);
  co_enq : sum_with pushed (cl_boxes c) = enq_total (log (cl_sys c));
  co_ack : sum_with done_by (cl_boxes c) = acked_total (log (cl_sys c));
}.

Lemma pushed_nonneg (b : box R O) : box_ok b → (0 <= pushed b)%Z.
Proof. intros [[He _] _ _ _ _]. pose proof (waiting_nonneg (bx_prods b)). unfold pushed. lia. Qed.

Lemma done_by_nonneg (b : box R O) : box_ok b → (0 <= done_by b)%Z.
Proof. intros [[_ Ha] Ht _ _ _]. pose proof (rec_acks_nonneg _ Ht). unfold done_by. lia. Qed.

Lemma start_cluster_ok : cluster_ok (mkCluster (init s0) boxes).
Proof.
  assert (Forall (λ b, (box_ok b ∧ pushed b = 0%Z ∧ done_by b = 0%Z) ∧ own_ok 0 (bx_own b)) boxes)
    as Hf.
  { eapply Forall_impl; [exact Hfresh|]. intros b Hb. split; [by eapply fresh_box_ok|].
    by destruct Hb as (be & c & Ho & [-> |[-> | ->]]). }
  split; cbn [cl_sys cl_boxes init log calls]; [by apply sys_ok_init|rewrite enq_total_nil; lia| | |].
  - eapply Forall_impl; [exact Hf|]. by intros b ((? & _) & ?).
  - apply sum_with_zero. eapply Forall_impl; [exact Hf|]. by intros b ((_ & ? & _) & _).
  - apply sum_with_zero. eapply Forall_impl; [exact Hf|]. by intros b ((_ & _ & ?) & _).
Qed.

(** what one process sees of a good system is good *)
Lemma seen_ok (b : box R O) (s : sys S) : sys_ok s → own_ok (calls s) (bx_own b) → sys_ok (seen_by b s).
Proof.
  intros Hs Ho. destruct (as_seen_view (toks s) (bx_own b) (st s)) as [Hp Hh].
  apply sys_ok_same; [done|by apply as_seen_inv, Ho; apply Hs|done| |].
  - intros c Hc. by rewrite Hh.
  - intros k. by rewrite as_seen_delivered.
Qed.

Lemma cstep_ok c c' : cluster_ok c → cstep c c' → cluster_ok c'.
Proof.
  intros [Hr Hc Hbs He Ha] (me & a & b & Hb & Hok & Hs). unfold step_at in Hs.
  rewrite Hb in Hs. cbn in Hs. destruct (bdo _ _ _ _ _ b) as [[s' b']|] eqn:Hd; [|done].
  injection Hs as <-.
  destruct (proj1 (Forall_lookup _ _) Hbs _ _ Hb) as [Hbok Hown].
  assert (Forall box_ok (cl_boxes c)) as Hbs' by (eapply Forall_impl; [exact Hbs|]; by intros x [? _]).
  pose proof (sum_with_le pushed _ _ _ (Forall_impl _ _ _ Hbs' pushed_nonneg) Hb) as Hle1.
  pose proof (sum_with_le done_by _ _ _ (Forall_impl _ _ _ Hbs' done_by_nonneg) Hb) as Hle2.
  pose proof (acked_le_enq (cl_sys c) Hr) as Hle3.
  pose proof (seen_ok b (cl_sys c) Hr Hown) as Hseen. set (sv := seen_by b (cl_sys c)) in *.
  destruct (bdo_booked conv stater me a sv b s' b' Hbok) as (Hb' & Hp & Hdn & Hx);
    [unfold int64_max in *; lia|unfold int64_max in *; lia|done|done|].
  assert (sys_ok s' ∧ log s' = log sv ++ news sv s' ∧
    (calls sv + enq_total (news sv s') <= calls s' <= Z.max (calls sv) (capacity S))%Z)
    as (Hr' & Hl & Hcalls).
  { destruct Hx as [->|(x & Hax & Hx)].
    - rewrite news_same, app_nil_r, enq_total_nil. split_and!; [done|done|lia..].
    - destruct (exec1_logs _ _ _ Hx) as (Hl & _ & Hcalls). split; [|done].
      eapply sys_ok_step; [exact Hseen|]. by eapply exec1_step. }
  change (calls sv) with (calls (cl_sys c)) in *. change (log sv) with (log (cl_sys c)) in *.
  assert (0 <= enq_total (news sv s'))%Z as Hpos.
  { apply sum_with_nonneg, Forall_true. intros []; lia. }
  split; cbn [cl_sys cl_boxes].
  - done.
  - rewrite Hl, enq_total_app. lia.
  - apply Forall_insert.
    + eapply Forall_impl; [exact Hbs|]. intros x [? ?]. split; [done|].
      eapply own_mono; [done|lia].
    + split; [|by eapply own_of_ok, Hr']. apply (box_ok_same b'); try done. apply Hb'.
  - rewrite (sum_with_insert _ _ _ _ _ Hb), Hl, enq_total_app.
    change (pushed (put_own (own_of (st s')) b')) with (pushed b'). lia.
  - rewrite (sum_with_insert _ _ _ _ _ Hb), Hl, acked_total_app.
    change (done_by (put_own (own_of (st s')) b')) with (done_by b'). lia.
Qed.

Lemma deployed_ok c : deployed c → cluster_ok c.
Proof.
  intros Hd. assert (cluster_ok (mkCluster (init s0) boxes)) as Hs by apply start_cluster_ok.
  revert Hs. unfold deployed in Hd. induction Hd as [|x y z Hxy _ IH]; [done|].
  intros Hx. apply IH. by eapply cstep_ok.
Qed.

(** C30: The boxes' logs account for the whole deployment (runWorker, runLoadgen, runReaper,
    everySecond).  Any number of worker, producer and reaper boxes, each a process with a
    backend object of its own, run over one queue that answers, in any interleaving and
    stopped at any point between two calls.  In each box the rates printed add up to the total on its last line, which is
    never above the counter it was read from; and over all the boxes, the tasks counted as
    enqueued, or about to be, are exactly those recorded as acknowledged, or about to be,
    and those the queue still has pending. *)
Theorem boxes_account_for_every_task (c : cluster R S O) (ks : list WorkUnitKey) :
  deployed c → NoDup ks → (∀ k, k ∈ units (log (cl_sys c)) → k ∈ ks) →
  sum_with pushed (cl_boxes c) =
    (sum_with done_by (cl_boxes c) +
     sum_with (λ k, Z.of_nat (length (pending (st (cl_sys c)) k))) ks)%Z ∧
  ∀ me b, cl_boxes c !! me = Some b →
    sum_with rate (bx_lines b) = default 0%Z (total <$> last (bx_lines b)) ∧
    (0 <= default 0 (total <$> last (bx_lines b)) <= counter b)%Z.
Proof.
  intros Hd Hks Hin. destruct (deployed_ok c Hd) as [Hr _ Hbs He Ha]. split.
  - rewrite He, Ha. by apply totals_balance.
  - intros me b Hb. destruct (proj1 (Forall_lookup _ _) Hbs _ _ Hb) as [[_ _ Hl Hrt Hto] _].
    rewrite Hto. by split.
Qed.

(** every step of a run shows the backend a well-behaved environment *)
Fixpoint deploy_ok (acts : list (nat * baction)) (c : cluster R S O) : Prop :=
  match acts with
  | [] => True
  | (me, a) :: acts =>
      match cl_boxes c !! me with
      | Some b => baction_ok conv (seen_by b (cl_sys c)) b a
      | None => True
      end ∧ match step_at conv stater me a c with Some c' => deploy_ok acts c' | None => True end
  end.

Lemma deploy_deployed acts c c' :
  deploy_ok acts c → deployed c → deploy conv stater acts c = Some c' → deployed c'.
Proof.
  revert c. induction acts as [|[me a] acts IH]; intros c Hok Hd Hx; cbn [deploy] in Hx;
    [by injection Hx as <-|].
  cbn [deploy_ok] in Hok. destruct Hok as [Ha Hok]. unfold mbind, option_bind in Hx.
  destruct (step_at conv stater me a c) as [c1|] eqn:Hs; [|done].
  eapply IH; [exact Hok| |exact Hx]. eapply rtc_r; [exact Hd|].
  destruct (cl_boxes c !! me) as [b|] eqn:Hb.
  - by exists me, a, b.
  - unfold step_at, mbind, option_bind in Hs. by rewrite Hb in Hs.
Qed.
End cluster_facts.

(** ** Postgres: an object per process *)

(** The fields of the driver that a process has of its own: options, cache, turn. *)
Record pg_own := mkOwn {
  ow_maxTries : Z;
  ow_defT : Z;
  ow_defWait : duration;
  ow_cache : gmap string (Z * duration);
  ow_rr : Z;
}.

#[local] Existing Instances Postgres.Postgres_Backend PostgresFacts.pg_View
  PostgresFacts.Postgres_Strict.

Section postgres.
Context `{Postgres.PgService}.

#[export] Instance Postgres_Attached : Attached Postgres.Backend pg_own.
Proof.
  refine {|
    own_of b := mkOwn (Postgres.maxTries b) (Postgres.defT b) (Postgres.defWait b)
      (Postgres.cache b) (Postgres.rr b);
    as_seen o b := Postgres.mkBackend (Postgres.shards b) (ow_maxTries o) (ow_defT o)
      (ow_defWait o) (ow_cache o) (ow_rr o);
    own_ok n o := (0 < ow_defT o)%Z ∧ (∀ ws t m, ow_cache o !! ws = Some (t, m) → (0 < t)%Z) ∧
      (0 <= ow_rr o <= n)%Z |}.
  - intros n n' o (? & ? & ?) Hn. split_and!; [done|done|lia..].
  - intros n h s Hs. split_and!; apply Hs.
  - intros n h o s [] (? & ? & ?). by split.
  - by intros h o s.
  - by intros o s k.
Defined.

(** a step of a deployment over Postgres is well-behaved on a network that answers, for a
    new uuid *)
Definition baction_env (a : baction) : option Env :=
  match a with
  | BPush _ e _ | BClaim _ e _ | BDrain _ e | BBeat _ e | BAck _ e _ | BRelease _ e
  | BReap e _ _ => Some e
  | _ => None
  end.

Definition bfresh (h : gset LeaseToken) (a : baction) : bool :=
  match a with
  | BClaim _ e _ =>
      bool_decide (env_uuid e ∉ h) && bool_decide (Postgres.uuid_in (env_uuid e) = Some (env_uuid e))
  | _ => true
  end.

Context `{GoParse} {R : Type} `{Rand R} (conv : float → rfloat).
Context (stater : option (Env → Postgres.Backend → res Stats)).

Fixpoint all_fresh (acts : list (nat * baction)) (c : cluster R Postgres.Backend pg_own) : bool :=
  match acts with
  | [] => true
  | (me, a) :: acts =>
      bfresh (toks (cl_sys c)) a &&
      match step_at conv stater me a c with Some c' => all_fresh acts c' | None => true end
  end.

Lemma all_fresh_ok acts c :
  Forall (λ a, ∀ e, baction_env a.2 = Some e → quiet e) acts →
  all_fresh acts c = true → deploy_ok conv stater acts c.
Proof.
  intros Hq. revert c. induction Hq as [|[me a] acts Ha _ IH]; intros c Hf; [done|].
  cbn [all_fresh deploy_ok] in *. apply andb_true_iff in Hf as [Hfa Hf]. split.
  - destruct (cl_boxes c !! me) as [b|]; [|done].
    destruct a; try done; cbn [baction_ok bfresh] in *; try (by apply (Ha _ eq_refl)).
    + split; [by apply (Ha _ eq_refl)|]. by intros.
    + apply andb_true_iff in Hfa as [Hf1 Hf2]. apply bool_decide_eq_true in Hf1, Hf2.
      split; [by apply (Ha _ eq_refl)|by split].
  - destruct (step_at _ _ _ _ c); [by apply IH|done].
Qed.
End postgres.

(** ** A producer box and a worker box over two primaries *)

#[local] Existing Instances demo_parse demo_rand PostgresProps.demo_service.

Definition box_cfg : Config :=
  mkCfg "postgres" 1 (3 * Second) 8 500 Second 5 1 2 (Worker.mkProcess "zero" 0 0) "" 2 ""
    7 8 9 (-3) 1 5 6 77 "1.5" "0.1" 10 50 "/tmp/r" true 11 false.

(** The boxes' backend objects differ in their thresholds and in their turns. *)
Definition demo_boxes : list (box Z pg_own) :=
  [runLoadgen demo_conv (mkOwn 2 1 Second ∅ 0) box_cfg; runWorker (mkOwn 3 500 Second ∅ 0) box_cfg].

Definition box_env (u : string) : Env := PostgresProps.pg_env Second u.

Definition demo_deploy : list (nat * baction) :=
  let e := box_env "u0" in
  [(0, BSlide 0); (0, BPush 0 e false); (0, BCount 0); (0, BSecond e); (0, BSlide 0);
   (0, BPush 0 e false); (1, BClaim 0 (box_env "u1") 70000); (1, BRecord 0); (1, BDrain 0 e);
   (1, BBeat 0 e); (1, BProcess 0); (1, BAck 0 e (3 * Millisecond)); (1, BRecord 0);
   (1, BRecord 0); (1, BSecond e); (1, BReap e (2 * Second) false); (1, BSecond e)].

Definition demo_cluster0 : cluster Z Postgres.Backend pg_own :=
  mkCluster (init (PostgresProps.pg_two 1)) demo_boxes.
Definition demo_cluster : cluster Z Postgres.Backend pg_own :=
  default demo_cluster0 (deploy demo_conv None demo_deploy demo_cluster0).

Lemma demo_deployed : deployed demo_conv None (PostgresProps.pg_two 1) demo_boxes demo_cluster.
Proof.
  apply (deploy_deployed demo_conv None _ demo_boxes demo_deploy demo_cluster0).
  - apply all_fresh_ok; [|vm_compute; reflexivity].
    repeat (apply Forall_cons_2; [intros e He; by simplify_eq/=|]). apply Forall_nil_2.
  - apply rtc_refl.
  - unfold demo_cluster. assert (match deploy demo_conv None demo_deploy demo_cluster0 with
      Some _ => true | None => false end = true) as Hx by (vm_compute; reflexivity).
    by destruct (deploy demo_conv None demo_deploy demo_cluster0).
Qed.

(** Two tasks enqueued, one of them counted; one is processed, acknowledged and recorded. *)
Lemma boxes_account_for_every_task_witness :
  (bx_lines <$> cl_boxes demo_cluster) =
    [[LoadgenLine 1 1]; [WorkerLine 1 1 (-1) 50000; WorkerLine 0 1 (-1) 50000]] ∧
  sum_with pushed (cl_boxes demo_cluster) = 2%Z ∧
  sum_with pushed (cl_boxes demo_cluster) =
    (sum_with done_by (cl_boxes demo_cluster) +
     sum_with (λ k, Z.of_nat (length (pending (st (cl_sys demo_cluster)) k)))
       (units (log (cl_sys demo_cluster))))%Z.
Proof.
  split; [vm_compute; reflexivity|]. split; [vm_compute; reflexivity|].
  assert (Forall (fresh_box demo_conv) demo_boxes) as Hf.
  { apply Forall_cons_2; [eexists _, box_cfg; split; [|right; by left]|].
    { split_and!; [done|done|done|done]. }
    apply Forall_cons_2; [eexists _, box_cfg; split; [|by left]|apply Forall_nil_2].
    split_and!; [done|done|done|done]. }
  destruct (PostgresProps.New_ok (PostgresProps.pg_opts 1) ∅ (PostgresProps.pg_two 1) eq_refl
    eq_refl eq_refl) as [Hok Hp]; [done|].
  assert (capacity Postgres.Backend <= int64_max)%Z as Hcap by (vm_compute; congruence).
  exact (proj1 (boxes_account_for_every_task demo_conv None (PostgresProps.pg_two 1) demo_boxes Hok
    Hp Hcap Hf demo_cluster (units (log (cl_sys demo_cluster)))
    demo_deployed (NoDup_remove_dups _) (λ k Hk, Hk))).
Defined.
